(* ===== verification/_CoqProject ===== *)
-Q . S2P
Prelude.v
Heapless.v
Protocol.v
Serde.v
HashMap.v
Log.v
LogFacts.v
StateMachine.v
StoreProps.v
Config.v
Env.v
LogProps.v
Node.v
NodeFacts.v
Network.v
Sample.v
NetworkProps.v
Daemon.v
Histories.v
Timers.v
Tasks.v
TasksFacts.v
Locks.v
LocksProps.v
Ipc.v
Cli.v
Json.v
Typing.v
Deliverable.v
Votes.v
TasksVotes.v
Rounds.v
Follower.v
Leader.v
Election.v
Invariant.v
IpcProps.v
CliProps.v
Replication.v
ElectionProps.v
TimersProps.v
Members.v
Cluster.v
Parallel.v
Wire.v
Scenarios.v
Races.v
ClusterProps.v
ParallelProps.v
WireFacts.v
WireSends.v
WireSim.v
Copies.v
Matching.v
Effects.v
Reigns.v
Safety.v
SafeRounds.v
SafetyProps.v
Faults.v
Durable.v
Progress.v
WireProps.v
Server.v
ServerFacts.v
ServerProps.v
Ebpf.v
EbpfProps.v
Loader.v
LoaderProps.v
SharedState.v
Tests.v
SharedTests.v
