(* ===== verification/Prelude.v ===== *)
(** * Raft over eBPF: verification development

    The repository is a key-value store replicated by Raft.  A daemon ([raft/]) keeps a log
    and a store, talks to its peers over TCP and to a command line client ([raft-cli/]) over
    a Unix socket; a classifier attached to the network interface ([raft-ebpf/]) counts the
    packets of the Raft port; the types they share are in [raft-common/].  The development
    translates all four into executable definitions, and proves what makes each part
    correct, or where it fails.

    ** The parts and the files

    - Machine integers, outcomes, the state monad and its lemmas: this file.  An outcome is
      a value, an error passed on by [?], a block (an await that never completes), a panic or
      exhausted fuel.  A [u64] is an [N] below [2^64], and [u64_add] wraps as a release build.
      [steps_in] relates the states before and after a program, [yields] is its partial
      correctness.
    - [raft-common/src/protocol.rs], [state.rs], [lib.rs]: Protocol.v.  The heapless
      containers, a crate, are the class of Heapless.v; what they refuse (a string that does
      not fit is dropped whole) is one of its laws.
    - serde_json: Serde.v (the files), Network.v (messages), Ipc.v (requests) and Json.v (the
      values a client reads).  The laws say that what was written is read back, that a compact
      document has one line, and that no proper prefix of a document is one; they are
      discharged for a reference format.
    - [std::collections::HashMap]: a [gmap], iterated in an unspecified order (HashMap.v).
      Env.v gathers these interfaces and the tokio mutex in one class, with its laws and a
      reference instance in which every witness and every run is evaluated.
    - [raft/src/log.rs]: Log.v.  The files of the data directory are part of the state, and
      each file operation takes its fate from a list, so that the operations can fail
      midway.  LogFacts.v has the abstract view (a list of entries, [log_repr]) and the
      relation with the files ([synced]); LogProps.v states the refinement and the recovery.
    - [raft/src/state_machine.rs]: StateMachine.v; StoreProps.v.
    - [raft/src/config.rs]: Config.v, over an abstract TOML parser.
    - [raft/src/node.rs]: Node.v, one definition per method of [RaftNode].  NodeFacts.v has
      the lemmas on its programs; Typing.v shows that the values keep to their capacities;
      Votes.v follows the votes; Rounds.v has what holds whatever the files do; Follower.v,
      Leader.v and Election.v have the functional behaviour of the handlers; Replication.v and
      ElectionProps.v their properties.
    - The locks of [raft/src/node.rs]: Locks.v reduces every method to the locks it takes and
      releases, and interleaves tasks at each of these operations; LocksProps.v.
    - The awaits of [raft/src/node.rs]: Tasks.v cuts every method into the sections between two
      awaits and interleaves the tasks of a daemon; TasksFacts.v shows that the sections of a
      round, one after the other, are the round of Node.v; TasksVotes.v follows the votes through
      every interleaving.  Parallel.v has the daemons of a cluster with their tasks,
      ParallelProps.v election safety for them, and Races.v the runs in which a task is overtaken.
    - [raft/src/main.rs]: Daemon.v.  A run of a daemon is a sequence of rounds of its tasks
      ([event], [run_event]), of the passing of time, and of restarts on the files it left
      ([node_step], [node_reachable]).  Invariant.v: the invariant [node_ok] and the rounds
      that keep it; Effects.v has it along the runs, refused requests included.
      Timers.v has the loops of the two timer tasks, with their sleeps and their ends;
      TimersProps.v.
    - Several daemons: Cluster.v, with the messages in flight between them, delivered, lost
      or delayed; Sample.v has nodes to start from, Scenarios.v schedules and the runs
      that show where the guarantees fail; Faults.v has those that leave the conditions of the
      safety theorems by one action.
      Members.v and Copies.v say what a round does to the role, the term, the log and the
      messages of a node; ClusterProps.v and Matching.v carry that through the runs of a
      cluster, with the histories of the nodes as ghost state.
    - The protocol: Effects.v reduces a round to what the other nodes can depend on, eight
      kinds of step.  On top of it Reigns.v has the facts on logs (a log is made of prefixes
      of the logs of past leaders), Safety.v the invariant, with the log of each leader, the
      log of each candidacy and the chosen prefixes as ghost state, SafeRounds.v its
      preservation step by step, and SafetyProps.v the runs and the theorems.  Durable.v
      follows the request of a client and its answer through such a run, and Progress.v builds
      the run that serves a request.
    - [raft/src/network.rs]: Network.v; NetworkProps.v; Deliverable.v bounds the
      JSON of the messages a daemon sends.
    - [main] and [NetworkManager::run], for all the daemons of a cluster: Wire.v, with the
      processes and how they start and end, the queue of each, its pool of connections, the
      bytes written to each stream and the tasks that read them.  WireFacts.v follows every
      message from the queue to its handling (Histories.v: what was sent is never taken
      back), WireSends.v the network task, WireSim.v proves the simulation of Cluster.v by
      the wire, WireProps.v states it and carries the safety of the cluster over.
    - [raft/src/ipc.rs]: Ipc.v, the handler and the loop of a connection; IpcProps.v.
      Server.v is [IpcServer::run] beside the tasks of Wire.v, for all the daemons: sockets, a
      task per connection that reads, proposes, waits and answers.  ServerFacts.v reduces a
      step of it to a step of the wire, ServerProps.v states what a client may believe.
    - [raft-cli/]: Cli.v, every subcommand from its parsed arguments to the lines it prints;
      CliProps.v, with the daemons of Ipc.v behind the sockets ([serve]).
    - [raft-ebpf/src/main.rs] and [raft-common/src/maps.rs]: Ebpf.v; EbpfProps.v.  The packet
      headers, the kernel's maps and the ring buffer are the class [Kernel].
    - [raft/src/ebpf.rs]: Loader.v, over the object files of the aya crate; LoaderProps.v.
    - The types that only tests use ([VolatileState], [LeaderState], [ClusterConfig]) and
      [NodeCommand]: SharedState.v.
    - The unit tests: Tests.v has those of the store, of the log, of the configuration, of the
      printing of times and of the layout of the map structs, SharedTests.v the others.

    ** What the theorems show

    - The cluster, for two or three nodes, in runs that avoid the faults below:
      [one_leader_per_term], election safety; [logs_match], Log Matching; [leader_complete],
      that later leaders have what was committed; [committed_agree], state machine safety,
      and [stores_agree], its consequence for the stores.  The first two ask that no vote of
      an earlier term is counted; the others also that an acknowledgement comes from a node in
      the term of the leader and is true of its log ([true_ack]), and that a follower does not
      commit entries of its own that were not compared ([uncut]).
    - The client of that cluster: [acknowledged_write_survives], that a write whose success was
      answered is in the log of every later leader; [client_write_survives], the same from the
      bytes of the socket, for the client that reads the answer; [request_can_be_served], that
      two nodes with the same log can serve a request from any state, and [silence_is_noticed],
      that a follower which hears nothing stands for election.
    - The protocol step of each round: [rounds_are_steps].
    - The wire: [wire_refines_cluster], that the daemons with their sockets implement the
      cluster, whatever breaks; [wire_committed_agree], state machine safety at that level;
      [boot_registers_peers], the start of a process.
    - Votes: [vote_once], one vote per term, across crashes in the middle of a round and
      failing files; [vote_request_answered], [election_started] and [granted_vote_counted],
      the handlers of an election on every branch; [terms_never_decrease].
    - Tasks: [interleaved_vote_once], one vote per term in every interleaving in which no task
      that steps down is overtaken, and [interleaved_one_leader], election safety of the cluster,
      if no task that takes the lead is overtaken either.
    - Replication: [append_entries_accepted], the whole effect of an accepted request;
      [heartbeat_replicates], Log Matching for one message; [proposal_appended],
      [heartbeats_sent] and [leader_counts_acknowledgement], the leader's side.
    - The node as a whole: [daemon_in_order], [rounds_complete], [restart_recovers];
      [ordered_tasks_finish], that the tasks do not block each other.
    - The log and the store: [log_history_recovered], [log_file_roundtrip],
      [store_applies_once], [messages_newest_first] and [snapshot_roundtrip].
    - The network and the IPC server: [frame_roundtrip], [sent_is_handled],
      [sent_messages_arrive], [oversized_frame_closes], [get_returns_last_put], [proposal_redirected],
      [sent_message_listed] and [every_line_answered].
    - The client: [put_reports_outcome], [get_prints_last_put], [watch_shows_each_once] and
      [chrono_lite_of_day].
    - The classifier and its loader: [classifier_never_drops], [counters_exact] and
      [peer_state_counted].
    - What does not hold: a refused request deadlocks the node ([refused_append_deadlocks]),
      and a status request can ([status_deadlocks]); a candidate counts itself twice
      ([self_vote_counted_twice]) and counts stale votes ([stale_vote_two_leaders]); a
      follower acknowledges entries that were not compared ([acknowledged_write_lost]), and
      applies them ([uncompared_entry_applied]); stores diverge ([stores_diverge]); a client
      is told of the success of an entry that was replaced
      ([superseded_request_told_success]); a task that is overtaken appends an entry
      ([raced_proposal_diverges]), sends a heartbeat ([raced_heartbeat_of_follower]), takes
      the lead ([raced_victory_two_leaders]) or goes back in the terms
      ([raced_step_down_votes_twice]); a cluster of one never commits
      ([local_rounds_never_commit]); a node whose timeouts are in the wrong order never stands
      for election ([inverted_timeouts_never_elect]); a failed save leaves a leader in place
      ([failed_save_keeps_role]); connections are never replaced ([dead_connection_kept]),
      joined peers never reached ([unregistered_peer_dropped]), the events of the classifier
      never read ([full_ring_stays_full]), long keys are confused ([long_keys_collide]), and
      so are messages of the same millisecond ([same_millisecond_overwrites]).

    ** Fuel

    [apply_loop] runs on fuel [commit_index - last_applied], the number of its turns;
    [process_frames] on the length of the buffer, of which every turn removes four bytes at
    least; [utf8_lossy] on the length of the bytes.  [rounds_complete] and [sent_is_handled]
    show, among others, that the fuel is never the outcome.  The loop of [watch] has no end:
    [watch_loop] makes one turn per element of the list of its sleeps, and its theorem holds
    for every such list.

    ** What is not modelled

    In Node.v a handler is one step, and the theorems on clusters and on the wire are about
    these steps. Tasks.v interleaves the handlers at the places where they hold no lock of
    the log, and of the theorems on clusters election safety is proved at that level too; the
    interleaving of two sections is in Locks.v for the locks alone. The bound
    (1024) of the queue of outgoing messages is left out. A completed write is on the disk:
    the code never calls fsync, and a loss of power is not modelled, only a crash of the
    process. On the wire a stream whose write has failed takes nothing more, as TCP has it,
    and a frame fits the four bytes of its length, as [sent_messages_arrive] has it. The parsing of arguments and logging are
    left out. *)

From stdpp Require Export base tactics numbers gmap strings list list_numbers fin_maps.
From Stdlib Require Export NArith Lia Ascii.

#[export] Set Default Goal Selector "!".

Declare Scope raft_scope.
Delimit Scope raft_scope with raft.

(** ** Machine integers: [u64] as [N], with the wrap-around of release builds *)

Definition u64_max : N := 18446744073709551615.

(** [x + y] on [u64] in a release build. *)
Definition u64_add (x y : N) : N := ((x + y) `mod` (u64_max + 1))%N.

(** [x.saturating_sub(y)] on an unsigned integer. *)
Definition u64_saturating_sub (x y : N) : N := (x - y)%N.

Lemma u64_add_small (x y : N) : (x + y <= u64_max)%N -> u64_add x y = (x + y)%N.
Proof. intros H. unfold u64_add. apply N.mod_small. lia. Qed.

Lemma u64_add_bounded (x y : N) : (u64_add x y <= u64_max)%N.
Proof.
  unfold u64_add. pose proof (N.mod_lt (x + y) (u64_max + 1)) as Hlt.
  unfold u64_max in *. lia.
Qed.

(** ** Outcomes of fallible, possibly blocking code *)

(** The [anyhow::Error] values the code creates or forwards. *)
Inductive error :=
  | IoError
  | SerdeError
  | Bail (msg : string).

#[global] Instance error_eq_dec : EqDecision error.
Proof. solve_decision. Defined.

(** What running a piece of code comes to: a value, an [Err] propagated by [?],
    an await that never completes, a panic, or a loop cut short by its fuel. *)
Inductive outcome (A : Type) :=
  | Ok (a : A)
  | Err (e : error)
  | Blocked
  | Panicked
  | OutOfFuel.
Arguments Ok {A} _.
Arguments Err {A} _.
Arguments Blocked {A}.
Arguments Panicked {A}.
Arguments OutOfFuel {A}.

(** ** A state monad with outcomes *)

Definition M (S A : Type) : Type := S -> outcome A * S.

Definition ret {S A} (a : A) : M S A := fun s => (Ok a, s).

Definition bind {S A B} (m : M S A) (k : A -> M S B) : M S B := fun s =>
  match m s with
  | (Ok a, s') => k a s'
  | (Err e, s') => (Err e, s')
  | (Blocked, s') => (Blocked, s')
  | (Panicked, s') => (Panicked, s')
  | (OutOfFuel, s') => (OutOfFuel, s')
  end.

Definition fail {S A} (e : error) : M S A := fun s => (Err e, s).
Definition block {S A} : M S A := fun s => (Blocked, s).
Definition panic {S A} : M S A := fun s => (Panicked, s).
Definition diverge {S A} : M S A := fun s => (OutOfFuel, s).
Definition gets {S A} (f : S -> A) : M S A := fun s => (Ok (f s), s).
Definition modify {S} (f : S -> S) : M S unit := fun s => (Ok tt, f s).

Notation "x <- e1 ;; e2" := (bind e1 (fun x => e2))
  (at level 100, e1 at next level, right associativity) : raft_scope.
Notation "e1 ;;; e2" := (bind e1 (fun _ => e2))
  (at level 100, right associativity) : raft_scope.
Bind Scope raft_scope with M.

(** [for x in l { f(x)?; }] *)
Fixpoint for_each {S A} (l : list A) (f : A -> M S unit) : M S unit :=
  match l with
  | [] => ret tt
  | x :: l' => (f x ;;; for_each l' f)%raft
  end.

(** [if c { m }] *)
Definition when {S} (c : bool) (m : M S unit) : M S unit := if c then m else ret tt.

(** [if let Some(x) = o { k(x) }] *)
Definition if_some {S A} (o : option A) (k : A -> M S unit) : M S unit :=
  match o with Some a => k a | None => ret tt end.

(** [if let Err(e) = m { warn!(..) }]: the error is logged, and the code goes on. *)
Definition log_error {S} (m : M S unit) : M S unit := fun s =>
  match m s with
  | (Err _, s') => (Ok tt, s')
  | r => r
  end.

(** [match m { Ok(a) => .., Err(e) => .. }] *)
Definition attempt {S A} (m : M S A) : M S (A + error) := fun s =>
  match m s with
  | (Ok a, s') => (Ok (inl a), s')
  | (Err e, s') => (Ok (inr e), s')
  | (Blocked, s') => (Blocked, s')
  | (Panicked, s') => (Panicked, s')
  | (OutOfFuel, s') => (OutOfFuel, s')
  end.

(** [opt?] and [res?] for a library call that may fail. *)
Definition from_result {S A} (e : error) (o : option A) : M S A :=
  match o with Some a => ret a | None => fail e end.

(** Running code on a field of a larger state. *)
Definition zoom {S T A} (get : S -> T) (put : T -> S -> S) (m : M T A) : M S A := fun s =>
  let '(o, t) := m (get s) in (o, put t s).

(** ** Equations of the monad, and the tactics that use them *)

Section monad_laws.
Context {S A B C : Type}.

Lemma bind_ret (a : A) (k : A -> M S B) s : bind (ret a) k s = k a s.
Proof. reflexivity. Qed.

Lemma bind_gets (f : S -> A) (k : A -> M S B) s : bind (gets f) k s = k (f s) s.
Proof. reflexivity. Qed.

Lemma bind_modify (f : S -> S) (k : unit -> M S B) s : bind (modify f) k s = k tt (f s).
Proof. reflexivity. Qed.

Lemma bind_from_Some e (a : A) (k : A -> M S B) s : bind (from_result e (Some a)) k s = k a s.
Proof. reflexivity. Qed.

Lemma bind_assoc (m : M S A) (f : A -> M S B) (g : B -> M S C) s :
  bind (bind m f) g s = bind m (fun a => bind (f a) g) s.
Proof. unfold bind. by destruct (m s) as [[] ?]. Qed.

Lemma bind_Ok_inv (m : M S A) (k : A -> M S B) s b s' :
  bind m k s = (Ok b, s') -> exists a s1, m s = (Ok a, s1) /\ k a s1 = (Ok b, s').
Proof. unfold bind. destruct (m s) as [[] s1]; intros; naive_solver. Qed.

Lemma bind_run (m : M S A) (k : A -> M S B) s a s1 :
  m s = (Ok a, s1) -> bind m k s = k a s1.
Proof. unfold bind. by intros ->. Qed.

Lemma bind_run_err (m : M S A) (k : A -> M S B) s e s1 :
  m s = (Err e, s1) -> bind m k s = (Err e, s1).
Proof. unfold bind. by intros ->. Qed.

Lemma bind_ext (m : M S A) (k k' : A -> M S B) s :
  (forall a s', k a s' = k' a s') -> bind m k s = bind m k' s.
Proof. intros Hk. unfold bind. by destruct (m s) as [[] ?]. Qed.

Lemma bind_run_blocked (m : M S A) (k : A -> M S B) s s1 :
  m s = (Blocked, s1) -> bind m k s = (Blocked, s1).
Proof. unfold bind. by intros ->. Qed.
End monad_laws.

Lemma for_each_app {S A} (l1 l2 : list A) (f : A -> M S unit) s :
  for_each (l1 ++ l2) f s = bind (for_each l1 f) (fun _ => for_each l2 f) s.
Proof.
  revert s. induction l1 as [|x l1 IH]; intros s; simpl; [by rewrite bind_ret|].
  rewrite bind_assoc. by apply bind_ext.
Qed.

Lemma for_each_fmap {S A B} (g : A -> B) (l : list A) (f : B -> M S unit) s :
  for_each (g <$> l) f s = for_each l (fun x => f (g x)) s.
Proof. revert s. induction l as [|x l IH]; intros s; [done|]. simpl. by apply bind_ext. Qed.

Lemma for_each_ext {S A} (l : list A) (f g : A -> M S unit) s :
  (forall x, x ∈ l -> forall s, f x s = g x s) -> for_each l f s = for_each l g s.
Proof.
  revert s. induction l as [|x l IH]; intros s Hfg; [done|]. simpl.
  rewrite (bind_ext _ _ (fun _ => for_each l g)) by (intros _ s'; apply IH; intros; apply Hfg; by right).
  unfold bind. by rewrite Hfg by (by left).
Qed.

(** A relation between the states before and after holds of a whole program as
    soon as it holds of its parts. *)
Definition steps_in {S A} (R : S -> S -> Prop) (m : M S A) : Prop := forall s, R s (m s).2.

Section steps_in.
Context {S : Type} (R : S -> S -> Prop) `{!PreOrder R}.

Lemma steps_in_pure {A} (o : outcome A) : steps_in R (fun s => (o, s)).
Proof. intros s. simpl. reflexivity. Qed.

Lemma steps_in_ret {A} (a : A) : steps_in R (ret a).
Proof. apply steps_in_pure. Qed.

Lemma steps_in_fail {A} e : steps_in R (@fail S A e).
Proof. apply steps_in_pure. Qed.

Lemma steps_in_panic {A} : steps_in R (@panic S A).
Proof. apply steps_in_pure. Qed.

Lemma steps_in_diverge {A} : steps_in R (@diverge S A).
Proof. apply steps_in_pure. Qed.

Lemma steps_in_gets {A} (f : S -> A) : steps_in R (gets f).
Proof. intros s. simpl. reflexivity. Qed.

Lemma steps_in_modify (f : S -> S) : (forall s, R s (f s)) -> steps_in R (modify f).
Proof. intros Hf s. apply Hf. Qed.

Lemma steps_in_bind {A B} (m : M S A) (k : A -> M S B) :
  steps_in R m -> (forall a, steps_in R (k a)) -> steps_in R (bind m k).
Proof.
  intros Hm Hk s. unfold bind. specialize (Hm s).
  destruct (m s) as [[a| | | |] s1]; simpl in *; try done.
  etransitivity; [done|]. apply Hk.
Qed.

Lemma steps_in_when (c : bool) (m : M S unit) : steps_in R m -> steps_in R (when c m).
Proof. destruct c; [done|]. intros _. apply steps_in_ret. Qed.

Lemma steps_in_for_each {A} (l : list A) (f : A -> M S unit) :
  (forall a, steps_in R (f a)) -> steps_in R (for_each l f).
Proof. intros Hf. induction l; simpl; [apply steps_in_ret|by apply steps_in_bind]. Qed.

Lemma steps_in_for_each_in {A} (l : list A) (f : A -> M S unit) :
  (forall a, a ∈ l -> steps_in R (f a)) -> steps_in R (for_each l f).
Proof.
  intros Hf. induction l as [|a l IH]; simpl; [apply steps_in_ret|].
  apply steps_in_bind; [apply Hf; by left|]. intros _. apply IH. intros b Hb. apply Hf. by right.
Qed.

Lemma steps_in_from_result {A} e (o : option A) : steps_in R (from_result e o).
Proof. destruct o; apply steps_in_pure. Qed.

Lemma steps_in_zoom {T A} (get : S -> T) (put : T -> S -> S) (m : M T A) (Q : T -> T -> Prop) :
  steps_in Q m -> (forall s t, Q (get s) t -> R s (put t s)) -> steps_in R (zoom get put m).
Proof.
  intros Hm Hput s. unfold zoom. specialize (Hm (get s)).
  destruct (m (get s)) as [o t]. by apply Hput.
Qed.
End steps_in.

Create HintDb raft.
Create HintDb typed.
#[export] Hint Resolve steps_in_pure steps_in_ret steps_in_fail steps_in_panic steps_in_diverge
  steps_in_gets steps_in_modify steps_in_bind steps_in_when steps_in_for_each
  steps_in_from_result : raft.
#[export] Hint Extern 1 (PreOrder _) => apply _ : raft.

Lemma steps_in_tail {S A} (R : S -> S -> Prop) (m : M S A) s o s' :
  steps_in R m -> m s = (o, s') -> R s s'.
Proof. intros Hm Hrun. specialize (Hm s). by rewrite Hrun in Hm. Qed.

(** Reduce [steps_in R m] to the state changes of [m] that no hint covers. *)
Ltac run_steps :=
  repeat first
    [ solve [auto with raft]
    | simple apply steps_in_bind; [apply _| |intros]
    | simple apply steps_in_modify; intros
    | lazymatch goal with |- steps_in _ _ => case_match end ].

(** The relation "the invariant [I] is preserved". *)
Definition keeps {S} (I : S -> Prop) (s s' : S) : Prop := I s -> I s'.

#[export] Instance keeps_preorder {S} (I : S -> Prop) : PreOrder (keeps I).
Proof. unfold keeps. split; red; auto. Qed.

Lemma steps_in_mono {S A} (R R' : S -> S -> Prop) (m : M S A) :
  (forall s s', R s s' -> R' s s') -> steps_in R m -> steps_in R' m.
Proof. intros HR Hm s. apply HR, Hm. Qed.

(** An invariant at one state, through a sequence whose rest keeps it. *)
Lemma keeps_bind_at {S A B} (I : S -> Prop) (m : M S A) (k : A -> M S B) s :
  I (m s).2 -> (forall a, steps_in (keeps I) (k a)) -> I (bind m k s).2.
Proof.
  intros Hm Hk. unfold bind. destruct (m s) as [[a| | | |] s1]; try done. by apply Hk.
Qed.

(** The same when the rest needs to know what the first part returned. *)
Lemma keeps_bind_run {S A B} (I : S -> Prop) (m : M S A) (k : A -> M S B) s :
  (forall o s1, m s = (o, s1) -> I s1 /\ forall a, o = Ok a -> I (k a s1).2) -> I (bind m k s).2.
Proof.
  intros Hm. unfold bind. destruct (m s) as [[a| | | |] s1]; eapply Hm; done.
Qed.

(** ** Partial correctness

    [yields I Q m]: from a state in the invariant [I], the program [m] ends in [I], and a
    value it returns is in [Q]. *)

Definition yields {S A} (I : S -> Prop) (Q : A -> Prop) (m : M S A) : Prop :=
  forall s, I s -> I (m s).2 /\ forall a, (m s).1 = Ok a -> Q a.

Definition anything {A} (_ : A) : Prop := True.

Section yields.
Context {S : Type} (I : S -> Prop).

Lemma yields_ret {A} (Q : A -> Prop) a : Q a -> yields I Q (ret a).
Proof. intros HQ s Hs. split; [done|]. by intros ? [= <-]. Qed.

Lemma yields_fail {A} (Q : A -> Prop) e : yields I Q (fail e).
Proof. done. Qed.

Lemma yields_block {A} (Q : A -> Prop) : yields I Q block.
Proof. done. Qed.

Lemma yields_panic {A} (Q : A -> Prop) : yields I Q panic.
Proof. done. Qed.

Lemma yields_diverge {A} (Q : A -> Prop) : yields I Q diverge.
Proof. done. Qed.

Lemma yields_gets {A} (Q : A -> Prop) (f : S -> A) : (forall s, I s -> Q (f s)) -> yields I Q (gets f).
Proof. intros HQ s Hs. split; [done|]. intros ? [= <-]. by apply HQ. Qed.

Lemma yields_modify (f : S -> S) : (forall s, I s -> I (f s)) -> yields I anything (modify f).
Proof. intros Hf s Hs. split; [by apply Hf|done]. Qed.

Lemma yields_bind {A B} (Q : A -> Prop) (R : B -> Prop) (m : M S A) (k : A -> M S B) :
  yields I Q m -> (forall a, Q a -> yields I R (k a)) -> yields I R (bind m k).
Proof.
  intros Hm Hk s Hs. destruct (Hm s Hs) as [Hs1 HQ]. unfold bind.
  destruct (m s) as [[a| | | |] s1]; try done. apply Hk; [by apply HQ|done].
Qed.

Lemma yields_mono {A} (Q R : A -> Prop) (m : M S A) :
  (forall a, Q a -> R a) -> yields I Q m -> yields I R m.
Proof. intros HQR Hm s Hs. destruct (Hm s Hs) as [Hs1 HQ]. auto. Qed.

Lemma yields_any {A} (Q : A -> Prop) (m : M S A) : yields I Q m -> yields I anything m.
Proof. by apply yields_mono. Qed.

Lemma yields_when (c : bool) (m : M S unit) : yields I anything m -> yields I anything (when c m).
Proof. by destruct c. Qed.

Lemma yields_for_each {A} (l : list A) (f : A -> M S unit) :
  (forall a, a ∈ l -> yields I anything (f a)) -> yields I anything (for_each l f).
Proof.
  induction l as [|a l IH]; intros Hf; [by apply yields_ret|]. simpl.
  apply (yields_bind anything); [apply Hf; by left|]. intros _ _. apply IH. intros b Hb. apply Hf. by right.
Qed.

Lemma yields_from_result {A} (Q : A -> Prop) e (o : option A) :
  (forall a, o = Some a -> Q a) -> yields I Q (from_result e o).
Proof. destruct o; intros HQ; [apply yields_ret; by apply HQ|apply yields_fail]. Qed.

Lemma yields_zoom {T A} (Q : A -> Prop) (J : T -> Prop) (get : S -> T) (put : T -> S -> S) (m : M T A) :
  yields J Q m -> (forall s, I s -> J (get s)) -> (forall s t, I s -> J t -> I (put t s)) ->
  yields I Q (zoom get put m).
Proof.
  intros Hm Hget Hput s Hs. unfold zoom. destruct (Hm (get s) (Hget s Hs)) as [Ht HQ].
  destruct (m (get s)) as [o t]. split; [by apply Hput|done].
Qed.
End yields.

(** Reduce [yields I Q m] to its pure parts. *)
Ltac yields_steps :=
  repeat first
    [ simple apply yields_fail | simple apply yields_block | simple apply yields_panic
    | simple apply yields_diverge
    | simple apply yields_when
    | solve [eauto with typed]
    | simple apply yields_modify; intros
    | lazymatch goal with |- yields _ _ _ => case_match end ].

(** Run the monad's administrative steps in the goal. *)
Ltac mstep :=
  repeat first
    [ rewrite bind_ret | rewrite bind_gets | rewrite bind_modify | rewrite bind_from_Some
    | rewrite bind_assoc ].

(** Split an [Ok] run of a sequence into the runs of its parts. *)
Ltac minv H :=
  let a := fresh "a" in let s := fresh "s" in
  let H1 := fresh "Hrun" in
  apply bind_Ok_inv in H as (a & s & H1 & H).

(** ** Lists and ranges *)

(** The half-open range [a..b] and the inclusive range [a..=b] of [u64]. *)
Definition range (a b : N) : list N := (fun k => (a + N.of_nat k)%N) <$> seq 0 (N.to_nat (b - a)).
Definition range_inclusive (a b : N) : list N := range a (b + 1).

Lemma elem_of_range (a b i : N) : i ∈ range a b <-> (a <= i < b)%N.
Proof.
  unfold range. rewrite list_elem_of_fmap. split.
  - intros (k & -> & Hk). apply elem_of_seq in Hk. lia.
  - intros Hi. exists (N.to_nat (i - a)). rewrite elem_of_seq. lia.
Qed.

Lemma elem_of_range_inclusive (a b i : N) : i ∈ range_inclusive a b <-> (a <= i <= b)%N.
Proof. unfold range_inclusive. rewrite elem_of_range. lia. Qed.

Lemma range_lookup (a b : N) (k : nat) :
  range a b !! k = if decide (k < N.to_nat (b - a))%nat then Some (a + N.of_nat k)%N else None.
Proof.
  unfold range. rewrite list_lookup_fmap. case_decide.
  - by rewrite lookup_seq_lt.
  - rewrite lookup_seq_ge by lia. done.
Qed.

Lemma range_nil (a b : N) : (b <= a)%N -> range a b = [].
Proof. intros H. unfold range. by replace (N.to_nat (b - a)) with 0%nat by lia. Qed.

Lemma range_cons (a b : N) : (a < b)%N -> range a b = a :: range (a + 1) b.
Proof.
  intros H. unfold range. replace (N.to_nat (b - a)) with (S (N.to_nat (b - (a + 1)))) by lia.
  simpl. rewrite N.add_0_r. f_equal. rewrite <-fmap_S_seq, <-list_fmap_compose.
  apply list_fmap_ext. intros i k _. simpl. lia.
Qed.

Lemma range_snoc (a b : N) : (a <= b)%N -> range a (b + 1) = range a b ++ [b].
Proof.
  intros H. unfold range.
  replace (N.to_nat (b + 1 - a)) with (N.to_nat (b - a) + 1)%nat by lia.
  rewrite seq_app, fmap_app. simpl. do 2 f_equal. lia.
Qed.

(** ** Strings *)

Lemma length_string_append (a b : string) :
  String.length (String.append a b) = (String.length a + String.length b)%nat.
Proof. induction a as [|c a IH]; [done|]. exact (f_equal S IH). Qed.

Lemma append_nil_r (s : string) : String.append s "" = s.
Proof. induction s as [|c s IH]; [done|]. exact (f_equal (String c) IH). Qed.

Lemma append_assoc (a b c : string) :
  String.append a (String.append b c) = String.append (String.append a b) c.
Proof. induction a as [|x a IH]; [done|]. exact (f_equal (String x) IH). Qed.

Lemma append_inj (a b c d : string) : String.length a = String.length c ->
  String.append a b = String.append c d -> a = c /\ b = d.
Proof.
  revert c. induction a as [|x a IH]; intros [|y c] Hlen Heq; try done.
  injection Hlen as Hlen. injection Heq as -> Heq. by destruct (IH c Hlen Heq) as [-> ->].
Qed.
