(* ===== verification/Heapless.v ===== *)
(** * The [heapless] containers

    [heapless::String<N>] and [heapless::Vec<T, N>] come from a crate that is not part
    of the repository.  A value is represented by what the code can observe of it: the
    text of [as_str()], the list of [as_slice()].  The operations are the fields of the
    class [Heapless], and [HeaplessLaws] is what the crate documents about them.  The
    file then defines the two idioms the repository builds such values with, and proves
    what they do to text or data that does not fit. *)

From Stdlib Require Import Init.Byte.
From S2P Require Import Prelude.

Class Heapless := {
  (** [push_str] on a string of the given capacity: is it [Ok], and the text after. *)
  string_push_str : nat -> string -> string -> bool * string;
  (** [push] on a vector of the given capacity: is it [Ok], and the elements after. *)
  vec_push : forall {A : Type}, nat -> list A -> A -> bool * list A;
  (** [iter.collect::<Vec<_, N>>()]; [None] is the panic on overflow. *)
  vec_from_iter : forall {A : Type}, nat -> list A -> option (list A);
}.

Class HeaplessLaws (H : Heapless) : Prop := {
  push_str_fits cap s t : (String.length s + String.length t <= cap)%nat ->
    string_push_str cap s t = (true, String.append s t);
  push_str_full cap s t : (cap < String.length s + String.length t)%nat ->
    string_push_str cap s t = (false, s);
  vec_push_fits A cap (l : list A) x : (length l < cap)%nat -> vec_push cap l x = (true, l ++ [x]);
  vec_push_full A cap (l : list A) x : (cap <= length l)%nat -> vec_push cap l x = (false, l);
  vec_from_iter_fits A cap (l : list A) : (length l <= cap)%nat -> vec_from_iter cap l = Some l;
}.

(** ** The idioms of the repository *)

Section idioms.
Context {H : Heapless}.

(** [let mut hs = heapless::String::new(); let _ = hs.push_str(s);] *)
Definition string_from (cap : nat) (s : string) : string := (string_push_str cap "" s).2.

(** [let mut hv = heapless::Vec::new(); for b in bs { let _ = hv.push(b); }] *)
Definition vec_from {A : Type} (cap : nat) (bs : list A) : list A :=
  foldl (fun v b => (vec_push cap v b).2) [] bs.

Context {HL : HeaplessLaws H}.

Lemma string_from_fits cap s : (String.length s <= cap)%nat -> string_from cap s = s.
Proof. intros Hs. unfold string_from. rewrite push_str_fits; [done|simpl; lia]. Qed.

(** Text that does not fit is not truncated, it is lost. *)
Lemma string_from_overflow cap s : (cap < String.length s)%nat -> string_from cap s = "".
Proof. intros Hs. unfold string_from. rewrite push_str_full; [done|simpl; lia]. Qed.

Lemma string_from_length cap s : (String.length (string_from cap s) <= cap)%nat.
Proof.
  destruct (decide (String.length s <= cap)%nat).
  - by rewrite string_from_fits.
  - rewrite string_from_overflow by lia. simpl. lia.
Qed.

Lemma vec_from_acc {A} cap (acc bs : list A) : (length acc <= cap)%nat ->
  foldl (fun v b => (vec_push cap v b).2) acc bs = take cap (acc ++ bs).
Proof.
  revert acc. induction bs as [|b bs IH]; intros acc Hacc; simpl.
  - rewrite app_nil_r, take_ge; done.
  - destruct (decide (length acc < cap)%nat).
    + rewrite vec_push_fits by done. simpl. rewrite IH.
      * by rewrite <-(assoc_L (++)).
      * rewrite length_app. simpl. lia.
    + rewrite vec_push_full by lia. simpl. rewrite IH by done.
      by rewrite !take_app_le by lia.
Qed.

(** Data that does not fit is truncated to the capacity. *)
Lemma vec_from_take {A} cap (bs : list A) : vec_from cap bs = take cap bs.
Proof. unfold vec_from. rewrite vec_from_acc; [done|simpl; lia]. Qed.

Lemma vec_from_fits {A} cap (bs : list A) : (length bs <= cap)%nat -> vec_from cap bs = bs.
Proof. intros Hbs. rewrite vec_from_take. by apply take_ge. Qed.

Lemma vec_from_length {A} cap (bs : list A) : (length (vec_from cap bs) <= cap)%nat.
Proof. rewrite vec_from_take, length_take. lia. Qed.
End idioms.

(** ** An instance, for evaluating the model *)

Definition ref_heapless : Heapless := {|
  string_push_str cap s t :=
    if decide (String.length s + String.length t <= cap)%nat
    then (true, String.append s t) else (false, s);
  vec_push A cap l x := if decide (length l < cap)%nat then (true, l ++ [x]) else (false, l);
  vec_from_iter A cap l := if decide (length l <= cap)%nat then Some l else None;
|}.

#[global] Instance ref_heapless_laws : HeaplessLaws ref_heapless.
Proof. split; intros; simpl; case_decide; done || lia. Qed.
