(* ===== verification/Protocol.v ===== *)
(** * Shared types: [raft-common/src/protocol.rs], [state.rs] and [lib.rs]

    The messages, the log entry and the persistent state.  [u64] fields are [N]; a
    [heapless::String<N>] or [heapless::Vec<u8, N>] field is its content, and the
    capacities are the predicates [wf_...], which everything the code builds satisfies. *)

From Stdlib Require Import Init.Byte.
From S2P Require Import Prelude Heapless.

#[export] Instance byte_eq_dec : EqDecision byte := Byte.byte_eq_dec.

(** ** [lib.rs]: constants *)

Definition RAFT_PORT : N := 5555.
Definition MAX_PEERS : nat := 16.
Definition MAX_VALUE_SIZE : nat := 1024.
Definition MAX_KEY_SIZE : nat := 256.

(** Capacity of the identifiers and addresses, [heapless::String<64>]. *)
Definition ID_CAPACITY : nat := 64.
(** Capacity of the entries of a message, [heapless::Vec<LogEntry, 64>]. *)
Definition MAX_ENTRIES : nat := 64.

(** ** [protocol.rs]: commands and log entries *)

Inductive Command :=
  | Put (key : string) (value : list byte)
  | Delete (key : string)
  | Noop.

Record LogEntry := mkEntry { index : N; term : N; command : Command }.

#[export] Instance Command_eq_dec : EqDecision Command.
Proof. solve_decision. Defined.
#[export] Instance LogEntry_eq_dec : EqDecision LogEntry.
Proof. solve_decision. Defined.

(** [Command::default()] of the build without [std]. *)
Definition Command_default : Command := Noop.
Definition LogEntry_default : LogEntry := mkEntry 0 0 Command_default.

(** The capacity invariant of the heapless fields. *)
Definition wf_command (c : Command) : Prop :=
  match c with
  | Put key value => (String.length key <= MAX_KEY_SIZE)%nat /\ (length value <= MAX_VALUE_SIZE)%nat
  | Delete key => (String.length key <= MAX_KEY_SIZE)%nat
  | Noop => True
  end.

#[export] Instance wf_command_dec c : Decision (wf_command c).
Proof. destruct c; simpl; apply _. Defined.

(** ** [protocol.rs]: messages *)

Record AppendEntriesRequest := mkAppendEntries {
  ae_term : N;
  ae_leader_id : string;
  prev_log_index : N;
  prev_log_term : N;
  ae_entries : list LogEntry;
  leader_commit : N }.

Record AppendEntriesResponse := mkAppendEntriesResponse {
  aer_term : N;
  success : bool;
  aer_last_log_index : N;
  aer_node_id : string }.

Record RequestVoteRequest := mkRequestVote {
  rv_term : N;
  candidate_id : string;
  rv_last_log_index : N;
  rv_last_log_term : N }.

Record RequestVoteResponse := mkRequestVoteResponse {
  rvr_term : N;
  vote_granted : bool;
  rvr_node_id : string }.

Record ClientRequest := mkClientRequest { cr_request_id : N; cr_command : Command }.

Record ClientResponse := mkClientResponse {
  cresp_success : bool;
  cresp_request_id : N;
  cresp_data : option (list byte);
  cresp_error : option string;
  cresp_leader_id : option string }.

Inductive RaftMessage :=
  | AppendEntries (req : AppendEntriesRequest)
  | AppendEntriesResp (resp : AppendEntriesResponse)
  | RequestVote (req : RequestVoteRequest)
  | RequestVoteResp (resp : RequestVoteResponse)
  | ClientReq (req : ClientRequest)
  | ClientResp (resp : ClientResponse).

Record MessageEnvelope := mkEnvelope { from : string; to : string; message : RaftMessage }.

#[export] Instance AppendEntriesRequest_eq_dec : EqDecision AppendEntriesRequest.
Proof. solve_decision. Defined.
#[export] Instance AppendEntriesResponse_eq_dec : EqDecision AppendEntriesResponse.
Proof. solve_decision. Defined.
#[export] Instance RequestVoteRequest_eq_dec : EqDecision RequestVoteRequest.
Proof. solve_decision. Defined.
#[export] Instance RequestVoteResponse_eq_dec : EqDecision RequestVoteResponse.
Proof. solve_decision. Defined.
#[export] Instance ClientRequest_eq_dec : EqDecision ClientRequest.
Proof. solve_decision. Defined.
#[export] Instance ClientResponse_eq_dec : EqDecision ClientResponse.
Proof. solve_decision. Defined.
#[export] Instance RaftMessage_eq_dec : EqDecision RaftMessage.
Proof. solve_decision. Defined.
#[export] Instance MessageEnvelope_eq_dec : EqDecision MessageEnvelope.
Proof. solve_decision. Defined.

(** ** [state.rs] *)

Inductive NodeRole := Follower | Candidate | Leader.

#[export] Instance NodeRole_eq_dec : EqDecision NodeRole.
Proof. solve_decision. Defined.

Definition NodeRole_default : NodeRole := Follower.

Record PersistentState := mkPersistent { current_term : N; voted_for : option string }.

#[export] Instance PersistentState_eq_dec : EqDecision PersistentState.
Proof. solve_decision. Defined.

Definition PersistentState_default : PersistentState := mkPersistent 0 None.

Record PeerInfo := mkPeerInfo { id : string; address : string }.

#[export] Instance PeerInfo_eq_dec : EqDecision PeerInfo.
Proof. solve_decision. Defined.

(** ** Constructors that copy text into bounded strings *)

Section constructors.
Context {H : Heapless}.

(** [MessageEnvelope::new] *)
Definition MessageEnvelope_new (from to : string) (message : RaftMessage) : MessageEnvelope :=
  let from_str := string_from ID_CAPACITY from in
  let to_str := string_from ID_CAPACITY to in
  mkEnvelope from_str to_str message.

(** [PeerInfo::new] *)
Definition PeerInfo_new (id address : string) : PeerInfo :=
  let id_str := string_from ID_CAPACITY id in
  let addr_str := string_from ID_CAPACITY address in
  mkPeerInfo id_str addr_str.
End constructors.
