(* ===== verification/Serde.v ===== *)
(** * The [serde_json] interface

    [serde_json] is not part of the repository.  What the code uses of it is the class
    [SerdeJson] (one instance per type and format), and what the code relies on is split
    in three: a value that was written is read back ([JsonRoundtrip]), the compact format
    is one line ([JsonOneLine]), and a document cut short is rejected ([JsonPrefix]).
    The instances at the end, over any countable type, let the model be evaluated. *)

From stdpp Require Import countable.
From Stdlib Require Import Init.Byte.
From S2P Require Import Prelude Heapless Protocol.

Class SerdeJson (A : Type) := {
  to_string : A -> option string;
  from_str : string -> option A;
}.

Class JsonRoundtrip (A : Type) (J : SerdeJson A) : Prop := {
  json_total (a : A) : is_Some (to_string a);
  json_from_to (a : A) s : to_string a = Some s -> from_str s = Some a;
}.

Definition newline : ascii := "010"%char.
Definition carriage_return : ascii := "013"%char.

Fixpoint no_newline (s : string) : Prop :=
  match s with
  | EmptyString => True
  | String c s' => c <> newline /\ c <> carriage_return /\ no_newline s'
  end.

Class JsonOneLine (A : Type) (J : SerdeJson A) : Prop := {
  json_line (a : A) s : to_string a = Some s -> no_newline s /\ s <> "";
}.

(** [strict_prefix p s]: the text [s] cut short. *)
Definition strict_prefix (p s : string) : Prop := exists t, t <> "" /\ s = String.append p t.

Class JsonPrefix (A : Type) (J : SerdeJson A) : Prop := {
  json_truncated (a : A) s p : to_string a = Some s -> strict_prefix p s -> from_str p = None;
}.

(** ** A reference format: the binary digits of a code, closed by a brace *)

Fixpoint digits_of_pos (p : positive) : string :=
  match p with
  | xO p => String "0" (digits_of_pos p)
  | xI p => String "1" (digits_of_pos p)
  | xH => "}"
  end.

Fixpoint pos_of_digits (s : string) : option positive :=
  match s with
  | EmptyString => None
  | String c s' =>
      if decide (c = "0"%char) then xO <$> pos_of_digits s'
      else if decide (c = "1"%char) then xI <$> pos_of_digits s'
      else if decide (c = "}"%char /\ s' = "") then Some xH else None
  end.

Lemma pos_of_digits_of_pos p : pos_of_digits (digits_of_pos p) = Some p.
Proof. induction p; simpl; by rewrite ?IHp. Qed.

Lemma digits_one_line p : no_newline (digits_of_pos p) /\ digits_of_pos p <> "".
Proof. by induction p as [p [IH ?]|p [IH ?]|]; simpl; repeat split. Qed.

Lemma digits_truncated p q t : t <> "" -> digits_of_pos p = String.append q t -> pos_of_digits q = None.
Proof.
  revert q. induction p as [p IHp|p IHp|]; intros [|c q] Ht Heq; simpl in *; try done;
    injection Heq as <- Heq; simpl.
  - by rewrite (IHp q).
  - by rewrite (IHp q).
  - destruct q; simpl in *; [by subst|done].
Qed.

Definition ref_json {A : Type} `{Countable A} : SerdeJson A := {|
  to_string a := Some (digits_of_pos (encode a));
  from_str s := pos_of_digits s ≫= decode;
|}.

#[export] Instance ref_json_roundtrip `{Countable A} : JsonRoundtrip A ref_json.
Proof.
  split; [by eexists|]. intros a s [= <-]. simpl.
  rewrite pos_of_digits_of_pos. apply decode_encode.
Qed.

#[export] Instance ref_json_one_line `{Countable A} : JsonOneLine A ref_json.
Proof. split. intros a s [= <-]. apply digits_one_line. Qed.

#[export] Instance ref_json_prefix `{Countable A} : JsonPrefix A ref_json.
Proof.
  split. intros a s p [= <-] (t & Ht & Heq). simpl. by erewrite digits_truncated.
Qed.

(** ** Countability of the serialised types *)

#[export] Instance byte_countable : Countable byte :=
  inj_countable Byte.to_N Byte.of_N Byte.of_to_N.

#[export] Instance PersistentState_countable : Countable PersistentState.
Proof.
  by refine (inj_countable' (fun s => (current_term s, voted_for s))
    (fun '(t, v) => mkPersistent t v) _); intros [].
Defined.
