(* ===== verification/HashMap.v ===== *)
(** * Iteration over [std::collections::HashMap]

    A [HashMap] is a [gmap]; the order in which its iterators visit the entries is not
    specified by the standard library, so it is the field of a class, with the law that
    every entry is visited once. *)

From S2P Require Import Prelude.

Class HashOrder := {
  hash_iter : forall {K} `{Countable K} {A : Type}, gmap K A -> list (K * A)
}.

Class HashOrderLaws (O : HashOrder) : Prop := {
  hash_iter_perm : forall K `{Countable K} (A : Type) (m : gmap K A), hash_iter m ≡ₚ map_to_list m
}.

(** [m.keys()] *)
Definition hash_keys {O : HashOrder} {K} `{Countable K} {A} (m : gmap K A) : list K :=
  (hash_iter m).*1.

Section facts.
Context {O : HashOrder} {OL : HashOrderLaws O} {K : Type} `{Countable K} {A : Type}.
Implicit Types m : gmap K A.

Lemma elem_of_hash_iter m k a : (k, a) ∈ hash_iter m <-> m !! k = Some a.
Proof. by rewrite hash_iter_perm, elem_of_map_to_list. Qed.

Lemma elem_of_hash_keys m k : k ∈ hash_keys m <-> is_Some (m !! k).
Proof.
  unfold hash_keys. rewrite list_elem_of_fmap. split.
  - intros ([k' a] & -> & Hin). apply elem_of_hash_iter in Hin. by exists a.
  - intros [a Ha]. exists (k, a). split; [done|]. by apply elem_of_hash_iter.
Qed.

Lemma NoDup_hash_keys m : NoDup (hash_keys m).
Proof. unfold hash_keys. rewrite hash_iter_perm. apply NoDup_fst_map_to_list. Qed.

Lemma length_hash_keys m : length (hash_keys m) = size m.
Proof. unfold hash_keys. rewrite length_fmap, hash_iter_perm. apply length_map_to_list. Qed.

Lemma hash_keys_nil m : hash_keys m = [] <-> m = ∅.
Proof. rewrite <-length_zero_iff_nil, length_hash_keys. apply map_size_empty_iff. Qed.

Lemma hash_iter_empty : hash_iter (∅ : gmap K A) = [].
Proof. apply Permutation_nil_r. by rewrite hash_iter_perm, map_to_list_empty. Qed.

Lemma hash_iter_filter (P : K * A -> Prop) `{!forall x, Decision (P x)} m :
  hash_iter (filter P m) ≡ₚ filter P (hash_iter m).
Proof.
  assert (forall m' : gmap K A, NoDup (hash_iter m')) as Hnd.
  { intros m'. rewrite hash_iter_perm. apply NoDup_map_to_list. }
  apply NoDup_Permutation; [done|by apply NoDup_filter|]. intros [k a].
  rewrite elem_of_hash_iter, map_lookup_filter_Some, list_elem_of_filter, elem_of_hash_iter.
  tauto.
Qed.

Lemma length_hash_iter m : length (hash_iter m) = size m.
Proof. by rewrite hash_iter_perm, length_map_to_list. Qed.
End facts.

(** An instance, for evaluating the model. *)
Definition ref_hash_order : HashOrder := {| hash_iter K _ _ A m := map_to_list m |}.

#[global] Instance ref_hash_order_laws : HashOrderLaws ref_hash_order.
Proof. by split. Qed.
