(* ===== verification/Log.v ===== *)
(** * Persistent log: [raft/src/log.rs]

    [RaftLog] is the struct together with the files of its data directory; the methods
    are programs over it.  The file system is the standard library's, as the code sees
    it: a directory of files, a handle opened for appending that keeps naming the old
    file once another one is renamed over it, and calls that may fail, before or part of
    the way through a write.  Which calls fail is the list [io] of the outcomes of the
    calls to come (an exhausted list means they succeed), so that the error paths are
    part of the model. *)

From Stdlib Require Import Init.Byte.
From S2P Require Import Prelude Heapless Protocol Serde.
Local Open Scope N_scope.

(** ** The disk format *)

Record DiskLogEntry := mkDisk {
  d_index : N;
  d_term : N;
  command_type : string;
  d_key : option string;
  d_value : option (list byte) }.

#[export] Instance DiskLogEntry_eq_dec : EqDecision DiskLogEntry.
Proof. solve_decision. Defined.

#[export] Instance DiskLogEntry_countable : Countable DiskLogEntry.
Proof.
  by refine (inj_countable'
    (fun d => (d_index d, d_term d, command_type d, d_key d, d_value d))
    (fun '(i, t, c, k, v) => mkDisk i t c k v) _); intros [].
Defined.

Definition entry_to_disk (entry : LogEntry) : DiskLogEntry :=
  let '(command_type, key, value) :=
    match command entry with
    | Put key value => ("Put", Some key, Some value)
    | Delete key => ("Delete", Some key, None)
    | Noop => ("Noop", None, None)
    end in
  mkDisk (index entry) (term entry) command_type key value.

Definition disk_entry_to_log_entry {H : Heapless} (disk : DiskLogEntry) : LogEntry :=
  let command :=
    if decide (command_type disk = "Put") then
      let key := default "" (d_key disk) in
      let value := default [] (d_value disk) in
      Put (string_from MAX_KEY_SIZE key) (vec_from MAX_VALUE_SIZE value)
    else if decide (command_type disk = "Delete") then
      let key := default "" (d_key disk) in
      Delete (string_from MAX_KEY_SIZE key)
    else Noop in
  mkEntry (d_index disk) (d_term disk) command.

(** ** Files, handles and the state of the log *)

(** The outcome of a call of the standard library's [fs] or [io]: success, or an error
    that left the file alone ([None]) or came after some bytes were written. *)
Inductive io_result := IoOk | IoErr (written : option nat).

(** The directory [data_dir]: the contents of its files, and the calls' fate. *)
Record Disk := mkDir { files : gmap string string; io : list io_result }.

(** What the open handle of the log file names: the file [log.jsonl] of the directory, or
    a file that a rename has replaced since. *)
Inductive log_handle := Linked | Unlinked.

Record RaftLog := mkLog {
  data_dir : string;
  entries : gmap N LogEntry;
  persistent_state : PersistentState;
  last_index : N;
  log_file : option log_handle;
  disk : Disk }.

Definition with_entries v (l : RaftLog) :=
  mkLog (data_dir l) v (persistent_state l) (last_index l) (log_file l) (disk l).
Definition with_persistent_state v (l : RaftLog) :=
  mkLog (data_dir l) (entries l) v (last_index l) (log_file l) (disk l).
Definition with_last_index v (l : RaftLog) :=
  mkLog (data_dir l) (entries l) (persistent_state l) v (log_file l) (disk l).
Definition with_log_file v (l : RaftLog) :=
  mkLog (data_dir l) (entries l) (persistent_state l) (last_index l) v (disk l).
Definition with_disk v (l : RaftLog) :=
  mkLog (data_dir l) (entries l) (persistent_state l) (last_index l) (log_file l) v.

Definition state_path : string := "state.json".
Definition log_path : string := "log.jsonl".
Definition temp_path : string := "log.jsonl.tmp".

(** ** The calls to the standard library *)

Definition next_io : M RaftLog io_result := fun l =>
  match io (disk l) with
  | [] => (Ok IoOk, l)
  | r :: rs => (Ok r, with_disk (mkDir (files (disk l)) rs) l)
  end.

Definition set_file (name text : string) : M RaftLog unit :=
  modify (fun l => with_disk (mkDir (<[name := text]> (files (disk l))) (io (disk l))) l).

Fixpoint string_take (n : nat) (s : string) : string :=
  match n, s with
  | S n, String c s' => String c (string_take n s')
  | _, _ => EmptyString
  end.

(** A call that only succeeds or fails ([create_dir_all], [flush]). *)
Definition io_call : M RaftLog unit := (
  r <- next_io ;;
  match r with IoOk => ret tt | IoErr _ => fail IoError end)%raft.

(** [fs::write(name, text)]: truncate, then write. *)
Definition fs_write (name text : string) : M RaftLog unit := (
  r <- next_io ;;
  match r with
  | IoOk => set_file name text
  | IoErr None => fail IoError
  | IoErr (Some k) => set_file name (string_take k text) ;;; fail IoError
  end)%raft.

(** [fs::read_to_string] and [File::open] with the reads that follow. *)
Definition fs_read (name : string) : M RaftLog (option string) := (
  io_call ;;; gets (fun l => files (disk l) !! name))%raft.

(** Appending a text to a file of the directory. *)
Definition file_append (name text : string) : M RaftLog unit := (
  r <- next_io ;;
  old <- gets (fun l => default "" (files (disk l) !! name)) ;;
  match r with
  | IoOk => set_file name (String.append old text)
  | IoErr None => fail IoError
  | IoErr (Some k) => set_file name (String.append old (string_take k text)) ;;; fail IoError
  end)%raft.

(** [writeln!(file, "{}", line)] through the log's handle. *)
Definition handle_writeln (h : log_handle) (line : string) : M RaftLog unit :=
  match h with
  | Linked => file_append log_path (String.append line (String newline ""))
  | Unlinked => io_call
  end.

(** [OpenOptions::new().create(true).append(true).open(log_path)] *)
Definition open_append : M RaftLog unit := (
  io_call ;;;
  modify (fun l => with_disk (mkDir
    (if decide (is_Some (files (disk l) !! log_path)) then files (disk l)
     else <[log_path := ""]> (files (disk l))) (io (disk l))) l) ;;;
  modify (with_log_file (Some Linked)))%raft.

(** [fs::rename(temp_path, log_path)]: the handle still names the file that was there. *)
Definition rename_temp : M RaftLog unit := (
  io_call ;;;
  modify (fun l => with_disk (mkDir
    (partial_alter (fun _ => files (disk l) !! temp_path) log_path
      (delete temp_path (files (disk l)))) (io (disk l))) l) ;;;
  modify (fun l => with_log_file ((fun _ => Unlinked) <$> log_file l) l))%raft.

(** [BufRead::lines]: the lines of a text without their line endings. *)
Fixpoint lines (s : string) : list string :=
  match s with
  | EmptyString => []
  | String c s' =>
      if decide (c = newline) then "" :: lines s'
      else if decide (c = carriage_return /\ String.get 0 s' = Some newline) then lines s'
      else match lines s' with
           | [] => [String c ""]
           | l :: ls => String c l :: ls
           end
  end.

(** ** The methods of [RaftLog] *)

Section methods.
Context {H : Heapless} {JD : SerdeJson DiskLogEntry} {JS : SerdeJson PersistentState}.

(** One line of [log.jsonl] read back. *)
Definition load_line (line : string) : M RaftLog unit := (
  if decide (line = "") then ret tt
  else
    disk_entry <- from_result SerdeError (from_str line) ;;
    let entry := disk_entry_to_log_entry disk_entry in
    modify (fun l => with_last_index (N.max (last_index l) (index entry)) l) ;;;
    modify (fun l => with_entries (<[index entry := entry]> (entries l)) l))%raft.

Definition load_from_disk : M RaftLog unit := (
  state_exists <- gets (fun l => bool_decide (is_Some (files (disk l) !! state_path))) ;;
  when state_exists (
    content <- fs_read state_path ;;
    state <- from_result SerdeError (content ≫= from_str) ;;
    modify (with_persistent_state state)) ;;;
  log_exists <- gets (fun l => bool_decide (is_Some (files (disk l) !! log_path))) ;;
  when log_exists (
    content <- fs_read log_path ;;
    for_each (lines (default "" content)) load_line) ;;;
  open_append)%raft.

(** [RaftLog::new] on the files found in [data_dir]. *)
Definition RaftLog_new (data_dir : string) (dir : Disk) : outcome RaftLog :=
  match (io_call ;;; load_from_disk)%raft
          (mkLog data_dir ∅ PersistentState_default 0 None dir) with
  | (Ok _, log) => Ok log
  | (Err e, _) => Err e
  | (Blocked, _) => Blocked
  | (Panicked, _) => Panicked
  | (OutOfFuel, _) => OutOfFuel
  end.

Definition save_state : M RaftLog unit := (
  state <- gets persistent_state ;;
  content <- from_result SerdeError (to_string state) ;;
  fs_write state_path content)%raft.

(** [current_term()], [voted_for()] and [last_index()] are the field projections. *)
Definition log_current_term (l : RaftLog) : N := current_term (persistent_state l).
Definition log_voted_for (l : RaftLog) : option string := voted_for (persistent_state l).

Definition set_current_term (term : N) : M RaftLog unit := (
  modify (with_persistent_state (mkPersistent term None)) ;;;
  save_state)%raft.

Definition set_voted_for (candidate_id : option string) : M RaftLog unit := (
  modify (fun l => with_persistent_state (mkPersistent (log_current_term l)
    (string_from ID_CAPACITY <$> candidate_id)) l) ;;;
  save_state)%raft.

Definition last_term (l : RaftLog) : N := default 0 (term <$> entries l !! last_index l).

Definition get (l : RaftLog) (i : N) : option LogEntry := entries l !! i.

Definition term_at (l : RaftLog) (i : N) : option N := term <$> entries l !! i.

Definition flush : M RaftLog unit := io_call.

(** Serialise an entry and write it as a line, if the log file is open. *)
Definition write_entry (entry : LogEntry) : M RaftLog unit := (
  let disk_entry := entry_to_disk entry in
  file <- gets log_file ;;
  match file with
  | Some h => line <- from_result SerdeError (to_string disk_entry) ;; handle_writeln h line
  | None => ret tt
  end)%raft.

Definition flush_file : M RaftLog unit := (
  file <- gets log_file ;;
  match file with Some _ => flush | None => ret tt end)%raft.

Definition append (term : N) (command : Command) : M RaftLog N := (
  index <- gets (fun l => u64_add (last_index l) 1) ;;
  let entry := mkEntry index term command in
  write_entry entry ;;;
  flush_file ;;;
  modify (fun l => with_entries (<[index := entry]> (entries l)) l) ;;;
  modify (with_last_index index) ;;;
  ret index)%raft.

Definition append_entry (entry : LogEntry) : M RaftLog unit := (
  write_entry entry ;;;
  modify (fun l => with_last_index (N.max (last_index l) (index entry)) l) ;;;
  modify (fun l => with_entries (<[index entry := entry]> (entries l)) l))%raft.

Definition append_entries (new : list LogEntry) : M RaftLog unit := (
  for_each new append_entry ;;;
  flush_file)%raft.

(** The body of the loop that rewrites the log into the temporary file. *)
Definition rewrite_entry (idx : N) : M RaftLog unit := (
  found <- gets (fun l => entries l !! idx) ;;
  match found with
  | Some entry =>
      line <- from_result SerdeError (to_string (entry_to_disk entry)) ;;
      file_append temp_path (String.append line (String newline ""))
  | None => ret tt
  end)%raft.

Definition truncate_from (from_index : N) : M RaftLog unit := (
  modify (fun l => with_entries (filter (fun p => p.1 < from_index) (entries l)) l) ;;;
  modify (with_last_index (u64_saturating_sub from_index 1)) ;;;
  io_call ;;; set_file temp_path "" ;;;
  for_each (range 1 from_index) rewrite_entry ;;;
  flush ;;;
  rename_temp ;;;
  open_append)%raft.

Definition get_entries (l : RaftLog) (start_index end_index : N) : list LogEntry :=
  omap (fun idx => entries l !! idx) (range_inclusive start_index end_index).

Definition has_entry (l : RaftLog) (i t : N) : bool :=
  default (bool_decide (i = 0)) ((fun e => bool_decide (term e = t)) <$> entries l !! i).
End methods.
