(* ===== verification/LogFacts.v ===== *)
(** * The persistent log implements a sequence of entries, and survives a restart

    The abstract view of a [RaftLog] is the list of its entries, numbered from 1
    ([log_repr]); [spec_append], [spec_overwrite] and [spec_truncate] are the operations
    of that view.  [synced] says that the files of the data directory, read by
    [RaftLog::new], give the state in memory.  [log_inv] is both, and every method that
    changes the log preserves it while acting as its specification. *)

From Stdlib Require Import Init.Byte.
From S2P Require Import Prelude Heapless Protocol Serde Log.
Local Open Scope N_scope.

(** ** The abstract log *)

(** The entry at a 1-based position. *)
Definition lookup1 (es : list LogEntry) (i : N) : option LogEntry :=
  if decide (i = 0) then None else es !! (N.to_nat i - 1)%nat.

Definition spec_append (es : list LogEntry) (t : N) (c : Command) : list LogEntry :=
  es ++ [mkEntry (N.of_nat (S (length es))) t c].

(** Keep the entries before [i]. *)
Definition spec_truncate (es : list LogEntry) (i : N) : list LogEntry :=
  take (N.to_nat i - 1) es.

(** Write [new] over the entries that follow the first [p]. *)
Definition spec_overwrite (es : list LogEntry) (p : nat) (new : list LogEntry) : list LogEntry :=
  take p es ++ new ++ drop (p + length new) es.

(** [new] is numbered consecutively after position [p]. *)
Definition consecutive (p : nat) (new : list LogEntry) : Prop :=
  forall k e, new !! k = Some e -> index e = N.of_nat (p + S k).

Definition wf_entry (e : LogEntry) : Prop := wf_command (command e).

#[export] Instance wf_entry_dec e : Decision (wf_entry e) := wf_command_dec (command e).

Record log_repr (l : RaftLog) (es : list LogEntry) : Prop := {
  repr_last : last_index l = N.of_nat (length es);
  repr_entries : forall i, entries l !! i = lookup1 es i;
  repr_index : consecutive 0 es;
}.

Lemma lookup1_S es (k : nat) : lookup1 es (N.of_nat (S k)) = es !! k.
Proof. unfold lookup1. rewrite decide_False by lia. f_equal. lia. Qed.

Lemma lookup1_Some es i : is_Some (lookup1 es i) <-> 1 <= i <= N.of_nat (length es).
Proof.
  unfold lookup1. case_decide.
  - split; [by intros [? ?]|lia].
  - rewrite lookup_lt_is_Some. lia.
Qed.

Lemma lookup_spec_overwrite es p new k : (p <= length es)%nat ->
  spec_overwrite es p new !! k =
    if decide (p <= k < p + length new)%nat then new !! (k - p)%nat else es !! k.
Proof.
  intros Hp. unfold spec_overwrite.
  destruct (decide (k < p)%nat) as [Hk|Hk].
  - rewrite lookup_app_l by (rewrite length_take; lia).
    rewrite lookup_take_lt by done. by rewrite decide_False by lia.
  - rewrite lookup_app_r by (rewrite length_take; lia).
    rewrite length_take, Nat.min_l by lia. case_decide.
    + by rewrite lookup_app_l by lia.
    + rewrite lookup_app_r by lia. rewrite lookup_drop. f_equal. lia.
Qed.

Lemma length_spec_overwrite es p new : (p <= length es)%nat ->
  length (spec_overwrite es p new) = Nat.max (length es) (p + length new).
Proof. intros Hp. unfold spec_overwrite. rewrite !length_app, length_take, length_drop. lia. Qed.

Lemma spec_overwrite_cons es p e new : (p <= length es)%nat ->
  spec_overwrite (spec_overwrite es p [e]) (S p) new = spec_overwrite es p (e :: new).
Proof.
  intros Hp. apply list_eq. intros k.
  rewrite !lookup_spec_overwrite by (rewrite ?length_spec_overwrite; simpl; lia). simpl.
  destruct (decide (k = p)) as [->|].
  - rewrite decide_False, !decide_True by lia. by rewrite Nat.sub_diag.
  - repeat case_decide; try lia; try done.
    by replace (k - p)%nat with (S (k - S p)) by lia.
Qed.

Lemma spec_append_overwrite es t c :
  spec_append es t c = spec_overwrite es (length es) [mkEntry (N.of_nat (S (length es))) t c].
Proof.
  unfold spec_append, spec_overwrite. rewrite take_ge, drop_ge by (simpl; lia). done.
Qed.

Lemma consecutive_overwrite es p new : (p <= length es)%nat ->
  consecutive 0 es -> consecutive p new -> consecutive 0 (spec_overwrite es p new).
Proof.
  intros Hp Hes Hnew k e. rewrite lookup_spec_overwrite by done. case_decide.
  - intros Hk%Hnew. lia.
  - apply Hes.
Qed.

Lemma consecutive_cons p e new :
  consecutive p (e :: new) <-> index e = N.of_nat (S p) /\ consecutive (S p) new.
Proof.
  unfold consecutive. split.
  - intros Hc. split; [specialize (Hc 0%nat e eq_refl); lia|].
    intros k e' Hk. specialize (Hc (S k) e' Hk). lia.
  - intros [He Hc] [|k] e' Hk; simplify_eq/=; [lia|]. apply Hc in Hk. lia.
Qed.

Lemma consecutive_nil p : consecutive p [].
Proof. intros k e Hk. by rewrite lookup_nil in Hk. Qed.

(** Decide the well-formedness and the numbering of concrete entries. *)
Ltac concrete_entries :=
  repeat match goal with |- consecutive _ _ =>
    first [apply consecutive_nil | apply consecutive_cons; split; [reflexivity|]] end;
  try (apply (bool_decide_unpack _); vm_compute; exact I).

Lemma consecutive_take p es n : consecutive p es -> consecutive p (take n es).
Proof. intros Hc k e [Hk _]%lookup_take_Some. by apply Hc. Qed.

Lemma consecutive_drop es p : consecutive 0 es -> consecutive p (drop p es).
Proof. intros Hc k e. rewrite lookup_drop. intros Hk%Hc. lia. Qed.

(** One insertion at position [p + 1] of a represented log. *)
Lemma repr_insert l es p e : log_repr l es -> (p <= length es)%nat -> index e = N.of_nat (S p) ->
  forall l', entries l' = <[index e := e]> (entries l) ->
  last_index l' = N.max (last_index l) (index e) -> log_repr l' (spec_overwrite es p [e]).
Proof.
  intros [Hlast Hent Hidx] Hp He l' Hl' Hlast'. split.
  - rewrite Hlast', Hlast, He, length_spec_overwrite by done. simpl. lia.
  - intros i. rewrite Hl', lookup_insert, Hent. unfold lookup1.
    rewrite lookup_spec_overwrite by done. simpl.
    repeat case_decide; try lia; try done.
    by replace (N.to_nat i - 1 - p)%nat with 0%nat by lia.
  - apply consecutive_overwrite; [done..|]. by apply consecutive_cons.
Qed.

Lemma repr_truncate l es i : log_repr l es -> 1 <= i <= last_index l + 1 ->
  forall l', entries l' = filter (fun p => p.1 < i) (entries l) ->
  last_index l' = i - 1 -> log_repr l' (spec_truncate es i).
Proof.
  intros [Hlast Hent Hidx] Hi l' Hl' Hlast'. unfold spec_truncate. split.
  - rewrite Hlast', length_take. lia.
  - intros j. rewrite Hl', map_lookup_filter, Hent. unfold lookup1.
    case_decide; [done|]. destruct (decide (j < i)).
    + rewrite lookup_take_lt by lia. destruct (es !! _); [|done]. simpl.
      by rewrite option_guard_True.
    + rewrite lookup_take_ge by lia. destruct (es !! _); [|done]. simpl.
      by rewrite option_guard_False.
  - by apply consecutive_take.
Qed.

(** ** Reading a represented log *)

Lemma repr_term_at l es i : log_repr l es -> term_at l i = term <$> lookup1 es i.
Proof. intros Hr. unfold term_at. by rewrite (repr_entries _ _ Hr). Qed.

Lemma repr_has_entry l es i t : log_repr l es -> 0 < i ->
  has_entry l i t = true <-> exists e, lookup1 es i = Some e /\ term e = t.
Proof.
  intros Hr Hi. unfold has_entry. rewrite (repr_entries _ _ Hr).
  destruct (lookup1 es i) as [e|]; simpl.
  - rewrite bool_decide_eq_true. naive_solver.
  - rewrite bool_decide_false by lia. naive_solver.
Qed.

(** [get_entries] returns the slice of the sequence between its two bounds. *)
Lemma repr_get_entries l es (a : nat) : log_repr l es ->
  get_entries l (N.of_nat (S a)) (last_index l) = drop a es.
Proof.
  intros Hr. unfold get_entries, range_inclusive, range.
  rewrite (repr_last _ _ Hr).
  replace (N.to_nat (N.of_nat (length es) + 1 - N.of_nat (S a))) with (length (drop a es))
    by (rewrite length_drop; lia).
  assert (forall k, entries l !! (N.of_nat (S a) + N.of_nat k) = drop a es !! k) as Hk.
  { intros k. rewrite (repr_entries _ _ Hr), lookup_drop, <-lookup1_S. f_equal. lia. }
  revert Hk. generalize (drop a es) as rs, (N.of_nat (S a)) as b. clear.
  induction rs as [|e rs IH]; intros b Hk; simpl; [done|].
  rewrite (Hk 0%nat). simpl. f_equal. rewrite <-fmap_S_seq, <-list_fmap_compose.
  etransitivity; [|apply (IH (b + 1))].
  - f_equal. apply list_fmap_ext. intros i j _. simpl. lia.
  - intros k. transitivity ((e :: rs) !! S k); [|done]. rewrite <-Hk. f_equal. lia.
Qed.

(** From index 0 as from index 1: there is no entry 0. *)
Lemma get_entries_from l es i : log_repr l es ->
  get_entries l i (last_index l) = drop (N.to_nat (i - 1)) es.
Proof.
  intros Hr. destruct (decide (i = 0)) as [->|Hi].
  - rewrite <-(repr_get_entries l es _ Hr). unfold get_entries, range_inclusive.
    rewrite (range_cons 0) by lia. simpl. by rewrite (repr_entries _ _ Hr).
  - rewrite <-(repr_get_entries l es _ Hr). f_equal. lia.
Qed.

(** ** Running the file operations when no call fails *)

Lemma next_io_ok l : io (disk l) = [] -> next_io l = (Ok IoOk, l).
Proof. unfold next_io. by intros ->. Qed.

Lemma io_call_ok l : io (disk l) = [] -> io_call l = (Ok tt, l).
Proof. intros Hio. unfold io_call. by rewrite (bind_run _ _ _ _ _ (next_io_ok _ Hio)). Qed.

(** The log with the contents of one file replaced. *)
Definition put_file (name text : string) (l : RaftLog) : RaftLog :=
  with_disk (mkDir (<[name := text]> (files (disk l))) (io (disk l))) l.

Lemma fs_write_ok l name text : io (disk l) = [] -> fs_write name text l = (Ok tt, put_file name text l).
Proof. intros Hio. unfold fs_write. by rewrite (bind_run _ _ _ _ _ (next_io_ok _ Hio)). Qed.

Lemma file_append_ok l name text old : io (disk l) = [] -> files (disk l) !! name = Some old ->
  file_append name text l = (Ok tt, put_file name (String.append old text) l).
Proof.
  intros Hio Hold. unfold file_append. rewrite (bind_run _ _ _ _ _ (next_io_ok _ Hio)).
  rewrite bind_gets, Hold. done.
Qed.

Lemma fs_read_ok l name : io (disk l) = [] -> fs_read name l = (Ok (files (disk l) !! name), l).
Proof. intros Hio. unfold fs_read. by rewrite (bind_run _ _ _ _ _ (io_call_ok _ Hio)). Qed.

Lemma open_append_ok l text : io (disk l) = [] -> files (disk l) !! log_path = Some text ->
  open_append l = (Ok tt, with_log_file (Some Linked) l).
Proof.
  intros Hio Htext. unfold open_append. rewrite (bind_run _ _ _ _ _ (io_call_ok _ Hio)).
  rewrite bind_modify, Htext, decide_True by done. destruct l as [? ? ? ? ? []]. done.
Qed.

Lemma flush_file_ok l : io (disk l) = [] -> flush_file l = (Ok tt, l).
Proof.
  intros Hio. unfold flush_file. rewrite bind_gets.
  destruct (log_file l); [by apply io_call_ok|done].
Qed.

(** ** The text of a log file *)

Section sync.
Context {H : Heapless} {JD : SerdeJson DiskLogEntry} {JS : SerdeJson PersistentState}.

Definition line_of (e : LogEntry) : string := default "" (to_string (entry_to_disk e)).

Definition text_of (ws : list LogEntry) : string :=
  foldr (fun e text => String.append (line_of e) (String newline text)) "" ws.

(** What reading the lines of a file does to the entries and the last index. *)
Definition replay (acc : gmap N LogEntry * N) (ws : list LogEntry) : gmap N LogEntry * N :=
  foldl (fun '(m, last) e => (<[index e := e]> m, N.max last (index e))) acc ws.

(** The persistent state a restart would read; [None] if the file is unreadable. *)
Definition load_state (fs : gmap string string) : option PersistentState :=
  match fs !! state_path with
  | None => Some PersistentState_default
  | Some text => from_str text
  end.

Record synced (l : RaftLog) (ws : list LogEntry) : Prop := {
  sync_handle : log_file l = Some Linked;
  sync_text : files (disk l) !! log_path = Some (text_of ws);
  sync_wf : Forall wf_entry ws;
  sync_replay : replay (∅, 0) ws = (entries l, last_index l);
  sync_state : load_state (files (disk l)) = Some (persistent_state l);
}.

Record log_inv (l : RaftLog) (es : list LogEntry) : Prop := {
  inv_repr : log_repr l es;
  inv_wf : Forall wf_entry es;
  inv_synced : exists ws, synced l ws;
  inv_io : io (disk l) = [];
}.

Lemma append_string_assoc (a b c : string) :
  String.append (String.append a b) c = String.append a (String.append b c).
Proof. induction a as [|c' a IH]; [done|]. exact (f_equal (String c') IH). Qed.

Lemma text_of_app ws ws' : text_of (ws ++ ws') = String.append (text_of ws) (text_of ws').
Proof.
  induction ws as [|e ws IH]; [done|]. rewrite <-app_comm_cons. cbn [text_of foldr].
  fold (text_of (ws ++ ws')) (text_of ws). by rewrite IH, append_string_assoc.
Qed.

Lemma text_of_snoc ws e :
  text_of (ws ++ [e]) = String.append (text_of ws) (String.append (line_of e) (String newline "")).
Proof. apply text_of_app. Qed.

Lemma replay_app acc ws ws' : replay acc (ws ++ ws') = replay (replay acc ws) ws'.
Proof. apply foldl_app. Qed.

(** Replaying a consecutively numbered list gives a log that represents it. *)
Lemma replay_consecutive es : consecutive 0 es ->
  forall l, replay (∅, 0) es = (entries l, last_index l) -> log_repr l es.
Proof.
  induction es as [|e es IH] using rev_ind; intros Hc l Hrep.
  - injection Hrep as Hm Hlast. split; [done| |done]. intros i. rewrite <-Hm.
    unfold lookup1. by case_decide.
  - rewrite replay_app in Hrep. destruct (replay (∅, 0) es) as [m last] eqn:E.
    simpl in Hrep. injection Hrep as Hm Hlast.
    assert (log_repr (with_entries m (with_last_index last l)) es) as Hr.
    { apply IH; [|done]. intros k e' Hk. apply Hc. by apply lookup_app_l_Some. }
    assert (index e = N.of_nat (S (length es))) as He.
    { apply (Hc (length es)). by apply list_lookup_middle. }
    replace (es ++ [e]) with (spec_overwrite es (length es) [e]).
    + eapply repr_insert; [exact Hr|done..].
    + unfold spec_overwrite. by rewrite take_ge, drop_ge by (simpl; lia).
Qed.

Context {HL : HeaplessLaws H} {JDR : JsonRoundtrip DiskLogEntry JD}
  {JDL : JsonOneLine DiskLogEntry JD} {JSR : JsonRoundtrip PersistentState JS}.

(** ** Round trip of the disk format *)

Lemma disk_entry_entry (e : LogEntry) : wf_entry e -> disk_entry_to_log_entry (entry_to_disk e) = e.
Proof.
  unfold wf_entry, disk_entry_to_log_entry, entry_to_disk.
  destruct e as [i t [key value|key|]]; simpl; [intros [Hk Hv]|intros Hk|done].
  - by rewrite string_from_fits, vec_from_fits.
  - by rewrite string_from_fits.
Qed.

Lemma line_of_json e : to_string (entry_to_disk e) = Some (line_of e).
Proof. unfold line_of. by destruct (json_total (entry_to_disk e)) as [s ->]. Qed.

Lemma lines_line s t : no_newline s -> lines (String.append s (String newline t)) = s :: lines t.
Proof.
  induction s as [|c s IH]; [done|]. intros (Hnl & Hcr & Hs).
  change (String.append (String c s) (String newline t))
    with (String c (String.append s (String newline t))). cbn [lines].
  rewrite decide_False by done. rewrite decide_False by naive_solver. by rewrite IH.
Qed.

Lemma lines_text ws : lines (text_of ws) = line_of <$> ws.
Proof.
  induction ws as [|e ws IH]; [done|]. simpl.
  rewrite lines_line by (eapply json_line; apply line_of_json). by rewrite IH.
Qed.

Lemma load_line_ok e l : wf_entry e -> load_line (line_of e) l =
  (Ok tt, with_entries (<[index e := e]> (entries l)) (with_last_index (N.max (last_index l) (index e)) l)).
Proof.
  intros Hwf. unfold load_line.
  rewrite decide_False by (eapply json_line; apply line_of_json).
  rewrite (json_from_to _ _ (line_of_json e)), bind_from_Some.
  by rewrite disk_entry_entry.
Qed.

Lemma load_lines_ok ws l : Forall wf_entry ws -> for_each (line_of <$> ws) load_line l =
  (Ok tt, with_entries (replay (entries l, last_index l) ws).1
            (with_last_index (replay (entries l, last_index l) ws).2 l)).
Proof.
  revert l. induction ws as [|e ws IH]; intros l Hwf; [by destruct l|].
  apply Forall_cons in Hwf as [He Hwf]. rewrite fmap_cons. simpl for_each.
  rewrite (bind_run _ _ _ _ _ (load_line_ok e l He)). by rewrite IH.
Qed.

(** ** The methods preserve the invariant *)

Lemma save_state_ok l : io (disk l) = [] -> exists text, from_str text = Some (persistent_state l) /\
  save_state l = (Ok tt, put_file state_path text l).
Proof.
  intros Hio. unfold save_state. rewrite bind_gets.
  destruct (json_total (persistent_state l)) as [text Htext]. exists text.
  split; [by apply json_from_to|]. rewrite Htext, bind_from_Some.
  by apply fs_write_ok.
Qed.

Lemma save_state_inv l es : log_repr l es -> Forall wf_entry es -> io (disk l) = [] ->
  (exists l0 ws, synced l0 ws /\ l = with_persistent_state (persistent_state l) l0) ->
  exists l', save_state l = (Ok tt, l') /\ log_inv l' es /\
    persistent_state l' = persistent_state l.
Proof.
  intros [Hlast Hent Hidx] Hwf Hio (l0 & ws & [] & Hl).
  destruct (save_state_ok l Hio) as (text & Hjson & Hrun).
  eexists. split; [exact Hrun|]. split; [|done]. split; [done..| |done].
  exists ws. rewrite Hl in *. simpl in *. split; simpl; try done.
  - by rewrite lookup_insert_ne.
  - unfold load_state. by rewrite lookup_insert_eq.
Qed.

Lemma set_current_term_inv l es t : log_inv l es -> exists l',
  set_current_term t l = (Ok tt, l') /\ log_inv l' es /\
  persistent_state l' = mkPersistent t None.
Proof.
  intros [Hr Hwf [ws Hs] Hio]. unfold set_current_term. rewrite bind_modify.
  apply save_state_inv; [by destruct Hr|done..|]. by exists l, ws.
Qed.

Lemma set_voted_for_inv l es c : log_inv l es -> exists l',
  set_voted_for c l = (Ok tt, l') /\ log_inv l' es /\
  persistent_state l' = mkPersistent (log_current_term l) (string_from ID_CAPACITY <$> c).
Proof.
  intros [Hr Hwf [ws Hs] Hio]. unfold set_voted_for. rewrite bind_modify.
  apply save_state_inv; [by destruct Hr|done..|]. by exists l, ws.
Qed.

Lemma write_entry_ok l ws e : synced l ws -> io (disk l) = [] ->
  write_entry e l = (Ok tt, put_file log_path (text_of (ws ++ [e])) l).
Proof.
  intros [Hh Htext _ _ _] Hio. unfold write_entry. rewrite bind_gets, Hh, line_of_json.
  rewrite bind_from_Some, text_of_snoc. by apply file_append_ok.
Qed.

Lemma synced_insert l ws e : synced l ws -> wf_entry e ->
  forall l', l' = with_entries (<[index e := e]> (entries l))
    (with_last_index (N.max (last_index l) (index e)) (put_file log_path (text_of (ws ++ [e])) l)) ->
  synced l' (ws ++ [e]).
Proof.
  intros [] He l' ->. split; simpl; try done.
  - by rewrite lookup_insert_eq.
  - by apply Forall_app_2; [|apply Forall_singleton].
  - rewrite replay_app, sync_replay0. done.
  - unfold load_state in *. by rewrite lookup_insert_ne.
Qed.

Lemma append_entry_inv l es p e : log_inv l es -> wf_entry e -> (p <= length es)%nat ->
  index e = N.of_nat (S p) -> exists l', append_entry e l = (Ok tt, l') /\
  log_inv l' (spec_overwrite es p [e]) /\ persistent_state l' = persistent_state l.
Proof.
  intros [Hr Hwf [ws Hs] Hio] He Hp Hidx. unfold append_entry.
  rewrite (bind_run _ _ _ _ _ (write_entry_ok l ws e Hs Hio)).
  eexists. split; [done|]. split; [|done]. split; [|..|done].
  - eapply repr_insert; done.
  - unfold spec_overwrite. by apply Forall_app_2; [apply Forall_take|apply Forall_cons; auto using Forall_drop].
  - exists (ws ++ [e]). by eapply synced_insert.
Qed.

Lemma append_loop_inv new : forall l es p, log_inv l es -> Forall wf_entry new ->
  (p <= length es)%nat -> consecutive p new -> exists l', for_each new append_entry l = (Ok tt, l') /\
  log_inv l' (spec_overwrite es p new) /\ persistent_state l' = persistent_state l.
Proof.
  induction new as [|e new IH]; intros l es p Hinv Hwf Hp Hc.
  - exists l. split; [done|]. split; [|done]. unfold spec_overwrite.
    by rewrite Nat.add_0_r, app_nil_l, take_drop.
  - apply consecutive_cons in Hc as [He Hc]. apply Forall_cons in Hwf as [Hwe Hwf].
    destruct (append_entry_inv l es p e Hinv Hwe Hp He) as (l1 & Hrun & Hinv1 & Hp1).
    destruct (IH l1 _ (S p) Hinv1 Hwf) as (l2 & Hrun2 & Hinv2 & Hp2).
    { rewrite length_spec_overwrite by done. simpl. lia. }
    { done. }
    exists l2. simpl. rewrite (bind_run _ _ _ _ _ Hrun). split; [done|].
    rewrite <-spec_overwrite_cons by done. split; [done|congruence].
Qed.

Lemma append_entries_inv l es p new : log_inv l es -> Forall wf_entry new ->
  (p <= length es)%nat -> consecutive p new -> exists l', append_entries new l = (Ok tt, l') /\
  log_inv l' (spec_overwrite es p new) /\ persistent_state l' = persistent_state l.
Proof.
  intros Hinv Hwf Hp Hc. destruct (append_loop_inv new l es p) as (l' & Hrun & Hinv' & Hp'); [done..|].
  exists l'. unfold append_entries. rewrite (bind_run _ _ _ _ _ Hrun).
  split; [|done]. apply flush_file_ok. by destruct Hinv'.
Qed.

Lemma append_inv l es t c : log_inv l es -> wf_command c -> last_index l < u64_max -> exists l',
  append t c l = (Ok (last_index l + 1), l') /\ log_inv l' (spec_append es t c) /\
  persistent_state l' = persistent_state l.
Proof.
  intros [Hr Hwf [ws Hs] Hio] Hc Hmax. unfold append. rewrite bind_gets, u64_add_small by lia.
  set (e := mkEntry (last_index l + 1) t c).
  assert (index e = N.of_nat (S (length es))) as Hidx.
  { simpl. rewrite (repr_last _ _ Hr). lia. }
  cbv zeta. fold e. rewrite (bind_run _ _ _ _ _ (write_entry_ok l ws e Hs Hio)).
  rewrite (bind_run _ _ _ tt _ (flush_file_ok (put_file _ _ l) Hio)).
  eexists. split; [done|]. split; [|done]. rewrite spec_append_overwrite, <-Hidx.
  split; [|..|done].
  - eapply repr_insert; try done. simpl. lia.
  - unfold spec_overwrite. by apply Forall_app_2; [apply Forall_take|apply Forall_cons; auto using Forall_drop].
  - exists (ws ++ [e]). eapply synced_insert; [done..|]. simpl.
    by replace (N.max (last_index l) (last_index l + 1)) with (last_index l + 1) by lia.
Qed.

(** ** Truncation *)

Lemma rewrite_loop l ws (idxs : list N) es :
  io (disk l) = [] -> Forall2 (fun i e => entries l !! i = Some e) idxs es ->
  for_each idxs rewrite_entry (put_file temp_path (text_of ws) l) =
    (Ok tt, put_file temp_path (text_of (ws ++ es)) l).
Proof.
  intros Hio HF. revert ws. induction HF as [|i e idxs es Hi HF IH]; intros ws.
  - by rewrite app_nil_r.
  - simpl for_each. erewrite bind_run.
    2: { unfold rewrite_entry. rewrite bind_gets.
         change (entries (put_file temp_path (text_of ws) l)) with (entries l). rewrite Hi.
         rewrite line_of_json, bind_from_Some. apply file_append_ok; [done|].
         apply lookup_insert_eq. }
    replace (put_file temp_path _ _) with (put_file temp_path (text_of (ws ++ [e])) l).
    + rewrite IH. by rewrite <-(assoc_L (++)).
    + unfold put_file. simpl. by rewrite insert_insert_eq, text_of_snoc.
Qed.

Lemma repr_range l es : log_repr l es ->
  Forall2 (fun i e => entries l !! i = Some e) (range 1 (last_index l + 1)) es.
Proof.
  intros Hr. apply Forall2_same_length_lookup_2.
  - unfold range. rewrite length_fmap, length_seq, (repr_last _ _ Hr). lia.
  - intros k i e Hi He. rewrite range_lookup in Hi. case_decide; simplify_eq.
    rewrite (repr_entries _ _ Hr), <-He, <-lookup1_S. f_equal. lia.
Qed.

Lemma repr_replay l es : log_repr l es -> replay (∅, 0) es = (entries l, last_index l).
Proof.
  intros Hr. destruct (replay (∅, 0) es) as [m last] eqn:E.
  assert (log_repr (with_entries m (with_last_index last l)) es) as Hr'.
  { eapply replay_consecutive; [by destruct Hr|done]. }
  f_equal.
  - apply map_eq. intros i. by rewrite (repr_entries _ _ Hr), <-(repr_entries _ _ Hr').
  - by rewrite (repr_last _ _ Hr), <-(repr_last _ _ Hr').
Qed.

Lemma rename_temp_ok l text : io (disk l) = [] -> files (disk l) !! temp_path = Some text ->
  rename_temp l = (Ok tt, with_log_file ((fun _ => Unlinked) <$> log_file l)
    (with_disk (mkDir (<[log_path := text]> (delete temp_path (files (disk l)))) []) l)).
Proof.
  intros Hio Htext. unfold rename_temp. rewrite (bind_run _ _ _ _ _ (io_call_ok _ Hio)).
  rewrite bind_modify, Htext, Hio. done.
Qed.

Lemma truncate_from_inv l es i : log_inv l es -> 1 <= i <= last_index l + 1 -> exists l',
  truncate_from i l = (Ok tt, l') /\ log_inv l' (spec_truncate es i) /\
  persistent_state l' = persistent_state l.
Proof.
  intros [Hr Hwf [ws Hs] Hio] Hi. unfold truncate_from, u64_saturating_sub. rewrite !bind_modify.
  set (l1 := with_last_index _ _).
  assert (log_repr l1 (spec_truncate es i)) as Hr1 by by eapply repr_truncate.
  assert (io (disk l1) = []) as Hio1 by done.
  rewrite (bind_run _ _ _ _ _ (io_call_ok _ Hio1)). unfold set_file. rewrite bind_modify.
  pose proof (repr_range _ _ Hr1) as HF. replace (last_index l1 + 1) with i in HF by (simpl; lia).
  rewrite (bind_run _ _ _ _ _ (rewrite_loop l1 [] _ _ Hio1 HF)). rewrite app_nil_l.
  unfold flush. rewrite (bind_run _ _ _ _ _ (io_call_ok (put_file _ _ l1) Hio1)).
  erewrite bind_run; [|apply rename_temp_ok; [exact Hio1|apply lookup_insert_eq]].
  erewrite open_append_ok; [|done|apply lookup_insert_eq].
  eexists. split; [done|]. split; [|done].
  pose proof (sync_state _ _ Hs) as Hst. pose proof (repr_replay _ _ Hr1) as Hrep.
  pose proof (Forall_take _ (N.to_nat i - 1)%nat _ Hwf) as Hwf1.
  split; [by destruct Hr1|done| |done]. exists (spec_truncate es i).
  split; simpl; try done.
  - by rewrite lookup_insert_eq.
  - unfold load_state in *. by rewrite lookup_insert_ne, lookup_delete_ne, lookup_insert_ne.
Qed.

(** ** Recovery *)

Lemma load_state_ok l : io (disk l) = [] ->
  load_state (files (disk l)) = Some (persistent_state l) ->
  forall st0, when (bool_decide (is_Some (files (disk l) !! state_path)))
    (content <- fs_read state_path ;;
     state <- from_result SerdeError (content ≫= from_str) ;;
     modify (with_persistent_state state))%raft
    (mkLog st0 ∅ PersistentState_default 0 None (disk l)) =
  (Ok tt, mkLog st0 ∅ (persistent_state l) 0 None (disk l)).
Proof.
  unfold load_state. intros Hio Hst st0.
  destruct (files (disk l) !! state_path) as [text|] eqn:E; simpl; [|injection Hst as Hst; by rewrite <-Hst].
  erewrite bind_run; [|by apply fs_read_ok]. simpl. rewrite E. simpl. by rewrite Hst.
Qed.

Lemma recovery_ok l es st0 : log_inv l es -> RaftLog_new st0 (disk l) =
  Ok (mkLog st0 (entries l) (persistent_state l) (last_index l) (Some Linked) (disk l)).
Proof.
  intros [_ _ [ws [_ Htext Hwf Hrep Hst]] Hio]. unfold RaftLog_new, load_from_disk.
  erewrite bind_run; [|by apply io_call_ok]. rewrite bind_gets. simpl disk at 1.
  rewrite (bind_run _ _ _ _ _ (load_state_ok l Hio Hst st0)), bind_gets. simpl disk at 1.
  rewrite (bool_decide_true (is_Some (_ !! log_path))) by by eexists.
  erewrite bind_run.
  2: { unfold when. erewrite bind_run; [|by apply fs_read_ok]. cbn [disk]. rewrite Htext.
       change (default "" (Some (text_of ws))) with (text_of ws). rewrite lines_text. by apply load_lines_ok. }
  erewrite open_append_ok; [|done..]. simpl. by rewrite Hrep.
Qed.
End sync.
