(* ===== verification/StateMachine.v ===== *)
(** * The replicated state machine: [raft/src/state_machine.rs]

    A key-value store that applies log entries, each at most once.  [serde_json::Value]
    and [bincode] are interfaces ([JsonValue], [Bincode]). *)

From Stdlib Require Import Init.Byte Sorting.Sorted.
From S2P Require Import Prelude Heapless Protocol HashMap.
Local Open Scope N_scope.

Record StateMachine := mkSM { data : gmap string (list byte); sm_last_applied : N }.

Inductive ApplyResult := ApplyOk | ApplyValue (value : option (list byte)) | ApplyNoop.

(** [StateMachine::new] and [Default] *)
Definition StateMachine_new : StateMachine := mkSM ∅ 0.
Definition StateMachine_default : StateMachine := StateMachine_new.

Definition apply (entry : LogEntry) (self : StateMachine) : ApplyResult * StateMachine :=
  if index entry <=? sm_last_applied self then (ApplyOk, self)
  else
    let '(result, data') :=
      match command entry with
      | Put key value => (ApplyOk, <[key := value]> (data self))
      | Delete key => (ApplyOk, delete key (data self))
      | Noop => (ApplyNoop, data self)
      end in
    (result, mkSM data' (index entry)).

Definition sm_get (key : string) (self : StateMachine) : option (list byte) := data self !! key.

Definition keys {O : HashOrder} (self : StateMachine) : list string := hash_keys (data self).

(** ** Messages *)

(** [str::strip_prefix] *)
Fixpoint strip_prefix (p s : string) : option string :=
  match p, s with
  | EmptyString, _ => Some s
  | String c p', String d s' => if decide (c = d) then strip_prefix p' s' else None
  | String _ _, EmptyString => None
  end.

Definition u128_max : N := 2 ^ 128 - 1.

Fixpoint parse_digits (acc : N) (s : string) : option N :=
  match s with
  | EmptyString => Some acc
  | String c s' =>
      let d := N_of_ascii c in
      if (48 <=? d) && (d <=? 57) then
        let v := acc * 10 + (d - 48) in
        if v <=? u128_max then parse_digits v s' else None
      else None
  end.

(** [str::parse::<u128>]: an optional plus sign, then at least one digit. *)
Definition parse_u128 (s : string) : option N :=
  match s with
  | EmptyString => None
  | String c s' =>
      if decide (c = "+"%char) then (if decide (s' = "") then None else parse_digits 0 s')
      else parse_digits 0 s
  end.

(** [serde_json::Value] and [serde_json::from_slice] into it. *)
Class JsonValue (Value : Type) := { value_from_slice : list byte -> option Value }.

(** [sort_by(|a, b| b.0.cmp(&a.0))]: stable, largest key first. *)
Fixpoint insert_desc {A} (x : N * A) (l : list (N * A)) : list (N * A) :=
  match l with
  | [] => [x]
  | y :: l' => if y.1 <=? x.1 then x :: y :: l' else y :: insert_desc x l'
  end.

Definition sort_desc {A} (l : list (N * A)) : list (N * A) := foldr insert_desc [] l.

Section messages.
Context {O : HashOrder} {Value : Type} {JV : JsonValue Value}.

Definition parse_message (kv : string * list byte) : option (N * Value) :=
  rest ← strip_prefix "_msg:" kv.1;
  timestamp ← parse_u128 rest;
  msg ← value_from_slice kv.2;
  Some (timestamp, msg).

Definition get_messages (limit : N) (self : StateMachine) : list Value :=
  let messages := omap parse_message
    (filter (fun kv => is_Some (strip_prefix "_msg:" kv.1)) (hash_iter (data self))) in
  (take (N.to_nat limit) (sort_desc messages)).*2.
End messages.

(** ** Snapshots *)

(** [bincode] on the data of the state machine. *)
Class Bincode := {
  serialize : gmap string (list byte) -> option (list byte);
  deserialize : list byte -> option (gmap string (list byte));
}.

Class BincodeLaws (B : Bincode) : Prop := {
  bincode_total m : is_Some (serialize m);
  bincode_roundtrip m bs : serialize m = Some bs -> deserialize bs = Some m;
}.

Section snapshots.
Context {B : Bincode}.

Definition snapshot (self : StateMachine) : list byte := default [] (serialize (data self)).

Definition restore (snapshot : list byte) (last_index : N) : M StateMachine unit := (
  data' <- from_result SerdeError (deserialize snapshot) ;;
  modify (fun self => mkSM data' (sm_last_applied self)) ;;;
  modify (fun self => mkSM (data self) last_index))%raft.
End snapshots.

(** ** The specification: the store after a sequence of commands *)

Definition exec_command (m : gmap string (list byte)) (c : Command) : gmap string (list byte) :=
  match c with
  | Put key value => <[key := value]> m
  | Delete key => delete key m
  | Noop => m
  end.

Definition exec (cs : list Command) : gmap string (list byte) := foldl exec_command ∅ cs.

(** [self] is the store after the first [n] entries of the log [es]. *)
Definition reflects (self : StateMachine) (es : list LogEntry) (n : nat) : Prop :=
  data self = exec (command <$> take n es) /\ sm_last_applied self = N.of_nat n /\
  (n <= length es)%nat.

Definition apply_all (es : list LogEntry) (self : StateMachine) : StateMachine :=
  foldl (fun sm e => (apply e sm).2) self es.

(** ** Lemmas *)

Lemma apply_stale entry sm : index entry <= sm_last_applied sm -> apply entry sm = (ApplyOk, sm).
Proof. intros H. unfold apply. by rewrite (proj2 (N.leb_le _ _) H). Qed.

Lemma apply_fresh entry sm : sm_last_applied sm < index entry ->
  (apply entry sm).2 = mkSM (exec_command (data sm) (command entry)) (index entry).
Proof.
  intros H. unfold apply. rewrite (proj2 (N.leb_gt _ _) H). by destruct (command entry).
Qed.

Lemma apply_last_applied entry sm :
  sm_last_applied (apply entry sm).2 = N.max (sm_last_applied sm) (index entry).
Proof.
  destruct (decide (index entry <= sm_last_applied sm)).
  - rewrite apply_stale by done. simpl. lia.
  - rewrite apply_fresh by lia. simpl. lia.
Qed.

Lemma reflects_step sm es n e : reflects sm es n -> es !! n = Some e -> index e = N.of_nat (S n) ->
  reflects (apply e sm).2 es (S n).
Proof.
  intros (Hd & Hl & _) He Hi. rewrite apply_fresh by lia.
  split_and!; simpl; [|lia|apply lookup_lt_Some in He; lia].
  erewrite take_S_r by done. unfold exec. by rewrite fmap_app, foldl_app, Hd.
Qed.

(** A log that agrees on the first [n] entries reflects the same store. *)
Lemma reflects_prefix sm es es' n : reflects sm es n -> take n es = take n es' ->
  (n <= length es')%nat -> reflects sm es' n.
Proof. intros (Hd & Hl & _) Heq Hn. unfold reflects. by rewrite <-Heq. Qed.

(** Two stores that reflect the same number of entries of logs with a common prefix agree. *)
Lemma reflects_agree sm1 sm2 es1 es2 n : reflects sm1 es1 n -> reflects sm2 es2 n ->
  take n es1 = take n es2 -> sm1 = sm2.
Proof.
  intros (Hd1 & Hl1 & _) (Hd2 & Hl2 & _) Heq. destruct sm1, sm2; simpl in *. congruence.
Qed.

Lemma insert_desc_perm {A} (x : N * A) l : insert_desc x l ≡ₚ x :: l.
Proof.
  induction l as [|y l IH]; simpl; [done|]. destruct (_ <=? _); [done|].
  rewrite IH. constructor.
Qed.

Lemma sort_desc_perm {A} (l : list (N * A)) : sort_desc l ≡ₚ l.
Proof. induction l; simpl; [done|]. by rewrite insert_desc_perm, IHl. Qed.

Definition desc {A} (x y : N * A) : Prop := y.1 <= x.1.

Lemma insert_desc_sorted {A} (x : N * A) l : StronglySorted desc l -> StronglySorted desc (insert_desc x l).
Proof.
  induction 1 as [|y l Hl IH Hy]; simpl; [by repeat constructor|].
  destruct (y.1 <=? x.1) eqn:E.
  - apply N.leb_le in E. repeat constructor; try done.
    eapply Forall_impl; [done|]. unfold desc. intros. lia.
  - apply N.leb_gt in E. constructor; [done|]. rewrite insert_desc_perm.
    constructor; [unfold desc; lia|done].
Qed.

Lemma sort_desc_sorted {A} (l : list (N * A)) : StronglySorted desc (sort_desc l).
Proof. induction l; simpl; [constructor|by apply insert_desc_sorted]. Qed.

Lemma strip_prefix_append p s : strip_prefix p (String.append p s) = Some s.
Proof.
  induction p as [|c p IH]; [done|]. change (String.append (String c p) s)
    with (String c (String.append p s)). simpl. by rewrite decide_True.
Qed.
