(* ===== verification/StoreProps.v ===== *)
(** * Properties of the store *)

From Stdlib Require Import Init.Byte Sorting.Sorted.
From stdpp Require Import countable.
From S2P Require Import Prelude Heapless Protocol Serde HashMap Log LogFacts StateMachine.
Local Open Scope N_scope.

(** ** Applying a log *)

Lemma apply_all_reflects es : consecutive 0 es -> forall k, (k <= length es)%nat ->
  reflects (apply_all (take k es) StateMachine_new) es k.
Proof.
  intros Hc k. induction k as [|k IH]; intros Hk; [split_and!; simpl; [done..|lia]|].
  assert (is_Some (es !! k)) as [e He] by (apply lookup_lt_is_Some; lia).
  erewrite take_S_r by done. unfold apply_all. rewrite foldl_app. simpl.
  eapply reflects_step; [apply IH; lia|done|]. by apply Hc in He.
Qed.

Lemma apply_all_stale es sm : Forall (fun e => index e <= sm_last_applied sm) es -> apply_all es sm = sm.
Proof.
  induction 1 as [|e es He _ IH]; [done|]. unfold apply_all in *. simpl.
  rewrite apply_stale by done. exact IH.
Qed.

(** The list that [get_messages] cuts: the messages of the store, the largest key first. *)
Lemma messages_spec {O : HashOrder} {OL : HashOrderLaws O} {Value} {JV : JsonValue Value}
    limit sm :
  exists l : list (N * Value), get_messages limit sm = (take (N.to_nat limit) l).*2 /\
    StronglySorted (fun x y => y.1 <= x.1) l /\
    (forall t v, (t, v) ∈ l <-> exists k bs, data sm !! k = Some bs /\ parse_message (k, bs) = Some (t, v)) /\
    length l = size (filter (fun kv => is_Some (parse_message kv)) (data sm)).
Proof.
  unfold get_messages. set (ms := omap _ _). exists (sort_desc ms). split; [done|].
  split; [apply sort_desc_sorted|].
  assert (forall kv : string * list byte, is_Some (parse_message kv) ->
    is_Some (strip_prefix "_msg:" kv.1)) as Hpre.
  { intros kv. unfold parse_message. destruct (strip_prefix _ _); [by eexists|by intros []]. }
  split.
  - intros t v. rewrite sort_desc_perm. unfold ms. rewrite list_elem_of_omap. split.
    + intros ([k bs] & [_ Hin]%list_elem_of_filter & Hp). exists k, bs.
      by apply elem_of_hash_iter in Hin.
    + intros (k & bs & Hd & Hp). exists (k, bs). split; [|done]. apply list_elem_of_filter.
      split; [apply Hpre; by eexists|by apply elem_of_hash_iter].
  - rewrite sort_desc_perm, <-length_hash_iter, hash_iter_filter. unfold ms.
    induction (hash_iter (data sm)) as [|kv l IH]; [done|]. rewrite !filter_cons.
    destruct (decide (is_Some (parse_message kv))) as [Hp|Hp].
    + rewrite decide_True by auto. simpl. destruct Hp as [x ->]. simpl. f_equal. exact IH.
    + case_decide; simpl; [|done]. destruct (parse_message kv); [by destruct Hp|done].
Qed.

(** ** Instances, for evaluating the model *)

(** A JSON value is a run of the byte [v], by its length. *)
Definition ref_value : JsonValue nat := {|
  value_from_slice bs := if decide (Forall (.= x76) bs) then Some (length bs) else None
|}.

Definition ref_bincode : Bincode := {|
  serialize m := Some (String.list_byte_of_string (digits_of_pos (encode m)));
  deserialize bs := pos_of_digits (String.string_of_list_byte bs) ≫= decode;
|}.

#[global] Instance ref_bincode_laws : BincodeLaws ref_bincode.
Proof.
  split; [by eexists|]. intros m bs [= <-]. simpl.
  rewrite String.string_of_list_byte_of_string, pos_of_digits_of_pos. apply decode_encode.
Qed.

(** ** Properties *)

(** C33: The store is the result of the commands of the entries applied, each of which counts
    once however often it is presented. *)
Theorem store_applies_once es k sm : consecutive 0 es -> (k <= length es)%nat ->
  sm = apply_all (take k es) StateMachine_new ->
  data sm = exec (command <$> take k es) /\ sm_last_applied sm = N.of_nat k /\
  apply_all (take k es) sm = sm /\
  apply_all es sm = apply_all es StateMachine_new.
Proof.
  intros Hc Hk ->. destruct (apply_all_reflects es Hc k Hk) as (Hd & Hl & _).
  assert (apply_all (take k es) (apply_all (take k es) StateMachine_new) =
    apply_all (take k es) StateMachine_new) as Hagain.
  { apply apply_all_stale, Forall_lookup. intros i e [He Hi]%lookup_take_Some.
    rewrite Hl. apply Hc in He. lia. }
  split_and!; try done.
  rewrite <-(take_drop k es) at 1 3. unfold apply_all in *. rewrite !foldl_app.
  f_equal. exact Hagain.
Qed.

Lemma store_applies_once_witness :
  let es := [mkEntry 1 1 (Put "a" [x61]); mkEntry 2 1 (Put "b" []); mkEntry 3 2 (Delete "a")] in
  let sm := apply_all (take 2 es) StateMachine_new in
  apply_all (take 2 es) sm = sm /\ data (apply_all es sm) = {["b" := []]}.
Proof.
  intros es sm. destruct (store_applies_once es 2 sm) as (_ & _ & H1 & H2).
  - unfold es. concrete_entries.
  - simpl. lia.
  - reflexivity.
  - split; [exact H1|]. rewrite H2. vm_compute. reflexivity.
Defined.

(** [get_messages] returns the newest [limit] messages of the store, newest first, each as often
    as it is stored, and nothing else. *)
Theorem messages_newest_first {O : HashOrder} {OL : HashOrderLaws O} {Value} {JV : JsonValue Value}
    limit sm :
  exists l : list (N * Value), get_messages limit sm = (take (N.to_nat limit) l).*2 /\
    StronglySorted (fun x y => y.1 <= x.1) l /\
    (forall t v, (t, v) ∈ l <-> exists k bs, data sm !! k = Some bs /\ parse_message (k, bs) = Some (t, v)) /\
    length l = size (filter (fun kv => is_Some (parse_message kv)) (data sm)).
Proof. apply messages_spec. Qed.

Definition message_store : StateMachine :=
  mkSM {["_msg:5" := [x76]; "_msg:20" := [x76; x76]; "_msg:x" := []; "other" := [x76]; "_msg:7" := [x61]]} 9.

Lemma messages_newest_first_witness : exists l : list (N * nat),
  @get_messages ref_hash_order nat ref_value 1 message_store = (take 1 l).*2 /\
  length l = 2%nat /\ (20, 2%nat) ∈ l.
Proof.
  destruct (@messages_newest_first ref_hash_order _ nat ref_value 1 message_store) as (l & Hg & _ & Hin & Hl).
  exists l. split; [exact Hg|]. split; [rewrite Hl; vm_compute; reflexivity|].
  apply Hin. exists "_msg:20", [x76; x76]. split; vm_compute; reflexivity.
Defined.

(** A store restored from a snapshot is the store the snapshot was taken of. *)
Theorem snapshot_roundtrip {B : Bincode} {BL : BincodeLaws B} sm sm' :
  restore (snapshot sm) (sm_last_applied sm) sm' = (Ok tt, sm).
Proof.
  unfold restore, snapshot. destruct (bincode_total (data sm)) as [bs Hbs]. rewrite Hbs. simpl.
  rewrite (bincode_roundtrip _ _ Hbs), bind_from_Some, !bind_modify. by destruct sm.
Qed.

Lemma snapshot_roundtrip_witness : @restore ref_bincode (@snapshot ref_bincode message_store) 9
  (mkSM {["stale" := []]} 3) = (Ok tt, message_store).
Proof. apply (@snapshot_roundtrip ref_bincode _ message_store). Defined.
