(* ===== verification/Config.v ===== *)
(** * Configuration: [raft/src/config.rs]

    The configuration structs, the [#[serde(default)]] functions, and the constructor
    used by tests.  The TOML parser is an external crate: what it leaves to the program
    is a value for every field or the absence of it, which [fill_...] turns into the
    structs the way the [#[serde(default)]] attributes say. *)

From stdpp Require Import pretty.
From S2P Require Import Prelude.
Local Open Scope N_scope.

Record ServerConfig := mkServer {
  s_node_id : string; listen_addr : string; s_data_dir : string; log_level : string }.

Record TimingConfig := mkTiming {
  heartbeat_interval_ms : N;
  election_timeout_min_ms : N;
  election_timeout_max_ms : N;
  rpc_timeout_ms : N }.

Record PeerConfig := mkPeerConfig { pc_id : string; pc_address : string }.

Record EbpfConfig := mkEbpf { enabled : bool; interface : string }.

Record Config := mkConfig {
  server : ServerConfig; timing : TimingConfig; cfg_peers : list PeerConfig; ebpf : EbpfConfig }.

Definition default_data_dir : string := "/var/lib/raft".
Definition default_log_level : string := "info".
Definition default_heartbeat_interval : N := 50.
Definition default_election_timeout_min : N := 150.
Definition default_election_timeout_max : N := 300.
Definition default_rpc_timeout : N := 1000.
Definition default_ebpf_enabled : bool := true.
Definition default_interface : string := "eth0".

Definition TimingConfig_default : TimingConfig :=
  mkTiming default_heartbeat_interval default_election_timeout_min
    default_election_timeout_max default_rpc_timeout.

Definition EbpfConfig_default : EbpfConfig := mkEbpf default_ebpf_enabled default_interface.

Definition default_for_testing (node_id : string) (port : N) : Config :=
  mkConfig
    (mkServer node_id (String.append "127.0.0.1:" (pretty port))
       (String.append "/tmp/raft-" node_id) "debug")
    TimingConfig_default [] (mkEbpf false "lo").

(** ** Deserialisation with defaults *)

Record TimingToml := mkTimingToml {
  t_heartbeat : option N; t_min : option N; t_max : option N; t_rpc : option N }.
Record EbpfToml := mkEbpfToml { t_enabled : option bool; t_interface : option string }.
Record ServerToml := mkServerToml {
  t_node_id : option string; t_listen_addr : option string;
  t_data_dir : option string; t_log_level : option string }.
Record ConfigToml := mkConfigToml {
  t_server : option ServerToml; t_timing : option TimingToml;
  t_peers : option (list PeerConfig); t_ebpf : option EbpfToml }.

Definition fill_timing (t : TimingToml) : TimingConfig :=
  mkTiming (default default_heartbeat_interval (t_heartbeat t))
    (default default_election_timeout_min (t_min t))
    (default default_election_timeout_max (t_max t))
    (default default_rpc_timeout (t_rpc t)).

Definition fill_ebpf (t : EbpfToml) : EbpfConfig :=
  mkEbpf (default default_ebpf_enabled (t_enabled t)) (default default_interface (t_interface t)).

(** [node_id] and [listen_addr] have no default: their absence is an error. *)
Definition fill_server (t : ServerToml) : option ServerConfig :=
  node_id ← t_node_id t;
  addr ← t_listen_addr t;
  Some (mkServer node_id addr (default default_data_dir (t_data_dir t))
    (default default_log_level (t_log_level t))).

Definition fill_config (t : ConfigToml) : option Config :=
  srv ← t_server t;
  srv ← fill_server srv;
  Some (mkConfig srv (default TimingConfig_default (fill_timing <$> t_timing t))
    (default [] (t_peers t)) (default EbpfConfig_default (fill_ebpf <$> t_ebpf t))).

(** [Config::load]: the file's text, if it can be read, and the parser's result on it. *)
Definition load (parse_toml : string -> option ConfigToml) (content : option string) : outcome Config :=
  match content with
  | None => Err IoError
  | Some text =>
      match parse_toml text ≫= fill_config with
      | Some config => Ok config
      | None => Err SerdeError
      end
  end.
