(* ===== verification/Env.v ===== *)
(** * The environment of the daemon

    One class gathers the interfaces of the code outside the repository that the node
    uses: the [heapless] containers, the two [serde_json] formats of the data directory,
    the iteration order of hash maps, and tokio's mutex.  [EnvLaws] gathers their laws;
    [ref_env] is an instance in which the model can be evaluated. *)

From S2P Require Import Prelude Heapless Protocol Serde HashMap Log.

(** [tokio::sync::Mutex::lock]: from "is the mutex held" to the state after the await;
    [None] when the await does not complete as long as the holder keeps its guard. *)
Class TokioMutex := { mutex_lock : bool -> option bool }.

Class TokioMutexLaws (X : TokioMutex) : Prop := {
  lock_free : mutex_lock false = Some true;
  lock_held : mutex_lock true = None;
}.

Class Env := {
  env_heapless :: Heapless;
  env_json_entry :: SerdeJson DiskLogEntry;
  env_json_state :: SerdeJson PersistentState;
  env_hash_order :: HashOrder;
  env_mutex :: TokioMutex;
}.

Class EnvLaws (E : Env) : Prop := {
  laws_heapless :: HeaplessLaws env_heapless;
  laws_entry_roundtrip :: JsonRoundtrip DiskLogEntry env_json_entry;
  laws_entry_line :: JsonOneLine DiskLogEntry env_json_entry;
  laws_state_roundtrip :: JsonRoundtrip PersistentState env_json_state;
  laws_state_prefix :: JsonPrefix PersistentState env_json_state;
  laws_hash_order :: HashOrderLaws env_hash_order;
  laws_mutex :: TokioMutexLaws env_mutex;
}.

Definition ref_mutex : TokioMutex := {| mutex_lock held := if held then None else Some true |}.

Definition ref_env : Env := {|
  env_heapless := ref_heapless;
  env_json_entry := ref_json;
  env_json_state := ref_json;
  env_hash_order := ref_hash_order;
  env_mutex := ref_mutex;
|}.

#[global] Instance ref_env_laws : EnvLaws ref_env.
Proof. by split; try apply _. Qed.
