(* ===== verification/LogProps.v ===== *)
(** * Properties of the persistent log

    A history of the log is a sequence of its methods, within their preconditions; its
    specification is the abstract log and the persistent state.  The properties state that
    the methods follow the specification and that a restart recovers it from the files. *)

From Stdlib Require Import Init.Byte.
From S2P Require Import Prelude Heapless Protocol Serde HashMap Log LogFacts Env.
Local Open Scope N_scope.

(** ** Histories *)

Inductive log_op :=
  | OpSetTerm (t : N)
  | OpSetVote (c : option string)
  | OpAppend (t : N) (c : Command)
  | OpAppendEntries (p : nat) (new : list LogEntry)
  | OpTruncate (i : N).

(** The abstract state: the entries and the persistent state. *)
Definition log_spec : Type := list LogEntry * PersistentState.

(** The entries [new] of a leader are numbered from the position [p] in the log. *)
Definition op_pre (op : log_op) (s : log_spec) : Prop :=
  match op with
  | OpSetTerm _ | OpSetVote _ => True
  | OpAppend _ c => wf_command c /\ N.of_nat (length s.1) < u64_max
  | OpAppendEntries p new => (p <= length s.1)%nat /\ consecutive p new /\ Forall wf_entry new
  | OpTruncate i => 1 <= i <= N.of_nat (length s.1) + 1
  end.

Section histories.
Context {E : Env}.

Definition run_op (op : log_op) : M RaftLog unit :=
  match op with
  | OpSetTerm t => set_current_term t
  | OpSetVote c => set_voted_for c
  | OpAppend t c => (append t c ;;; ret tt)%raft
  | OpAppendEntries _ new => append_entries new
  | OpTruncate i => truncate_from i
  end.

Definition spec_op (op : log_op) (s : log_spec) : log_spec :=
  match op with
  | OpSetTerm t => (s.1, mkPersistent t None)
  | OpSetVote c => (s.1, mkPersistent (current_term s.2) (string_from ID_CAPACITY <$> c))
  | OpAppend t c => (spec_append s.1 t c, s.2)
  | OpAppendEntries p new => (spec_overwrite s.1 p new, s.2)
  | OpTruncate i => (spec_truncate s.1 i, s.2)
  end.

Fixpoint valid_history (ops : list log_op) (s : log_spec) : Prop :=
  match ops with
  | [] => True
  | op :: ops' => op_pre op s /\ valid_history ops' (spec_op op s)
  end.

Definition spec_history (ops : list log_op) (s : log_spec) : log_spec :=
  foldl (fun s op => spec_op op s) s ops.

(** A log in order, whose abstract state is [s]. *)
Definition models (l : RaftLog) (s : log_spec) : Prop := log_inv l s.1 /\ persistent_state l = s.2.

Context {EL : EnvLaws E}.

Lemma run_op_models op l s : models l s -> op_pre op s ->
  exists l', run_op op l = (Ok tt, l') /\ models l' (spec_op op s).
Proof.
  destruct s as [es p]. intros [Hinv Hp] Hpre.
  destruct op as [t|c|t c|k new|i]; simpl in *; unfold models; simpl.
  - destruct (set_current_term_inv l es t Hinv) as (l' & ? & ? & ?); eauto.
  - destruct (set_voted_for_inv l es c Hinv) as (l' & ? & ? & Hp'). exists l'.
    unfold log_current_term in Hp'. by rewrite <-Hp.
  - destruct Hpre as [Hc Hmax]. destruct (append_inv l es t c Hinv Hc) as (l' & Hrun & ? & ?).
    { by rewrite (repr_last _ _ (inv_repr _ _ Hinv)). }
    exists l'. rewrite (bind_run _ _ _ _ _ Hrun). split_and!; [done..|congruence].
  - destruct Hpre as (Hk & Hc & Hwf).
    destruct (append_entries_inv l es k new Hinv Hwf Hk Hc) as (l' & ? & ? & ?).
    exists l'. split_and!; [done..|congruence].
  - destruct (truncate_from_inv l es i Hinv) as (l' & ? & ? & ?).
    { by rewrite (repr_last _ _ (inv_repr _ _ Hinv)). }
    exists l'. split_and!; [done..|congruence].
Qed.

Lemma history_models ops : forall l s, models l s -> valid_history ops s ->
  exists l', for_each ops run_op l = (Ok tt, l') /\ models l' (spec_history ops s).
Proof.
  induction ops as [|op ops IH]; intros l s Hm Hv; simpl in *; [by eauto|].
  destruct Hv as [Hpre Hv]. destruct (run_op_models op l s Hm Hpre) as (l1 & Hrun & Hm1).
  rewrite (bind_run _ _ _ _ _ Hrun). by apply IH.
Qed.

Lemma fresh_log dir : exists l, RaftLog_new dir (mkDir ∅ []) = Ok l /\
  models l ([], PersistentState_default).
Proof.
  eexists. split; [reflexivity|]. split; [|done]. split; [|done| |done].
  - split; [done| |done]. intros i. unfold lookup1. simpl. by case_decide.
  - exists []. by split.
Qed.

(** The entries that the lines of a file of the log stand for. *)
Definition entries_of_text (s : string) : list (option LogEntry) :=
  (fun line => disk_entry_to_log_entry <$> from_str line) <$> lines s.
End histories.

(** ** Properties *)

(** C16: Any history of the methods of the log, within their preconditions, implements the
    abstract sequence of entries and the persistent state; opening the data directory again
    afterwards, without closing anything, gives the same sequence and the same state. *)
Theorem log_history_recovered {E : Env} {EL : EnvLaws E} dir ops l0 :
  RaftLog_new dir (mkDir ∅ []) = Ok l0 ->
  valid_history ops ([], PersistentState_default) ->
  exists l l', for_each ops run_op l0 = (Ok tt, l) /\
    RaftLog_new dir (disk l) = Ok l' /\
    let s := spec_history ops ([], PersistentState_default) in
    log_repr l s.1 /\ persistent_state l = s.2 /\
    log_repr l' s.1 /\ persistent_state l' = s.2.
Proof.
  intros Hnew Hv. destruct (fresh_log dir) as (l1 & Hnew' & Hm).
  rewrite Hnew in Hnew'. injection Hnew' as <-.
  destruct (history_models ops l0 _ Hm Hv) as (l & Hrun & Hinv & Hp).
  do 2 eexists. split; [exact Hrun|]. split; [by eapply recovery_ok|].
  destruct Hinv as [Hr _ _ _]. split_and!; [done..| |done]. by destruct Hr.
Qed.

Definition example_ops : list log_op :=
  [OpSetTerm 1; OpAppend 1 (Put "a" [x61; x62]); OpAppend 1 (Delete "a"); OpAppend 1 Noop;
   OpSetTerm 2; OpSetVote (Some "node-02"); OpTruncate 2;
   OpAppendEntries 1 [mkEntry 2 2 (Put "b" []); mkEntry 3 2 Noop]].

Lemma log_history_recovered_witness :
  exists l0 l l', @RaftLog_new ref_heapless ref_json ref_json "d" (mkDir ∅ []) = Ok l0 /\
    for_each example_ops (@run_op ref_env) l0 = (Ok tt, l) /\
    @RaftLog_new ref_heapless ref_json ref_json "d" (disk l) = Ok l' /\
    log_repr l' [mkEntry 1 1 (Put "a" [x61; x62]); mkEntry 2 2 (Put "b" []); mkEntry 3 2 Noop].
Proof.
  destruct (@log_history_recovered ref_env _ "d" example_ops _ eq_refl)
    as (l & l' & Hrun & Hnew & _ & _ & Hr & _).
  - simpl. split_and!; try done; concrete_entries; simpl; unfold u64_max; lia.
  - exists (mkLog "d" ∅ PersistentState_default 0 (Some Linked)
      (mkDir {[log_path := ""]} [])), l, l'. split_and!; try done.
Defined.

(** The text of the log file, read line by line, gives back the entries that were written. *)
Theorem log_file_roundtrip {E : Env} {EL : EnvLaws E} ws : Forall wf_entry ws ->
  entries_of_text (text_of ws) = Some <$> ws.
Proof.
  intros Hwf. unfold entries_of_text. rewrite lines_text, <-list_fmap_compose. apply list_fmap_ext.
  intros i e He. simpl. rewrite (json_from_to _ _ (line_of_json e)). simpl. f_equal.
  apply disk_entry_entry. by eapply Forall_lookup_1.
Qed.

Lemma log_file_roundtrip_witness :
  let ws := [mkEntry 1 1 (Put "k" [x00; x0a; xff]); mkEntry 2 1 (Delete "k"); mkEntry 3 2 Noop] in
  @entries_of_text ref_env (@text_of (@env_json_entry ref_env) ws) = Some <$> ws.
Proof. apply (@log_file_roundtrip ref_env _). concrete_entries. Defined.
