(* ===== verification/Node.v ===== *)
(** * The Raft node: [raft/src/node.rs]

    [RaftNode] has the fields of the struct, without the locks around them, and four
    that stand for what the fields are connected to: [outgoing] and [replies] are the
    messages sent so far on [outgoing_tx] and on the response channels (a channel is a
    number), [clock] is what [Instant::now()] returns, and [log_guard] says whether the
    guard of the mutex [log] is alive.  A handler is a program over this state, run
    without interruption.  The mutex of [log] is modelled because a handler can meet a
    guard of its own: [lock_log] completes only when no guard is alive, [scope_log] is a
    function body that holds one, released on every return and by [drop_log]. *)

From Stdlib Require Import Init.Byte.
From S2P Require Import Prelude Heapless Protocol Serde HashMap Log StateMachine Config Env.
Local Open Scope N_scope.

Inductive ProposeResult :=
  | Success (index : N)
  | NotLeader (leader_id : option string)
  | Failed (reason : string).

#[export] Instance ProposeResult_eq_dec : EqDecision ProposeResult.
Proof. solve_decision. Defined.

(** [commit_index] is the index of the highest entry known to be committed, [next_index]
    and [match_index] are the leader's view of its peers, [pending_requests] maps the
    index of a proposed entry to the channel that awaits its result. *)
Record RaftNode := mkNode {
  node_id : string;
  config : Config;
  role : NodeRole;
  log : RaftLog;
  log_guard : bool;
  state_machine : StateMachine;
  commit_index : N;
  last_applied : N;
  leader_id : option string;
  peers : gmap string PeerInfo;
  next_index : gmap string N;
  match_index : gmap string N;
  votes_received : list string;
  last_heartbeat : N;
  outgoing : list MessageEnvelope;
  pending_requests : gmap N N;
  replies : list (N * ProposeResult);
  clock : N }.

Definition with_role v (n : RaftNode) : RaftNode :=
  mkNode (node_id n) (config n) v (log n) (log_guard n) (state_machine n) (commit_index n)
    (last_applied n) (leader_id n) (peers n) (next_index n) (match_index n)
    (votes_received n) (last_heartbeat n) (outgoing n) (pending_requests n) (replies n)
    (clock n).
Definition with_log v (n : RaftNode) : RaftNode :=
  mkNode (node_id n) (config n) (role n) v (log_guard n) (state_machine n) (commit_index n)
    (last_applied n) (leader_id n) (peers n) (next_index n) (match_index n)
    (votes_received n) (last_heartbeat n) (outgoing n) (pending_requests n) (replies n)
    (clock n).
Definition with_log_guard v (n : RaftNode) : RaftNode :=
  mkNode (node_id n) (config n) (role n) (log n) v (state_machine n) (commit_index n)
    (last_applied n) (leader_id n) (peers n) (next_index n) (match_index n)
    (votes_received n) (last_heartbeat n) (outgoing n) (pending_requests n) (replies n)
    (clock n).
Definition with_state_machine v (n : RaftNode) : RaftNode :=
  mkNode (node_id n) (config n) (role n) (log n) (log_guard n) v (commit_index n)
    (last_applied n) (leader_id n) (peers n) (next_index n) (match_index n)
    (votes_received n) (last_heartbeat n) (outgoing n) (pending_requests n) (replies n)
    (clock n).
Definition with_commit_index v (n : RaftNode) : RaftNode :=
  mkNode (node_id n) (config n) (role n) (log n) (log_guard n) (state_machine n) v
    (last_applied n) (leader_id n) (peers n) (next_index n) (match_index n)
    (votes_received n) (last_heartbeat n) (outgoing n) (pending_requests n) (replies n)
    (clock n).
Definition with_last_applied v (n : RaftNode) : RaftNode :=
  mkNode (node_id n) (config n) (role n) (log n) (log_guard n) (state_machine n)
    (commit_index n) v (leader_id n) (peers n) (next_index n) (match_index n)
    (votes_received n) (last_heartbeat n) (outgoing n) (pending_requests n) (replies n)
    (clock n).
Definition with_leader_id v (n : RaftNode) : RaftNode :=
  mkNode (node_id n) (config n) (role n) (log n) (log_guard n) (state_machine n)
    (commit_index n) (last_applied n) v (peers n) (next_index n) (match_index n)
    (votes_received n) (last_heartbeat n) (outgoing n) (pending_requests n) (replies n)
    (clock n).
Definition with_peers v (n : RaftNode) : RaftNode :=
  mkNode (node_id n) (config n) (role n) (log n) (log_guard n) (state_machine n)
    (commit_index n) (last_applied n) (leader_id n) v (next_index n) (match_index n)
    (votes_received n) (last_heartbeat n) (outgoing n) (pending_requests n) (replies n)
    (clock n).
Definition with_next_index v (n : RaftNode) : RaftNode :=
  mkNode (node_id n) (config n) (role n) (log n) (log_guard n) (state_machine n)
    (commit_index n) (last_applied n) (leader_id n) (peers n) v (match_index n)
    (votes_received n) (last_heartbeat n) (outgoing n) (pending_requests n) (replies n)
    (clock n).
Definition with_match_index v (n : RaftNode) : RaftNode :=
  mkNode (node_id n) (config n) (role n) (log n) (log_guard n) (state_machine n)
    (commit_index n) (last_applied n) (leader_id n) (peers n) (next_index n) v
    (votes_received n) (last_heartbeat n) (outgoing n) (pending_requests n) (replies n)
    (clock n).
Definition with_votes_received v (n : RaftNode) : RaftNode :=
  mkNode (node_id n) (config n) (role n) (log n) (log_guard n) (state_machine n)
    (commit_index n) (last_applied n) (leader_id n) (peers n) (next_index n)
    (match_index n) v (last_heartbeat n) (outgoing n) (pending_requests n) (replies n)
    (clock n).
Definition with_last_heartbeat v (n : RaftNode) : RaftNode :=
  mkNode (node_id n) (config n) (role n) (log n) (log_guard n) (state_machine n)
    (commit_index n) (last_applied n) (leader_id n) (peers n) (next_index n)
    (match_index n) (votes_received n) v (outgoing n) (pending_requests n) (replies n)
    (clock n).
Definition with_outgoing v (n : RaftNode) : RaftNode :=
  mkNode (node_id n) (config n) (role n) (log n) (log_guard n) (state_machine n)
    (commit_index n) (last_applied n) (leader_id n) (peers n) (next_index n)
    (match_index n) (votes_received n) (last_heartbeat n) v (pending_requests n)
    (replies n) (clock n).
Definition with_pending_requests v (n : RaftNode) : RaftNode :=
  mkNode (node_id n) (config n) (role n) (log n) (log_guard n) (state_machine n)
    (commit_index n) (last_applied n) (leader_id n) (peers n) (next_index n)
    (match_index n) (votes_received n) (last_heartbeat n) (outgoing n) v (replies n)
    (clock n).
Definition with_replies v (n : RaftNode) : RaftNode :=
  mkNode (node_id n) (config n) (role n) (log n) (log_guard n) (state_machine n)
    (commit_index n) (last_applied n) (leader_id n) (peers n) (next_index n)
    (match_index n) (votes_received n) (last_heartbeat n) (outgoing n) (pending_requests
    n) v (clock n).
Definition with_clock v (n : RaftNode) : RaftNode :=
  mkNode (node_id n) (config n) (role n) (log n) (log_guard n) (state_machine n)
    (commit_index n) (last_applied n) (leader_id n) (peers n) (next_index n)
    (match_index n) (votes_received n) (last_heartbeat n) (outgoing n) (pending_requests
    n) (replies n) v.

Record NodeStatus := mkStatus {
  st_node_id : string;
  st_role : NodeRole;
  st_current_term : N;
  st_commit_index : N;
  st_last_applied : N;
  st_leader_id : option string;
  st_peers : list string }.

(** [PathBuf::join] *)
Definition path_join (a b : string) : string :=
  if decide (String.get 0 b = Some "/"%char \/ a = "") then b
  else if decide (String.get (String.length a - 1) a = Some "/"%char) then String.append a b
  else String.append a (String.append "/" b).

Section node.
Context {E : Env}.

(** ** The mutex of the log *)

Definition lock_log : M RaftNode unit := fun n =>
  match mutex_lock (log_guard n) with
  | Some held => (Ok tt, with_log_guard held n)
  | None => (Blocked, n)
  end.

Definition drop_log : M RaftNode unit := modify (with_log_guard false).

(** [let log = self.log.lock().await; body]: the guard is dropped on the way out. *)
Definition scope_log {A} (body : M RaftNode A) : M RaftNode A := fun n =>
  match (lock_log ;;; body)%raft n with
  | (Blocked, n') => (Blocked, n')
  | (OutOfFuel, n') => (OutOfFuel, n')
  | (o, n') => (o, with_log_guard false n')
  end.

Definition on_log {A} (m : M RaftLog A) : M RaftNode A := zoom log with_log m.

(** [let _ = self.outgoing_tx.send(envelope).await;] *)
Definition send (envelope : MessageEnvelope) : M RaftNode unit :=
  modify (fun n => with_outgoing (outgoing n ++ [envelope]) n).

(** [let _ = tx.send(result).await;] on a response channel. *)
Definition respond (tx : N) (result : ProposeResult) : M RaftNode unit :=
  modify (fun n => with_replies (replies n ++ [(tx, result)]) n).

Definition set_role (r : NodeRole) : M RaftNode unit := modify (with_role r).

(** [*self.last_heartbeat.write().await = Instant::now();] *)
Definition reset_heartbeat : M RaftNode unit := modify (fun n => with_last_heartbeat (clock n) n).

Definition node_term (n : RaftNode) : N := log_current_term (log n).

(** ** Construction *)

(** [RaftNode::new] in a process that starts at time [now] with the directory [dir]. *)
Definition RaftNode_new (config : Config) (dir : Disk) (now : N) : outcome RaftNode :=
  let data_dir := path_join (s_data_dir (server config)) (s_node_id (server config)) in
  match RaftLog_new data_dir dir with
  | Ok log =>
      let peers := foldl (fun m peer =>
        <[pc_id peer := PeerInfo_new (pc_id peer) (pc_address peer)]> m) ∅ (cfg_peers config) in
      Ok (mkNode (s_node_id (server config)) config Follower log false StateMachine_new 0 0 None
            peers ∅ ∅ [] now [] ∅ [] now)
  | Err e => Err e
  | Blocked => Blocked
  | Panicked => Panicked
  | OutOfFuel => OutOfFuel
  end.

(** ** Applying committed entries *)

Definition apply_entry (i : N) : M RaftNode unit := (
  found <- gets (fun n => get (log n) i) ;;
  match found with
  | Some entry => modify (fun n => with_state_machine (apply entry (state_machine n)).2 n)
  | None => ret tt
  end)%raft.

(** [while *last_applied < commit_index { ... }], for at most [fuel] rounds. *)
Fixpoint apply_loop (fuel : nat) (commit : N) : M RaftNode unit := (
  applied <- gets last_applied ;;
  if applied <? commit then
    match fuel with
    | O => diverge
    | S fuel =>
        let next := u64_add applied 1 in
        modify (with_last_applied next) ;;;
        apply_entry next ;;;
        apply_loop fuel commit
    end
  else ret tt)%raft.

Definition apply_committed_entries : M RaftNode unit := (
  commit <- gets commit_index ;;
  applied <- gets last_applied ;;
  scope_log (apply_loop (N.to_nat (commit - applied)) commit))%raft.

(** ** AppendEntries, follower side *)

Definition send_append_entries_response (to : string) (term : N) (success : bool) :
    M RaftNode unit := scope_log (
  me <- gets node_id ;;
  last_log_index <- gets (fun n => last_index (log n)) ;;
  let response := mkAppendEntriesResponse term success last_log_index (string_from ID_CAPACITY me) in
  send (MessageEnvelope_new me to (AppendEntriesResp response)))%raft.

(** The loop that deletes conflicting entries: it stops at the first conflict. *)
Fixpoint delete_conflicting (new : list LogEntry) : M RaftLog unit := (
  match new with
  | [] => ret tt
  | entry :: new' =>
      existing <- gets (fun l => term_at l (index entry)) ;;
      match existing with
      | Some existing_term =>
          if existing_term =? term entry then delete_conflicting new'
          else truncate_from (index entry)
      | None => delete_conflicting new'
      end
  end)%raft.

Definition store_entries (new : list LogEntry) : M RaftLog unit :=
  (delete_conflicting new ;;; append_entries new)%raft.

(** [if req.leader_commit > commit_index { ... }] *)
Definition update_commit_index (leader_commit : N) : M RaftNode unit := (
  commit <- gets commit_index ;;
  when (commit <? leader_commit) (
    last_new_entry <- gets (fun n => last_index (log n)) ;;
    modify (with_commit_index (N.min leader_commit last_new_entry))))%raft.

Definition handle_append_entries (from : string) (req : AppendEntriesRequest) :
    M RaftNode unit := scope_log (
  current <- gets node_term ;;
  if ae_term req <? current then
    send_append_entries_response from current false
  else
    when (current <? ae_term req) (
      on_log (set_current_term (ae_term req)) ;;;
      set_role Follower) ;;;
    reset_heartbeat ;;;
    modify (with_leader_id (Some (ae_leader_id req))) ;;;
    l <- gets log ;;
    if (0 <? prev_log_index req) && negb (has_entry l (prev_log_index req) (prev_log_term req)) then
      term <- gets node_term ;;
      send_append_entries_response from term false
    else
      when (negb (bool_decide (ae_entries req = []))) (on_log (store_entries (ae_entries req))) ;;;
      update_commit_index (leader_commit req) ;;;
      drop_log ;;;
      apply_committed_entries ;;;
      send_append_entries_response from current true)%raft.

(** ** Leader: heartbeats *)

Definition heartbeat_to (n : RaftNode) (peer : string) : M RaftNode unit := (
  let next_idx := default 1 (next_index n !! peer) in
  let prev_log_index := u64_saturating_sub next_idx 1 in
  let prev_log_term := default 0 (term_at (log n) prev_log_index) in
  match vec_from_iter MAX_ENTRIES
          (take MAX_ENTRIES (get_entries (log n) next_idx (last_index (log n)))) with
  | Some entries =>
      let request := mkAppendEntries (node_term n) (string_from ID_CAPACITY (node_id n))
        prev_log_index prev_log_term entries (commit_index n) in
      send (MessageEnvelope_new (node_id n) peer (AppendEntries request))
  | None => panic
  end)%raft.

Definition send_heartbeats : M RaftNode unit := (
  role <- gets role ;;
  if decide (role <> Leader) then ret tt
  else scope_log (
    n <- gets (fun n => n) ;;
    for_each (hash_keys (peers n)) (heartbeat_to n)))%raft.

Definition init_peer (last_index : N) (peer : string) : M RaftNode unit := (
  modify (fun n => with_next_index (<[peer := u64_add last_index 1]> (next_index n)) n) ;;;
  modify (fun n => with_match_index (<[peer := 0]> (match_index n)) n))%raft.

Definition become_leader : M RaftNode unit := (
  set_role Leader ;;;
  modify (fun n => with_leader_id (Some (node_id n)) n) ;;;
  last <- scope_log (gets (fun n => last_index (log n))) ;;
  ps <- gets (fun n => hash_keys (peers n)) ;;
  for_each ps (init_peer last) ;;;
  send_heartbeats)%raft.

(** ** Leader: commitment *)

Definition notify_one (idx : N) : M RaftNode unit := (
  found <- gets (fun n => pending_requests n !! idx) ;;
  match found with
  | Some tx =>
      modify (fun n => with_pending_requests (delete idx (pending_requests n)) n) ;;;
      respond tx (Success idx)
  | None => ret tt
  end)%raft.

Definition notify_pending_requests (up_to_index : N) : M RaftNode unit := (
  indices <- gets (fun n =>
    filter (fun idx => idx <= up_to_index) (hash_keys (pending_requests n))) ;;
  for_each indices notify_one)%raft.

(** One more than the number of peers with [match_index] at least [n]. *)
Definition count_replicated (n : N) (m : gmap string N) : nat :=
  foldl (fun count p => if n <=? p.2 then S count else count) 1%nat (hash_iter m).

Definition majority_of (total_nodes : nat) : nat := (total_nodes / 2 + 1)%nat.

(** [for n in ((current_commit + 1)..=last_log_index).rev() { ... }] *)
Fixpoint advance_loop (current_term : N) (majority : nat) (candidates : list N) :
    M RaftNode unit := (
  match candidates with
  | [] => ret tt
  | n :: rest =>
      term_at_n <- gets (fun s => term_at (log s) n) ;;
      if decide (term_at_n <> Some current_term) then advance_loop current_term majority rest
      else
        count <- gets (fun s => count_replicated n (match_index s)) ;;
        if (majority <=? count)%nat then
          drop_log ;;;
          modify (with_commit_index n) ;;;
          apply_committed_entries ;;;
          notify_pending_requests n
        else advance_loop current_term majority rest
  end)%raft.

Definition try_advance_commit_index : M RaftNode unit := (
  role <- gets role ;;
  if decide (role <> Leader) then ret tt
  else scope_log (
    current_term <- gets node_term ;;
    last_log_index <- gets (fun n => last_index (log n)) ;;
    current_commit <- gets commit_index ;;
    total_nodes <- gets (fun n => (size (peers n) + 1)%nat) ;;
    advance_loop current_term (majority_of total_nodes)
      (reverse (range_inclusive (u64_add current_commit 1) last_log_index))))%raft.

Definition step_back (idx : N) : N := N.max (u64_saturating_sub idx 1) 1.

Definition handle_append_entries_response (from : string) (resp : AppendEntriesResponse) :
    M RaftNode unit := scope_log (
  role <- gets role ;;
  if decide (role <> Leader) then ret tt
  else
    current <- gets node_term ;;
    if current <? aer_term resp then
      drop_log ;;;
      lock_log ;;;
      on_log (set_current_term (aer_term resp)) ;;;
      set_role Follower
    else if success resp then
      let new_match := aer_last_log_index resp in
      modify (fun n => with_match_index (<[from := new_match]> (match_index n)) n) ;;;
      modify (fun n => with_next_index (<[from := u64_add new_match 1]> (next_index n)) n) ;;;
      drop_log ;;;
      try_advance_commit_index
    else
      modify (fun n => with_next_index (alter step_back from (next_index n)) n))%raft.

(** ** Elections *)

Definition send_request_vote_response (to : string) (term : N) (vote_granted : bool) :
    M RaftNode unit := (
  me <- gets node_id ;;
  let response := mkRequestVoteResponse term vote_granted (string_from ID_CAPACITY me) in
  send (MessageEnvelope_new me to (RequestVoteResp response)))%raft.

(** Is the candidate's log at least as up to date as the log [l]? *)
Definition log_ok (req : RequestVoteRequest) (l : RaftLog) : bool :=
  (last_term l <? rv_last_log_term req)
  || ((rv_last_log_term req =? last_term l) && (last_index l <=? rv_last_log_index req)).

Definition can_vote (req : RequestVoteRequest) (l : RaftLog) : bool :=
  bool_decide (log_voted_for l = None \/ log_voted_for l = Some (candidate_id req)).

Definition handle_request_vote (from : string) (req : RequestVoteRequest) :
    M RaftNode unit := scope_log (
  current <- gets node_term ;;
  if rv_term req <? current then
    send_request_vote_response from current false
  else
    when (current <? rv_term req) (
      on_log (set_current_term (rv_term req)) ;;;
      set_role Follower) ;;;
    l <- gets log ;;
    if can_vote req l && log_ok req l then
      on_log (set_voted_for (Some (candidate_id req))) ;;;
      reset_heartbeat ;;;
      term <- gets node_term ;;
      send_request_vote_response from term true
    else
      term <- gets node_term ;;
      send_request_vote_response from term false)%raft.

Definition handle_request_vote_response (from : string) (resp : RequestVoteResponse) :
    M RaftNode unit := scope_log (
  role <- gets role ;;
  if decide (role <> Candidate) then ret tt
  else
    current <- gets node_term ;;
    if current <? rvr_term resp then
      drop_log ;;;
      lock_log ;;;
      on_log (set_current_term (rvr_term resp)) ;;;
      set_role Follower
    else
      when (vote_granted resp) (
        modify (fun n => if decide (from ∈ votes_received n) then n
                         else with_votes_received (votes_received n ++ [from]) n) ;;;
        votes <- gets (fun n => length (votes_received n)) ;;
        total_nodes <- gets (fun n => (size (peers n) + 1)%nat) ;;
        when (majority_of total_nodes <=? votes + 1)%nat (
          drop_log ;;;
          become_leader)))%raft.

Definition start_election : M RaftNode unit := scope_log (
  new_term <- gets (fun n => u64_add (node_term n) 1) ;;
  on_log (set_current_term new_term) ;;;
  me <- gets node_id ;;
  on_log (set_voted_for (Some me)) ;;;
  set_role Candidate ;;;
  modify (with_votes_received [me]) ;;;
  reset_heartbeat ;;;
  l <- gets log ;;
  let request := mkRequestVote new_term (string_from ID_CAPACITY me) (last_index l) (last_term l) in
  ps <- gets (fun n => hash_keys (peers n)) ;;
  for_each ps (fun peer => send (MessageEnvelope_new me peer (RequestVote request))) ;;;
  when (bool_decide (ps = [])) (
    drop_log ;;;
    become_leader))%raft.

(** ** Dispatch of the incoming messages *)

Definition handle_message (envelope : MessageEnvelope) : M RaftNode unit :=
  match message envelope with
  | AppendEntries req => handle_append_entries (from envelope) req
  | AppendEntriesResp resp => handle_append_entries_response (from envelope) resp
  | RequestVote req => handle_request_vote (from envelope) req
  | RequestVoteResp resp => handle_request_vote_response (from envelope) resp
  | ClientReq _ | ClientResp _ => ret tt
  end.

(** ** Client operations and membership *)

Definition propose (command : Command) (response_tx : N) : M RaftNode unit := (
  role <- gets role ;;
  if decide (role <> Leader) then
    leader <- gets leader_id ;;
    respond response_tx (NotLeader leader)
  else
    index <- scope_log (
      term <- gets node_term ;;
      on_log (append term command)) ;;
    modify (fun n => with_pending_requests (<[index := response_tx]> (pending_requests n)) n) ;;;
    send_heartbeats)%raft.

Definition add_peer (id address : string) : M RaftNode unit := (
  let info := PeerInfo_new id address in
  modify (fun n => with_peers (<[id := info]> (peers n)) n) ;;;
  role <- gets role ;;
  when (bool_decide (role = Leader)) (scope_log (
    last <- gets (fun n => last_index (log n)) ;;
    modify (fun n => with_next_index (<[id := u64_add last 1]> (next_index n)) n) ;;;
    modify (fun n => with_match_index (<[id := 0]> (match_index n)) n))))%raft.

Definition remove_peer (id : string) : M RaftNode unit := (
  modify (fun n => with_peers (delete id (peers n)) n) ;;;
  modify (fun n => with_next_index (delete id (next_index n)) n) ;;;
  modify (fun n => with_match_index (delete id (match_index n)) n))%raft.

Definition get_status : M RaftNode NodeStatus := scope_log (
  gets (fun n => mkStatus (node_id n) (role n) (node_term n) (commit_index n) (last_applied n)
                   (leader_id n) (hash_keys (peers n)))).

Definition time_since_heartbeat (n : RaftNode) : N := clock n - last_heartbeat n.

(** [gen_range(min..=max)] panics on an empty range; otherwise the generator's draw. *)
Definition election_timeout (gen_range : N -> N -> N) (n : RaftNode) : outcome N :=
  let min := election_timeout_min_ms (timing (config n)) in
  let max := election_timeout_max_ms (timing (config n)) in
  if min <=? max then Ok (gen_range min max) else Panicked.

Definition heartbeat_interval (n : RaftNode) : N := heartbeat_interval_ms (timing (config n)).

Definition get_value (key : string) (n : RaftNode) : option (list byte) :=
  sm_get key (state_machine n).

Definition node_get_messages {Value} {JV : JsonValue Value} (limit since_index : N) (n : RaftNode) :
    list Value := get_messages limit (state_machine n).
End node.
