(* ===== verification/NodeFacts.v ===== *)
(** * Lemmas on the node's programs shared by the proofs *)

From S2P Require Import Prelude Heapless Protocol Serde HashMap Log LogFacts StateMachine.
From S2P Require Import Config Env Node.
Local Open Scope N_scope.

Section facts.
Context {E : Env} {EL : EnvLaws E}.

(** ** The mutex *)

Lemma lock_log_free n : log_guard n = false -> lock_log n = (Ok tt, with_log_guard true n).
Proof. intros Hg. unfold lock_log. by rewrite Hg, lock_free. Qed.

Lemma lock_log_held n : log_guard n = true -> lock_log n = (Blocked, n).
Proof. intros Hg. unfold lock_log. by rewrite Hg, lock_held. Qed.

(** Locking a mutex whose guard is alive is a deadlock. *)
Lemma scope_log_held {A} (body : M RaftNode A) n : log_guard n = true ->
  scope_log body n = (Blocked, n).
Proof.
  intros Hg. unfold scope_log.
  by rewrite (bind_run_blocked _ _ _ _ (lock_log_held _ Hg)).
Qed.

Lemma scope_log_free {A} (body : M RaftNode A) n : log_guard n = false ->
  scope_log body n =
  match body (with_log_guard true n) with
  | (Blocked, n') => (Blocked, n')
  | (OutOfFuel, n') => (OutOfFuel, n')
  | (o, n') => (o, with_log_guard false n')
  end.
Proof.
  intros Hg. unfold scope_log. by rewrite (bind_run _ _ _ _ _ (lock_log_free _ Hg)).
Qed.

Lemma scope_log_Ok {A} (body : M RaftNode A) n a n' : log_guard n = false ->
  body (with_log_guard true n) = (Ok a, n') -> scope_log body n = (Ok a, with_log_guard false n').
Proof. intros Hg Hb. by rewrite scope_log_free, Hb. Qed.

Lemma scope_log_Err {A} (body : M RaftNode A) n e n' : log_guard n = false ->
  body (with_log_guard true n) = (Err e, n') -> scope_log body n = (Err e, with_log_guard false n').
Proof. intros Hg Hb. by rewrite scope_log_free, Hb. Qed.

Lemma scope_log_Blocked {A} (body : M RaftNode A) n n' : log_guard n = false ->
  body (with_log_guard true n) = (Blocked, n') -> scope_log body n = (Blocked, n').
Proof. intros Hg Hb. by rewrite scope_log_free, Hb. Qed.

(** ** Relations between states that a scope or the log respect *)

Section respects.
Context (R : RaftNode -> RaftNode -> Prop) `{!PreOrder R}.
Context (R_guard : forall n b, R n (with_log_guard b n)).

Lemma steps_in_lock_log : steps_in R lock_log.
Proof. intros n. unfold lock_log. destruct (mutex_lock _); simpl; [apply R_guard|done]. Qed.

Lemma steps_in_drop_log : steps_in R drop_log.
Proof. apply steps_in_modify. intros n. apply R_guard. Qed.

Lemma steps_in_scope_log {A} (body : M RaftNode A) : steps_in R body -> steps_in R (scope_log body).
Proof.
  intros Hb n. unfold scope_log.
  pose proof (steps_in_bind R lock_log (fun _ => body) steps_in_lock_log (fun _ => Hb) n) as HR.
  destruct ((lock_log;;; body)%raft n) as [[] n']; simpl in *; try done;
    (etransitivity; [done|apply R_guard]).
Qed.
End respects.

(** A relation on logs lifts to programs on the log of a node. *)
Lemma steps_in_on_log {A} (Q : RaftLog -> RaftLog -> Prop) (R : RaftNode -> RaftNode -> Prop)
    (m : M RaftLog A) :
  steps_in Q m -> (forall n l, Q (log n) l -> R n (with_log l n)) -> steps_in R (on_log m).
Proof. intros Hm HR. by eapply steps_in_zoom. Qed.

(** An invariant at one state, through the scope of the guard. *)
Lemma keeps_scope_at {A} (I : RaftNode -> Prop) (body : M RaftNode A) n :
  (forall n b, I n -> I (with_log_guard b n)) -> I n ->
  I (body (with_log_guard true n)).2 -> I (scope_log body n).2.
Proof.
  intros HI Hn Hb. destruct (log_guard n) eqn:Hg; [by rewrite scope_log_held|].
  rewrite scope_log_free by done. destruct (body _) as [[] n']; simpl in *; auto.
Qed.
End facts.

#[export] Hint Resolve steps_in_lock_log steps_in_drop_log steps_in_scope_log : raft.

(** [run_steps] through the scopes of the log's guard. *)
Ltac node_steps :=
  repeat first
    [ progress run_steps
    | simple apply steps_in_scope_log; [apply _|solve [auto with raft]|]
    | simple apply steps_in_for_each; [apply _|intros] ].
