(* ===== verification/Network.v ===== *)
(** * The network: [raft/src/network.rs]

    Messages travel as frames, a big-endian 32-bit length and a JSON payload.  The file
    models the encoding and the decoding of a frame, the loop that cuts the bytes of an
    incoming connection into frames, whatever the pieces they arrive in, and the sending
    side: the connections to the peers and the bytes written to each.

    A TCP stream is a number; [sent_on] is what was written to it.  [tcp] is the fate of
    the calls to come, as [io] is for the file operations of the log. *)

From Stdlib Require Import Init.Byte.
From stdpp Require Import countable.
From S2P Require Import Prelude Heapless Protocol Serde HashMap Log StateMachine Config Env.
From S2P Require Import Node.
Local Open Scope N_scope.

(** [serde_json::to_vec] and [serde_json::from_slice]. *)
Class JsonBytes (A : Type) := {
  to_vec : A -> option (list byte);
  from_slice : list byte -> option A;
}.

Class JsonBytesLaws (A : Type) (J : JsonBytes A) : Prop := {
  to_vec_total (a : A) : is_Some (to_vec a);
  from_slice_to_vec (a : A) bs : to_vec a = Some bs -> from_slice bs = Some a;
}.

Definition MAX_MESSAGE_SIZE : N := 1024 * 1024.
Definition u32_max : N := 4294967295.

(** The low byte of a number. *)
Definition low_byte (x : N) : byte := default x00 (Byte.of_N (x `mod` 256)).

(** [x.to_be_bytes()] and [u32::from_be_bytes]; [as u32] keeps the low 32 bits. *)
Definition to_be_bytes (x : N) : list byte :=
  [low_byte (x / 2 ^ 24); low_byte (x / 2 ^ 16); low_byte (x / 2 ^ 8); low_byte x].

Definition from_be_bytes (b0 b1 b2 b3 : byte) : N :=
  Byte.to_N b0 * 2 ^ 24 + Byte.to_N b1 * 2 ^ 16 + Byte.to_N b2 * 2 ^ 8 + Byte.to_N b3.

Definition as_u32 (x : N) : N := x `mod` (u32_max + 1).

Section framing.
Context {JM : JsonBytes MessageEnvelope}.

Definition frame_of (payload : list byte) : list byte :=
  to_be_bytes (as_u32 (N.of_nat (length payload))) ++ payload.

Definition encode_message (envelope : MessageEnvelope) : outcome (list byte) :=
  match to_vec envelope with
  | Some payload => Ok (frame_of payload)
  | None => Err SerdeError
  end.

Definition decode_message (bytes : list byte) : outcome MessageEnvelope :=
  match bytes with
  | b0 :: b1 :: b2 :: b3 :: rest =>
      let len := from_be_bytes b0 b1 b2 b3 in
      if N.of_nat (length bytes) <? 4 + len then Err (Bail "Incomplete message")
      else
        match from_slice (take (N.to_nat len) rest) with
        | Some envelope => Ok envelope
        | None => Err SerdeError
        end
  | _ => Err (Bail "Message too short")
  end.
End framing.

(** ** The incoming side *)

(** What [read_buf] comes to: a piece of the stream (the end, when it is empty) or an error. *)
Inductive read_result := Received (piece : list byte) | ReadError.

Section incoming.
Context {E : Env} {JM : JsonBytes MessageEnvelope}.

Definition handle_payload (payload : list byte) : M RaftNode unit :=
  match from_slice payload with
  | Some envelope => log_error (handle_message envelope)
  | None => ret tt
  end.

(** The head of the buffer: not a whole frame yet, a length beyond the limit, or a payload
    and what follows it. *)
Inductive frame_cut := Partial | TooLarge | Frame (payload rest : list byte).

Definition cut_frame (buf : list byte) : frame_cut :=
  match buf with
  | b0 :: b1 :: b2 :: b3 :: rest =>
      let len := from_be_bytes b0 b1 b2 b3 in
      if MAX_MESSAGE_SIZE <? len then TooLarge
      else if N.of_nat (length buf) <? 4 + len then Partial
      else Frame (take (N.to_nat len) rest) (drop (N.to_nat len) rest)
  | _ => Partial
  end.

(** [while buf.len() >= 4 { ... }]: what is left in the buffer, or [None] when the
    connection is given up.  A round takes four bytes off the buffer or leaves the loop. *)
Fixpoint process_frames (fuel : nat) (buf : list byte) : M RaftNode (option (list byte)) := (
  match cut_frame buf with
  | TooLarge => ret None
  | Partial => ret (Some buf)
  | Frame payload rest =>
      match fuel with
      | O => diverge
      | S fuel => handle_payload payload ;;; process_frames fuel rest
      end
  end)%raft.

(** The connection task, on the results of its reads; the stream ends after them. *)
Fixpoint connection_loop (reads : list read_result) (buf : list byte) : M RaftNode unit := (
  match reads with
  | [] => ret tt
  | ReadError :: _ => fail IoError
  | Received piece :: reads' =>
      if decide (piece = []) then ret tt
      else
        left_over <- process_frames (length (buf ++ piece)) (buf ++ piece) ;;
        match left_over with
        | None => ret tt
        | Some buf' => connection_loop reads' buf'
        end
  end)%raft.

Definition handle_connection (reads : list read_result) : M RaftNode unit :=
  connection_loop reads [].
End incoming.

(** ** The outgoing side *)

Inductive tcp_result := TcpOk | TcpErr (written : nat).

Record NetworkManager := mkNetwork {
  connections : gmap string N;
  peer_addresses : gmap string string;
  dialled : gmap N string;
  sent_on : gmap N (list byte);
  next_stream : N;
  tcp : list tcp_result }.

Definition NetworkManager_new (fate : list tcp_result) : NetworkManager :=
  mkNetwork ∅ ∅ ∅ ∅ 0 fate.

Definition register_peer (peer_id address : string) (nm : NetworkManager) : NetworkManager :=
  mkNetwork (connections nm) (<[peer_id := address]> (peer_addresses nm)) (dialled nm)
    (sent_on nm) (next_stream nm) (tcp nm).

Definition with_tcp v (nm : NetworkManager) : NetworkManager :=
  mkNetwork (connections nm) (peer_addresses nm) (dialled nm) (sent_on nm) (next_stream nm) v.

Definition next_tcp : M NetworkManager tcp_result := fun nm =>
  match tcp nm with
  | [] => (Ok TcpOk, nm)
  | r :: rs => (Ok r, with_tcp rs nm)
  end.

(** [TcpStream::connect(&addr).await?] *)
Definition tcp_connect (addr : string) : M NetworkManager N := (
  r <- next_tcp ;;
  match r with
  | TcpOk => fun nm => (Ok (next_stream nm),
      mkNetwork (connections nm) (peer_addresses nm) (<[next_stream nm := addr]> (dialled nm))
        (<[next_stream nm := []]> (sent_on nm)) (next_stream nm + 1) (tcp nm))
  | TcpErr _ => fail IoError
  end)%raft.

Definition put_on (s : N) (bytes : list byte) (nm : NetworkManager) : NetworkManager :=
  mkNetwork (connections nm) (peer_addresses nm) (dialled nm)
    (alter (fun old => old ++ bytes) s (sent_on nm)) (next_stream nm) (tcp nm).

(** [stream.write_all(&buf).await?]: a failure may come after part of the bytes. *)
Definition write_all (s : N) (bytes : list byte) : M NetworkManager unit := (
  r <- next_tcp ;;
  match r with
  | TcpOk => modify (put_on s bytes)
  | TcpErr k => modify (put_on s (take k bytes)) ;;; fail IoError
  end)%raft.

Definition with_connection (peer_id : string) (s : N) (nm : NetworkManager) : NetworkManager :=
  mkNetwork (<[peer_id := s]> (connections nm)) (peer_addresses nm) (dialled nm) (sent_on nm)
    (next_stream nm) (tcp nm).

Section outgoing.
Context {JM : JsonBytes MessageEnvelope}.

Definition transmit (s : N) (envelope : MessageEnvelope) : M NetworkManager unit := (
  payload <- from_result SerdeError (to_vec envelope) ;;
  write_all s (frame_of payload))%raft.

Definition send_message (peer_id : string) (envelope : MessageEnvelope) : M NetworkManager unit := (
  known <- gets (fun nm => connections nm !! peer_id) ;;
  match known with
  | Some s => transmit s envelope
  | None =>
      addr <- gets (fun nm => peer_addresses nm !! peer_id) ;;
      match addr with
      | None => ret tt
      | Some addr =>
          s <- tcp_connect addr ;;
          modify (with_connection peer_id s) ;;;
          transmit s envelope
      end
  end)%raft.

(** [run]: the loop over the outgoing messages. *)
Definition run_outgoing (envelopes : list MessageEnvelope) : M NetworkManager unit :=
  for_each envelopes (fun envelope => log_error (send_message (to envelope) envelope)).
End outgoing.

(** ** A reference format, for evaluating the model *)

#[export] Instance Command_countable : Countable Command.
Proof.
  by refine (inj_countable' (fun c => match c with
      | Put k v => inl (k, v) | Delete k => inr (Some k) | Noop => inr None end)
    (fun x => match x with
      | inl (k, v) => Put k v | inr (Some k) => Delete k | inr None => Noop end) _); intros [].
Defined.

#[export] Instance LogEntry_countable : Countable LogEntry.
Proof.
  by refine (inj_countable' (fun e => (index e, term e, command e))
    (fun '(i, t, c) => mkEntry i t c) _); intros [].
Defined.

#[export] Instance AppendEntriesRequest_countable : Countable AppendEntriesRequest.
Proof.
  by refine (inj_countable' (fun r => (ae_term r, ae_leader_id r, prev_log_index r, prev_log_term r,
      ae_entries r, leader_commit r))
    (fun '(a, b, c, d, e, f) => mkAppendEntries a b c d e f) _); intros [].
Defined.

#[export] Instance AppendEntriesResponse_countable : Countable AppendEntriesResponse.
Proof.
  by refine (inj_countable' (fun r => (aer_term r, success r, aer_last_log_index r, aer_node_id r))
    (fun '(a, b, c, d) => mkAppendEntriesResponse a b c d) _); intros [].
Defined.

#[export] Instance RequestVoteRequest_countable : Countable RequestVoteRequest.
Proof.
  by refine (inj_countable' (fun r => (rv_term r, candidate_id r, rv_last_log_index r, rv_last_log_term r))
    (fun '(a, b, c, d) => mkRequestVote a b c d) _); intros [].
Defined.

#[export] Instance RequestVoteResponse_countable : Countable RequestVoteResponse.
Proof.
  by refine (inj_countable' (fun r => (rvr_term r, vote_granted r, rvr_node_id r))
    (fun '(a, b, c) => mkRequestVoteResponse a b c) _); intros [].
Defined.

#[export] Instance ClientRequest_countable : Countable ClientRequest.
Proof.
  by refine (inj_countable' (fun r => (cr_request_id r, cr_command r))
    (fun '(a, b) => mkClientRequest a b) _); intros [].
Defined.

#[export] Instance ClientResponse_countable : Countable ClientResponse.
Proof.
  by refine (inj_countable' (fun r => (cresp_success r, cresp_request_id r, cresp_data r,
      cresp_error r, cresp_leader_id r))
    (fun '(a, b, c, d, e) => mkClientResponse a b c d e) _); intros [].
Defined.

#[export] Instance RaftMessage_countable : Countable RaftMessage.
Proof.
  by refine (inj_countable' (fun m => match m with
      | AppendEntries r => inl (inl r) | AppendEntriesResp r => inl (inr r)
      | RequestVote r => inr (inl (inl r)) | RequestVoteResp r => inr (inl (inr r))
      | ClientReq r => inr (inr (inl r)) | ClientResp r => inr (inr (inr r)) end)
    (fun x => match x with
      | inl (inl r) => AppendEntries r | inl (inr r) => AppendEntriesResp r
      | inr (inl (inl r)) => RequestVote r | inr (inl (inr r)) => RequestVoteResp r
      | inr (inr (inl r)) => ClientReq r | inr (inr (inr r)) => ClientResp r end) _); intros [].
Defined.

#[export] Instance MessageEnvelope_countable : Countable MessageEnvelope.
Proof.
  by refine (inj_countable' (fun e => (from e, to e, message e))
    (fun '(f, t, m) => mkEnvelope f t m) _); intros [].
Defined.

(** The digits of [ref_json] as bytes. *)
Definition ref_json_bytes {A : Type} `{Countable A} : JsonBytes A := {|
  to_vec a := Some (String.list_byte_of_string (digits_of_pos (encode a)));
  from_slice bs := pos_of_digits (String.string_of_list_byte bs) ≫= decode;
|}.

#[export] Instance ref_json_bytes_laws `{Countable A} : JsonBytesLaws A ref_json_bytes.
Proof.
  split; [by eexists|]. intros a bs [= <-]. simpl.
  rewrite String.string_of_list_byte_of_string, pos_of_digits_of_pos. apply decode_encode.
Qed.
