(* ===== verification/Sample.v ===== *)
(** * Concrete configurations and nodes

    The clusters in which the schedules and the witnesses run: fully connected, with the
    timing of the default configuration. *)

From S2P Require Import Prelude Heapless Protocol Serde HashMap Log LogFacts StateMachine.
From S2P Require Import Config Env Node.
Local Open Scope N_scope.

(** The configuration of one node of a fully connected cluster. *)
Definition member_config (all : list string) (me : string) : Config :=
  mkConfig (mkServer me "0.0.0.0:5555" (String.append "/tmp/raft/" me) "debug")
    TimingConfig_default
    ((fun p => mkPeerConfig p (String.append p ":5555")) <$> filter (.≠ me) all)
    (mkEbpf false "eth0").

Definition cluster_configs (all : list string) : list Config := member_config all <$> all.

(** The three nodes shipped under [nodes/]. *)
Definition three : list string := ["node-01"; "node-02"; "node-03"].

(** The fresh node [me] of the cluster [all], in the reference environment. *)
Definition sample (all : list string) (me : string) : RaftNode :=
  match @RaftNode_new ref_env (member_config all me) (mkDir ∅ []) 0 with
  | Ok n => n
  | _ => @mkNode me (member_config all me) Follower (mkLog me ∅ PersistentState_default 0 None
           (mkDir ∅ [])) false StateMachine_new 0 0 None ∅ ∅ ∅ [] 0 [] ∅ [] 0
  end.

(** [n], whose next file operations come to [ios]. *)
Definition with_io (ios : list io_result) (n : RaftNode) : RaftNode :=
  with_log (with_disk (mkDir (files (disk (log n))) ios) (log n)) n.
