(* ===== verification/NetworkProps.v ===== *)
(** * Properties of the network

    A frame is decoded to the message it encodes, the receiving loop does not depend on
    how the stream is cut into pieces, and what one daemon sends on a connection is what
    the other handles, in order. *)

From Stdlib Require Import Init.Byte.
From stdpp Require Import countable.
From S2P Require Import Prelude Heapless Protocol Serde HashMap Log StateMachine Config Env.
From S2P Require Import Node Sample Network.
Local Open Scope N_scope.

#[local] Ltac Zify.zify_post_hook ::= Z.to_euclidean_division_equations.

(** ** Big-endian lengths *)

Lemma low_byte_to_N x : Byte.to_N (low_byte x) = x `mod` 256.
Proof.
  unfold low_byte. destruct (Byte.of_N (x `mod` 256)) as [b|] eqn:Hb; simpl.
  - by apply Byte.to_of_N in Hb.
  - apply Byte.of_N_None_iff in Hb. pose proof (N.mod_lt x 256). lia.
Qed.

Lemma be_bytes_roundtrip x : x <= u32_max ->
  from_be_bytes (low_byte (x / 2 ^ 24)) (low_byte (x / 2 ^ 16)) (low_byte (x / 2 ^ 8)) (low_byte x) = x.
Proof.
  intros Hx. unfold from_be_bytes. rewrite !low_byte_to_N. unfold u32_max in Hx. simpl. lia.
Qed.

Lemma as_u32_small x : x <= u32_max -> as_u32 x = x.
Proof. intros Hx. apply N.mod_small. unfold u32_max in *. lia. Qed.

Section frames.
Context {JM : JsonBytes MessageEnvelope} {JL : JsonBytesLaws MessageEnvelope JM}.

Lemma length_frame_of payload : length (frame_of payload) = (4 + length payload)%nat.
Proof. done. Qed.

Lemma decode_frame payload rest : N.of_nat (length payload) <= u32_max ->
  decode_message (frame_of payload ++ rest) =
    match from_slice payload with Some envelope => Ok envelope | None => Err SerdeError end.
Proof.
  intros Hlen. unfold frame_of, to_be_bytes. rewrite as_u32_small by done. simpl.
  rewrite be_bytes_roundtrip by done. rewrite (proj2 (N.ltb_ge _ _)) by (rewrite length_app; lia).
  by rewrite Nat2N.id, take_app_length.
Qed.
End frames.

(** ** The receiving loop *)

(** The stream that carries the payloads [ps]. *)
Definition stream_of (ps : list (list byte)) : list byte := concat (frame_of <$> ps).

(** [r] is the beginning of the next frame, cut short, or nothing after the last. *)
Definition incomplete (r : list byte) (ps : list (list byte)) : Prop :=
  match ps with
  | [] => r = []
  | p :: _ => (length r < 4 + length p)%nat
  end.

Definition fits (p : list byte) : Prop := N.of_nat (length p) <= MAX_MESSAGE_SIZE.

Lemma stream_of_cons p ps : stream_of (p :: ps) = frame_of p ++ stream_of ps.
Proof. done. Qed.

(** Any beginning of the stream is a number of frames and an incomplete one. *)
Lemma stream_split ps : forall b t, b ++ t = stream_of ps -> exists whole ps' r,
  ps = whole ++ ps' /\ b = stream_of whole ++ r /\ r ++ t = stream_of ps' /\ incomplete r ps'.
Proof.
  induction ps as [|p ps IH]; intros b t Hb.
  - apply app_eq_nil in Hb as [-> ->]. by exists [], [], [].
  - destruct (decide (length b < 4 + length p)%nat) as [Hlt|Hge].
    + by exists [], (p :: ps), b.
    + rewrite stream_of_cons in Hb.
      assert (b = frame_of p ++ drop (4 + length p) b) as Heq.
      { rewrite <-(take_drop (4 + length p) b) at 1. f_equal.
        apply (f_equal (take (4 + length p))) in Hb.
        rewrite take_app_le in Hb by lia. rewrite Hb. apply (take_app_length (frame_of p)). }
      rewrite Heq, <-(assoc_L (++)) in Hb. apply app_inv_head in Hb.
      destruct (IH _ _ Hb) as (whole & ps' & r & -> & Hw & Hr & Hi).
      exists (p :: whole), ps', r. split_and!; try done.
      by rewrite Heq, Hw, stream_of_cons, <-(assoc_L (++)).
Qed.

(** The cut of a whole frame, whatever follows it, and of the beginning of one. *)
Lemma cut_whole p rest : fits p -> cut_frame (frame_of p ++ rest) = Frame p rest.
Proof.
  unfold fits. intros Hp. assert (N.of_nat (length p) <= u32_max) as Hlen.
  { unfold MAX_MESSAGE_SIZE, u32_max in *. lia. }
  unfold frame_of, to_be_bytes. rewrite as_u32_small by done. cbn [cut_frame app].
  rewrite be_bytes_roundtrip by done. rewrite (proj2 (N.ltb_ge _ _)) by done.
  rewrite (proj2 (N.ltb_ge _ _)) by (simpl; rewrite length_app; lia).
  by rewrite Nat2N.id, take_app_length, drop_app_length.
Qed.

Definition sendable (p : list byte) : Prop := N.of_nat (length p) <= u32_max.

Lemma fits_sendable p : fits p -> sendable p.
Proof. unfold fits, sendable, MAX_MESSAGE_SIZE, u32_max. lia. Qed.

(** A frame cut off the beginning of a stream is the first one of the stream. *)
Lemma cut_beginning r t ps p rest : r ++ t = stream_of ps -> Forall sendable ps ->
  cut_frame r = Frame p rest -> exists ps', ps = p :: ps' /\ r = frame_of p ++ rest.
Proof.
  intros Hr Hs Hcut. destruct ps as [|p0 ps].
  { by apply app_eq_nil in Hr as [-> _]. }
  apply Forall_cons in Hs as [Hp _]. unfold sendable in Hp.
  destruct r as [|b0 [|b1 [|b2 [|b3 r]]]]; try done.
  unfold stream_of, frame_of, to_be_bytes in Hr. simpl in Hr. injection Hr as -> -> -> -> Hr.
  cbn [cut_frame] in Hcut. rewrite as_u32_small, be_bytes_roundtrip in Hcut by done.
  destruct (_ <? _) in Hcut; [done|]. destruct (_ <? _) eqn:Hlen in Hcut; [done|].
  apply N.ltb_ge in Hlen. simpl in Hlen. injection Hcut as <- <-. rewrite Nat2N.id.
  assert (take (length p0) r = p0) as Htake.
  { apply (f_equal (take (length p0))) in Hr. rewrite take_app_le in Hr by lia.
    by rewrite Hr, take_app_length. }
  exists ps. rewrite Htake. split; [done|].
  unfold frame_of, to_be_bytes. rewrite as_u32_small by done. simpl. do 4 f_equal.
  rewrite <-Htake at 1. by rewrite take_drop.
Qed.

Lemma cut_incomplete r t ps : r ++ t = stream_of ps -> incomplete r ps -> Forall fits ps ->
  cut_frame r = Partial.
Proof.
  intros Hr Hi Hf. destruct (cut_frame r) as [| |p rest] eqn:Hcut; [done|exfalso..].
  - destruct ps as [|p ps]; [by simpl in Hi; subst|]. apply Forall_cons in Hf as [Hp _].
    pose proof (fits_sendable _ Hp) as Hlen. unfold fits, sendable in *.
    destruct r as [|b0 [|b1 [|b2 [|b3 r]]]]; try done.
    unfold stream_of, frame_of, to_be_bytes in Hr. simpl in Hr. injection Hr as -> -> -> -> _.
    cbn [cut_frame] in Hcut. rewrite as_u32_small, be_bytes_roundtrip in Hcut by done.
    rewrite (proj2 (N.ltb_ge _ _)) in Hcut by done. by destruct (_ <? _) in Hcut.
  - apply (cut_beginning r t ps) in Hcut as (ps' & -> & ->);
      [|done|eapply Forall_impl; [exact Hf|apply fits_sendable]].
    simpl in Hi. rewrite length_app in Hi. lia.
Qed.

Section receiving.
Context {E : Env} {JM : JsonBytes MessageEnvelope}.

Lemma process_frames_eq fuel buf : process_frames fuel buf = (
  match cut_frame buf with
  | TooLarge => ret None
  | Partial => ret (Some buf)
  | Frame payload rest =>
      match fuel with
      | O => diverge
      | S fuel => handle_payload payload ;;; process_frames fuel rest
      end
  end)%raft.
Proof. by destruct fuel. Qed.

Lemma process_frame fuel p rest n : fits p ->
  process_frames (S fuel) (frame_of p ++ rest) n =
    bind (handle_payload p) (fun _ => process_frames fuel rest) n.
Proof. intros Hp. by rewrite process_frames_eq, cut_whole. Qed.

Lemma process_incomplete fuel r t ps n : r ++ t = stream_of ps -> incomplete r ps ->
  Forall fits ps -> process_frames fuel r n = (Ok (Some r), n).
Proof. intros. by rewrite process_frames_eq, (cut_incomplete r t ps). Qed.

Lemma process_stream whole r t ps fuel n : r ++ t = stream_of ps -> incomplete r ps ->
  Forall fits (whole ++ ps) -> (length (stream_of whole) <= fuel)%nat ->
  process_frames fuel (stream_of whole ++ r) n =
    bind (for_each whole handle_payload) (fun _ => ret (Some r)) n.
Proof.
  intros Hr Hi. revert fuel n. induction whole as [|p whole IH]; intros fuel n Hf Hfuel.
  - change (process_frames fuel r n = (Ok (Some r), n)). by apply (process_incomplete _ _ t ps).
  - apply Forall_cons in Hf as [Hp Hf]. rewrite stream_of_cons in *.
    rewrite length_app, length_frame_of in Hfuel. destruct fuel as [|fuel]; [lia|].
    rewrite <-(assoc_L (++)), process_frame by done. simpl for_each. rewrite bind_assoc.
    apply bind_ext. intros _ n'. apply IH; [done|lia].
Qed.

Lemma connection_stream pieces : forall ps buf n, buf ++ concat pieces = stream_of ps ->
  incomplete buf ps -> Forall fits ps -> Forall (fun piece => piece <> []) pieces ->
  connection_loop (Received <$> pieces) buf n = for_each ps handle_payload n.
Proof.
  induction pieces as [|piece pieces IH]; intros ps buf n Hbuf Hi Hf Hne.
  - simpl in Hbuf. rewrite app_nil_r in Hbuf. destruct ps as [|p ps]; [done|exfalso].
    simpl in Hi. apply (f_equal length) in Hbuf.
    rewrite stream_of_cons, length_app, length_frame_of in Hbuf. lia.
  - apply Forall_cons in Hne as [Hpiece Hne]. simpl. rewrite decide_False by done.
    simpl in Hbuf. rewrite (assoc_L (++)) in Hbuf.
    destruct (stream_split _ _ _ Hbuf) as (whole & ps' & r & -> & Hw & Hr & Hi').
    rewrite Hw in *. pose proof Hf as [_ Hf']%Forall_app.
    unfold bind at 1. rewrite (process_stream whole r (concat pieces) ps') by
      (done || (rewrite length_app; lia)).
    change (bind (bind (for_each whole handle_payload) (fun _ => ret (Some r)))
      (fun left_over => match left_over with
        | Some buf' => connection_loop (Received <$> pieces) buf' | None => ret tt end) n =
      for_each (whole ++ ps') handle_payload n).
    rewrite bind_assoc, for_each_app. apply bind_ext. intros _ n'. by apply IH.
Qed.
End receiving.

(** ** The sending loop *)

Section sending.
Context {JM : JsonBytes MessageEnvelope} {JL : JsonBytesLaws MessageEnvelope JM}.

(** The payload of a message. *)
Definition payload_of (envelope : MessageEnvelope) : list byte := default [] (to_vec envelope).

Lemma to_vec_payload envelope : to_vec envelope = Some (payload_of envelope).
Proof. unfold payload_of. by destruct (to_vec_total envelope) as [p ->]. Qed.

Lemma transmit_ok s envelope nm : tcp nm = [] ->
  transmit s envelope nm = (Ok tt, put_on s (frame_of (payload_of envelope)) nm).
Proof.
  intros Ht. unfold transmit, write_all, next_tcp. rewrite to_vec_payload, bind_from_Some.
  unfold bind. by rewrite Ht.
Qed.

(** The bytes on an open connection, when no call fails. *)
Lemma send_known peer s envs : forall nm old, tcp nm = [] -> connections nm !! peer = Some s ->
  sent_on nm !! s = Some old -> Forall (fun env => to env = peer) envs -> exists nm',
  run_outgoing envs nm = (Ok tt, nm') /\ connections nm' = connections nm /\
  dialled nm' = dialled nm /\ sent_on nm' !! s = Some (old ++ stream_of (payload_of <$> envs)).
Proof.
  induction envs as [|env envs IH]; intros nm old Ht Hc Hs Hto.
  - exists nm. unfold stream_of. simpl. by rewrite app_nil_r.
  - apply Forall_cons in Hto as [Henv Hto].
    set (nm1 := put_on s (frame_of (payload_of env)) nm).
    assert (log_error (send_message (to env) env) nm = (Ok tt, nm1)) as Hrun.
    { unfold log_error, send_message. by rewrite Henv, bind_gets, Hc, transmit_ok. }
    destruct (IH nm1 (old ++ frame_of (payload_of env))) as (nm' & Hrun' & Hc' & Hd' & Hs'); try done.
    { unfold nm1. simpl. by rewrite lookup_alter_eq, Hs. }
    exists nm'. unfold run_outgoing in *. simpl. rewrite (bind_run _ _ _ _ _ Hrun).
    split_and!; try done. rewrite Hs'.
    change (stream_of (payload_of <$> env :: envs)) with
      (frame_of (payload_of env) ++ stream_of (payload_of <$> envs)).
    by rewrite <-(assoc_L (++)).
Qed.

(** The first message to a peer opens the connection. *)
Lemma send_first peer addr env nm : tcp nm = [] -> connections nm !! peer = None ->
  peer_addresses nm !! peer = Some addr -> exists nm',
  send_message peer env nm = (Ok tt, nm') /\ tcp nm' = [] /\
  connections nm' !! peer = Some (next_stream nm) /\ dialled nm' !! next_stream nm = Some addr /\
  sent_on nm' !! next_stream nm = Some (frame_of (payload_of env)).
Proof.
  intros Ht Hc Ha. unfold send_message. rewrite bind_gets, Hc, bind_gets, Ha.
  unfold tcp_connect, next_tcp. rewrite bind_assoc. unfold bind at 1. rewrite Ht.
  unfold bind at 1. rewrite bind_modify. eexists. split; [by apply transmit_ok|].
  simpl. rewrite !lookup_insert_eq, lookup_alter_eq, lookup_insert_eq. done.
Qed.

(** An established connection is never replaced, whatever the writes come to. *)
Definition keeps_connection (peer : string) (s : N) (nm nm' : NetworkManager) : Prop :=
  connections nm !! peer = Some s -> connections nm' !! peer = Some s.

#[local] Instance keeps_connection_preorder peer s : PreOrder (keeps_connection peer s).
Proof. unfold keeps_connection. split; red; auto. Qed.

Lemma next_tcp_keeps peer s : steps_in (keeps_connection peer s) next_tcp.
Proof. intros nm. unfold next_tcp, keeps_connection. by destruct (tcp nm). Qed.

Lemma write_all_keeps peer s s' bytes : steps_in (keeps_connection peer s) (write_all s' bytes).
Proof. unfold write_all. pose proof (next_tcp_keeps peer s). run_steps; by intros Hc. Qed.

Lemma tcp_connect_keeps peer s addr : steps_in (keeps_connection peer s) (tcp_connect addr).
Proof.
  unfold tcp_connect. pose proof (next_tcp_keeps peer s). run_steps; by intros nm Hc.
Qed.

Lemma send_message_keeps peer s peer' env : steps_in (keeps_connection peer s) (send_message peer' env).
Proof.
  assert (forall s', steps_in (keeps_connection peer s) (transmit s' env)) as Ht.
  { intros s'. unfold transmit. pose proof (write_all_keeps peer s s'). run_steps. }
  pose proof (fun addr => tcp_connect_keeps peer s addr).
  intros nm Hc. unfold send_message. rewrite bind_gets. case_match eqn:Hc'; [by apply Ht|].
  assert (peer' <> peer) as Hne by (intros ->; congruence).
  rewrite bind_gets. case_match eqn:Ha; [|done]. clear Hc' Ha. revert nm Hc.
  change (steps_in (keeps_connection peer s) (s0 <- tcp_connect s0 ;;
    modify (with_connection peer' s0) ;;; transmit s0 env)%raft).
  run_steps. intros Hc. simpl. by rewrite lookup_insert_ne.
Qed.

Lemma run_outgoing_keeps peer s envs : steps_in (keeps_connection peer s) (run_outgoing envs).
Proof.
  apply steps_in_for_each; [apply _|]. intros env nm Hc. unfold log_error.
  pose proof (send_message_keeps peer s (to env) env nm Hc) as Hk.
  by destruct (send_message _ _ nm) as [[] ?].
Qed.
End sending.

(** ** Properties *)

(** C38: A frame that was encoded is decoded to the message it encodes, whatever follows it. *)
Theorem frame_roundtrip {JM : JsonBytes MessageEnvelope} {JL : JsonBytesLaws MessageEnvelope JM}
    envelope bytes rest : encode_message envelope = Ok bytes ->
  N.of_nat (length bytes) <= u32_max -> decode_message (bytes ++ rest) = Ok envelope.
Proof.
  unfold encode_message. rewrite to_vec_payload. intros [= <-] Hlen. rewrite length_frame_of in Hlen.
  rewrite decode_frame by lia. by rewrite (from_slice_to_vec _ _ (to_vec_payload envelope)).
Qed.

Definition vote_message : MessageEnvelope :=
  mkEnvelope "node-02" "node-01" (RequestVoteResp (mkRequestVoteResponse 1 true "node-02")).

Definition bytes_of (o : outcome (list byte)) : list byte :=
  match o with Ok bytes => bytes | _ => [] end.

Lemma frame_roundtrip_witness :
  @decode_message ref_json_bytes (bytes_of (@encode_message ref_json_bytes vote_message) ++ [x00; x01]) =
    Ok vote_message.
Proof.
  apply (@frame_roundtrip ref_json_bytes _); [vm_compute; reflexivity|vm_compute; discriminate].
Defined.

(** C22: What one daemon sends to a peer on a fresh connection is, whatever the pieces in which
    the bytes arrive, handled by the receiving loop as the same messages in the same order, each
    with its errors logged. *)
Theorem sent_is_handled {E : Env} {JM : JsonBytes MessageEnvelope}
    {JL : JsonBytesLaws MessageEnvelope JM} peer addr envs env nm : tcp nm = [] ->
  connections nm !! peer = None -> peer_addresses nm !! peer = Some addr ->
  Forall (fun env => to env = peer /\ fits (payload_of env)) (env :: envs) ->
  exists nm' s bytes, run_outgoing (env :: envs) nm = (Ok tt, nm') /\
    connections nm' !! peer = Some s /\ dialled nm' !! s = Some addr /\ sent_on nm' !! s = Some bytes /\
    forall pieces n, concat pieces = bytes -> Forall (fun piece => piece <> []) pieces ->
      handle_connection (Received <$> pieces) n =
        for_each (env :: envs) (fun env => log_error (handle_message env)) n.
Proof.
  intros Ht Hc Ha Hall. pose proof Hall as [[Henv _] Hall']%Forall_cons.
  destruct (send_first peer addr env nm Ht Hc Ha) as (nm1 & Hrun1 & Ht1 & Hc1 & Hd1 & Hs1).
  destruct (send_known peer (next_stream nm) envs nm1 (frame_of (payload_of env)))
    as (nm' & Hrun' & Hc' & Hd' & Hs'); [done..|eapply Forall_impl; [exact Hall'|by intros ? []]|].
  exists nm', (next_stream nm), (stream_of (payload_of <$> env :: envs)).
  split_and!; [|congruence|congruence|done|].
  - unfold run_outgoing. simpl. erewrite bind_run; [exact Hrun'|].
    unfold log_error. by rewrite Henv, Hrun1.
  - intros pieces n Hcat Hne. unfold handle_connection.
    rewrite (connection_stream pieces (payload_of <$> env :: envs)); try done; [|simpl; lia|].
    + rewrite for_each_fmap. apply for_each_ext. intros x _ m. unfold handle_payload.
      by rewrite (from_slice_to_vec _ _ (to_vec_payload x)).
    + apply Forall_fmap. eapply Forall_impl; [exact Hall|]. by intros ? [].
Qed.

(** The answer of [node-02] to the candidate [node-01], cut after three bytes. *)
Lemma sent_is_handled_witness : exists bytes,
  let nm := register_peer "node-01" "10.0.0.1:5555" (NetworkManager_new []) in
  sent_on (@run_outgoing ref_json_bytes [vote_message; vote_message] nm).2 !! 0 = Some bytes /\
  let n := (@start_election ref_env (sample three "node-01")).2 in
  role (@handle_connection ref_env ref_json_bytes [Received (take 3 bytes); Received (drop 3 bytes)] n).2
    = Leader.
Proof.
  destruct (@sent_is_handled ref_env ref_json_bytes _ "node-01" "10.0.0.1:5555" [vote_message] vote_message
    (register_peer "node-01" "10.0.0.1:5555" (NetworkManager_new [])))
    as (nm' & s & bytes & Hrun & Hc & _ & Hs & Hall); [reflexivity..| |].
  { repeat constructor; vm_compute; discriminate. }
  exists bytes. intros nm.
  assert (s = 0) as ->.
  { apply (f_equal snd) in Hrun. simpl in Hrun. rewrite <-Hrun in Hc. vm_compute in Hc.
    by injection Hc. }
  split; [unfold nm; rewrite Hrun; exact Hs|]. intros n.
  assert (3 < length bytes)%nat as Hlen.
  { apply (f_equal snd) in Hrun. simpl in Hrun. rewrite <-Hrun in Hs.
    assert (bytes = default [] (sent_on (@run_outgoing ref_json_bytes [vote_message; vote_message] nm).2 !! 0))
      as -> by (unfold nm; rewrite Hs; reflexivity). apply Nat.ltb_lt. vm_compute. reflexivity. }
  pose proof (Hall [take 3 bytes; drop 3 bytes] n) as Hrecv.
  cbn [fmap list_fmap] in Hrecv. rewrite Hrecv.
  - vm_compute. reflexivity.
  - simpl. rewrite app_nil_r. apply take_drop.
  - apply Forall_cons; split; [|apply Forall_cons; split; [|by apply Forall_nil]];
      intros Hnil; apply (f_equal length) in Hnil;
      rewrite ?length_take, ?length_drop in Hnil; cbn [length] in Hnil; lia.
Defined.

(** A frame that announces more than [MAX_MESSAGE_SIZE] bytes closes the connection: nothing of
    it, and nothing after it, is handled. *)
Theorem oversized_frame_closes {E : Env} {JM : JsonBytes MessageEnvelope} len body reads n :
  MAX_MESSAGE_SIZE < len -> len <= u32_max ->
  handle_connection (Received (to_be_bytes len ++ body) :: reads) n = (Ok tt, n).
Proof.
  intros Hlen Hmax. unfold handle_connection, to_be_bytes. cbn [connection_loop].
  rewrite decide_False by done. rewrite process_frames_eq. cbn [app cut_frame].
  rewrite be_bytes_roundtrip by done. by rewrite (proj2 (N.ltb_lt _ _)).
Qed.

Lemma oversized_frame_closes_witness :
  @handle_connection ref_env ref_json_bytes
    [Received (to_be_bytes 1048577); Received (bytes_of (@encode_message ref_json_bytes vote_message))]
    (sample three "node-01") = (Ok tt, sample three "node-01").
Proof.
  rewrite <-(app_nil_r (to_be_bytes 1048577)).
  apply (@oversized_frame_closes ref_env ref_json_bytes); [reflexivity|vm_compute; discriminate].
Defined.

(** A connection is never removed from the pool, even after a failed write: every later message
    to the peer goes to it. *)
Theorem dead_connection_kept {JM : JsonBytes MessageEnvelope} peer s envs nm :
  connections nm !! peer = Some s -> connections (run_outgoing envs nm).2 !! peer = Some s.
Proof. apply run_outgoing_keeps. Qed.

(** The write of the first message fails, and the second one is written to the same stream. *)
Lemma dead_connection_kept_witness :
  let nm := with_tcp [TcpErr 2; TcpOk] (@run_outgoing ref_json_bytes [vote_message]
    (register_peer "node-01" "10.0.0.1:5555" (NetworkManager_new []))).2 in
  connections (@run_outgoing ref_json_bytes [vote_message; vote_message] nm).2 !! "node-01" = Some 0.
Proof. intros nm. apply (@dead_connection_kept ref_json_bytes). vm_compute. reflexivity. Defined.

(** Messages to peers without a registered address, such as those added by a [Join] request, are
    dropped, and the loop goes on. *)
Theorem unregistered_peer_dropped {JM : JsonBytes MessageEnvelope} envs nm :
  Forall (fun env => connections nm !! to env = None /\ peer_addresses nm !! to env = None) envs ->
  run_outgoing envs nm = (Ok tt, nm).
Proof.
  induction 1 as [|env envs [Hc Ha] _ IH]; [done|]. unfold run_outgoing in *. simpl.
  erewrite bind_run; [exact IH|]. unfold log_error, send_message.
  by rewrite bind_gets, Hc, bind_gets, Ha.
Qed.

(** [node-09] joins a leader through the IPC socket: the heartbeats for it go nowhere. *)
Lemma unregistered_peer_dropped_witness :
  let n := (@add_peer ref_env "node-09" "10.0.0.9:5555" (sample ["solo"] "solo")).2 in
  let n' := (@start_election ref_env n).2 in
  length (outgoing n') = 1%nat /\
  @run_outgoing ref_json_bytes (outgoing n') (NetworkManager_new []) = (Ok tt, NetworkManager_new []).
Proof.
  intros n n'. split; [vm_compute; reflexivity|]. apply (@unregistered_peer_dropped ref_json_bytes).
  vm_compute. repeat constructor.
Defined.
