(* ===== verification/Daemon.v ===== *)
(** * The daemon: the tasks of [raft/src/main.rs] around one node

    [main] spawns an election task, a heartbeat task, the network manager (which calls
    [handle_message]) and the IPC server (which calls the client operations).  A run of
    the daemon is a sequence of their rounds: [event] names a round, [run_event] is its
    body, and [node_step] adds the passage of time and a crash followed by a restart from
    the data directory.  The result of a round is only logged by the tasks, so a step
    keeps the state whatever the outcome.  [outgoing] and [replies] are histories: a
    restarted process continues them. *)

From S2P Require Import Prelude Heapless Protocol Serde HashMap Log StateMachine Config Env.
From S2P Require Import Node.
Local Open Scope N_scope.

Section daemon.
Context {E : Env}.

(** One round of the election task, after its sleep of [timeout]. *)
Definition election_tick (timeout : N) : M RaftNode unit := (
  role <- gets role ;;
  when (bool_decide (role = Follower \/ role = Candidate)) (
    time_since_hb <- gets time_since_heartbeat ;;
    when (timeout <=? time_since_hb) start_election))%raft.

(** One round of the heartbeat task, after its sleep. *)
Definition heartbeat_tick : M RaftNode unit := (
  role <- gets role ;;
  when (bool_decide (role = Leader)) send_heartbeats)%raft.

(** [main]: the node is built with the registered peers of the configuration. *)
Definition peer_registrations (config : Config) : list (string * string) :=
  (fun peer => (pc_id peer, pc_address peer)) <$> cfg_peers config.

Inductive event :=
  | Deliver (envelope : MessageEnvelope)
  | ElectionTick (timeout : N)
  | HeartbeatTick
  | Propose (command : Command) (response_tx : N)
  | AddPeer (id address : string)
  | RemovePeer (id : string)
  | GetStatus.

(** The rounds a daemon makes by itself; messages only come from the network. *)
Definition local_event (ev : event) : bool :=
  match ev with Deliver _ => false | _ => true end.

Definition run_event (ev : event) : M RaftNode unit :=
  match ev with
  | Deliver envelope => handle_message envelope
  | ElectionTick timeout => election_tick timeout
  | HeartbeatTick => heartbeat_tick
  | Propose command response_tx => propose command response_tx
  | AddPeer id address => add_peer id address
  | RemovePeer id => remove_peer id
  | GetStatus => (status <- get_status ;; ret tt)%raft
  end.

(** The rounds [evs], one after the other. *)
Definition run_events (evs : list event) (n : RaftNode) : RaftNode :=
  foldl (fun n ev => (run_event ev n).2) n evs.

(** The process is restarted at time [now] on the files it left; [io] is the fate of the
    file operations of the new process. *)
Definition restart (n : RaftNode) (io : list io_result) (now : N) : outcome RaftNode :=
  match RaftNode_new (config n) (mkDir (files (disk (log n))) io) now with
  | Ok n' => Ok (with_outgoing (outgoing n) (with_replies (replies n) n'))
  | o => o
  end.

(** What a run may assume of its events is a parameter: [allowed]. *)
Inductive node_step (allowed : RaftNode -> event -> Prop) : RaftNode -> RaftNode -> Prop :=
  | step_event n ev : allowed n ev -> node_step allowed n (run_event ev n).2
  | step_time n now : clock n <= now -> node_step allowed n (with_clock now n)
  | step_restart n n' io now : restart n io now = Ok n' -> node_step allowed n n'.

(** A node started on an empty data directory, and what its runs can reach. *)
Inductive node_reachable (allowed : RaftNode -> event -> Prop) (cfg : Config) : RaftNode -> Prop :=
  | reach_start io now n : RaftNode_new cfg (mkDir ∅ io) now = Ok n -> node_reachable allowed cfg n
  | reach_step n n' : node_reachable allowed cfg n -> node_step allowed n n' ->
      node_reachable allowed cfg n'.
End daemon.
