(* ===== verification/Histories.v ===== *)
(** * What a node has sent and answered is never taken back

    [outgoing] and [replies] are histories: every round extends them, whatever the file
    operations come to and whatever the state it starts in; the configuration never
    changes. *)

From S2P Require Import Prelude Heapless Protocol Serde HashMap Log StateMachine Config Env.
From S2P Require Import Node NodeFacts Daemon.
Local Open Scope N_scope.

Definition histories_grow (n n' : RaftNode) : Prop :=
  replies n `prefix_of` replies n' /\ outgoing n `prefix_of` outgoing n' /\ config n' = config n.

#[export] Instance histories_grow_preorder : PreOrder histories_grow.
Proof.
  unfold histories_grow. split; [done|]. intros n1 n2 n3 (? & ? & ?) (? & ? & ?).
  split_and!; by etransitivity.
Qed.

Section histories.
Context {E : Env}.

Ltac grow_steps := node_steps; try (intros ?; reflexivity); try reflexivity; unfold histories_grow; try done.

Lemma histories_grow_guard n b : histories_grow n (with_log_guard b n).
Proof. unfold histories_grow. done. Qed.
Hint Resolve histories_grow_guard : raft.

Lemma histories_grow_on_log {A} (m : M RaftLog A) : steps_in histories_grow (on_log m).
Proof. intros n. unfold on_log, zoom, histories_grow. by destruct (m (log n)). Qed.
Hint Resolve histories_grow_on_log : raft.

Lemma histories_grow_respond tx r : steps_in histories_grow (respond tx r).
Proof. apply steps_in_modify. intros n. unfold histories_grow. simpl. by split_and!; [apply prefix_app_r|..]. Qed.
Hint Resolve histories_grow_respond : raft.

Lemma histories_grow_send envelope : steps_in histories_grow (send envelope).
Proof. apply steps_in_modify. intros n. unfold histories_grow. simpl. by split_and!; [|apply prefix_app_r|]. Qed.
Hint Resolve histories_grow_send : raft.

Lemma histories_grow_heartbeats : steps_in histories_grow send_heartbeats.
Proof. unfold send_heartbeats, heartbeat_to. grow_steps. Qed.
Hint Resolve histories_grow_heartbeats : raft.

Lemma histories_grow_become_leader : steps_in histories_grow become_leader.
Proof. unfold become_leader, set_role, init_peer. grow_steps. Qed.
Hint Resolve histories_grow_become_leader : raft.

Lemma histories_grow_apply : steps_in histories_grow apply_committed_entries.
Proof.
  assert (forall fuel commit, steps_in histories_grow (apply_loop fuel commit)) as Hl.
  { intros fuel commit. induction fuel; simpl; unfold apply_entry; grow_steps. }
  unfold apply_committed_entries. node_steps.
Qed.
Hint Resolve histories_grow_apply : raft.

Lemma histories_grow_append_response to t b : steps_in histories_grow (send_append_entries_response to t b).
Proof. unfold send_append_entries_response. grow_steps. Qed.
Hint Resolve histories_grow_append_response : raft.

Lemma histories_grow_try_advance : steps_in histories_grow try_advance_commit_index.
Proof.
  assert (forall i, steps_in histories_grow (notify_pending_requests i)) as Hn.
  { intros i. unfold notify_pending_requests, notify_one. grow_steps. }
  assert (forall t m cs, steps_in histories_grow (advance_loop t m cs)) as Ha.
  { intros t m cs. induction cs; simpl; grow_steps. }
  unfold try_advance_commit_index. node_steps.
Qed.
Hint Resolve histories_grow_try_advance : raft.

Lemma histories_grow_message env : steps_in histories_grow (handle_message env).
Proof.
  unfold handle_message. destruct (message env).
  - unfold handle_append_entries, update_commit_index, reset_heartbeat, set_role, when. grow_steps.
  - unfold handle_append_entries_response, set_role. grow_steps.
  - unfold handle_request_vote, send_request_vote_response, reset_heartbeat, set_role, when.
    grow_steps.
  - unfold handle_request_vote_response, set_role, when. grow_steps.
    match goal with |- context [decide (?x ∈ ?l)] => destruct (decide (x ∈ l)); by split_and! end.
  - apply steps_in_ret. apply _.
  - apply steps_in_ret. apply _.
Qed.

Lemma histories_grow_event ev : steps_in histories_grow (run_event ev).
Proof.
  destruct ev; simpl; [apply histories_grow_message|..].
  - unfold election_tick, start_election, set_role, reset_heartbeat, when. grow_steps.
  - unfold heartbeat_tick, when. node_steps.
  - unfold propose. grow_steps.
  - unfold add_peer, when. grow_steps.
  - unfold remove_peer. grow_steps.
  - unfold get_status. node_steps.
Qed.

Lemma histories_grow_events evs n : histories_grow n (run_events evs n).
Proof.
  revert n. induction evs as [|ev evs IH]; intros n; simpl; [done|].
  etransitivity; [apply histories_grow_event|apply IH].
Qed.
End histories.
