(* ===== verification/Timers.v ===== *)
(** * The two timer tasks of [raft/src/main.rs]

    Daemon.v has the rounds of the election and of the heartbeat task; here are the loops
    around them: a turn draws a timeout (or reads the interval), sleeps that long at least,
    and makes its round.  A round that fails is logged and the next turn begins; a round that
    never returns, or a panic, ends the task, and nobody joins it: the daemon goes on without
    it.  [gen_range] of the crate [rand] is a parameter. *)

From S2P Require Import Prelude Heapless Protocol Serde HashMap Log StateMachine Config Env.
From S2P Require Import Node Daemon.
Local Open Scope N_scope.

(** The task sleeps since a time, for a while, or is over. *)
Inductive timer_task := Asleep (since duration : N) | Over.

#[export] Instance timer_task_eq_dec : EqDecision timer_task.
Proof. solve_decision. Defined.

(** The node with its timer tasks. *)
Record timers := mkTimers { tm_node : RaftNode; tm_election : timer_task; tm_heartbeat : timer_task }.

Section timers.
Context {E : Env}.

(** [node.election_timeout()], then the sleep. *)
Definition election_sleep (gen_range : N -> N -> N) (n : RaftNode) : timer_task :=
  match election_timeout gen_range n with Ok timeout => Asleep (clock n) timeout | _ => Over end.

(** [node.heartbeat_interval()], then the sleep. *)
Definition heartbeat_sleep (n : RaftNode) : timer_task := Asleep (clock n) (heartbeat_interval n).

(** The end of a turn, and the beginning of the next one. *)
Definition next_turn (o : outcome unit) (n : RaftNode) (sleep : RaftNode -> timer_task) : timer_task :=
  match o with Ok _ | Err _ => sleep n | _ => Over end.

Inductive timer_action :=
  | WakeElection (gen_range : N -> N -> N)
  | WakeHeartbeat
  | Meanwhile (ev : event)
  | Passing (now : N).

(** The rounds of the other tasks. *)
Definition others (ev : event) : bool :=
  match ev with ElectionTick _ | HeartbeatTick => false | _ => true end.

Definition exec_timer (a : timer_action) (s : timers) : timers :=
  let n := tm_node s in
  match a with
  | WakeElection gen_range =>
      match tm_election s with
      | Asleep since timeout =>
          if since + timeout <=? clock n then
            let '(o, n') := election_tick timeout n in
            mkTimers n' (next_turn o n' (election_sleep gen_range)) (tm_heartbeat s)
          else s
      | Over => s
      end
  | WakeHeartbeat =>
      match tm_heartbeat s with
      | Asleep since interval =>
          if since + interval <=? clock n then
            let '(o, n') := heartbeat_tick n in
            mkTimers n' (tm_election s) (next_turn o n' heartbeat_sleep)
          else s
      | Over => s
      end
  | Meanwhile ev =>
      if others ev then mkTimers (run_event ev n).2 (tm_election s) (tm_heartbeat s) else s
  | Passing now =>
      if clock n <=? now then mkTimers (with_clock now n) (tm_election s) (tm_heartbeat s) else s
  end.

(** [main] spawns the tasks around the new node. *)
Definition start_timers (gen_range : N -> N -> N) (n : RaftNode) : timers :=
  mkTimers n (election_sleep gen_range n) (heartbeat_sleep n).

Definition run_timers (acts : list timer_action) (s : timers) : timers :=
  foldl (fun s a => exec_timer a s) s acts.
End timers.
