(* ===== verification/Tasks.v ===== *)
(** * The tasks of a daemon, interleaved at their awaits: [raft/src/node.rs]

    In Node.v a method is one step.  The daemon runs a task per connection, per client and per
    timer, and between two sections of a method in which it holds the mutex of the log, or
    touches a lock for one statement, the other tasks have their turn.  Here a method is cut
    at these places: a [point] is where a task stands, [resume] the section it makes next, and
    what it returns are the points that remain.  A section under the mutex of the log is one
    step, although a task that needs other locks only could run beside it. *)

From S2P Require Import Prelude Heapless Protocol Serde HashMap Log StateMachine Config Env.
From S2P Require Import Node Daemon.
Local Open Scope N_scope.

(** Where a task stands, by method. *)
Inductive point :=
  | AtAppendEntries (from : string) (req : AppendEntriesRequest)
  | AtApply
  | AtApplyUpTo (commit : N)
  | AtAppendResponse (to : string) (term : N) (success : bool)
  | AtAppendEntriesResponse (from : string) (resp : AppendEntriesResponse)
  | AtStepDown (term : N)
  | AtTryAdvance
  | AtAdvance
  | AtCommit (i : N)
  | AtNotify (i : N)
  | AtRequestVote (from : string) (req : RequestVoteRequest)
  | AtRequestVoteResponse (from : string) (resp : RequestVoteResponse)
  | AtBecomeLeader
  | AtNameLeader
  | AtReadLast
  | AtInitPeers (last : N)
  | AtHeartbeats
  | AtSendHeartbeats
  | AtElectionRole (timeout : N)
  | AtElectionTimer (timeout : N)
  | AtStartElection
  | AtHeartbeatRole
  | AtPropose (command : Command) (response_tx : N)
  | AtNotLeader (response_tx : N)
  | AtAppend (command : Command) (response_tx : N)
  | AtPending (i response_tx : N)
  | AtAddPeer (id address : string)
  | AtAddPeerRole (id : string)
  | AtAddPeerIndexes (id : string)
  | AtRemovePeer (id : string)
  | AtRemoveNext (id : string)
  | AtRemoveMatch (id : string)
  | AtStatus.

(** The points of a task, the next one first. *)
Definition route : Type := list point.

Section tasks.
Context {E : Env}.

(** ** The sections of the methods *)

Definition append_entries_section (from : string) (req : AppendEntriesRequest) :
    M RaftNode route := scope_log (
  current <- gets node_term ;;
  if ae_term req <? current then
    send_append_entries_response from current false ;;; ret []
  else
    when (current <? ae_term req) (
      on_log (set_current_term (ae_term req)) ;;;
      set_role Follower) ;;;
    reset_heartbeat ;;;
    modify (with_leader_id (Some (ae_leader_id req))) ;;;
    l <- gets log ;;
    if (0 <? prev_log_index req) && negb (has_entry l (prev_log_index req) (prev_log_term req)) then
      term <- gets node_term ;;
      send_append_entries_response from term false ;;; ret []
    else
      when (negb (bool_decide (ae_entries req = []))) (on_log (store_entries (ae_entries req))) ;;;
      update_commit_index (leader_commit req) ;;;
      ret [AtApply; AtAppendResponse from current true])%raft.

Definition append_response_section (from : string) (resp : AppendEntriesResponse) :
    M RaftNode route := scope_log (
  role <- gets role ;;
  if decide (role <> Leader) then ret []
  else
    current <- gets node_term ;;
    if current <? aer_term resp then ret [AtStepDown (aer_term resp)]
    else if success resp then
      let new_match := aer_last_log_index resp in
      modify (fun n => with_match_index (<[from := new_match]> (match_index n)) n) ;;;
      modify (fun n => with_next_index (<[from := u64_add new_match 1]> (next_index n)) n) ;;;
      ret [AtTryAdvance]
    else
      modify (fun n => with_next_index (alter step_back from (next_index n)) n) ;;;
      ret [])%raft.

(** The entry that [try_advance_commit_index] finds, its guards dropped. *)
Fixpoint advance_section (current_term : N) (majority : nat) (candidates : list N) : M RaftNode route := (
  match candidates with
  | [] => ret []
  | n :: rest =>
      term_at_n <- gets (fun s => term_at (log s) n) ;;
      if decide (term_at_n <> Some current_term) then advance_section current_term majority rest
      else
        count <- gets (fun s => count_replicated n (match_index s)) ;;
        if (majority <=? count)%nat then ret [AtCommit n]
        else advance_section current_term majority rest
  end)%raft.

Definition vote_response_section (from : string) (resp : RequestVoteResponse) :
    M RaftNode route := scope_log (
  role <- gets role ;;
  if decide (role <> Candidate) then ret []
  else
    current <- gets node_term ;;
    if current <? rvr_term resp then ret [AtStepDown (rvr_term resp)]
    else if vote_granted resp then
      modify (fun n => if decide (from ∈ votes_received n) then n
                       else with_votes_received (votes_received n ++ [from]) n) ;;;
      votes <- gets (fun n => length (votes_received n)) ;;
      total_nodes <- gets (fun n => (size (peers n) + 1)%nat) ;;
      ret (if (majority_of total_nodes <=? votes + 1)%nat then [AtBecomeLeader] else [])
    else ret [])%raft.

Definition election_section : M RaftNode route := scope_log (
  new_term <- gets (fun n => u64_add (node_term n) 1) ;;
  on_log (set_current_term new_term) ;;;
  me <- gets node_id ;;
  on_log (set_voted_for (Some me)) ;;;
  set_role Candidate ;;;
  modify (with_votes_received [me]) ;;;
  reset_heartbeat ;;;
  l <- gets log ;;
  let request := mkRequestVote new_term (string_from ID_CAPACITY me) (last_index l) (last_term l) in
  ps <- gets (fun n => hash_keys (peers n)) ;;
  for_each ps (fun peer => send (MessageEnvelope_new me peer (RequestVote request))) ;;;
  ret (if bool_decide (ps = []) then [AtBecomeLeader] else []))%raft.

(** One section, and the points it leaves. *)
Definition resume (p : point) : M RaftNode route := (
  match p with
  | AtAppendEntries from req => append_entries_section from req
  | AtApply => commit <- gets commit_index ;; ret [AtApplyUpTo commit]
  | AtApplyUpTo commit =>
      applied <- gets last_applied ;;
      scope_log (apply_loop (N.to_nat (commit - applied)) commit) ;;; ret []
  | AtAppendResponse to term success => send_append_entries_response to term success ;;; ret []
  | AtAppendEntriesResponse from resp => append_response_section from resp
  | AtStepDown term => scope_log (on_log (set_current_term term) ;;; set_role Follower) ;;; ret []
  | AtTryAdvance =>
      role <- gets role ;;
      ret (if decide (role <> Leader) then [] else [AtAdvance])
  | AtAdvance => scope_log (
      current_term <- gets node_term ;;
      last_log_index <- gets (fun n => last_index (log n)) ;;
      current_commit <- gets commit_index ;;
      total_nodes <- gets (fun n => (size (peers n) + 1)%nat) ;;
      advance_section current_term (majority_of total_nodes)
        (reverse (range_inclusive (u64_add current_commit 1) last_log_index)))
  | AtCommit i => modify (with_commit_index i) ;;; ret [AtApply; AtNotify i]
  | AtNotify i => notify_pending_requests i ;;; ret []
  | AtRequestVote from req => handle_request_vote from req ;;; ret []
  | AtRequestVoteResponse from resp => vote_response_section from resp
  | AtBecomeLeader => set_role Leader ;;; ret [AtNameLeader]
  | AtNameLeader => modify (fun n => with_leader_id (Some (node_id n)) n) ;;; ret [AtReadLast]
  | AtReadLast => last <- scope_log (gets (fun n => last_index (log n))) ;; ret [AtInitPeers last]
  | AtInitPeers last =>
      ps <- gets (fun n => hash_keys (peers n)) ;;
      for_each ps (init_peer last) ;;; ret [AtHeartbeats]
  | AtHeartbeats =>
      role <- gets role ;;
      ret (if decide (role <> Leader) then [] else [AtSendHeartbeats])
  | AtSendHeartbeats => scope_log (
      n <- gets (fun n => n) ;;
      for_each (hash_keys (peers n)) (heartbeat_to n)) ;;; ret []
  | AtElectionRole timeout =>
      role <- gets role ;;
      ret (if bool_decide (role = Follower \/ role = Candidate) then [AtElectionTimer timeout] else [])
  | AtElectionTimer timeout =>
      time_since_hb <- gets time_since_heartbeat ;;
      ret (if timeout <=? time_since_hb then [AtStartElection] else [])
  | AtStartElection => election_section
  | AtHeartbeatRole =>
      role <- gets role ;;
      ret (if bool_decide (role = Leader) then [AtHeartbeats] else [])
  | AtPropose command response_tx =>
      role <- gets role ;;
      ret (if decide (role <> Leader) then [AtNotLeader response_tx] else [AtAppend command response_tx])
  | AtNotLeader response_tx =>
      leader <- gets leader_id ;;
      respond response_tx (NotLeader leader) ;;; ret []
  | AtAppend command response_tx =>
      index <- scope_log (
        term <- gets node_term ;;
        on_log (append term command)) ;;
      ret [AtPending index response_tx]
  | AtPending i response_tx =>
      modify (fun n => with_pending_requests (<[i := response_tx]> (pending_requests n)) n) ;;;
      ret [AtHeartbeats]
  | AtAddPeer id address =>
      modify (fun n => with_peers (<[id := PeerInfo_new id address]> (peers n)) n) ;;;
      ret [AtAddPeerRole id]
  | AtAddPeerRole id =>
      role <- gets role ;;
      ret (if bool_decide (role = Leader) then [AtAddPeerIndexes id] else [])
  | AtAddPeerIndexes id => scope_log (
      last <- gets (fun n => last_index (log n)) ;;
      modify (fun n => with_next_index (<[id := u64_add last 1]> (next_index n)) n) ;;;
      modify (fun n => with_match_index (<[id := 0]> (match_index n)) n)) ;;; ret []
  | AtRemovePeer id =>
      modify (fun n => with_peers (delete id (peers n)) n) ;;; ret [AtRemoveNext id]
  | AtRemoveNext id =>
      modify (fun n => with_next_index (delete id (next_index n)) n) ;;; ret [AtRemoveMatch id]
  | AtRemoveMatch id =>
      modify (fun n => with_match_index (delete id (match_index n)) n) ;;; ret []
  | AtStatus => status <- get_status ;; ret []
  end)%raft.

(** Where a round of a daemon begins. *)
Definition first_point (ev : event) : route :=
  match ev with
  | Deliver envelope =>
      match message envelope with
      | AppendEntries req => [AtAppendEntries (from envelope) req]
      | AppendEntriesResp resp => [AtAppendEntriesResponse (from envelope) resp]
      | RequestVote req => [AtRequestVote (from envelope) req]
      | RequestVoteResp resp => [AtRequestVoteResponse (from envelope) resp]
      | ClientReq _ | ClientResp _ => []
      end
  | ElectionTick timeout => [AtElectionRole timeout]
  | HeartbeatTick => [AtHeartbeatRole]
  | Propose command response_tx => [AtPropose command response_tx]
  | AddPeer id address => [AtAddPeer id address]
  | RemovePeer id => [AtRemovePeer id]
  | GetStatus => [AtStatus]
  end.

(** A task that nobody interrupts, for at most [fuel] sections. *)
Fixpoint run_task (fuel : nat) (t : route) : M RaftNode unit := (
  match t with
  | [] => ret tt
  | p :: t =>
      match fuel with
      | O => diverge
      | S fuel => next <- resume p ;; run_task fuel (next ++ t)
      end
  end)%raft.

(** No round has more sections. *)
Definition sections : nat := 9.

(** ** The tasks of one daemon *)

Record crew := mkCrew { cr_node : RaftNode; cr_tasks : list route }.

Definition begin_task (ev : event) (s : crew) : crew := mkCrew (cr_node s) (cr_tasks s ++ [first_point ev]).

(** The task [i] makes its next section.  One that finds the mutex held waits; an error ends
    the round of its task, which logs it. *)
Definition resume_task (i : nat) (s : crew) : crew :=
  match cr_tasks s !! i with
  | Some (p :: t) =>
      match resume p (cr_node s) with
      | (Ok next, n) => mkCrew n (<[i := next ++ t]> (cr_tasks s))
      | (Blocked, n) => mkCrew n (cr_tasks s)
      | (_, n) => mkCrew n (<[i := []]> (cr_tasks s))
      end
  | _ => s
  end.

(** What a run may assume of its sections is a parameter: [allowed]. *)
Inductive crew_step (allowed : RaftNode -> point -> Prop) : crew -> crew -> Prop :=
  | crew_begin s ev : crew_step allowed s (begin_task ev s)
  | crew_resume s i p t : cr_tasks s !! i = Some (p :: t) -> allowed (cr_node s) p ->
      crew_step allowed s (resume_task i s)
  | crew_time s now : clock (cr_node s) <= now ->
      crew_step allowed s (mkCrew (with_clock now (cr_node s)) (cr_tasks s))
  | crew_restart s n io now : restart (cr_node s) io now = Ok n -> crew_step allowed s (mkCrew n []).

Inductive crew_reachable (allowed : RaftNode -> point -> Prop) (cfg : Config) : crew -> Prop :=
  | crew_start io now n : RaftNode_new cfg (mkDir ∅ io) now = Ok n ->
      crew_reachable allowed cfg (mkCrew n [])
  | crew_next s s' : crew_reachable allowed cfg s -> crew_step allowed s s' ->
      crew_reachable allowed cfg s'.
End tasks.
