(* ===== verification/TasksFacts.v ===== *)
(** * A task that is not interrupted makes its round

    The sections of Tasks.v against the methods of Node.v: run one after the other, from the
    point where a round begins, they come to what [run_event] comes to, outcome and state.
    [close] is the end of the scope of a guard, [cut] relates a method whose scope is open to
    the section that ends where the method drops the guard. *)

From S2P Require Import Prelude Heapless Protocol Serde HashMap Log LogFacts StateMachine.
From S2P Require Import Config Env Node NodeFacts Sample Daemon Tasks.
Local Open Scope N_scope.

Section alone.
Context {E : Env} {EL : EnvLaws E}.

(** ** The end of a scope *)

(** What the end of the scope of the guard makes of a result. *)
Definition close {A} (r : outcome A * RaftNode) : outcome A * RaftNode :=
  match r with
  | (Blocked, n) => (Blocked, n)
  | (OutOfFuel, n) => (OutOfFuel, n)
  | (o, n) => (o, with_log_guard false n)
  end.

(** From a state whose guard is free, the program leaves nothing to close. *)
Definition tidy {A} (m : M RaftNode A) : Prop :=
  forall n, log_guard n = false -> close (m n) = m n.

Lemma with_guard_same n : log_guard n = false -> with_log_guard false n = n.
Proof. destruct n. simpl. by intros ->. Qed.

Lemma close_scope {A} (body : M RaftNode A) n : close (scope_log body n) = scope_log body n.
Proof.
  destruct (log_guard n) eqn:Hg; [by rewrite scope_log_held|].
  rewrite scope_log_free by done. by destruct (body _) as [[] []].
Qed.

Lemma tidy_scope {A} (body : M RaftNode A) : tidy (scope_log body).
Proof. intros n _. apply close_scope. Qed.

Lemma tidy_ret {A} (a : A) : tidy (ret a).
Proof. intros n Hg. simpl. by rewrite with_guard_same. Qed.

Lemma tidy_gets {A} (f : RaftNode -> A) : tidy (gets f).
Proof. intros n Hg. simpl. by rewrite with_guard_same. Qed.

Lemma tidy_modify f : (forall n, log_guard (f n) = log_guard n) -> tidy (modify f).
Proof. intros Hf n Hg. simpl. rewrite with_guard_same; [done|by rewrite Hf]. Qed.

Lemma tidy_bind {A B} (m : M RaftNode A) (k : A -> M RaftNode B) :
  tidy m -> (forall a, tidy (k a)) -> tidy (bind m k).
Proof.
  intros Hm Hk n Hg. specialize (Hm n Hg). unfold bind.
  destruct (m n) as [[a|e| | |] n1]; simpl in Hm; try done.
  - apply Hk. injection Hm as Hm. by rewrite <-Hm.
  - simpl. injection Hm as Hm. by rewrite Hm.
  - simpl. injection Hm as Hm. by rewrite Hm.
Qed.

Lemma tidy_for_each {A} (l : list A) (f : A -> M RaftNode unit) :
  (forall a, tidy (f a)) -> tidy (for_each l f).
Proof. intros Hf. induction l; simpl; [apply tidy_ret|apply tidy_bind; done]. Qed.

Lemma tidy_if {A} (b : bool) (m1 m2 : M RaftNode A) : tidy m1 -> tidy m2 -> tidy (if b then m1 else m2).
Proof. by destruct b. Qed.

(** ** A method and its sections *)

(** The method [body], whose scope is open, and the section [seg] followed by the points it
    returns, come to the same. *)
Definition cut (fuel : nat) (body : M RaftNode unit) (seg : M RaftNode route) : Prop :=
  forall n, close (body n) = bind (fun n => close (seg n)) (run_task fuel) n.

Lemma cut_bind {A} fuel (m : M RaftNode A) (k : A -> M RaftNode unit) (k' : A -> M RaftNode route) :
  (forall a, cut fuel (k a) (k' a)) -> cut fuel (bind m k) (bind m k').
Proof. intros Hk n. unfold bind. destruct (m n) as [[a|e| | |] n1]; try done. apply Hk. Qed.

Lemma cut_if fuel (b : bool) m1 m2 s1 s2 : cut fuel m1 s1 -> cut fuel m2 s2 ->
  cut fuel (if b then m1 else m2) (if b then s1 else s2).
Proof. by destruct b. Qed.

(** A branch that ends inside of the scope. *)
Lemma cut_end fuel m : cut fuel m (m ;;; ret [])%raft.
Proof. intros n. unfold bind. destruct (m n) as [[[]|e| | |] n1]; try done. simpl. by destruct fuel. Qed.

Lemma cut_ret fuel : cut fuel (ret tt) (ret []).
Proof. intros n. simpl. by destruct fuel. Qed.

(** A branch that drops the guard and goes on. *)
Lemma cut_drop fuel t (rest : M RaftNode unit) : tidy rest ->
  (forall n, log_guard n = false -> run_task fuel t n = rest n) -> cut fuel (drop_log ;;; rest)%raft (ret t).
Proof.
  intros Ht Hrest n. unfold drop_log. rewrite bind_modify, Ht by done.
  symmetry. by apply Hrest.
Qed.

Lemma cut_scope fuel (body : M RaftNode unit) (seg : M RaftNode route) n : log_guard n = false ->
  cut fuel body seg -> bind (scope_log seg) (run_task fuel) n = scope_log body n.
Proof.
  intros Hg Hcut. rewrite scope_log_free by done. specialize (Hcut (with_log_guard true n)).
  unfold close in Hcut at 1. rewrite Hcut. unfold bind. rewrite scope_log_free by done. done.
Qed.

Lemma run_last fuel p n : run_task (S fuel) [p] n = bind (resume p) (run_task fuel) n.
Proof. simpl. apply bind_ext. intros t s. by rewrite app_nil_r. Qed.

(** ** Every method *)

Ltac tidy_steps :=
  repeat first
    [ apply tidy_bind; [|intros]
    | apply tidy_ret | apply tidy_gets | apply tidy_scope
    | apply tidy_modify; by intros []
    | apply tidy_for_each; intros
    | apply tidy_if
    | solve [auto with raft]
    | case_match ].

Lemma tidy_apply : tidy apply_committed_entries.
Proof. unfold apply_committed_entries. tidy_steps. Qed.
Lemma tidy_append_response to t b : tidy (send_append_entries_response to t b).
Proof. apply tidy_scope. Qed.
Lemma tidy_heartbeats : tidy send_heartbeats.
Proof. unfold send_heartbeats. tidy_steps. Qed.
Hint Resolve tidy_apply tidy_append_response tidy_heartbeats : raft.
Lemma tidy_become_leader : tidy become_leader.
Proof. unfold become_leader, set_role, init_peer. tidy_steps. Qed.
Lemma tidy_notify i : tidy (notify_pending_requests i).
Proof. unfold notify_pending_requests, notify_one, respond. tidy_steps. Qed.
Lemma tidy_try_advance : tidy try_advance_commit_index.
Proof. unfold try_advance_commit_index. tidy_steps. Qed.
Hint Resolve tidy_become_leader tidy_notify tidy_try_advance : raft.

Lemma run_heartbeats fuel n : run_task (S (S fuel)) [AtHeartbeats] n = send_heartbeats n.
Proof.
  rewrite run_last. unfold resume, send_heartbeats. rewrite bind_assoc, !bind_gets, bind_ret.
  case_decide; [done|]. rewrite run_last. unfold resume. rewrite bind_assoc.
  unfold bind at 1. destruct (scope_log _ n) as [[[]|e| | |] n1]; try done. by destruct fuel.
Qed.

Lemma run_cons fuel p t n : run_task (S fuel) (p :: t) n =
  bind (resume p) (fun next => run_task fuel (next ++ t)) n.
Proof. done. Qed.

Lemma run_apply fuel t n : run_task (S (S fuel)) (AtApply :: t) n =
  bind apply_committed_entries (fun _ => run_task fuel t) n.
Proof.
  rewrite run_cons. unfold resume, apply_committed_entries. rewrite !bind_assoc, !bind_gets, bind_ret.
  change ([AtApplyUpTo _] ++ t) with (AtApplyUpTo (commit_index n) :: t). rewrite run_cons. unfold resume.
  rewrite !bind_assoc, !bind_gets, bind_assoc. by apply bind_ext.
Qed.

Lemma run_end fuel (m : M RaftNode unit) n : bind (m ;;; ret [])%raft (run_task fuel) n = m n.
Proof. rewrite bind_assoc. unfold bind. destruct (m n) as [[[]| | | |] n1]; try done. by destruct fuel. Qed.

Lemma run_become_leader fuel n : run_task (6 + fuel) [AtBecomeLeader] n = become_leader n.
Proof.
  simpl Nat.add. rewrite run_last. unfold resume, become_leader, set_role.
  rewrite bind_assoc, !bind_modify, bind_ret, run_last. unfold resume.
  rewrite bind_assoc, !bind_modify, bind_ret, run_last. unfold resume.
  rewrite bind_assoc. apply bind_ext. intros last s. rewrite bind_ret, run_last. unfold resume.
  rewrite bind_assoc, !bind_gets, bind_assoc. apply bind_ext. intros _ s1. rewrite bind_ret.
  apply run_heartbeats.
Qed.

Lemma run_commit fuel i n : run_task (4 + fuel) [AtCommit i] n =
  (modify (with_commit_index i) ;;; apply_committed_entries ;;; notify_pending_requests i)%raft n.
Proof.
  simpl Nat.add. rewrite run_last. unfold resume. rewrite bind_assoc, !bind_modify, bind_ret, run_apply.
  apply bind_ext. intros _ s. rewrite run_last. apply run_end.
Qed.

Lemma cut_advance fuel t majority candidates :
  cut (4 + fuel) (advance_loop t majority candidates) (advance_section t majority candidates).
Proof.
  induction candidates as [|i candidates IH]; cbn [advance_loop advance_section]; [apply cut_ret|].
  apply cut_bind. intros term. case_decide; [done|]. apply cut_bind. intros count. apply cut_if; [|done].
  apply cut_drop.
  - tidy_steps.
  - intros n _. apply run_commit.
Qed.

Lemma run_try_advance fuel n : log_guard n = false ->
  run_task (6 + fuel) [AtTryAdvance] n = try_advance_commit_index n.
Proof.
  intros Hg. simpl Nat.add. rewrite run_last. unfold resume, try_advance_commit_index.
  rewrite bind_assoc, !bind_gets, bind_ret. case_decide; [done|]. rewrite run_last. unfold resume.
  apply cut_scope; [done|]. do 4 (apply cut_bind; intros ?). apply (cut_advance fuel).
Qed.

(** The end of a higher term: the guard is dropped and taken again. *)
Lemma cut_step_down fuel t :
  cut (S fuel) (drop_log ;;; lock_log ;;; on_log (set_current_term t) ;;; set_role Follower)%raft
    (ret [AtStepDown t]).
Proof.
  intros n. unfold drop_log. rewrite bind_modify. change (close (ret [AtStepDown t] n)) with
    (@Ok route [AtStepDown t], with_log_guard false n).
  change (bind _ (run_task (S fuel)) n) with (run_task (S fuel) [AtStepDown t] (with_log_guard false n)).
  rewrite run_last. unfold resume. rewrite run_end, scope_log_free by done.
  by rewrite (bind_run _ _ _ _ _ (lock_log_free (with_log_guard false n) eq_refl)).
Qed.

Lemma run_append_entries from req n : log_guard n = false ->
  run_task sections [AtAppendEntries from req] n = handle_append_entries from req n.
Proof.
  intros Hg. unfold sections. rewrite run_last. unfold resume, append_entries_section, handle_append_entries.
  apply cut_scope; [done|]. apply cut_bind. intros current. apply cut_if; [apply cut_end|].
  do 4 (apply cut_bind; intros ?). apply cut_if.
  { intros s. rewrite !bind_gets. apply cut_end. }
  do 2 (apply cut_bind; intros ?). apply cut_drop.
  - tidy_steps.
  - intros s _. rewrite run_apply. apply bind_ext. intros _ s1. rewrite run_last. apply run_end.
Qed.
Lemma run_append_entries_response from resp n : log_guard n = false ->
  run_task sections [AtAppendEntriesResponse from resp] n = handle_append_entries_response from resp n.
Proof.
  intros Hg. unfold sections. rewrite run_last.
  unfold resume, append_response_section, handle_append_entries_response.
  apply cut_scope; [done|]. apply cut_bind. intros r. case_decide; [apply cut_ret|].
  apply cut_bind. intros current. apply cut_if; [apply cut_step_down|]. apply cut_if; [|apply cut_end].
  do 2 (apply cut_bind; intros ?). apply cut_drop; [tidy_steps|].
  intros s Hs. by apply (run_try_advance 2).
Qed.

Lemma run_vote_response from resp n : log_guard n = false ->
  run_task sections [AtRequestVoteResponse from resp] n = handle_request_vote_response from resp n.
Proof.
  intros Hg. unfold sections. rewrite run_last.
  unfold resume, vote_response_section, handle_request_vote_response, when.
  apply cut_scope; [done|]. apply cut_bind. intros r. case_decide; [apply cut_ret|].
  apply cut_bind. intros current. apply cut_if; [apply cut_step_down|]. apply cut_if; [|apply cut_ret].
  do 3 (apply cut_bind; intros ?). case_match; [|apply cut_ret].
  apply cut_drop; [tidy_steps|]. intros s _. apply (run_become_leader 2).
Qed.

Lemma run_election fuel n : log_guard n = false ->
  run_task (7 + fuel) [AtStartElection] n = start_election n.
Proof.
  intros Hg. simpl Nat.add. rewrite run_last. unfold resume, election_section, start_election, when.
  apply cut_scope; [done|]. repeat (apply cut_bind; intros ?). case_match; [|apply cut_ret].
  apply cut_drop; [tidy_steps|]. intros s _. apply (run_become_leader fuel).
Qed.

Lemma run_election_tick timeout n : log_guard n = false ->
  run_task sections [AtElectionRole timeout] n = election_tick timeout n.
Proof.
  intros Hg. unfold sections. rewrite run_last. unfold resume, election_tick, when.
  rewrite bind_assoc, !bind_gets, bind_ret. case_match; [|done]. rewrite run_last. unfold resume.
  rewrite bind_assoc, !bind_gets, bind_ret. case_match; [|done]. by apply (run_election 0).
Qed.

Lemma run_heartbeat_tick n : run_task sections [AtHeartbeatRole] n = heartbeat_tick n.
Proof.
  unfold sections. rewrite run_last. unfold resume, heartbeat_tick, when.
  rewrite bind_assoc, !bind_gets, bind_ret. case_match; [|done]. apply run_heartbeats.
Qed.

Lemma run_propose command tx n : run_task sections [AtPropose command tx] n = propose command tx n.
Proof.
  unfold sections. rewrite run_last. unfold resume, propose. rewrite bind_assoc, !bind_gets, bind_ret.
  case_decide; rewrite run_last; unfold resume; rewrite bind_assoc.
  - rewrite !bind_gets. apply run_end.
  - apply bind_ext. intros i s. rewrite bind_ret, run_last. unfold resume.
    rewrite bind_assoc, !bind_modify, bind_ret. apply run_heartbeats.
Qed.

Lemma run_add_peer i a n : run_task sections [AtAddPeer i a] n = add_peer i a n.
Proof.
  unfold sections. rewrite run_last. unfold resume, add_peer, when.
  rewrite bind_assoc, !bind_modify, bind_ret, run_last. unfold resume.
  rewrite bind_assoc, !bind_gets, bind_ret. case_match; [|done].
  rewrite run_last. apply run_end.
Qed.

Lemma run_round ev n : log_guard n = false -> run_task sections (first_point ev) n = run_event ev n.
Proof.
  intros Hg. destruct ev as [env|timeout| |cmd tx|i a|i| ]; simpl first_point; simpl run_event.
  - unfold handle_message. destruct (message env) as [req|resp|req|resp|r|r]; [..|done|done].
    + by apply run_append_entries.
    + by apply run_append_entries_response.
    + unfold sections. rewrite run_last. apply run_end.
    + by apply run_vote_response.
  - by apply run_election_tick.
  - apply run_heartbeat_tick.
  - apply run_propose.
  - apply run_add_peer.
  - done.
  - unfold sections. rewrite run_last. unfold resume. rewrite bind_assoc. by apply bind_ext.
Qed.

(** ** In a crew *)

(** The crew after [count] sections of the task [k]. *)
Definition resume_times (count k : nat) (s : crew) : crew := Nat.iter count (resume_task k) s.

Lemma resume_times_S count k s : resume_times (S count) k s = resume_times count k (resume_task k s).
Proof. apply Nat.iter_succ_r. Qed.

Lemma resume_times_done count k s : cr_tasks s !! k = Some [] -> resume_times count k s = s.
Proof.
  intros Hk. induction count as [|count IH]; [done|]. rewrite resume_times_S.
  unfold resume_task. by rewrite Hk.
Qed.

Lemma resume_task_eq k s p t o n : cr_tasks s !! k = Some (p :: t) -> resume p (cr_node s) = (o, n) ->
  resume_task k s = mkCrew n (match o with
    | Ok next => <[k := next ++ t]> (cr_tasks s)
    | Blocked => cr_tasks s
    | _ => <[k := []]> (cr_tasks s)
    end).
Proof. intros Hk Hres. unfold resume_task. rewrite Hk, Hres. by destruct o. Qed.

Lemma resume_times_run fuel k t s o n : cr_tasks s !! k = Some t -> run_task fuel t (cr_node s) = (o, n) ->
  o <> Blocked -> o <> OutOfFuel -> cr_node (resume_times fuel k s) = n.
Proof.
  revert t s. induction fuel as [|fuel IH]; intros [|p t] s Hk Hrun Hb Hf;
    unfold run_task in Hrun; fold run_task in Hrun; unfold ret, diverge in Hrun; simplify_eq.
  - done.
  - by rewrite resume_times_done.
  - rewrite resume_times_S. unfold bind in Hrun.
    assert (k < length (cr_tasks s))%nat as Hlt by by eapply lookup_lt_Some.
    destruct (resume p (cr_node s)) as [[next|e| | |] n1] eqn:Hres; simplify_eq.
    + erewrite resume_task_eq by done. apply (IH (next ++ t)); try done.
      simpl. by rewrite list_lookup_insert_eq.
    + erewrite resume_task_eq by done. rewrite resume_times_done; [done|].
      simpl. by rewrite list_lookup_insert_eq.
    + erewrite resume_task_eq by done. rewrite resume_times_done; [done|].
      simpl. by rewrite list_lookup_insert_eq.
Qed.

(** A round that is begun and not interrupted is a round of the daemon, unless it blocks. *)
Lemma uninterrupted_round ev s : log_guard (cr_node s) = false ->
  (run_event ev (cr_node s)).1 <> Blocked -> (run_event ev (cr_node s)).1 <> OutOfFuel ->
  cr_node (resume_times sections (length (cr_tasks s)) (begin_task ev s)) = (run_event ev (cr_node s)).2.
Proof.
  intros Hg Hb Hf. eapply resume_times_run; [| |exact Hb|exact Hf].
  - simpl. rewrite lookup_app_r by done. by rewrite Nat.sub_diag.
  - change (cr_node (begin_task ev s)) with (cr_node s). rewrite run_round by done.
    by destruct (run_event ev (cr_node s)).
Qed.
End alone.
