(* ===== verification/Locks.v ===== *)
(** * The locks of the node: [raft/src/node.rs]

    Node.v runs a handler in one step.  Here a method is reduced to the locks it takes and
    releases, in the order of the code, and the tasks that run methods are interleaved at
    every one of these operations.  A method has one path per way its branches and its
    [?] go; a guard that is a temporary is released at the end of its statement, the
    other ones on [drop] or, in the reverse order, at the end of the function.  The
    temporaries of the value [get_status] returns, which is the tail of its body, are dropped
    after the locals. *)

From S2P Require Import Prelude.

(** ** The locks of the struct *)

Inductive lock :=
  | LRole | LLog | LStateMachine | LCommitIndex | LLastApplied | LLeaderId | LPeers | LNextIndex
  | LMatchIndex | LVotesReceived | LLastHeartbeat | LPendingRequests.

#[export] Instance lock_eq_dec : EqDecision lock.
Proof. solve_decision. Defined.

(** A [Mutex] is only locked for writing. *)
Inductive mode := Shared | Exclusive.

#[export] Instance mode_eq_dec : EqDecision mode.
Proof. solve_decision. Defined.

Inductive op := Acquire (l : lock) (m : mode) | Release (l : lock).

#[export] Instance op_eq_dec : EqDecision op.
Proof. solve_decision. Defined.

Definition path : Type := list op.

(** ** The paths of a method *)

(** A guard that is a temporary of its statement. *)
Definition touch (l : lock) (m : mode) : list path := [[Acquire l m; Release l]].
Definition take_guard (l : lock) (m : mode) : list path := [[Acquire l m]].
Definition drop_guard (l : lock) : list path := [[Release l]].

Definition nothing : list path := [[]].

(** One after the other, and either. *)
Definition and_then (p q : list path) : list path := a ← p; b ← q; [a ++ b].
Definition either (p q : list path) : list path := p ++ q.
Definition maybe (p : list path) : list path := either p nothing.

Declare Scope path_scope.
Delimit Scope path_scope with path.
Infix "+>" := and_then (at level 60, right associativity) : path_scope.
Infix "<|>" := either (at level 65, right associativity) : path_scope.

Section methods.
Local Open Scope path_scope.

(** [*self.apply_committed_entries()] *)
Definition apply_committed_entries_locks : list path :=
  touch LCommitIndex Shared +> take_guard LLastApplied Exclusive +> take_guard LLog Exclusive +>
  take_guard LStateMachine Exclusive +>
  drop_guard LStateMachine +> drop_guard LLog +> drop_guard LLastApplied.

Definition send_append_entries_response_locks : list path := touch LLog Exclusive.

(** The branches that answer with a refusal, while the guard of the log is held. *)
Definition refused_locks : list path :=
  take_guard LLog Exclusive +>
  (nothing <|>
   (maybe (touch LRole Exclusive) +> touch LLastHeartbeat Exclusive +> touch LLeaderId Exclusive)) +>
  send_append_entries_response_locks +> drop_guard LLog.

(** The other ones: a failed save of the term, a failed write of the log, or acceptance. *)
Definition accepted_locks : list path :=
  take_guard LLog Exclusive +>
  (drop_guard LLog <|>
   (maybe (touch LRole Exclusive) +> touch LLastHeartbeat Exclusive +> touch LLeaderId Exclusive +>
    (drop_guard LLog <|>
     (touch LCommitIndex Shared +> maybe (touch LCommitIndex Exclusive) +> drop_guard LLog +>
      apply_committed_entries_locks +> send_append_entries_response_locks)))).

Definition handle_append_entries_locks : list path := refused_locks <|> accepted_locks.

(** [drop(log); let mut log = self.log.lock().await; ...]: the term is saved, or not. *)
Definition step_down_locks : list path :=
  drop_guard LLog +> take_guard LLog Exclusive +> maybe (touch LRole Exclusive) +> drop_guard LLog.

Definition notify_pending_requests_locks : list path := touch LPendingRequests Exclusive.

Definition try_advance_commit_index_locks : list path :=
  touch LRole Shared +>
  (nothing <|>
   (take_guard LLog Exclusive +> touch LCommitIndex Shared +>
    take_guard LMatchIndex Shared +> take_guard LPeers Shared +>
    ((drop_guard LMatchIndex +> drop_guard LPeers +> drop_guard LLog +>
      touch LCommitIndex Exclusive +> apply_committed_entries_locks +> notify_pending_requests_locks) <|>
     (drop_guard LPeers +> drop_guard LMatchIndex +> drop_guard LLog)))).

Definition handle_append_entries_response_locks : list path :=
  take_guard LLog Exclusive +> touch LRole Shared +>
  (drop_guard LLog <|> step_down_locks <|>
   (take_guard LNextIndex Exclusive +> take_guard LMatchIndex Exclusive +>
    drop_guard LNextIndex +> drop_guard LMatchIndex +> drop_guard LLog +>
    try_advance_commit_index_locks) <|>
   (take_guard LNextIndex Exclusive +> drop_guard LNextIndex +> drop_guard LLog)).

(** The vote is granted, refused, or not saved. *)
Definition handle_request_vote_locks : list path :=
  take_guard LLog Exclusive +>
  (nothing <|> (maybe (touch LRole Exclusive) +> maybe (touch LLastHeartbeat Exclusive))) +>
  drop_guard LLog.

Definition send_heartbeats_locks : list path :=
  touch LRole Shared +>
  (nothing <|>
   (take_guard LLog Exclusive +> touch LCommitIndex Shared +>
    take_guard LPeers Shared +> take_guard LNextIndex Shared +>
    drop_guard LNextIndex +> drop_guard LPeers +> drop_guard LLog)).

Definition become_leader_locks : list path :=
  touch LRole Exclusive +> touch LLeaderId Exclusive +> touch LLog Exclusive +>
  take_guard LPeers Shared +> take_guard LNextIndex Exclusive +> take_guard LMatchIndex Exclusive +>
  drop_guard LNextIndex +> drop_guard LMatchIndex +> drop_guard LPeers +>
  send_heartbeats_locks.

Definition handle_request_vote_response_locks : list path :=
  take_guard LLog Exclusive +> touch LRole Shared +>
  (drop_guard LLog <|> step_down_locks <|>
   (take_guard LVotesReceived Exclusive +> take_guard LPeers Shared +>
    ((drop_guard LVotesReceived +> drop_guard LPeers +> drop_guard LLog +> become_leader_locks) <|>
     (drop_guard LPeers +> drop_guard LVotesReceived +> drop_guard LLog)))).

Definition start_election_locks : list path :=
  take_guard LLog Exclusive +>
  (drop_guard LLog <|>
   (touch LRole Exclusive +> touch LVotesReceived Exclusive +> touch LLastHeartbeat Exclusive +>
    take_guard LPeers Shared +>
    ((drop_guard LPeers +> drop_guard LLog) <|>
     (drop_guard LPeers +> drop_guard LLog +> become_leader_locks)))).

Definition propose_locks : list path :=
  touch LRole Shared +>
  (touch LLeaderId Shared <|>
   (take_guard LLog Exclusive +> drop_guard LLog +>
    maybe (touch LPendingRequests Exclusive +> send_heartbeats_locks))).

Definition add_peer_locks : list path :=
  touch LPeers Exclusive +> touch LRole Shared +>
  maybe (take_guard LLog Exclusive +> touch LNextIndex Exclusive +> touch LMatchIndex Exclusive +>
         drop_guard LLog).

Definition remove_peer_locks : list path :=
  touch LPeers Exclusive +> touch LNextIndex Exclusive +> touch LMatchIndex Exclusive.

Definition get_status_locks : list path :=
  take_guard LLog Exclusive +> take_guard LPeers Shared +>
  take_guard LRole Shared +> take_guard LCommitIndex Shared +> take_guard LLastApplied Shared +>
  take_guard LLeaderId Shared +>
  drop_guard LPeers +> drop_guard LLog +>
  drop_guard LLeaderId +> drop_guard LLastApplied +> drop_guard LCommitIndex +> drop_guard LRole.

Definition get_value_locks : list path := touch LStateMachine Exclusive.
Definition get_messages_locks : list path := touch LStateMachine Exclusive.

(** The tasks of [main]: a round of the election task and of the heartbeat task. *)
Definition election_tick_locks : list path :=
  touch LRole Shared +> maybe (touch LLastHeartbeat Shared +> maybe start_election_locks).

Definition heartbeat_tick_locks : list path := touch LRole Shared +> maybe send_heartbeats_locks.

Definition handle_message_locks : list path :=
  handle_append_entries_locks <|> handle_append_entries_response_locks <|>
  handle_request_vote_locks <|> handle_request_vote_response_locks.

(** [IpcRequest::Messages] takes the messages, then the status. *)
Definition messages_request_locks : list path := get_messages_locks +> get_status_locks.
End methods.

(** ** Tasks that share the locks *)

Record task := mkTask { todo : path; held : list (lock * mode) }.

Definition start (p : path) : task := mkTask p [].

(** Does the task exclude a guard of mode [m] on [l]? *)
Definition excludes (l : lock) (m : mode) (t : task) : bool :=
  existsb (fun h => bool_decide (h.1 = l) && bool_decide (m = Exclusive \/ h.2 = Exclusive)) (held t).

Definition free (l : lock) (m : mode) (ts : list task) : bool := negb (existsb (excludes l m) ts).

Definition release (l : lock) (hs : list (lock * mode)) : list (lock * mode) :=
  filter (fun h => h.1 <> l) hs.

(** The next operation of the task [i], when nothing stands in its way. *)
Definition step_task (i : nat) (ts : list task) : option (list task) :=
  t ← ts !! i;
  match todo t with
  | [] => None
  | Acquire l m :: p => if free l m ts then Some (<[i := mkTask p ((l, m) :: held t)]> ts) else None
  | Release l :: p => Some (<[i := mkTask p (release l (held t))]> ts)
  end.

Inductive interleaving : list task -> list task -> Prop :=
  | il_done ts : interleaving ts ts
  | il_step i ts ts1 ts2 : step_task i ts = Some ts1 -> interleaving ts1 ts2 -> interleaving ts ts2.

(** A schedule names the task of every step. *)
Fixpoint run_schedule (schedule : list nat) (ts : list task) : option (list task) :=
  match schedule with
  | [] => Some ts
  | i :: schedule' => ts1 ← step_task i ts; run_schedule schedule' ts1
  end.

Definition finished (t : task) : bool := bool_decide (todo t = []).

(** No task can move, and some are not done. *)
Definition stuck (ts : list task) : bool :=
  forallb (fun i => bool_decide (step_task i ts = None)) (seq 0 (length ts)) && existsb (fun t => negb (finished t)) ts.
