(* ===== verification/LocksProps.v ===== *)
(** * Deadlocks between tasks

    Tasks that take the locks in the order of a rank never block each other, whichever of
    its waiters a lock lets in first.  The methods of the node follow such a rank, with
    two exceptions: [get_status], against [apply_committed_entries], and the refusal of an
    [AppendEntries], against itself.  Membership changes are left out: they are the only
    writers of [peers], which is otherwise never waited for. *)

From S2P Require Import Prelude Locks.

(** ** Orderly tasks *)

Section orderly.
(** The rank of a lock; [None] for a lock that is only ever shared. *)
Variable rank : lock -> option nat.

Definition above (r : nat) (h : lock * mode) : bool :=
  match rank h.1 with Some r' => (r' <? r)%nat | None => true end.

Definition may_acquire (l : lock) (m : mode) (hs : list (lock * mode)) : bool :=
  match rank l with Some r => forallb (above r) hs | None => bool_decide (m = Shared) end.

(** The rest of a task that holds [hs] only takes what the rank allows, and gives all back. *)
Fixpoint orderly (hs : list (lock * mode)) (p : path) : bool :=
  match p with
  | [] => bool_decide (hs = [])
  | Acquire l m :: p' => may_acquire l m hs && orderly ((l, m) :: hs) p'
  | Release l :: p' => orderly (release l hs) p'
  end.

Definition shares_well (hs : list (lock * mode)) : Prop :=
  forall l m, (l, m) ∈ hs -> rank l = None -> m = Shared.

Definition task_ok (t : task) : Prop := orderly (held t) (todo t) = true /\ shares_well (held t).

(** The next operation of [t] waits for nobody: the lock is free, or nobody ever excludes
    others from it. *)
Definition unhindered (ts : list task) (t : task) : Prop :=
  match todo t with
  | [] => False
  | Release _ :: _ => True
  | Acquire l m :: _ => (rank l = None /\ m = Shared) \/ forall t', t' ∈ ts -> l ∉ (held t').*1
  end.

Lemma step_task_ok i ts ts' : Forall task_ok ts -> step_task i ts = Some ts' -> Forall task_ok ts'.
Proof.
  intros Hts Hstep. unfold step_task in Hstep.
  destruct (ts !! i) as [t|] eqn:Ht; [|done]. simpl in Hstep.
  destruct (Forall_lookup_1 _ _ _ _ Hts Ht) as [Hord Hsh].
  destruct (todo t) as [|[l m|l] p] eqn:Hp; [done|..]; simpl in Hord.
  - destruct (free l m ts); simplify_eq. apply andb_prop in Hord as [Hmay Hord].
    apply Forall_insert; [done|]. split; [done|]. intros l' m' [[= -> ->]|Hin]%elem_of_cons Hl'.
    + unfold may_acquire in Hmay. rewrite Hl' in Hmay. by apply bool_decide_eq_true in Hmay.
    + by apply (Hsh l').
  - simplify_eq. apply Forall_insert; [done|]. split; [done|].
    intros l' m' [_ Hin]%list_elem_of_filter. by apply Hsh.
Qed.

Lemma interleaving_ok ts ts' : interleaving ts ts' -> Forall task_ok ts -> Forall task_ok ts'.
Proof. induction 1 as [|i ts ts1 ts2 Hstep _ IH]; [done|]. eauto using step_task_ok. Qed.

(** Among the tasks that wait, one that waits for the highest lock waits for nobody. *)
Lemma waiting_progress (top : nat) ts : Forall task_ok ts -> (forall l r, rank l = Some r -> (r <= top)%nat) ->
  forall k t, t ∈ ts -> todo t <> [] ->
  match todo t with
  | Acquire l _ :: _ => match rank l with Some r => (top - r < k)%nat | None => True end
  | _ => True
  end -> exists t', t' ∈ ts /\ unhindered ts t'.
Proof.
  intros Hok Htop. induction k as [|k IH]; intros t Ht Hne Hk.
  - exists t. split; [done|]. unfold unhindered.
    destruct (proj1 (Forall_forall _ _) Hok t Ht) as [Hord _].
    destruct (todo t) as [|[l m|l] p]; [done| |done]. simpl in Hord. apply andb_prop in Hord as [Hmay _].
    unfold may_acquire in Hmay. destruct (rank l); [lia|]. left. by apply bool_decide_eq_true in Hmay.
  - destruct (proj1 (Forall_forall _ _) Hok t Ht) as [Hord _].
    destruct (todo t) as [|[l m|l] p] eqn:Hp; [done| |].
    + simpl in Hord. apply andb_prop in Hord as [Hmay _]. unfold may_acquire in Hmay.
      destruct (rank l) as [r|] eqn:Hl.
      * destruct (decide (Exists (fun t' => l ∈ (held t').*1) ts)) as [Hex|Hno].
        -- apply Exists_exists in Hex as (u & Hu & Hul).
           destruct (proj1 (Forall_forall _ _) Hok u Hu) as [Hordu _].
           apply (IH u Hu).
           ++ intros Hnil. rewrite Hnil in Hordu. simpl in Hordu. apply bool_decide_eq_true in Hordu.
              rewrite Hordu in Hul. by apply not_elem_of_nil in Hul.
           ++ destruct (todo u) as [|[l' m'|l'] p']; [done| |done]. simpl in Hordu.
              apply andb_prop in Hordu as [Hmayu _]. unfold may_acquire in Hmayu.
              destruct (rank l') as [r'|] eqn:Hl'; [|done]. rewrite forallb_forall in Hmayu.
              apply list_elem_of_fmap in Hul as ([l0 m0] & -> & Hin). simpl in Hl.
              apply list_elem_of_In, Hmayu in Hin. unfold above in Hin. simpl in Hin. rewrite Hl in Hin.
              apply Nat.ltb_lt in Hin. pose proof (Htop _ _ Hl'). lia.
        -- exists t. split; [done|]. unfold unhindered. rewrite Hp. right. intros t' Ht' Hin.
           apply Hno, Exists_exists. by exists t'.
      * exists t. split; [done|]. unfold unhindered. rewrite Hp. left. by apply bool_decide_eq_true in Hmay.
    + exists t. split; [done|]. unfold unhindered. by rewrite Hp.
Qed.

Lemma unhindered_step ts i t : Forall (task_ok) ts -> ts !! i = Some t -> unhindered ts t ->
  exists ts', step_task i ts = Some ts'.
Proof.
  intros Hok Ht Hun. unfold step_task, unhindered in *. rewrite Ht. simpl.
  destruct (todo t) as [|[l m|l] p]; [done| |by eexists].
  assert (free l m ts = true) as ->; [|by eexists].
  unfold free. apply negb_true_iff, not_true_iff_false. intros (u & Hu & Hex)%existsb_exists.
  apply list_elem_of_In in Hu. unfold excludes in Hex. apply existsb_exists in Hex as ([l' m'] & Hin & Hlm).
  apply list_elem_of_In in Hin. simpl in Hlm.
  apply andb_prop in Hlm as [->%bool_decide_eq_true Hm%bool_decide_eq_true].
  simpl in *. destruct Hun as [[Hl ->]|Hno].
  - destruct Hm as [?| ->]; [done|]. destruct (proj1 (Forall_forall _ _) Hok u Hu) as [_ Hsh].
    by specialize (Hsh _ _ Hin Hl).
  - apply (Hno u Hu), list_elem_of_fmap. by exists (l, m').
Qed.

Definition work (ts : list task) : nat := sum_list_with (fun t => length (todo t)) ts.

Lemma step_work i ts ts' : step_task i ts = Some ts' -> (work ts' < work ts)%nat.
Proof.
  unfold step_task, work. destruct (ts !! i) as [t|] eqn:Ht; [|done]. simpl. intros Hstep.
  assert (forall t', (length (todo t') < length (todo t))%nat ->
    (sum_list_with (fun t => length (todo t)) (<[i := t']> ts) < sum_list_with (fun t => length (todo t)) ts)%nat)
    as Hless.
  { intros t' Hlen. rewrite <-(take_drop_middle ts i t Ht) at 2.
    rewrite insert_take_drop by (by eapply lookup_lt_Some). rewrite !sum_list_with_app. simpl. lia. }
  destruct (todo t) as [|[l m|l] p]; [done|..]; simpl in *.
  - destruct (free l m ts); simplify_eq. apply Hless. simpl. lia.
  - simplify_eq. apply Hless. simpl. lia.
Qed.

(** The highest rank. *)
Definition bounded_rank (top : nat) : Prop := forall l r, rank l = Some r -> (r <= top)%nat.

Lemma orderly_progress top ts : bounded_rank top -> Forall task_ok ts -> Exists (fun t => todo t <> []) ts ->
  exists i t ts', ts !! i = Some t /\ unhindered ts t /\ step_task i ts = Some ts'.
Proof.
  intros Htop Hok (t & Ht & Hne)%Exists_exists.
  destruct (waiting_progress top ts Hok Htop (S top) t Ht Hne) as (u & Hu & Hun).
  { destruct (todo t) as [|[l m|l] p]; [done| |done]. destruct (rank l); [lia|done]. }
  apply list_elem_of_lookup_1 in Hu as [i Hi].
  destruct (unhindered_step ts i u Hok Hi Hun) as [ts' Hstep]. by exists i, u, ts'.
Qed.

Lemma orderly_finish top ts : bounded_rank top -> Forall task_ok ts ->
  exists ts', interleaving ts ts' /\ Forall (fun t => todo t = []) ts'.
Proof.
  intros Htop. revert ts. induction ts as [ts IH] using (induction_ltof1 _ work). intros Hok.
  destruct (decide (Exists (fun t => todo t <> []) ts)) as [Hex|Hno].
  - destruct (orderly_progress top ts Htop Hok Hex) as (i & t & ts1 & _ & _ & Hstep).
    destruct (IH ts1) as (ts2 & Hrun & Hdone).
    + by eapply step_work.
    + by eapply step_task_ok.
    + exists ts2. split; [by eapply il_step|done].
  - exists ts. split; [constructor|]. apply Forall_forall. intros t Ht.
    destruct (decide (todo t = [])) as [|Hne]; [done|]. destruct Hno. apply Exists_exists. by exists t.
Qed.
End orderly.

(** ** The methods of the node *)

Definition rank_of (l : lock) : option nat :=
  match l with
  | LLastApplied => Some 0%nat
  | LLog => Some 1%nat
  | LPeers => None
  | LMatchIndex => Some 3%nat
  | _ => Some 2%nat
  end.

(** What the tasks of a daemon run, but for refusals, membership changes and [get_status]. *)
Definition orderly_methods : list path :=
  accepted_locks ++ handle_append_entries_response_locks ++ handle_request_vote_locks ++
  handle_request_vote_response_locks ++ election_tick_locks ++ heartbeat_tick_locks ++ propose_locks ++
  get_value_locks ++ get_messages_locks.

Lemma methods_orderly p : p ∈ orderly_methods -> task_ok rank_of (start p).
Proof.
  intros Hp. split; [|intros l m Hin; by inversion Hin].
  assert (forallb (orderly rank_of []) orderly_methods = true) as Hall by by vm_compute.
  rewrite forallb_forall in Hall. apply Hall. by apply list_elem_of_In.
Qed.

(** ** Properties *)

(** C24: Tasks of the daemon that run in parallel, interleaved at every lock operation, never
    block each other for ever, whatever their number, as long as none of them refuses an
    [AppendEntries], changes the membership or asks for the status: they can all finish, and
    until then one of them waits for a lock that nobody holds, or for none. *)
Theorem ordered_tasks_finish ps ts : Forall (fun p => p ∈ orderly_methods) ps ->
  interleaving (start <$> ps) ts ->
  (exists ts', interleaving ts ts' /\ Forall (fun t => todo t = []) ts') /\
  (Exists (fun t => todo t <> []) ts -> exists i t ts', ts !! i = Some t /\ unhindered rank_of ts t /\
    step_task i ts = Some ts').
Proof.
  intros Hps Hrun.
  assert (bounded_rank rank_of 3) as Htop by (intros [] r; simpl; intros; simplify_eq; lia).
  assert (Forall (task_ok rank_of) ts) as Hok.
  { eapply interleaving_ok; [done|]. apply Forall_fmap. eapply Forall_impl; [done|]. apply methods_orderly. }
  split; [by eapply orderly_finish|]. by apply orderly_progress with 3%nat.
Qed.

Lemma run_schedule_interleaving schedule ts ts' : run_schedule schedule ts = Some ts' -> interleaving ts ts'.
Proof.
  revert ts. induction schedule as [|i schedule IH]; intros ts Hrun; simpl in Hrun; [simplify_eq; constructor|].
  destruct (step_task i ts) as [ts1|] eqn:Hstep; [|done]. simpl in Hrun.
  eapply il_step; [exact Hstep|by apply IH].
Qed.

(** A proposal, a heartbeat round and an accepted request: the first task waits for the log. *)
Definition three_paths : list path :=
  [nth 2 propose_locks []; nth 1 heartbeat_tick_locks []; default [] (last accepted_locks)].

Lemma ordered_tasks_finish_witness : exists ts ts',
  run_schedule [2; 1; 1; 0; 0]%nat (start <$> three_paths) = Some ts /\ interleaving ts ts' /\
  Forall (fun t => todo t = []) ts'.
Proof.
  destruct (run_schedule [2; 1; 1; 0; 0]%nat (start <$> three_paths)) as [ts|] eqn:Hrun;
    [|by vm_compute in Hrun].
  destruct (ordered_tasks_finish three_paths ts) as [(ts' & Hfin & Hdone) _].
  - apply Forall_forall. intros p Hp.
    assert (forallb (fun p => bool_decide (p ∈ orderly_methods)) three_paths = true) as Hall by by vm_compute.
    rewrite forallb_forall in Hall. eapply bool_decide_eq_true, Hall. by apply list_elem_of_In.
  - by eapply run_schedule_interleaving.
  - by exists ts, ts'.
Defined.

(** ** A deadlock *)

(** Two tasks that hold what the other one waits for, the first with the lock [l], the second
    with the log, beside others. *)
Record entangled (l : lock) (t1 t2 : task) : Prop := {
  en_first : exists p, todo t1 = Acquire LLog Exclusive :: p;
  en_first_held : (l, Exclusive) ∈ held t1;
  en_second : exists m p, todo t2 = Acquire l m :: p;
  en_second_held : (LLog, Exclusive) ∈ held t2;
}.

(** The rest of the tasks goes on, and those that need the log still need it. *)
Definition still_need (t t' : task) : Prop :=
  forall m, Acquire LLog m ∈ todo t -> Acquire LLog m ∈ todo t'.

#[export] Instance still_need_preorder : PreOrder still_need.
Proof. split; [by intros t m|]. intros t1 t2 t3 H12 H23 m Hm. by apply H23, H12. Qed.

Lemma held_not_free l m t ts : t ∈ ts -> (l, Exclusive) ∈ held t -> free l m ts = false.
Proof.
  intros Ht Hl. unfold free. apply negb_false_iff, existsb_exists. exists t.
  split; [by apply list_elem_of_In|]. unfold excludes. apply existsb_exists. exists (l, Exclusive).
  split; [by apply list_elem_of_In|]. simpl. rewrite !bool_decide_true; auto.
Qed.

Lemma entangled_step l t1 t2 rest i ts' : entangled l t1 t2 -> step_task i (t1 :: t2 :: rest) = Some ts' ->
  exists rest', ts' = t1 :: t2 :: rest' /\ Forall2 still_need rest rest'.
Proof.
  intros [[p1 H1] Hl [m2 [p2 H2]] Hlog] Hstep. unfold step_task in Hstep.
  assert (forall m, free LLog m (t1 :: t2 :: rest) = false) as Hno.
  { intros m. apply (held_not_free _ _ t2); [by right; left|done]. }
  assert (forall m, free l m (t1 :: t2 :: rest) = false) as Hno1.
  { intros m. apply (held_not_free _ _ t1); [by left|done]. }
  destruct i as [|[|i]]; simpl in Hstep.
  - by rewrite H1, Hno in Hstep.
  - by rewrite H2, Hno1 in Hstep.
  - destruct (rest !! i) as [t|] eqn:Ht; [|done]. simpl in Hstep.
    assert (forall t', still_need t t' -> Forall2 still_need rest (<[i := t']> rest)) as Hins.
    { intros t' Hneed. rewrite <-(list_insert_id rest i t Ht) at 1.
      by apply Forall2_insert. }
    destruct (todo t) as [|[l' m'|l'] p] eqn:Hp; [done| |].
    + destruct (free l' m' _) eqn:Hfree; [|done]. injection Hstep as <-. eexists. split; [done|].
      apply Hins. intros m Hm. simpl. rewrite Hp in Hm.
      apply elem_of_cons in Hm as [[= <- <-]|Hm]; [by rewrite Hno in Hfree|done].
    + injection Hstep as <-. eexists. split; [done|]. apply Hins. intros m Hm. simpl. rewrite Hp in Hm.
      by apply elem_of_cons in Hm as [[=]|Hm].
Qed.

Lemma entangled_for_ever l t1 t2 rest ts' : entangled l t1 t2 -> interleaving (t1 :: t2 :: rest) ts' ->
  exists rest', ts' = t1 :: t2 :: rest' /\ Forall2 still_need rest rest'.
Proof.
  intros Hen Hil. remember (t1 :: t2 :: rest) as ts eqn:Hts. revert rest Hts.
  induction Hil as [ts|i ts ts1 ts2 Hstep _ IH]; intros rest ->.
  - exists rest. by split.
  - destruct (entangled_step _ _ _ _ _ _ Hen Hstep) as (rest1 & -> & H1).
    destruct (IH rest1 eq_refl) as (rest2 & -> & H2). exists rest2. split; [done|].
    by transitivity rest1.
Qed.

(** C25: [get_status] holds the log while it waits for [last_applied], which
    [apply_committed_entries] holds while it waits for the log: a status request that meets an
    accepted [AppendEntries] comes to a state in which each of the two holds the lock the other
    one asks for. Whatever other tasks run beside them, and in whatever order, the two stay
    there, and no task that needs the log ever gets it. *)
Theorem status_deadlocks : exists p1 p2 schedule t1 t2,
  p1 ∈ accepted_locks /\ p2 ∈ get_status_locks /\
  run_schedule schedule [start p1; start p2] = Some [t1; t2] /\
  (exists q, todo t1 = Acquire LLog Exclusive :: q) /\ (LLastApplied, Exclusive) ∈ held t1 /\
  (exists q, todo t2 = Acquire LLastApplied Shared :: q) /\ (LLog, Exclusive) ∈ held t2 /\
  forall others ts, interleaving ([t1; t2] ++ (start <$> others)) ts ->
    ts !! 0%nat = Some t1 /\ ts !! 1%nat = Some t2 /\
    forall k p m, others !! k = Some p -> Acquire LLog m ∈ p ->
      exists t, ts !! (2 + k)%nat = Some t /\ Acquire LLog m ∈ todo t.
Proof.
  exists (default [] (last accepted_locks)), (default [] (head get_status_locks)),
    (replicate 11 0 ++ replicate 4 1)%nat.
  destruct (run_schedule (replicate 11 0 ++ replicate 4 1)%nat
    [start (default [] (last accepted_locks)); start (default [] (head get_status_locks))])
    as [[|t1 [|t2 [|]]]|] eqn:Hrun; try by vm_compute in Hrun.
  exists t1, t2. vm_compute in Hrun. injection Hrun as <- <-.
  split; [by eapply bool_decide_eq_true; vm_compute|]. split; [by eapply bool_decide_eq_true; vm_compute|].
  split; [done|].
  match goal with |- (exists q, todo ?a = _) /\ _ /\ (exists q, todo ?b = _) /\ _ =>
    assert (entangled LLastApplied a b) as Hen by (split;
      [by eexists|by eapply bool_decide_eq_true; vm_compute|by do 2 eexists|by eapply bool_decide_eq_true; vm_compute]);
    split; [by eexists|]; split; [apply (en_first_held _ _ _ Hen)|]; split; [by eexists|];
    split; [apply (en_second_held _ _ _ Hen)|]
  end.
  intros others ts Hil. destruct (entangled_for_ever _ _ _ _ _ Hen Hil) as (rest & -> & Hrest).
  split; [done|]. split; [done|]. intros k p m Hk Hm.
  destruct (Forall2_lookup_l _ _ _ k (start p) Hrest) as (t & Ht & Hneed); [by rewrite list_lookup_fmap, Hk|].
  exists t. split; [done|by apply Hneed].
Qed.
