(* ===== verification/Ipc.v ===== *)
(** * The IPC server: [raft/src/ipc.rs]

    Requests of the command line arrive on a Unix socket, one JSON document per line, and
    are answered the same way.  [process_request] is the whole handler.  A proposal waits
    up to five seconds for its result: what the other tasks do in that time is a list of
    rounds, an argument of the model.  [serde_json::Value] and the two formats are
    interfaces; [String::from_utf8_lossy] is written out. *)

From Stdlib Require Import Init.Byte.
From stdpp Require Import pretty.
From S2P Require Import Prelude Heapless Protocol Serde HashMap Log StateMachine Config Env.
From S2P Require Import Node Daemon.
Local Open Scope N_scope.

(** ** [serde_json::Value] *)

Class JsonApi (Value : Type) := {
  json_null : Value;
  json_str : string -> Value;
  json_num : N -> Value;
  json_arr : list Value -> Value;
  json_obj : list (string * Value) -> Value;
  value_text : Value -> string;
  value_get : string -> Value -> option Value;
  as_str : Value -> option string;
  as_u64 : Value -> option N;
  as_array : Value -> option (list Value);
  is_null : Value -> bool;
}.

(** ** [String::from_utf8_lossy] *)

(** U+FFFD *)
Definition replacement : list byte := [xef; xbf; xbd].

Definition in_range (a b : N) (x : byte) : bool := (a <=? Byte.to_N x) && (Byte.to_N x <=? b).
Definition continuation : byte -> bool := in_range 128 191.

(** The ranges of the second byte, by the first, and the number of bytes after it. *)
Definition second_range (b : byte) : option (N * N * nat) :=
  let x := Byte.to_N b in
  if (194 <=? x) && (x <=? 223) then Some (128, 191, 0%nat)
  else if x =? 224 then Some (160, 191, 1%nat)
  else if (225 <=? x) && (x <=? 236) then Some (128, 191, 1%nat)
  else if x =? 237 then Some (128, 159, 1%nat)
  else if (238 <=? x) && (x <=? 239) then Some (128, 191, 1%nat)
  else if x =? 240 then Some (144, 191, 2%nat)
  else if (241 <=? x) && (x <=? 243) then Some (128, 191, 2%nat)
  else if x =? 244 then Some (128, 143, 2%nat)
  else None.

(** At most [k] continuation bytes, and whether there were [k]. *)
Fixpoint take_continuations (k : nat) (bs : list byte) : list byte * bool :=
  match k with
  | O => ([], true)
  | S k =>
      match bs with
      | b :: bs' => if continuation b then let '(cs, ok) := take_continuations k bs' in (b :: cs, ok)
                    else ([], false)
      | [] => ([], false)
      end
  end.

(** The first sequence of non-empty bytes: a character, or what one replacement stands for. *)
Definition first_sequence (b : byte) (bs : list byte) : list byte * bool :=
  if Byte.to_N b <? 128 then ([b], true)
  else
    match second_range b, bs with
    | Some (lo, hi, k), b2 :: bs' =>
        if in_range lo hi b2 then
          let '(cs, ok) := take_continuations k bs' in (b :: b2 :: cs, ok)
        else ([b], false)
    | _, _ => ([b], false)
    end.

Fixpoint utf8_lossy (fuel : nat) (bs : list byte) : list byte :=
  match fuel, bs with
  | S fuel, b :: bs' =>
      let '(seq, valid) := first_sequence b bs' in
      (if valid then seq else replacement) ++ utf8_lossy fuel (drop (length seq - 1) bs')
  | _, _ => []
  end.

Definition from_utf8_lossy (bs : list byte) : string :=
  String.string_of_list_byte (utf8_lossy (length bs) bs).

(** ** Requests and responses *)

Inductive IpcRequest :=
  | Join (node_id address : string)
  | Leave (node_id : string)
  | Status
  | ProposeKey (key : string) (value : option string)
  | Get (key : string)
  | Send (message : string)
  | Messages (limit since_index : option N).

Record IpcResponse {Value : Type} := mkResponse {
  ipc_success : bool;
  ipc_message : string;
  ipc_data : option Value }.
Arguments IpcResponse _ : clear implicits.
Arguments mkResponse {Value} _ _ _.

Record StatusResponse := mkStatusResponse {
  sr_node_id : string;
  sr_role : string;
  sr_current_term : N;
  sr_commit_index : N;
  sr_last_applied : N;
  sr_leader_id : option string;
  sr_peers : list string }.

(** [format!("{:?}", role)] *)
Definition role_debug (r : NodeRole) : string :=
  match r with Follower => "Follower" | Candidate => "Candidate" | Leader => "Leader" end.

Definition StatusResponse_from (s : NodeStatus) : StatusResponse :=
  mkStatusResponse (st_node_id s) (role_debug (st_role s)) (st_current_term s) (st_commit_index s)
    (st_last_applied s) (st_leader_id s) (st_peers s).

(** What [rx.recv()] within the five seconds comes to. *)
Inductive recv_result := Reply (r : ProposeResult) | ChannelClosed | TimedOut.

(** The channel holds its reply, its sender waits in [pending_requests], or it was dropped. *)
Definition recv_reply (tx : N) (n : RaftNode) : recv_result :=
  match list_find (fun p => p.1 = tx) (replies n) with
  | Some (_, (_, r)) => Reply r
  | None => if decide (map_Exists (fun _ tx' => tx' = tx) (pending_requests n)) then TimedOut
            else ChannelClosed
  end.

Section ipc.
Context {E : Env} {Value : Type} {JV : JsonValue Value} {JA : JsonApi Value}.

(** What the formats outside the repository supply: [to_value] on the status, the text
    of an error, and the reading and writing of the two documents. *)
Class IpcFormat := {
  status_value : StatusResponse -> Value;
  error_text : error -> string;
  parse_request : string -> IpcRequest + string;
  render_response : IpcResponse Value -> option string;
}.
Context {IF : IpcFormat}.

Definition option_str (v : option string) : Value :=
  match v with Some s => json_str s | None => json_null end.

Definition leader_data (leader_id : option string) : option Value :=
  (fun id => json_obj [("leader_id", json_str id)]) <$> leader_id.

(** The command of a [Propose] request. *)
Definition command_of (key : string) (value : option string) : Command :=
  match value with
  | Some v => Put (string_from MAX_KEY_SIZE key) (vec_from MAX_VALUE_SIZE (String.list_byte_of_string v))
  | None => Delete (string_from MAX_KEY_SIZE key)
  end.

Definition propose_response (r : recv_result) : IpcResponse Value :=
  match r with
  | Reply (Success index) =>
      mkResponse true (String.append "Committed at index " (pretty index)) None
  | Reply (NotLeader leader_id) => mkResponse false "Not leader" (leader_data leader_id)
  | Reply (Failed reason) => mkResponse false reason None
  | ChannelClosed => mkResponse false "Channel closed" None
  | TimedOut => mkResponse false "Timeout waiting for commit" None
  end.

Definition message_value (from : string) (timestamp : N) (message : string) : Value :=
  json_obj [("from", json_str from); ("timestamp", json_num timestamp); ("message", json_str message)].

Definition message_command (from : string) (timestamp : N) (message : string) : Command :=
  Put (string_from MAX_KEY_SIZE (String.append "_msg:" (pretty timestamp)))
    (vec_from MAX_VALUE_SIZE
      (String.list_byte_of_string (value_text (message_value from timestamp message)))).

Definition send_response (r : recv_result) : IpcResponse Value :=
  match r with
  | Reply (Success index) =>
      mkResponse true (String.append "Message sent (index " (String.append (pretty index) ")"))
        (Some (json_obj [("index", json_num index)]))
  | Reply (NotLeader leader_id) =>
      mkResponse false "Not leader - send to leader node" (leader_data leader_id)
  | Reply (Failed reason) => mkResponse false reason None
  | ChannelClosed => mkResponse false "Channel closed" None
  | TimedOut => mkResponse false "Timeout waiting for replication" None
  end.

(** [node.propose(command, tx).await], then the wait for [rx], during which [meanwhile]. *)
Definition propose_and_wait (failed : string) (respond : recv_result -> IpcResponse Value)
    (command : Command) (tx : N) (meanwhile : list event) : M RaftNode (IpcResponse Value) := (
  outcome <- attempt (propose command tx) ;;
  match outcome with
  | inr e => ret (mkResponse false (String.append failed (error_text e)) None)
  | inl _ =>
      modify (run_events meanwhile) ;;;
      r <- gets (recv_reply tx) ;;
      ret (respond r)
  end)%raft.

(** [tx] is the channel of the request, [now] the time in milliseconds. *)
Definition process_request (tx now : N) (meanwhile : list event) (request : IpcRequest) :
    M RaftNode (IpcResponse Value) := (
  match request with
  | Join node_id address =>
      add_peer node_id address ;;;
      ret (mkResponse true (String.append "Added peer "
        (String.append node_id (String.append " at " address))) None)
  | Leave node_id =>
      remove_peer node_id ;;;
      ret (mkResponse true (String.append "Removed peer " node_id) None)
  | Status =>
      status <- get_status ;;
      ret (mkResponse true "OK" (Some (status_value (StatusResponse_from status))))
  | ProposeKey key value =>
      propose_and_wait "Propose failed: " propose_response (command_of key value) tx meanwhile
  | Get key =>
      value <- gets (get_value key) ;;
      ret (mkResponse true "OK" (Some (json_obj
        [("key", json_str key); ("value", option_str (from_utf8_lossy <$> value))])))
  | Send message =>
      me <- gets node_id ;;
      propose_and_wait "Send failed: " send_response (message_command me now message) tx meanwhile
  | Messages limit since_index =>
      messages <- gets (node_get_messages (default 10 limit) (default 0 since_index)) ;;
      status <- get_status ;;
      ret (mkResponse true "OK" (Some (json_obj
        [("messages", json_arr messages); ("last_applied", json_num (st_last_applied status))])))
  end)%raft.

(** ** A connection *)

(** The node, the lines written to the socket, and the fate of the writes to come. *)
Record ipc_world := mkWorld { ipc_node : RaftNode; ipc_written : list string; ipc_writes : list bool }.

Definition on_node {A} (m : M RaftNode A) : M ipc_world A :=
  zoom ipc_node (fun n w => mkWorld n (ipc_written w) (ipc_writes w)) m.

Definition write_line (text : string) : M ipc_world unit := fun w =>
  match ipc_writes w with
  | false :: rest => (Err IoError, mkWorld (ipc_node w) (ipc_written w) rest)
  | fate => (Ok tt, mkWorld (ipc_node w) (ipc_written w ++ [text]) (tail fate))
  end.

Definition write_response (response : IpcResponse Value) : M ipc_world unit := (
  text <- from_result SerdeError (render_response response) ;;
  write_line (String.append text (String newline "")))%raft.

(** A line that was read, with the circumstances of its request, or a failed read. *)
Inductive line_result := Line (text : string) (tx now : N) (meanwhile : list event) | LineError.

(** [while reader.read_line(&mut line).await? > 0 { ... }]: the socket ends after [reads]. *)
Fixpoint handle_ipc_connection (reads : list line_result) : M ipc_world unit := (
  match reads with
  | [] => ret tt
  | LineError :: _ => fail IoError
  | Line text tx now meanwhile :: reads' =>
      match parse_request text with
      | inr e => write_response (mkResponse false (String.append "Invalid request: " e) None)
      | inl request =>
          response <- on_node (process_request tx now meanwhile request) ;;
          write_response response
      end ;;;
      handle_ipc_connection reads'
  end)%raft.
End ipc.

Arguments IpcFormat _ : clear implicits.
