(* ===== verification/Cli.v ===== *)
(** * The command line client: [raft-cli/src]

    A command connects to the socket of a node, sends one request, and prints what the
    answer says.  [terminal] is the world of the client: the daemons behind the sockets,
    each with a function [serve] that takes a request line and answers it, and what was
    printed.  [serve] is a parameter: the answers of a daemon are those of Ipc.v in
    CliProps.v.  The requests are the [IpcRequest] of Ipc.v, which the client repeats. *)

From stdpp Require Import pretty.
From S2P Require Import Prelude Heapless Protocol Serde HashMap Log StateMachine Config Env.
From S2P Require Import Node Daemon Ipc.
Local Open Scope N_scope.

(** A line on the standard output, or on the standard error. *)
Inductive output := Out (line : string) | ErrOut (line : string).

(** What reading the answer comes to: a line, the end of the stream, an error, or a wait
    that does not end. *)
Inductive reply := ReplyLine (line : string) | ReplyClosed | ReplyError | NoReply.

(** ** The arguments *)

Inductive Commands :=
  | CmdJoin (node_id address : string)
  | CmdLeave (node_id : string)
  | CmdStatus
  | CmdPropose (operation key : string) (value : option string)
  | CmdSend (message : string)
  | CmdMessages (limit : N)
  | CmdWatch (interval : N).

Record Cli := mkCli { cli_node : string; cli_command : Commands }.

(** ** Formatting *)

(** [format!("{:02}", n)] *)
Definition two_digits (n : N) : string :=
  if n <? 10 then String.append "0" (pretty n) else pretty n.

Definition chrono_lite (unix_secs : N) : string :=
  let secs := unix_secs mod 60 in
  let mins := (unix_secs / 60) mod 60 in
  let hours := (unix_secs / 3600) mod 24 in
  String.append (two_digits hours) (String.append ":"
    (String.append (two_digits mins) (String.append ":" (two_digits secs)))).

Definition concat_all (parts : list string) : string := foldr String.append "" parts.

Definition double_quote : string := String "034" "".

(** ["=".repeat(50)] *)
Definition rule : string := concat_all (replicate 50 "=").

Section cli.
Context {Value : Type} {JA : JsonApi Value} {Daemon : Type}.

(** What the crates supply: the request and the answer as JSON, the text of an I/O error,
    and [{:?}] of a list of values. *)
Class CliFormat := {
  render_request : IpcRequest -> option string;
  parse_response : string -> option (IpcResponse Value);
  connect_error : string;
  debug_values : list Value -> string;
}.
Context {CF : CliFormat} (serve : string -> Daemon -> reply * Daemon).

Record terminal := mkTerminal { daemons : gmap string Daemon; screen : list output }.

(** [println!] and [eprintln!] *)
Definition print (o : output) : M terminal unit :=
  modify (fun w => mkTerminal (daemons w) (screen w ++ [o])).
Definition println (parts : list string) : M terminal unit := print (Out (concat_all parts)).
Definition eprintln (parts : list string) : M terminal unit := print (ErrOut (concat_all parts)).

(** ** The connection *)

Definition socket_path (node_id : string) : string := concat_all ["/tmp/raft-"; node_id; ".sock"].

(** The client is the path of the socket it is connected to. *)
Definition connect (node_id : string) : M terminal string := (
  found <- gets (fun w => daemons w !! socket_path node_id) ;;
  match found with
  | Some _ => ret (socket_path node_id)
  | None => fail (Bail (concat_all ["Failed to connect to node '"; node_id; "' at ";
      socket_path node_id; ": "; connect_error; ". Is the node running?"]))
  end)%raft.

(** One line to the daemon, and the line it answers. *)
Definition exchange (client line : string) : M terminal reply := fun w =>
  match daemons w !! client with
  | Some d => let '(r, d') := serve line d in
              (Ok r, mkTerminal (<[client := d']> (daemons w)) (screen w))
  | None => (Ok ReplyError, w)
  end.

Definition send_request (client : string) (request : IpcRequest) : M terminal (IpcResponse Value) := (
  request_str <- from_result SerdeError (render_request request) ;;
  r <- exchange client (String.append request_str (String newline "")) ;;
  match r with
  | ReplyLine line =>
      if decide (line = "") then fail (Bail "Connection closed by server")
      else from_result SerdeError (parse_response line)
  | ReplyClosed => fail (Bail "Connection closed by server")
  | ReplyError => fail IoError
  | NoReply => block
  end)%raft.

(** ** The commands *)

Definition join (local_node node_id address : string) : M terminal unit := (
  client <- connect local_node ;;
  response <- send_request client (Join node_id address) ;;
  if ipc_success response then println ["✓ Successfully joined "; node_id; " at "; address]
  else eprintln ["✗ Failed to join: "; ipc_message response])%raft.

Definition leave (local_node node_id : string) : M terminal unit := (
  client <- connect local_node ;;
  response <- send_request client (Leave node_id) ;;
  if ipc_success response then println ["✓ Successfully removed "; node_id]
  else eprintln ["✗ Failed to remove: "; ipc_message response])%raft.

(** [data.get(name).and_then(as)] *)
Definition field {A} (name : string) (view : Value -> option A) (data : Value) : option A :=
  value_get name data ≫= view.

Definition print_status (data : Value) : M terminal unit := (
  println ["RAFT Cluster Status"] ;;;
  println ["=================="] ;;;
  if_some (field "node_id" as_str data) (fun node_id => println ["Node ID:      "; node_id]) ;;;
  if_some (field "role" as_str data) (fun role => println ["Role:         "; role]) ;;;
  if_some (field "current_term" as_u64 data) (fun term => println ["Current Term: "; pretty term]) ;;;
  if_some (field "commit_index" as_u64 data) (fun commit => println ["Commit Index: "; pretty commit]) ;;;
  if_some (field "last_applied" as_u64 data) (fun applied => println ["Last Applied: "; pretty applied]) ;;;
  if_some (value_get "leader_id" data) (fun leader =>
    if is_null leader then println ["Leader:       (none)"]
    else if_some (as_str leader) (fun leader_str => println ["Leader:       "; leader_str])) ;;;
  if_some (field "peers" as_array data) (fun peers => println ["Peers:        "; debug_values peers]))%raft.

Definition status (local_node : string) : M terminal unit := (
  client <- connect local_node ;;
  response <- send_request client Status ;;
  if ipc_success response then if_some (ipc_data response) print_status
  else eprintln ["✗ Failed to get status: "; ipc_message response])%raft.

(** The request of an operation on a key. *)
Definition propose_request (operation key : string) (value : option string) : IpcRequest + error :=
  if decide (operation = "put") then
    match value with
    | Some value => inl (ProposeKey key (Some value))
    | None => inr (Bail "Value required for put operation")
    end
  else if decide (operation = "delete") then inl (ProposeKey key None)
  else if decide (operation = "get") then inl (Get key)
  else inr (Bail (String.append "Unknown operation: " operation)).

Definition print_value (key : string) (data : Value) : M terminal unit :=
  if_some (value_get "value" data) (fun v =>
    if is_null v then println [key; ": (not found)"]
    else if_some (as_str v) (fun s => println [key; ": "; s])).

(** The hint of a redirected request. *)
Definition print_leader (hint : string) (data : Value) : M terminal unit :=
  if_some (field "leader_id" as_str data) (fun leader => eprintln [hint; leader]).

Definition cli_propose (local_node operation key : string) (value : option string) : M terminal unit := (
  client <- connect local_node ;;
  match propose_request operation key value with
  | inr e => fail e
  | inl request =>
      response <- send_request client request ;;
      if ipc_success response then
        if decide (operation = "put") then println ["✓ Set "; key; "="; default "" value]
        else if decide (operation = "delete") then println ["✓ Deleted "; key]
        else if decide (operation = "get") then if_some (ipc_data response) (print_value key)
        else ret tt
      else
        eprintln ["✗ Operation failed: "; ipc_message response] ;;;
        if_some (ipc_data response) (print_leader "  Hint: Try connecting to leader node: ")
  end)%raft.

Definition cli_send (local_node message : string) : M terminal unit := (
  client <- connect local_node ;;
  response <- send_request client (Send message) ;;
  if ipc_success response then
    println ["✓ Message sent: "; double_quote; message; double_quote] ;;;
    if_some (ipc_data response) (fun data =>
      if_some (field "index" as_u64 data) (fun index => println ["  Replicated at log index "; pretty index]))
  else
    eprintln ["✗ Failed to send: "; ipc_message response] ;;;
    if_some (ipc_data response) (print_leader "  Hint: Send from leader node: "))%raft.

(** ** Messages *)

Definition msg_from (msg : Value) : string := default "?" (field "from" as_str msg).
Definition msg_text (msg : Value) : string := default "" (field "message" as_str msg).
Definition msg_ts (msg : Value) : N := default 0 (field "timestamp" as_u64 msg).

Definition print_message (msg : Value) : M terminal unit :=
  println ["["; chrono_lite (msg_ts msg / 1000); "] "; msg_from msg; ": "; msg_text msg].

Definition messages (local_node : string) (limit : N) : M terminal unit := (
  client <- connect local_node ;;
  response <- send_request client (Messages (Some limit) None) ;;
  if ipc_success response then if_some (ipc_data response) (fun data =>
    if_some (field "last_applied" as_u64 data) (fun last_applied =>
      println ["Messages (last applied index: "; pretty last_applied; ")"] ;;;
      println [rule]) ;;;
    if_some (field "messages" as_array data) (fun messages =>
      if decide (messages = []) then println ["(no messages)"]
      else for_each messages print_message))
  else eprintln ["✗ Failed to get messages: "; ipc_message response])%raft.

(** [format!("{}:{}", ts, text)] *)
Definition seen_key (msg : Value) : string := concat_all [pretty (msg_ts msg); ":"; msg_text msg].

(** The loop over the messages of one answer, from the oldest. *)
Fixpoint show_new (seen : gset string) (msgs : list Value) : M terminal (gset string) := (
  match msgs with
  | [] => ret seen
  | msg :: msgs' =>
      if decide (seen_key msg ∈ seen) then show_new seen msgs'
      else print_message msg ;;; show_new ({[ seen_key msg ]} ∪ seen) msgs'
  end)%raft.

Definition watch_poll (local_node : string) (seen : gset string) : M terminal (gset string) := (
  client <- connect local_node ;;
  response <- send_request client (Messages (Some 50) None) ;;
  match (if ipc_success response then ipc_data response ≫= field "messages" as_array else None) with
  | Some msgs => show_new seen (reverse msgs)
  | None => ret seen
  end)%raft.

(** The loop, for as many rounds as there are [sleeps]: what each does to the daemons.  The
    code has no other end than an error. *)
Fixpoint watch_loop (local_node : string) (sleeps : list (Daemon -> Daemon)) (seen : gset string) :
    M terminal unit := (
  match sleeps with
  | [] => diverge
  | sleep :: sleeps' =>
      seen' <- watch_poll local_node seen ;;
      modify (fun w => mkTerminal (sleep <$> daemons w) (screen w)) ;;;
      watch_loop local_node sleeps' seen'
  end)%raft.

Definition watch (local_node : string) (sleeps : list (Daemon -> Daemon)) : M terminal unit := (
  println ["Watching for messages on "; local_node; " (Ctrl+C to stop)..."] ;;;
  println [rule] ;;;
  watch_loop local_node sleeps ∅)%raft.

(** [main], after the arguments were parsed. *)
Definition cli_main (cli : Cli) (sleeps : list (Daemon -> Daemon)) : M terminal unit :=
  match cli_command cli with
  | CmdJoin node_id address => join (cli_node cli) node_id address
  | CmdLeave node_id => leave (cli_node cli) node_id
  | CmdStatus => status (cli_node cli)
  | CmdPropose operation key value => cli_propose (cli_node cli) operation key value
  | CmdSend message => cli_send (cli_node cli) message
  | CmdMessages limit => messages (cli_node cli) limit
  | CmdWatch _ => watch (cli_node cli) sleeps
  end.
End cli.

Arguments CliFormat _ : clear implicits.
Arguments terminal _ : clear implicits.
Arguments mkTerminal {Daemon} _ _.
