(* ===== verification/Json.v ===== *)
(** * Reading JSON values, and a reference JSON

    [JsonViewLaws] is what the code relies on when it reads back a [serde_json::Value] that
    it built; [IpcWire] what it relies on when a request or an answer crosses the socket.
    Both are documented behaviour of [serde_json]; they are discharged for a JSON whose
    values are the trees of stdpp and whose text is a code of the tree. *)

From stdpp Require Import countable pretty.
From S2P Require Import Prelude Heapless Protocol Serde HashMap Log StateMachine Config Env.
From S2P Require Import Node Daemon Ipc Cli.
Local Open Scope N_scope.

(** ** The laws *)

Class JsonViewLaws (Value : Type) (JA : JsonApi Value) : Prop := {
  get_field (fields : list (string * Value)) name v : NoDup fields.*1 -> (name, v) ∈ fields ->
    value_get name (json_obj fields) = Some v;
  get_missing (fields : list (string * Value)) name : name ∉ fields.*1 ->
    value_get name (json_obj fields) = None;
  as_str_str s : as_str (json_str s) = Some s;
  as_u64_num n : n <= u64_max -> as_u64 (json_num n) = Some n;
  as_array_arr l : as_array (json_arr l) = Some l;
  null_null : is_null json_null = true;
  null_str s : is_null (json_str s) = false;
}.

(** The data of the answers that are not lists: nothing, or an object of plain values. *)
Inductive leaf {Value} {JA : JsonApi Value} : Value -> Prop :=
  | leaf_null : leaf json_null
  | leaf_str s : leaf (json_str s)
  | leaf_num n : n <= u64_max -> leaf (json_num n).

Inductive plain_data {Value} {JA : JsonApi Value} : option Value -> Prop :=
  | plain_none : plain_data None
  | plain_obj fields : NoDup fields.*1 -> Forall leaf fields.*2 -> plain_data (Some (json_obj fields)).

(** A document written by one side, with the line ending it adds, is read by the other. *)
Class IpcWire (Value : Type) (JA : JsonApi Value) (IF : IpcFormat Value) (CF : CliFormat Value) :
    Prop := {
  request_crosses request : exists text, render_request request = Some text /\ no_newline text /\
    parse_request (String.append text (String newline "")) = inl request;
  response_crosses response : plain_data (ipc_data response) ->
    exists text, render_response response = Some text /\ no_newline text /\
      parse_response (String.append text (String newline "")) = Some response;
}.

(** ** The reference JSON *)

Definition json : Type := gen_tree (string + N).

Definition tree_entry (name : string) (f : json) : option json :=
  match f with
  | GenNode 3 [GenLeaf (inl k); v] => if decide (k = name) then Some v else None
  | _ => None
  end.

Definition tree_field (name : string) (v : json) : option json :=
  match v with GenNode 2 fields => head (omap (tree_entry name) fields) | _ => None end.

Definition json_text (v : json) : string := digits_of_pos (encode v).

Definition tree_api : JsonApi json := {|
  json_null := GenNode 0 [];
  json_str s := GenLeaf (inl s);
  json_num n := GenLeaf (inr n);
  json_arr l := GenNode 1 l;
  json_obj fields := GenNode 2 ((fun f => GenNode 3 [GenLeaf (inl f.1); f.2]) <$> fields);
  value_text := json_text;
  value_get := tree_field;
  as_str v := match v with GenLeaf (inl s) => Some s | _ => None end;
  as_u64 v := match v with GenLeaf (inr n) => if n <=? u64_max then Some n else None | _ => None end;
  as_array v := match v with GenNode 1 l => Some l | _ => None end;
  is_null v := bool_decide (v = GenNode 0 []);
|}.

Definition tree_value : JsonValue json := {|
  value_from_slice bs := pos_of_digits (String.string_of_list_byte bs) ≫= decode;
|}.

#[global] Instance tree_view_laws : JsonViewLaws json tree_api.
Proof.
  split; try done.
  - intros fields name v Hnd Hin. simpl. induction fields as [|[k w] fields IH]; [by inversion Hin|].
    simpl in *. apply NoDup_cons in Hnd as [Hk Hnd]. apply elem_of_cons in Hin.
    case_decide as Hkn; simpl.
    + destruct Hin as [[= _ ->]|Hin]; [done|]. subst k. destruct Hk.
      apply list_elem_of_fmap. by exists (name, v).
    + destruct Hin as [[= -> _]|Hin]; [done|]. by apply IH.
  - intros fields name Hin. simpl. induction fields as [|[k w] fields IH]; [done|]. simpl in *.
    apply not_elem_of_cons in Hin as [Hk Hin]. rewrite decide_False by done. by apply IH.
  - intros n Hn. simpl. by rewrite (proj2 (N.leb_le _ _) Hn).
Qed.

(** ** The two formats of the socket *)

#[export] Instance IpcRequest_eq_dec : EqDecision IpcRequest.
Proof. solve_decision. Defined.

#[export] Instance IpcRequest_countable : Countable IpcRequest.
Proof.
  refine (inj_countable'
    (fun r => match r with
     | Join i a => GenNode 0 [GenLeaf (inl i); GenLeaf (inl a)]
     | Leave i => GenNode 1 [GenLeaf (inl i)]
     | Status => GenNode 2 []
     | ProposeKey k (Some v) => GenNode 3 [GenLeaf (inl k); GenLeaf (inl v)]
     | ProposeKey k None => GenNode 4 [GenLeaf (inl k)]
     | Get k => GenNode 5 [GenLeaf (inl k)]
     | Send m => GenNode 6 [GenLeaf (inl m)]
     | Messages l s => GenNode 7 [GenLeaf (inr (l, s))]
     end)
    (fun t => match t with
     | GenNode 0 [GenLeaf (inl i); GenLeaf (inl a)] => Join i a
     | GenNode 1 [GenLeaf (inl i)] => Leave i
     | GenNode 2 [] => Status
     | GenNode 3 [GenLeaf (inl k); GenLeaf (inl v)] => ProposeKey k (Some v)
     | GenNode 4 [GenLeaf (inl k)] => ProposeKey k None
     | GenNode 5 [GenLeaf (inl k)] => Get k
     | GenNode 6 [GenLeaf (inl m)] => Send m
     | GenNode 7 [GenLeaf (inr (l, s))] => Messages l s
     | _ => Status
     end) _).
  by intros [| | |k []| | |].
Defined.

#[export] Instance IpcResponse_eq_dec : EqDecision (IpcResponse json).
Proof. solve_decision. Defined.

#[export] Instance IpcResponse_countable : Countable (IpcResponse json).
Proof.
  by refine (inj_countable' (fun r => (ipc_success r, ipc_message r, ipc_data r))
    (fun '(s, m, d) => mkResponse s m d) _); intros [].
Defined.

(** The digits of a text that ends with a line ending. *)
Fixpoint chomp (s : string) : string :=
  match s with
  | EmptyString => ""
  | String c s' => if decide (c = newline) then "" else String c (chomp s')
  end.

Lemma chomp_line s : no_newline s -> chomp (String.append s (String newline "")) = s.
Proof.
  induction s as [|c s IH]; [done|]. intros (Hc & _ & Hs). simpl.
  by rewrite decide_False, IH.
Qed.

Definition read_code {A} `{Countable A} (line : string) : option A := @from_str A ref_json (chomp line).

Lemma read_code_text {A} `{Countable A} (a : A) : exists text,
  @to_string A ref_json a = Some text /\ no_newline text /\
  read_code (String.append text (String newline "")) = Some a.
Proof.
  eexists. split; [reflexivity|]. destruct (digits_one_line (encode a)) as [Hline _].
  split; [done|]. unfold read_code. rewrite chomp_line by done. by apply (@json_from_to A ref_json _ a).
Qed.
Definition tree_format : @IpcFormat json := {|
  status_value s := @json_obj _ tree_api
    [("node_id", GenLeaf (inl (sr_node_id s))); ("role", GenLeaf (inl (sr_role s)));
     ("current_term", GenLeaf (inr (sr_current_term s)));
     ("commit_index", GenLeaf (inr (sr_commit_index s)));
     ("last_applied", GenLeaf (inr (sr_last_applied s)));
     ("leader_id", match sr_leader_id s with Some l => GenLeaf (inl l) | None => GenNode 0 [] end);
     ("peers", GenNode 1 ((fun p => GenLeaf (inl p)) <$> sr_peers s))];
  error_text e := match e with IoError => "io" | SerdeError => "serde" | Bail msg => msg end;
  parse_request line := match read_code line with Some r => inl r | None => inr "expected value" end;
  render_response r := @to_string _ ref_json r;
|}.

Definition tree_cli_format : CliFormat json := {|
  render_request r := @to_string _ ref_json r;
  parse_response line := read_code line;
  connect_error := "No such file or directory (os error 2)";
  debug_values vs := pretty (N.of_nat (length vs));
|}.

#[export] Instance tree_wire : IpcWire json tree_api tree_format tree_cli_format.
Proof.
  split.
  - intros request. destruct (read_code_text request) as (text & Ht & Hline & Hr).
    exists text. split; [exact Ht|]. split; [done|]. simpl. by rewrite Hr.
  - intros response _. apply read_code_text.
Qed.
