(* ===== verification/Typing.v ===== *)
(** * Values stay in their types

    The model has unbounded numbers, strings and lists where the code has [u64],
    [heapless::String<N>] and [heapless::Vec<T, N>].  The predicates [..._typed] say when a
    value of the model is one of the code, and the theorem that a daemon that is given
    typed values only ever holds, stores and sends typed values, whatever its files do.
    What the JSON reader returns is typed by its own laws: a number out of range or a
    string over the capacity is rejected. *)

From Stdlib Require Import Init.Byte.
From S2P Require Import Prelude Heapless Protocol Serde HashMap Log LogFacts StateMachine.
From S2P Require Import Config Env Node NodeFacts Sample Daemon Ipc.
Local Open Scope N_scope.

(** ** The types *)

Definition u64 (x : N) : Prop := x <= u64_max.
Definition fits (cap : nat) (s : string) : Prop := (String.length s <= cap)%nat.

Record entry_typed (e : LogEntry) : Prop := {
  et_index : u64 (index e);
  et_term : u64 (term e);
  et_command : wf_command (command e) }.

Definition message_typed (m : RaftMessage) : Prop :=
  match m with
  | AppendEntries r => u64 (ae_term r) /\ fits ID_CAPACITY (ae_leader_id r) /\ u64 (prev_log_index r) /\
      u64 (prev_log_term r) /\ (length (ae_entries r) <= MAX_ENTRIES)%nat /\
      Forall entry_typed (ae_entries r) /\ u64 (leader_commit r)
  | AppendEntriesResp r => u64 (aer_term r) /\ u64 (aer_last_log_index r) /\ fits ID_CAPACITY (aer_node_id r)
  | RequestVote r => u64 (rv_term r) /\ fits ID_CAPACITY (candidate_id r) /\ u64 (rv_last_log_index r) /\
      u64 (rv_last_log_term r)
  | RequestVoteResp r => u64 (rvr_term r) /\ fits ID_CAPACITY (rvr_node_id r)
  | ClientReq r => u64 (cr_request_id r) /\ wf_command (cr_command r)
  | ClientResp r => u64 (cresp_request_id r) /\
      (forall d, cresp_data r = Some d -> (length d <= MAX_VALUE_SIZE)%nat) /\
      (forall e, cresp_error r = Some e -> fits 256 e) /\
      (forall l, cresp_leader_id r = Some l -> fits ID_CAPACITY l)
  end.

Record envelope_typed (env : MessageEnvelope) : Prop := {
  en_from : fits ID_CAPACITY (from env);
  en_to : fits ID_CAPACITY (to env);
  en_message : message_typed (message env) }.

Record state_typed (s : PersistentState) : Prop := {
  st_term : u64 (current_term s);
  st_vote : forall v, voted_for s = Some v -> fits ID_CAPACITY v }.

Record log_typed (l : RaftLog) : Prop := {
  lt_entries : forall i e, entries l !! i = Some e -> entry_typed e;
  lt_state : state_typed (persistent_state l);
  lt_last : u64 (last_index l) }.

Definition peer_typed (p : PeerInfo) : Prop := fits ID_CAPACITY (id p) /\ fits ID_CAPACITY (address p).

Record store_typed (m : StateMachine) : Prop := {
  st_data : forall k v, data m !! k = Some v -> fits MAX_KEY_SIZE k /\ (length v <= MAX_VALUE_SIZE)%nat;
  st_applied : u64 (sm_last_applied m) }.

Record node_typed (n : RaftNode) : Prop := {
  nt_log : log_typed (log n);
  nt_store : store_typed (state_machine n);
  nt_commit : u64 (commit_index n);
  nt_applied : u64 (last_applied n);
  nt_peers : forall k p, peers n !! k = Some p -> peer_typed p;
  nt_next : forall k i, next_index n !! k = Some i -> u64 i;
  nt_match : forall k i, match_index n !! k = Some i -> u64 i;
  nt_outgoing : Forall envelope_typed (outgoing n) }.

(** What reaches a daemon: messages read from the network, commands built by the IPC server. *)
Definition event_typed (ev : event) : Prop :=
  match ev with
  | Deliver env => envelope_typed env
  | Propose command _ => wf_command command
  | _ => True
  end.

Class EnvTyped (E : Env) : Prop := {
  typed_heapless :: HeaplessLaws env_heapless;
  typed_entry s (d : DiskLogEntry) : from_str s = Some d -> u64 (d_index d) /\ u64 (d_term d);
  typed_state s (p : PersistentState) : from_str s = Some p -> state_typed p;
}.

Lemma u64_add_typed x y : u64 (u64_add x y).
Proof. apply u64_add_bounded. Qed.

Lemma u64_sub_typed x y : u64 x -> u64 (u64_saturating_sub x y).
Proof. unfold u64, u64_saturating_sub. lia. Qed.

Lemma u64_max_typed x y : u64 x -> u64 y -> u64 (N.max x y).
Proof. unfold u64. lia. Qed.

Lemma u64_min_typed x y : u64 x -> u64 y -> u64 (N.min x y).
Proof. unfold u64. lia. Qed.

Lemma u64_zero : u64 0.
Proof. unfold u64, u64_max. lia. Qed.

Lemma u64_one : u64 1.
Proof. unfold u64, u64_max. lia. Qed.

#[export] Hint Resolve u64_add_typed u64_sub_typed u64_max_typed u64_min_typed u64_zero u64_one : typed.

(** ** The log *)

Section typing.
Context {E : Env} {ET : EnvTyped E}.

Ltac typed_record := intros [] || idtac; split; simpl in *; eauto with typed.

Lemma log_disk_typed d l : log_typed l -> log_typed (with_disk d l).
Proof. typed_record. Qed.

Lemma log_handle_typed h l : log_typed l -> log_typed (with_log_file h l).
Proof. typed_record. Qed.

Lemma log_insert_typed e l : entry_typed e -> log_typed l ->
  log_typed (with_entries (<[index e := e]> (entries l)) l).
Proof.
  intros He [Hes Hs Hl]. split; simpl; [|done..]. intros i e' [[_ <-]|[_ Hi]]%lookup_insert_Some; [done|].
  by apply (Hes i).
Qed.

Lemma log_last_typed i l : u64 i -> log_typed l -> log_typed (with_last_index i l).
Proof. intros Hi. typed_record. Qed.

Lemma log_state_typed s l : state_typed s -> log_typed l -> log_typed (with_persistent_state s l).
Proof. intros Hi. typed_record. Qed.

Lemma log_filter_typed i l : log_typed l ->
  log_typed (with_entries (filter (fun p => p.1 < i) (entries l)) l).
Proof.
  intros [Hes Hs Hl]. split; simpl; [|done..].
  intros j e [Hj _]%map_lookup_filter_Some. by apply (Hes j).
Qed.

Lemma get_typed l i e : log_typed l -> entries l !! i = Some e -> entry_typed e.
Proof. intros [Hes _ _]. apply Hes. Qed.

Lemma log_last l : log_typed l -> u64 (last_index l).
Proof. apply lt_last. Qed.

Lemma log_term_typed l : log_typed l -> u64 (log_current_term l).
Proof. intros Hl. apply Hl. Qed.

Hint Resolve log_disk_typed log_handle_typed log_insert_typed log_last_typed log_state_typed
  log_filter_typed get_typed log_last log_term_typed : typed.

(** A sequence whose first part returns nothing of interest. *)
Ltac then_any := simple apply (yields_bind _ anything); [|intros ? _].

Lemma typed_next_io : yields log_typed anything next_io.
Proof. intros l Hl. unfold next_io. by destruct (io (disk l)); split; eauto with typed. Qed.

Lemma typed_set_file name text : yields log_typed anything (set_file name text).
Proof. apply yields_modify; eauto with typed. Qed.

Lemma typed_io_call : yields log_typed anything io_call.
Proof. unfold io_call. eapply yields_bind; [apply typed_next_io|]. intros [|w] _; [by apply yields_ret|done]. Qed.
Hint Resolve typed_next_io typed_set_file typed_io_call : typed.

Lemma typed_fs_write name text : yields log_typed anything (fs_write name text).
Proof.
  unfold fs_write. then_any; [eauto with typed|]. yields_steps. then_any; eauto with typed. done.
Qed.

Lemma typed_file_append name text : yields log_typed anything (file_append name text).
Proof.
  unfold file_append. then_any; [eauto with typed|]. then_any; [by apply yields_gets|]. yields_steps.
  then_any; eauto with typed. done.
Qed.

Lemma typed_open_append : yields log_typed anything open_append.
Proof. unfold open_append. then_any; [eauto with typed|]. then_any; apply yields_modify; eauto with typed. Qed.
Hint Resolve typed_fs_write typed_file_append typed_open_append : typed.

Lemma typed_save_state : yields log_typed anything save_state.
Proof.
  unfold save_state. then_any; [by apply yields_gets|].
  eapply yields_bind; [by apply (yields_from_result _ anything)|]. eauto with typed.
Qed.
Hint Resolve typed_save_state : typed.

Lemma typed_set_current_term t : u64 t -> yields log_typed anything (set_current_term t).
Proof.
  intros Ht. unfold set_current_term. then_any; [|eauto with typed].
  apply yields_modify. intros l Hl. apply log_state_typed; [by split|done].
Qed.

Lemma typed_set_voted_for c : yields log_typed anything (set_voted_for c).
Proof.
  unfold set_voted_for. then_any; [|eauto with typed].
  apply yields_modify. intros l Hl. apply log_state_typed; [|done]. split; [apply Hl|].
  intros v (x & _ & ->)%fmap_Some. apply string_from_length.
Qed.

Lemma typed_write_entry e : yields log_typed anything (write_entry e).
Proof.
  unfold write_entry. then_any; [by apply yields_gets|]. yields_steps; [|by apply yields_ret].
  then_any; [by apply (yields_from_result _ anything)|]. unfold handle_writeln. yields_steps.
Qed.

Lemma typed_flush_file : yields log_typed anything flush_file.
Proof. unfold flush_file, flush. then_any; [by apply yields_gets|]. yields_steps. by apply yields_ret. Qed.
Hint Resolve typed_set_current_term typed_set_voted_for typed_write_entry typed_flush_file : typed.

Lemma typed_append t c : u64 t -> wf_command c -> yields log_typed u64 (append t c).
Proof.
  intros Ht Hc. unfold append. apply (yields_bind _ u64); [apply yields_gets; eauto with typed|].
  intros i Hi. then_any; [eauto with typed|]. then_any; [eauto with typed|].
  then_any; [apply yields_modify; intros; by apply (log_insert_typed (mkEntry i t c))|].
  then_any; [apply yields_modify; eauto with typed|]. by apply yields_ret.
Qed.

Lemma typed_append_entries new : Forall entry_typed new -> yields log_typed anything (append_entries new).
Proof.
  intros Hnew. unfold append_entries. then_any; [|eauto with typed].
  apply yields_for_each. intros e He. rewrite Forall_forall in Hnew. specialize (Hnew e He).
  unfold append_entry. then_any; [eauto with typed|].
  then_any; apply yields_modify; intros l Hl; [|eauto with typed].
  apply log_last_typed; [|done]. destruct Hnew. eauto with typed.
Qed.

Lemma typed_truncate_from i : u64 i -> yields log_typed anything (truncate_from i).
Proof.
  intros Hi. unfold truncate_from.
  then_any; [apply yields_modify; eauto with typed|].
  then_any; [apply yields_modify; eauto with typed|].
  then_any; [eauto with typed|]. then_any; [eauto with typed|]. then_any.
  { apply yields_for_each. intros j _. unfold rewrite_entry. then_any; [by apply yields_gets|].
    yields_steps; [|by apply yields_ret].
    then_any; [by apply (yields_from_result _ anything)|eauto with typed]. }
  then_any; [unfold flush; eauto with typed|]. then_any; [|eauto with typed].
  unfold rename_temp. then_any; [eauto with typed|]. then_any; apply yields_modify; eauto with typed.
Qed.
Hint Resolve typed_append_entries typed_truncate_from : typed.

Lemma typed_store_entries new : Forall entry_typed new -> yields log_typed anything (store_entries new).
Proof.
  intros Hnew. unfold store_entries. then_any; [|eauto with typed].
  induction Hnew as [|e new He _ IH]; [by apply yields_ret|]. simpl.
  then_any; [by apply yields_gets|]. destruct He. yields_steps.
Qed.

Lemma disk_entry_typed s d : from_str s = Some d -> entry_typed (disk_entry_to_log_entry d).
Proof.
  intros [Hi Ht]%typed_entry. split; simpl; [done..|].
  repeat case_decide; simpl; try split; first [apply string_from_length|apply vec_from_length|done].
Qed.

Lemma typed_load_line line : yields log_typed anything (load_line line).
Proof.
  unfold load_line. yields_steps; [by apply yields_ret|].
  eapply yields_bind; [apply yields_from_result; intros d Hd; exact (disk_entry_typed _ _ Hd)|].
  simpl. intros d Hd. then_any; apply yields_modify; intros l Hl; [|eauto with typed].
  apply log_last_typed; [|done]. destruct Hd. eauto with typed.
Qed.

Lemma typed_fs_read name : yields log_typed anything (fs_read name).
Proof. unfold fs_read. then_any; [eauto with typed|]. by apply yields_gets. Qed.

Lemma typed_load_from_disk : yields log_typed anything load_from_disk.
Proof.
  unfold load_from_disk. then_any; [by apply yields_gets|]. then_any.
  { apply yields_when. then_any; [apply typed_fs_read|].
    apply (yields_bind _ state_typed).
    - apply yields_from_result. intros p (s & _ & Hs)%bind_Some. by eapply typed_state.
    - intros p Hp. apply yields_modify. eauto with typed. }
  then_any; [by apply yields_gets|]. then_any; [|eauto with typed].
  apply yields_when. then_any; [apply typed_fs_read|]. apply yields_for_each.
  intros line _. apply typed_load_line.
Qed.

Lemma RaftLog_new_typed dir files l : RaftLog_new dir files = Ok l -> log_typed l.
Proof.
  unfold RaftLog_new. intros Hl.
  assert (yields log_typed anything (io_call ;;; load_from_disk)%raft) as Hrun
    by (then_any; [eauto with typed|apply typed_load_from_disk]).
  destruct (Hrun (mkLog dir ∅ PersistentState_default 0 None files)) as [Htyped _].
  { split; simpl; [done| |eauto with typed]. split; simpl; [eauto with typed|done]. }
  destruct (bind _ _ _) as [[] l']; simpl in *; by simplify_eq.
Qed.

Lemma last_term_typed l : log_typed l -> u64 (last_term l).
Proof.
  intros Hl. unfold last_term. destruct (entries l !! last_index l) as [e|] eqn:He; simpl; [|eauto with typed].
  by eapply get_typed.
Qed.

Lemma term_at_typed l i : log_typed l -> u64 (default 0 (term_at l i)).
Proof.
  intros Hl. unfold term_at. destruct (entries l !! i) as [e|] eqn:He; simpl; [|eauto with typed].
  by eapply get_typed.
Qed.

Lemma get_entries_typed l a b : log_typed l -> Forall entry_typed (get_entries l a b).
Proof.
  intros Hl. unfold get_entries. apply Forall_forall.
  intros e (i & _ & He)%list_elem_of_omap. by eapply get_typed.
Qed.

(** ** The node *)

Lemma on_log_typed {A} (Q : A -> Prop) (m : M RaftLog A) :
  yields log_typed Q m -> yields node_typed Q (on_log m).
Proof.
  intros Hm. apply (yields_zoom _ Q log_typed); [done|by intros n []|].
  intros n l [] Hl. by split.
Qed.

Lemma lock_log_typed : yields node_typed anything lock_log.
Proof. intros n Hn. unfold lock_log. destruct (mutex_lock _); split; try done. by destruct Hn. Qed.

Lemma drop_log_typed : yields node_typed anything drop_log.
Proof. apply yields_modify. intros n []. by split. Qed.

Lemma scope_log_typed {A} (Q : A -> Prop) (body : M RaftNode A) :
  yields node_typed Q body -> yields node_typed Q (scope_log body).
Proof.
  intros Hb n Hn. unfold scope_log.
  destruct (yields_bind node_typed anything Q lock_log (fun _ => body) lock_log_typed (fun _ _ => Hb) n Hn)
    as [Hn' HQ]. destruct (bind _ _ n) as [o n']. simpl in *.
  destruct o; simpl; (split; [by destruct Hn'|done]).
Qed.

Lemma node_log n : node_typed n -> log_typed (log n).
Proof. by intros []. Qed.

Lemma node_commit n : node_typed n -> u64 (commit_index n).
Proof. by intros []. Qed.

Lemma node_term_typed n : node_typed n -> u64 (node_term n).
Proof. intros Hn. apply (nt_log _ Hn). Qed.
Hint Resolve on_log_typed lock_log_typed drop_log_typed scope_log_typed node_log node_commit
  node_term_typed : typed.

(** Updates of the fields that carry no bound. *)
Ltac untyped_field := apply yields_modify; by intros ? [].

Lemma set_role_typed r : yields node_typed anything (set_role r).
Proof. untyped_field. Qed.

Lemma reset_heartbeat_typed : yields node_typed anything reset_heartbeat.
Proof. untyped_field. Qed.

Lemma respond_typed tx r : yields node_typed anything (respond tx r).
Proof. untyped_field. Qed.

Lemma leader_id_typed l : yields node_typed anything (modify (with_leader_id l)).
Proof. untyped_field. Qed.

Lemma commit_typed i : u64 i -> yields node_typed anything (modify (with_commit_index i)).
Proof. intros Hi. untyped_field. Qed.

Lemma send_typed a b m : message_typed m -> yields node_typed anything (send (MessageEnvelope_new a b m)).
Proof.
  intros Hm. apply yields_modify. intros n []. split; simpl; try done.
  apply Forall_app. split; [done|]. apply Forall_singleton.
  split; simpl; [apply string_from_length..|done].
Qed.

Lemma next_match_typed k i j : u64 i -> u64 j -> yields node_typed anything
  (modify (fun n => with_next_index (<[k := i]> (next_index n)) n) ;;;
   modify (fun n => with_match_index (<[k := j]> (match_index n)) n))%raft.
Proof.
  intros Hi Hj. then_any; apply yields_modify; intros n []; split; simpl; try done;
    intros k' i' [[_ <-]|[_ ?]]%lookup_insert_Some; eauto.
Qed.
Hint Resolve set_role_typed reset_heartbeat_typed respond_typed leader_id_typed commit_typed
  send_typed next_match_typed : typed.

Lemma apply_typed e m : entry_typed e -> store_typed m -> store_typed (apply e m).2.
Proof.
  intros [Hi _ Hc] [Hd Ha]. unfold apply. case_match; [done|].
  destruct (command e) as [k v|k|]; split; simpl; try done; intros k' v'.
  - intros [[<- <-]|[_ ?]]%lookup_insert_Some; [exact Hc|eauto].
  - intros [_ ?]%lookup_delete_Some. eauto.
Qed.

Lemma apply_entry_typed i : yields node_typed anything (apply_entry i).
Proof.
  unfold apply_entry. apply (yields_bind _ (fun o => forall e, o = Some e -> entry_typed e)).
  - apply yields_gets. intros n Hn e. apply get_typed. by apply node_log.
  - intros [e|] He; [|by apply yields_ret]. apply yields_modify. intros n []. split; try done.
    simpl. apply apply_typed; [by apply He|done].
Qed.

Lemma apply_loop_typed fuel commit : yields node_typed anything (apply_loop fuel commit).
Proof.
  induction fuel as [|fuel IH]; simpl; (then_any; [by apply yields_gets|]); case_match;
    try (by apply yields_ret); [apply yields_diverge|].
  then_any; [|then_any; [apply apply_entry_typed|done]].
  apply yields_modify. intros n []. split; simpl; eauto with typed.
Qed.

Lemma apply_committed_typed : yields node_typed anything apply_committed_entries.
Proof.
  unfold apply_committed_entries. then_any; [by apply yields_gets|]. then_any; [by apply yields_gets|].
  apply scope_log_typed, apply_loop_typed.
Qed.
Hint Resolve apply_committed_typed : typed.

Lemma append_response_typed to t s : u64 t -> yields node_typed anything (send_append_entries_response to t s).
Proof.
  intros Ht. unfold send_append_entries_response. apply scope_log_typed.
  then_any; [by apply yields_gets|]. apply (yields_bind _ u64); [apply yields_gets; eauto with typed|].
  intros i Hi. apply send_typed. simpl. split_and!; [done|done|apply string_from_length].
Qed.
Hint Resolve append_response_typed : typed.

(** *** The handlers *)

Lemma adopt_term_typed t b : u64 t -> yields node_typed anything
  (when b (on_log (set_current_term t) ;;; set_role Follower)%raft).
Proof. intros Ht. apply yields_when. then_any; eauto with typed. Qed.

Lemma step_down_typed t : u64 t -> yields node_typed anything
  (drop_log ;;; lock_log ;;; on_log (set_current_term t) ;;; set_role Follower)%raft.
Proof. intros Ht. do 2 (then_any; [eauto with typed|]). then_any; eauto with typed. Qed.

Lemma update_commit_typed c : u64 c -> yields node_typed anything (update_commit_index c).
Proof.
  intros Hc. unfold update_commit_index. then_any; [by apply yields_gets|]. apply yields_when.
  apply (yields_bind _ u64); [apply yields_gets; intros n Hn; apply log_last; eauto with typed|].
  intros i Hi. eauto with typed.
Qed.
Hint Resolve adopt_term_typed step_down_typed update_commit_typed : typed.

Lemma append_entries_typed from req : message_typed (AppendEntries req) ->
  yields node_typed anything (handle_append_entries from req).
Proof.
  intros (Ht & Hl & Hp & Hpt & _ & Hes & Hc). unfold handle_append_entries. apply scope_log_typed.
  apply (yields_bind _ u64); [apply yields_gets; eauto with typed|]. intros current Hcur.
  case_match; [eauto with typed|]. then_any; [eauto with typed|]. then_any; [eauto with typed|].
  then_any; [eauto with typed|]. then_any; [by apply yields_gets|]. case_match.
  - apply (yields_bind _ u64); [apply yields_gets; eauto with typed|]. eauto with typed.
  - then_any; [apply yields_when, on_log_typed, (yields_any _ anything); by apply typed_store_entries|].
    do 3 (then_any; [eauto with typed|]). eauto with typed.
Qed.

Lemma heartbeat_to_typed n peer : node_typed n -> yields node_typed anything (heartbeat_to n peer).
Proof.
  intros Hn. unfold heartbeat_to. set (es := take _ _).
  assert ((length es <= MAX_ENTRIES)%nat) as Hlen by (unfold es; rewrite length_take; lia).
  rewrite vec_from_iter_fits by done. apply send_typed. simpl.
  pose proof (node_log n Hn) as Hl.
  assert (u64 (default 1 (next_index n !! peer))) as Hnext.
  { destruct (next_index n !! peer) as [i|] eqn:Hi; simpl; [|eauto with typed].
    by eapply (nt_next _ Hn). }
  split_and!; eauto with typed.
  - apply string_from_length.
  - by apply term_at_typed.
  - apply Forall_take. by apply get_entries_typed.
Qed.

Lemma send_heartbeats_typed : yields node_typed anything send_heartbeats.
Proof.
  unfold send_heartbeats. then_any; [by apply yields_gets|]. case_decide; [by apply yields_ret|].
  apply scope_log_typed. apply (yields_bind _ node_typed); [by apply yields_gets|].
  intros n Hn. apply yields_for_each. intros p _. by apply heartbeat_to_typed.
Qed.
Hint Resolve send_heartbeats_typed : typed.

Lemma become_leader_typed : yields node_typed anything become_leader.
Proof.
  unfold become_leader. then_any; [eauto with typed|]. then_any; [untyped_field|].
  apply (yields_bind _ u64); [apply scope_log_typed, yields_gets; intros n Hn; apply log_last; eauto with typed|].
  intros i Hi. then_any; [by apply yields_gets|]. then_any; [|eauto with typed].
  apply yields_for_each. intros p _. apply next_match_typed; eauto with typed.
Qed.

Lemma notify_typed i : yields node_typed anything (notify_pending_requests i).
Proof.
  unfold notify_pending_requests. then_any; [by apply yields_gets|]. apply yields_for_each. intros j _.
  unfold notify_one. then_any; [by apply yields_gets|]. case_match; [|by apply yields_ret].
  then_any; [untyped_field|eauto with typed].
Qed.
Hint Resolve become_leader_typed notify_typed : typed.

Lemma advance_loop_typed t maj candidates : Forall u64 candidates ->
  yields node_typed anything (advance_loop t maj candidates).
Proof.
  induction 1 as [|i candidates Hi _ IH]; simpl; [by apply yields_ret|].
  then_any; [by apply yields_gets|]. case_decide; [done|].
  then_any; [by apply yields_gets|]. case_match; [|done].
  do 3 (then_any; [eauto with typed|]). eauto with typed.
Qed.

Lemma try_advance_typed : yields node_typed anything try_advance_commit_index.
Proof.
  unfold try_advance_commit_index. then_any; [by apply yields_gets|]. case_decide; [by apply yields_ret|].
  apply scope_log_typed. then_any; [by apply yields_gets|].
  apply (yields_bind _ u64); [apply yields_gets; intros n Hn; apply log_last; eauto with typed|].
  intros last Hlast. do 2 (then_any; [by apply yields_gets|]). apply advance_loop_typed.
  apply Forall_reverse, Forall_forall. intros i [_ Hi]%elem_of_range_inclusive. unfold u64 in *. lia.
Qed.
Hint Resolve try_advance_typed : typed.

Lemma append_entries_response_typed from resp : message_typed (AppendEntriesResp resp) ->
  yields node_typed anything (handle_append_entries_response from resp).
Proof.
  intros (Ht & Hi & _). unfold handle_append_entries_response. apply scope_log_typed.
  then_any; [by apply yields_gets|]. case_decide; [by apply yields_ret|].
  then_any; [by apply yields_gets|]. case_match; [by apply step_down_typed|]. case_match.
  - then_any; [apply yields_modify; intros ? []; split; simpl; try done;
      intros k i [[_ <-]|[_ ?]]%lookup_insert_Some; eauto|].
    then_any; [apply yields_modify; intros ? []; split; simpl; try done;
      intros k i [[_ <-]|[_ ?]]%lookup_insert_Some; eauto with typed|].
    then_any; eauto with typed.
  - apply yields_modify. intros ? []. split; simpl; try done. intros k i.
    rewrite lookup_alter_Some. intros [(_ & j & Hj & ->)|[_ ?]]; [|eauto].
    apply u64_max_typed; eauto with typed.
Qed.

Lemma vote_response_sent_typed to t v : u64 t -> yields node_typed anything (send_request_vote_response to t v).
Proof.
  intros Ht. unfold send_request_vote_response. then_any; [by apply yields_gets|].
  apply send_typed. split; [done|apply string_from_length].
Qed.
Hint Resolve vote_response_sent_typed : typed.

Lemma request_vote_typed from req : message_typed (RequestVote req) ->
  yields node_typed anything (handle_request_vote from req).
Proof.
  intros (Ht & _). unfold handle_request_vote. apply scope_log_typed.
  apply (yields_bind _ u64); [apply yields_gets; eauto with typed|]. intros current Hcur.
  case_match; [eauto with typed|]. then_any; [eauto with typed|]. then_any; [by apply yields_gets|].
  assert (forall v, yields node_typed anything
    (term <- gets node_term ;; send_request_vote_response from term v)%raft) as Hsend.
  { intros v. apply (yields_bind _ u64); [apply yields_gets; eauto with typed|]. eauto with typed. }
  case_match; [|apply Hsend]. then_any; [apply on_log_typed, typed_set_voted_for|].
  then_any; [eauto with typed|apply Hsend].
Qed.

Lemma request_vote_response_typed from resp : message_typed (RequestVoteResp resp) ->
  yields node_typed anything (handle_request_vote_response from resp).
Proof.
  intros (Ht & _). unfold handle_request_vote_response. apply scope_log_typed.
  then_any; [by apply yields_gets|]. case_decide; [by apply yields_ret|].
  then_any; [by apply yields_gets|]. case_match; [by apply step_down_typed|].
  apply yields_when. then_any; [apply yields_modify; intros n []; by case_decide|].
  do 2 (then_any; [by apply yields_gets|]). apply yields_when. then_any; eauto with typed.
Qed.

Lemma start_election_typed : yields node_typed anything start_election.
Proof.
  unfold start_election. apply scope_log_typed.
  apply (yields_bind _ u64); [apply yields_gets; eauto with typed|]. intros t Ht.
  then_any; [eauto with typed|]. then_any; [by apply yields_gets|].
  then_any; [apply on_log_typed, typed_set_voted_for|]. then_any; [eauto with typed|].
  then_any; [untyped_field|]. then_any; [eauto with typed|].
  apply (yields_bind _ log_typed); [apply yields_gets; eauto with typed|]. intros l Hl.
  then_any; [by apply yields_gets|]. then_any.
  - apply yields_for_each. intros p _. apply send_typed. simpl.
    split_and!; [done|apply string_from_length|by apply log_last|by apply last_term_typed].
  - apply yields_when. then_any; eauto with typed.
Qed.

Lemma propose_typed c tx : wf_command c -> yields node_typed anything (propose c tx).
Proof.
  intros Hc. unfold propose. then_any; [by apply yields_gets|]. case_decide.
  - then_any; [by apply yields_gets|eauto with typed].
  - apply (yields_bind _ u64).
    + apply scope_log_typed. apply (yields_bind _ u64); [apply yields_gets; eauto with typed|].
      intros t Ht. by apply on_log_typed, typed_append.
    + intros i Hi. then_any; [untyped_field|eauto with typed].
Qed.

Lemma add_peer_typed k a : yields node_typed anything (add_peer k a).
Proof.
  unfold add_peer. then_any.
  - apply yields_modify. intros n []. split; simpl; try done.
    intros k' p [[_ <-]|[_ ?]]%lookup_insert_Some; [|eauto]. split; apply string_from_length.
  - then_any; [by apply yields_gets|]. apply yields_when, scope_log_typed.
    apply (yields_bind _ u64); [apply yields_gets; intros n Hn; apply log_last; eauto with typed|].
    intros i Hi. apply next_match_typed; eauto with typed.
Qed.

Lemma remove_peer_typed k : yields node_typed anything (remove_peer k).
Proof.
  unfold remove_peer. repeat (then_any || apply yields_modify); intros n []; split; simpl; try done;
    intros k' v [_ ?]%lookup_delete_Some; eauto.
Qed.

Lemma run_event_typed ev : event_typed ev -> yields node_typed anything (run_event ev).
Proof.
  destruct ev as [[f t m]|timeout| |c tx|k a|k| ]; simpl; intros Hev.
  - destruct Hev as [_ _ Hm]. simpl in *. unfold handle_message.
    destruct m; simpl in *; try by apply yields_ret.
    + by apply append_entries_typed.
    + by apply append_entries_response_typed.
    + by apply request_vote_typed.
    + by apply request_vote_response_typed.
  - unfold election_tick. then_any; [by apply yields_gets|]. apply yields_when.
    then_any; [by apply yields_gets|]. apply yields_when, start_election_typed.
  - unfold heartbeat_tick. then_any; [by apply yields_gets|]. apply yields_when; eauto with typed.
  - by apply propose_typed.
  - apply add_peer_typed.
  - apply remove_peer_typed.
  - then_any; [|by apply yields_ret]. unfold get_status. apply scope_log_typed. by apply yields_gets.
Qed.

Lemma RaftNode_new_typed cfg dir now n : RaftNode_new cfg dir now = Ok n -> node_typed n.
Proof.
  unfold RaftNode_new. destruct (RaftLog_new _ _) as [l| | | |] eqn:Hl; intros Hn; simplify_eq.
  split; simpl; eauto using RaftLog_new_typed with typed.
  - split; simpl; [done|eauto with typed].
  - assert (forall m : gmap string PeerInfo, (forall k p, m !! k = Some p -> peer_typed p) ->
      forall k p, foldl (fun m peer => <[pc_id peer := PeerInfo_new (pc_id peer) (pc_address peer)]> m) m
        (cfg_peers cfg) !! k = Some p -> peer_typed p) as Hps; [|by apply Hps].
    induction (cfg_peers cfg) as [|peer ps IH]; intros m Hm; simpl; [done|]. apply IH.
    intros k p [[_ <-]|[_ ?]]%lookup_insert_Some; [split; apply string_from_length|eauto].
  - done.
  - done.
Qed.

Lemma restart_typed n io now n' : node_typed n -> restart n io now = Ok n' -> node_typed n'.
Proof.
  intros Hn. unfold restart. destruct (RaftNode_new _ _ _) as [n1| | | |] eqn:Hnew; intros Hn'; simplify_eq.
  apply RaftNode_new_typed in Hnew. destruct Hnew, Hn. by split.
Qed.

Lemma reachable_typed cfg n : node_reachable (fun _ => event_typed) cfg n -> node_typed n.
Proof.
  induction 1 as [io now n Hn|n n' _ IH Hstep]; [by eapply RaftNode_new_typed|].
  destruct Hstep as [n ev Hev|n now _|n n' io now Hrun].
  - by apply run_event_typed.
  - by destruct IH.
  - by eapply restart_typed.
Qed.
End typing.

(** ** A JSON reader that checks the ranges *)

Definition checked_json {A} (J : SerdeJson A) (ok : A -> bool) : SerdeJson A := {|
  to_string := @to_string A J;
  from_str s := a ← @from_str A J s; if ok a then Some a else None;
|}.

Definition entry_in_range (d : DiskLogEntry) : bool := (d_index d <=? u64_max) && (d_term d <=? u64_max).

Definition state_in_range (s : PersistentState) : bool :=
  (current_term s <=? u64_max) &&
  match voted_for s with Some v => (String.length v <=? ID_CAPACITY)%nat | None => true end.

Definition typed_env : Env := {|
  env_heapless := ref_heapless;
  env_json_entry := checked_json ref_json entry_in_range;
  env_json_state := checked_json ref_json state_in_range;
  env_hash_order := ref_hash_order;
  env_mutex := ref_mutex;
|}.

#[global] Instance typed_env_typed : EnvTyped typed_env.
Proof.
  split; [apply _|..]; simpl; intros s x (y & _ & Hx)%bind_Some; case_match eqn:Hok; simplify_eq;
    apply andb_true_iff in Hok as [H1%N.leb_le H2].
  - by apply N.leb_le in H2.
  - split; [done|]. intros v Hv. rewrite Hv in H2. by apply Nat.leb_le in H2.
Qed.

Lemma reachable_run {E : Env} cfg evs n : node_reachable (fun _ => event_typed) cfg n ->
  Forall event_typed evs -> node_reachable (fun _ => event_typed) cfg (run_events evs n).
Proof.
  intros Hn Hevs. revert n Hn. induction Hevs as [|ev evs Hev _ IH]; intros n Hn; [done|].
  apply IH. eapply reach_step; [exact Hn|by apply step_event].
Qed.

(** ** An example *)

(** A daemon elected and writing, whose third file operation fails. *)
Definition typed_config : Config := mkConfig (mkServer "n1" "0.0.0.0:5555" "/tmp" "debug")
  TimingConfig_default [mkPeerConfig "n2" "n2:5555"] (mkEbpf false "eth0").

Definition typed_run : RaftNode :=
  match @RaftNode_new typed_env typed_config (mkDir ∅ [IoOk; IoOk; IoOk; IoOk; IoErr (Some 3%nat)]) 0 with
  | Ok n => @run_events typed_env [ElectionTick 0;
      Deliver (mkEnvelope "n2" "n1" (RequestVoteResp (mkRequestVoteResponse 1 true "n2")));
      Propose (Put "k" [x61]) 1; Propose (Put "k" [x62]) 2] n
  | _ => sample three "node-01"
  end.

Lemma typed_run_reachable : @node_reachable typed_env (fun _ => event_typed) typed_config typed_run.
Proof.
  unfold typed_run. destruct (RaftNode_new _ _ _) as [n| | | |] eqn:Hn; [|by vm_compute in Hn..].
  apply reachable_run; [by eapply reach_start|].
  repeat constructor; apply N.leb_le || apply Nat.leb_le; vm_compute; reflexivity.
Qed.
