(* ===== verification/Deliverable.v ===== *)
(** * The messages of a daemon fit in their frames

    [handle_connection] gives a connection up when a frame announces more than
    [MAX_MESSAGE_SIZE] bytes; nothing on the sending side looks at the size.  The capacities
    of protocol.rs are what keeps it small: [serde_value] is what the derived [Serialize]
    hands to [serde_json], [value_size] bounds the compact JSON of a value, and the values a
    daemon sends are in their types (Typing.v). *)

From Stdlib Require Import Init.Byte.
From S2P Require Import Prelude Heapless Protocol Serde HashMap Log StateMachine Config Env.
From S2P Require Import Node Network NetworkProps Sample Daemon Ipc Typing.
Local Open Scope N_scope.

(** ** What is serialised *)

(** The values of the data model of serde that the types of protocol.rs come to. *)
Inductive value :=
  | VNull
  | VBool (b : bool)
  | VNum (x : N)
  | VStr (s : string)
  | VSeq (l : list value)
  | VMap (fields : list (string * value)).

Definition bytes_value (l : list byte) : value := VSeq ((fun b => VNum (Byte.to_N b)) <$> l).

Definition option_value {A} (f : A -> value) (o : option A) : value :=
  match o with Some a => f a | None => VNull end.

(** An enum is externally tagged: a unit variant is its name, the other ones an object of one field. *)
Definition command_value (c : Command) : value :=
  match c with
  | Put key value => VMap [("Put", VMap [("key", VStr key); ("value", bytes_value value)])]
  | Delete key => VMap [("Delete", VMap [("key", VStr key)])]
  | Noop => VStr "Noop"
  end.

Definition entry_value (e : LogEntry) : value :=
  VMap [("index", VNum (index e)); ("term", VNum (term e)); ("command", command_value (command e))].

Definition body_value (m : RaftMessage) : value :=
  match m with
  | AppendEntries r => VMap [("AppendEntries", VMap [("term", VNum (ae_term r)); ("leader_id", VStr (ae_leader_id r));
      ("prev_log_index", VNum (prev_log_index r)); ("prev_log_term", VNum (prev_log_term r));
      ("entries", VSeq (entry_value <$> ae_entries r)); ("leader_commit", VNum (leader_commit r))])]
  | AppendEntriesResp r => VMap [("AppendEntriesResponse", VMap [("term", VNum (aer_term r));
      ("success", VBool (success r)); ("last_log_index", VNum (aer_last_log_index r));
      ("node_id", VStr (aer_node_id r))])]
  | RequestVote r => VMap [("RequestVote", VMap [("term", VNum (rv_term r)); ("candidate_id", VStr (candidate_id r));
      ("last_log_index", VNum (rv_last_log_index r)); ("last_log_term", VNum (rv_last_log_term r))])]
  | RequestVoteResp r => VMap [("RequestVoteResponse", VMap [("term", VNum (rvr_term r));
      ("vote_granted", VBool (vote_granted r)); ("node_id", VStr (rvr_node_id r))])]
  | ClientReq r => VMap [("ClientRequest", VMap [("request_id", VNum (cr_request_id r));
      ("command", command_value (cr_command r))])]
  | ClientResp r => VMap [("ClientResponse", VMap [("success", VBool (cresp_success r));
      ("request_id", VNum (cresp_request_id r)); ("data", option_value bytes_value (cresp_data r));
      ("error", option_value VStr (cresp_error r)); ("leader_id", option_value VStr (cresp_leader_id r))])]
  end.

Definition serde_value (env : MessageEnvelope) : value :=
  VMap [("from", VStr (from env)); ("to", VStr (to env)); ("message", body_value (message env))].

(** ** The size of its JSON *)

(** Decimal digits: three for a byte, twenty for a [u64], at most one per bit otherwise. *)
Definition num_size (x : N) : N := if x <? 256 then 3 else if x <=? u64_max then 20 else N.size x.

(** Two quotes, and at most six bytes, a [\u] escape, for a byte of the text. *)
Definition str_size (s : string) : N := 2 + 6 * N.of_nat (String.length s).

(** A bound on the compact JSON of a value: the separators are counted with the elements. *)
Fixpoint value_size (v : value) : N :=
  match v with
  | VNull => 4
  | VBool _ => 5
  | VNum x => num_size x
  | VStr s => str_size s
  | VSeq l => 2 + foldr (fun v n => value_size v + 1 + n) 0 l
  | VMap fields => 2 + foldr (fun f n => str_size f.1 + 1 + value_size f.2 + 1 + n) 0 fields
  end.

(** [serde_json::to_vec] writes the compact form. *)
Class CompactJson (JM : JsonBytes MessageEnvelope) : Prop :=
  to_vec_size env bytes : to_vec env = Some bytes -> N.of_nat (length bytes) <= value_size (serde_value env).

(** ** The bound *)

Lemma num_size_u64 x : u64 x -> num_size x <= 20.
Proof. unfold u64, num_size. intros Hx%N.leb_le. rewrite Hx. case_match; lia. Qed.

Lemma str_size_fits cap s : Typing.fits cap s -> str_size s <= 2 + 6 * N.of_nat cap.
Proof. unfold Typing.fits, str_size. lia. Qed.

Lemma bytes_size l : value_size (bytes_value l) = 2 + 4 * N.of_nat (length l).
Proof.
  simpl. f_equal. induction l as [|b l IH]; [done|]. cbn [fmap list_fmap foldr length value_size].
  rewrite IH. unfold num_size. pose proof (Byte.to_N_bounded b) as Hb.
  assert (Byte.to_N b <? 256 = true) as -> by (apply N.ltb_lt; lia). lia.
Qed.

Lemma seq_size {A} (f : A -> value) (P : A -> Prop) bound l : (forall a, P a -> value_size (f a) <= bound) ->
  Forall P l -> value_size (VSeq (f <$> l)) <= 2 + (bound + 1) * N.of_nat (length l).
Proof.
  intros Hf Hl. cbn [value_size]. apply N.add_le_mono_l.
  induction Hl as [|a l Ha _ IH]; [simpl; lia|]. cbn [fmap list_fmap foldr length]. specialize (Hf a Ha). lia.
Qed.

Lemma option_size {A} (f : A -> value) bound o : 4 <= bound -> (forall a, o = Some a -> value_size (f a) <= bound) ->
  value_size (option_value f o) <= bound.
Proof. destruct o; simpl; auto. Qed.

Ltac literals :=
  repeat match goal with
  | |- context [str_size ?s] =>
      let x := eval vm_compute in (str_size s) in
      lazymatch x with Npos _ => change (str_size s) with x end
  end.

(** The sizes of the fields, from their types. *)
Ltac sizes :=
  repeat match goal with
  | H : u64 _ |- _ => apply num_size_u64 in H
  | H : Typing.fits _ _ |- _ => apply str_size_fits in H
  end;
  unfold MAX_KEY_SIZE, MAX_VALUE_SIZE, ID_CAPACITY in *; cbn [value_size foldr fst snd];
  rewrite ?bytes_size; literals; try lia.

Lemma command_size c : wf_command c -> value_size (command_value c) <= 5800.
Proof.
  destruct c as [k v|k|]; simpl command_value; [intros [Hk Hv]|intros Hk|done].
  - change (Typing.fits MAX_KEY_SIZE k) in Hk. sizes.
  - change (Typing.fits MAX_KEY_SIZE k) in Hk. sizes.
Qed.

Lemma entry_size e : entry_typed e -> value_size (entry_value e) <= 6000.
Proof. intros [Hi Ht Hc%command_size]. unfold entry_value. sizes. Qed.

Lemma entries_size l : (length l <= MAX_ENTRIES)%nat -> Forall entry_typed l ->
  value_size (VSeq (entry_value <$> l)) <= 385000.
Proof.
  intros Hlen Hl. pose proof (seq_size entry_value entry_typed 6000 l entry_size Hl). unfold MAX_ENTRIES in Hlen. lia.
Qed.

Lemma reply_size (d : option (list byte)) (e l : option string) :
  (forall v, d = Some v -> (length v <= MAX_VALUE_SIZE)%nat) -> (forall v, e = Some v -> Typing.fits 256 v) ->
  (forall v, l = Some v -> Typing.fits ID_CAPACITY v) ->
  value_size (option_value bytes_value d) <= 4200 /\ value_size (option_value VStr e) <= 1600 /\
  value_size (option_value VStr l) <= 400.
Proof.
  intros Hd He Hl. split_and!; apply option_size; try lia; intros v Hv.
  - specialize (Hd v Hv). rewrite bytes_size. unfold MAX_VALUE_SIZE in Hd. lia.
  - specialize (He v Hv). sizes.
  - specialize (Hl v Hv). sizes.
Qed.

Lemma message_size m : message_typed m -> value_size (body_value m) <= 390000.
Proof.
  destruct m as [r|r|r|r|r|r]; simpl message_typed; intros Hm; unfold body_value.
  - destruct Hm as (Ht & Hl & Hp & Hpt & Hlen & Hes & Hc). pose proof (entries_size _ Hlen Hes) as He.
    cbn [value_size] in He. sizes.
  - destruct Hm as (Ht & Hl & Hi). sizes.
  - destruct Hm as (Ht & Hl & Hi & Hit). sizes.
  - destruct Hm as (Ht & Hi). sizes.
  - destruct Hm as (Ht & Hc%command_size). sizes.
  - destruct Hm as (Ht & Hd & He & Hl). destruct (reply_size _ _ _ Hd He Hl) as (? & ? & ?). sizes.
Qed.

Lemma envelope_size env : envelope_typed env -> value_size (serde_value env) <= 400000.
Proof. intros [Hf Ht Hm%message_size]. unfold serde_value. sizes. Qed.

(** ** A reference printer *)

Definition escape (b : byte) : list byte :=
  if bool_decide (b = x22) || bool_decide (b = x5c) then [x5c; b]
  else if Byte.to_N b <? 32 then
    let hex d := low_byte (if d <? 10 then 48 + d else 87 + d) in
    [x5c; x75; x30; x30; hex (Byte.to_N b / 16); hex (Byte.to_N b mod 16)]
  else [b].

Definition quote (s : string) : list byte :=
  x22 :: concat (escape <$> String.list_byte_of_string s) ++ [x22].

Fixpoint digits (fuel : nat) (x : N) : list byte :=
  match fuel with
  | O => []
  | S fuel => (if x <? 10 then [] else digits fuel (x / 10)) ++ [low_byte (48 + x mod 10)]
  end.

Fixpoint comma_separated (l : list (list byte)) : list byte :=
  match l with
  | [] => []
  | [text] => text
  | text :: l => text ++ x2c :: comma_separated l
  end.

Fixpoint compact (v : value) : list byte :=
  match v with
  | VNull => String.list_byte_of_string "null"
  | VBool b => String.list_byte_of_string (if b then "true" else "false")
  | VNum x => digits (N.to_nat (num_size x)) x
  | VStr s => quote s
  | VSeq l => x5b :: comma_separated (compact <$> l) ++ [x5d]
  | VMap fields => x7b :: comma_separated ((fun f => quote f.1 ++ x3a :: compact f.2) <$> fields) ++ [x7d]
  end.

(** No reader is needed here. *)
Definition compact_bytes : JsonBytes MessageEnvelope :=
  {| to_vec env := Some (compact (serde_value env)); from_slice _ := None |}.

Lemma length_digits fuel x : (length (digits fuel x) <= fuel)%nat.
Proof.
  revert x. induction fuel as [|fuel IH]; intros x; [done|]. simpl. rewrite length_app. simpl.
  case_match; simpl; [lia|]. specialize (IH (x / 10)). lia.
Qed.

Lemma length_quote s : N.of_nat (length (quote s)) <= str_size s.
Proof.
  unfold quote, str_size. simpl. rewrite length_app. simpl.
  assert (length (concat (escape <$> String.list_byte_of_string s)) <= 6 * String.length s)%nat; [|lia].
  induction s as [|c s IH]; [done|].
  change (concat _) with (escape (Ascii.byte_of_ascii c) ++ concat (escape <$> String.list_byte_of_string s)).
  rewrite length_app. cbn [String.length].
  assert (length (escape (Ascii.byte_of_ascii c)) <= 6)%nat by (unfold escape; repeat case_match; simpl; lia). lia.
Qed.

Lemma length_comma_separated l : (length (comma_separated l) <= foldr (fun text n => length text + 1 + n) 0 l)%nat.
Proof. induction l as [|a [|b l] IH]; simpl in *; [done|lia|]. rewrite length_app. simpl. lia. Qed.

Lemma bracketed_size o c l bound : N.of_nat (foldr (fun text n => length text + 1 + n)%nat 0%nat l) <= bound ->
  N.of_nat (length (o :: comma_separated l ++ [c])) <= 2 + bound.
Proof. pose proof (length_comma_separated l). cbn [length]. rewrite length_app. cbn [length]. lia. Qed.

Lemma compact_size : forall v, N.of_nat (length (compact v)) <= value_size v.
Proof.
  fix IH 1. intros [| [] |x|s|l|fields]; cbn [compact value_size].
  1-3: done.
  - pose proof (length_digits (N.to_nat (num_size x)) x). lia.
  - apply length_quote.
  - apply bracketed_size. induction l as [|v l IHl]; [done|]. cbn [fmap list_fmap foldr].
    specialize (IH v). lia.
  - apply bracketed_size. induction fields as [|[name v] fields IHf]; [done|]. cbn [fmap list_fmap foldr fst snd].
    rewrite length_app. cbn [length]. specialize (IH v). pose proof (length_quote name). lia.
Qed.

#[global] Instance compact_bytes_size : @CompactJson compact_bytes.
Proof. intros env bytes Hb. injection Hb as <-. exact (compact_size (serde_value env)). Qed.

(** ** Properties *)

(** C36: No message a daemon sends is too large for its receiver: whatever the daemon did and
    whatever its files do, given messages and commands within the capacities of their types, the
    JSON of each message it has sent has at most [MAX_MESSAGE_SIZE] bytes, so that
    [handle_connection], on any number of these messages and whatever pieces their bytes arrive
    in, never gives the connection up for a frame and hands every payload on, in order. The
    capacities of protocol.rs, and the 64 entries of a heartbeat, are what keeps them small; the
    JSON is in the compact form of serde_json. *)
Theorem sent_messages_arrive {E : Env} {ET : EnvTyped E} {JM : JsonBytes MessageEnvelope} {CJ : CompactJson JM}
    cfg n envs payloads pieces receiver : node_reachable (fun _ => event_typed) cfg n ->
  Forall (fun env => env ∈ outgoing n) envs -> Forall2 (fun env p => to_vec env = Some p) envs payloads ->
  concat pieces = stream_of payloads -> Forall (fun piece => piece <> []) pieces ->
  Forall (fun p => N.of_nat (length p) <= MAX_MESSAGE_SIZE) payloads /\
  handle_connection (Received <$> pieces) receiver = for_each payloads handle_payload receiver.
Proof.
  intros Hn Hout Hp Hcat Hne. assert (Forall NetworkProps.fits payloads) as Hfits.
  { apply reachable_typed in Hn as [_ _ _ _ _ _ _ Hsent]. rewrite Forall_forall in Hsent. clear Hcat.
    induction Hp as [|env p envs payloads Hvec _ IH]; [done|]. apply Forall_cons in Hout as [Hin Hout].
    constructor; [|by apply IH]. pose proof (envelope_size env (Hsent env Hin)).
    pose proof (to_vec_size env p Hvec). unfold NetworkProps.fits, MAX_MESSAGE_SIZE. lia. }
  split; [done|]. apply connection_stream; [done| |done|done]. destruct payloads; simpl; [done|lia].
Qed.

(** What the leader [n1] sends, with an entry, arrives in pieces of five bytes. *)
Fixpoint cut_in (k : nat) (fuel : nat) (l : list byte) : list (list byte) :=
  match fuel, l with
  | S fuel, _ :: _ => take k l :: cut_in k fuel (drop k l)
  | _, _ => []
  end.

Definition typed_payloads : list (list byte) := (fun env => compact (serde_value env)) <$> outgoing typed_run.

Lemma sent_messages_arrive_witness :
  let stream := stream_of typed_payloads in let pieces := cut_in 5 (length stream) stream in
  length pieces <> 0%nat /\ forall receiver,
  @handle_connection typed_env compact_bytes (Received <$> pieces) receiver =
    for_each typed_payloads (@handle_payload typed_env compact_bytes) receiver.
Proof.
  intros stream pieces. split; [by vm_compute|]. intros receiver.
  apply (@sent_messages_arrive typed_env _ compact_bytes _ typed_config typed_run (outgoing typed_run)).
  - apply typed_run_reachable.
  - by apply Forall_forall.
  - unfold typed_payloads. apply Forall2_fmap_r, Forall_Forall2_diag, Forall_forall. done.
  - vm_compute. reflexivity.
  - assert (forallb (fun piece => negb (bool_decide (piece = []))) pieces = true) as Hall by (vm_compute; reflexivity).
    apply Forall_forall. intros piece Hin%list_elem_of_In Hnil. rewrite forallb_forall in Hall.
    apply Hall in Hin. by rewrite bool_decide_true in Hin.
Defined.
