(* ===== verification/Votes.v ===== *)
(** * Voting: a node never votes for two candidates in one term

    [ballots] are the votes a node has let out: the vote in each [RequestVote] it sent for
    itself and each granted [RequestVoteResponse].  The invariant [vote_inv] ties them to
    the persistent state in memory and to the one a restart would read, through every
    step of the daemon, the failing file operations and the crashes included. *)

From S2P Require Import Prelude Heapless Protocol Serde HashMap Log LogFacts StateMachine.
From S2P Require Import Config Env Node NodeFacts Sample Daemon.
Local Open Scope N_scope.

(** The vote an envelope carries: its term and the candidate. *)
Definition ballot_of (env : MessageEnvelope) : option (N * string) :=
  match message env with
  | RequestVote req => Some (rv_term req, candidate_id req)
  | RequestVoteResp resp => if vote_granted resp then Some (rvr_term resp, to env) else None
  | _ => None
  end.

Definition ballots (sent : list MessageEnvelope) : list (N * string) := omap ballot_of sent.

(** What a run assumes: a vote request comes from its candidate (as [start_election] sends
    it) whose identifier fits its field, and the term has not reached the largest [u64]
    when an election starts. *)
Definition honest_vote (n : RaftNode) (ev : event) : Prop :=
  match ev with
  | Deliver env =>
      match message env with
      | RequestVote req => from env = candidate_id req /\
          (String.length (candidate_id req) <= ID_CAPACITY)%nat
      | _ => True
      end
  | ElectionTick _ => node_term n < u64_max
  | _ => True
  end.

(** The ballots [bs] are of past terms, or agree with the vote recorded for this one. *)
Definition recorded (p : PersistentState) (bs : list (N * string)) : Prop :=
  forall t c, (t, c) ∈ bs -> t < current_term p \/ t = current_term p /\ voted_for p = Some c.

Definition single_ballot (bs : list (N * string)) : Prop :=
  forall t c1 c2, (t, c1) ∈ bs -> (t, c2) ∈ bs -> c1 = c2.

Lemma recorded_newer p p' bs : current_term p < current_term p' -> recorded p bs -> recorded p' bs.
Proof. intros Ht Hr t c Hin. destruct (Hr t c Hin) as [|[]]; left; lia. Qed.

Lemma recorded_vote p c bs : voted_for p = None \/ voted_for p = Some c -> recorded p bs ->
  recorded (mkPersistent (current_term p) (Some c)) bs.
Proof.
  intros Hv Hr t c' Hin. destruct (Hr t c' Hin) as [|[-> Hc]]; simpl; [by left|right].
  destruct Hv; split; congruence.
Qed.

Lemma recorded_snoc p bs t c : recorded p bs -> t = current_term p -> voted_for p = Some c ->
  recorded p (bs ++ [(t, c)]).
Proof.
  intros Hr -> Hc t' c' [Hin|Hin]%elem_of_app; [by apply Hr|].
  apply list_elem_of_singleton in Hin. simplify_eq. by right.
Qed.

Lemma single_ballot_snoc p bs t c : recorded p bs -> single_ballot bs -> t = current_term p ->
  voted_for p = Some c -> single_ballot (bs ++ [(t, c)]).
Proof.
  intros Hr Hs -> Hc t' c1 c2 H1 H2.
  assert (forall c', (t', c') ∈ bs ++ [(current_term p, c)] ->
    (t', c') ∈ bs \/ t' = current_term p /\ c' = c) as Hcase.
  { intros c' [|Hin]%elem_of_app; [by left|].
    apply list_elem_of_singleton in Hin. simplify_eq. by right. }
  destruct (Hcase _ H1) as [H1'|[-> ->]], (Hcase _ H2) as [H2'|[? ->]]; subst; try done.
  - by eapply Hs.
  - destruct (Hr _ _ H1') as [|[_ ?]]; [lia|congruence].
  - destruct (Hr _ _ H2') as [|[_ ?]]; [lia|congruence].
Qed.

(** ** What the methods of the log do to the persistent state *)

Definition state_file (l : RaftLog) : option string := files (disk l) !! state_path.

(** The persistent state is the same, in memory and on disk. *)
Definition same_state (l l' : RaftLog) : Prop :=
  persistent_state l = persistent_state l' /\ state_file l = state_file l'.

#[export] Instance same_state_preorder : PreOrder same_state.
Proof.
  split; [done|]. intros ? ? ? [H1 H2] [H3 H4]. unfold same_state. by rewrite H1, H2.
Qed.

Section log_votes.
Context {E : Env} {EL : EnvLaws E}.

Ltac log_steps :=
  run_steps; try (split; [done|unfold state_file; simpl; repeat case_decide];
    by rewrite ?lookup_partial_alter_ne, ?lookup_insert_ne, ?lookup_delete_ne by done).

Lemma same_next_io : steps_in same_state next_io.
Proof. intros l. unfold next_io. by destruct (io (disk l)). Qed.
Hint Resolve same_next_io : raft.

Lemma same_io_call : steps_in same_state io_call.
Proof. unfold io_call. log_steps. Qed.
Hint Resolve same_io_call : raft.

Lemma same_set_file name text : name <> state_path -> steps_in same_state (set_file name text).
Proof. intros Hn. unfold set_file. log_steps. Qed.
Hint Resolve same_set_file : raft.

Lemma same_file_append name text : name <> state_path -> steps_in same_state (file_append name text).
Proof. intros Hn. unfold file_append. log_steps. Qed.
Hint Resolve same_file_append : raft.

Lemma log_path_ne : log_path <> state_path. Proof. done. Qed.
Lemma temp_path_ne : temp_path <> state_path. Proof. done. Qed.
Hint Resolve log_path_ne temp_path_ne : raft.

Lemma same_open_append : steps_in same_state open_append.
Proof. unfold open_append. log_steps. Qed.
Hint Resolve same_open_append : raft.

Lemma same_rename_temp : steps_in same_state rename_temp.
Proof. unfold rename_temp. log_steps. Qed.
Hint Resolve same_rename_temp : raft.

Lemma same_write_entry e : steps_in same_state (write_entry e).
Proof. unfold write_entry, handle_writeln. log_steps. Qed.
Hint Resolve same_write_entry : raft.

Lemma same_flush_file : steps_in same_state flush_file.
Proof. unfold flush_file, flush. log_steps. Qed.
Hint Resolve same_flush_file : raft.

Lemma same_append t c : steps_in same_state (append t c).
Proof. unfold append. log_steps. Qed.

Lemma same_append_entries new : steps_in same_state (append_entries new).
Proof.
  unfold append_entries. log_steps. apply steps_in_for_each; [apply _|]. intros e.
  unfold append_entry. log_steps; done.
Qed.
Hint Resolve same_append_entries : raft.

Lemma same_truncate_from i : steps_in same_state (truncate_from i).
Proof.
  unfold truncate_from, flush. log_steps.
  apply steps_in_for_each; [apply _|]. intros k. unfold rewrite_entry. log_steps.
Qed.
Hint Resolve same_truncate_from : raft.

Lemma same_store_entries new : steps_in same_state (store_entries new).
Proof.
  unfold store_entries. log_steps. induction new as [|e new IH]; simpl; log_steps.
Qed.

(** A save leaves in the file the old state, the new one, or nothing readable; when it
    succeeds, the new one. *)
Definition saved (l l' : RaftLog) (ok : Prop) : Prop :=
  (load_state (files (disk l')) = load_state (files (disk l)) \/
   load_state (files (disk l')) = None \/
   load_state (files (disk l')) = Some (persistent_state l')) /\
  (ok -> load_state (files (disk l')) = Some (persistent_state l')).

Lemma string_take_prefix k s : string_take k s = s \/ strict_prefix (string_take k s) s.
Proof.
  revert s. induction k as [|k IH]; intros [|c s]; simpl; [by left| |by left|].
  - right. by exists (String c s).
  - destruct (IH s) as [->|(t & Ht & Heq)]; [by left|right].
    exists t. split; [done|]. by apply (f_equal (String c)) in Heq.
Qed.

Lemma next_io_files l : files (disk (next_io l).2) = files (disk l) /\
  persistent_state (next_io l).2 = persistent_state l.
Proof. unfold next_io. by destruct (io (disk l)). Qed.

Lemma save_state_saved l : exists o l', save_state l = (o, l') /\
  persistent_state l' = persistent_state l /\ saved l l' (o = Ok tt) /\
  (o = Ok tt \/ exists e, o = Err e).
Proof.
  unfold save_state. rewrite bind_gets.
  destruct (json_total (persistent_state l)) as [text Htext].
  pose proof (json_from_to _ _ Htext) as Hfrom. rewrite Htext, bind_from_Some.
  pose proof (next_io_files l) as [Hf Hp]. unfold fs_write, bind.
  destruct (next_io l) as [o l1] eqn:Eio; simpl in Hf, Hp.
  assert (exists r, o = Ok r) as [r ->].
  { unfold next_io in Eio. destruct (io (disk l)); simplify_eq; eauto. }
  unfold saved, load_state, set_file, modify, fail.
  destruct r as [|[k|]]; do 2 eexists; (split; [reflexivity|]); simpl; rewrite ?Hp, ?Hf.
  - rewrite lookup_insert_eq. split_and!; auto.
  - rewrite lookup_insert_eq.
    destruct (string_take_prefix k text) as [->|Hpre].
    + split_and!; eauto; done.
    + rewrite (json_truncated _ _ _ Htext Hpre). split_and!; eauto; done.
  - split_and!; eauto; done.
Qed.
End log_votes.

(** ** The programs that neither vote nor change the term *)

Definition same_votes (n n' : RaftNode) : Prop :=
  same_state (log n) (log n') /\ ballots (outgoing n) = ballots (outgoing n').

#[export] Instance same_votes_preorder : PreOrder same_votes.
Proof.
  split; [done|]. intros ? ? ? [H1 H2] [H3 H4].
  split; [by etransitivity|by rewrite H2].
Qed.

Section node_votes.
Context {E : Env} {EL : EnvLaws E}.

Lemma same_votes_guard n b : same_votes n (with_log_guard b n).
Proof. done. Qed.
Hint Resolve same_votes_guard : raft.

Lemma same_votes_on_log {A} (m : M RaftLog A) : steps_in same_state m -> steps_in same_votes (on_log m).
Proof. intros Hm. eapply steps_in_on_log; [exact Hm|]. by split. Qed.
Hint Resolve same_votes_on_log same_append same_store_entries : raft.

Lemma same_votes_send env : ballot_of env = None -> steps_in same_votes (send env).
Proof.
  intros Henv. apply steps_in_modify. intros n. split; [done|].
  unfold ballots. simpl. rewrite omap_app. simpl. by rewrite Henv, app_nil_r.
Qed.

Ltac vote_steps := node_steps; try done; try (by apply same_votes_send).

Lemma same_votes_apply_loop fuel commit : steps_in same_votes (apply_loop fuel commit).
Proof. induction fuel; simpl; unfold apply_entry; vote_steps. Qed.
Hint Resolve same_votes_apply_loop : raft.

Lemma same_votes_apply : steps_in same_votes apply_committed_entries.
Proof. unfold apply_committed_entries. vote_steps. Qed.
Hint Resolve same_votes_apply : raft.

Lemma same_votes_append_response to t b : steps_in same_votes (send_append_entries_response to t b).
Proof. unfold send_append_entries_response. vote_steps. Qed.

Lemma same_votes_refuse to t : steps_in same_votes (send_request_vote_response to t false).
Proof. unfold send_request_vote_response. vote_steps. Qed.

Lemma same_votes_heartbeats : steps_in same_votes send_heartbeats.
Proof.
  unfold send_heartbeats, heartbeat_to. vote_steps.
Qed.
Hint Resolve same_votes_heartbeats : raft.

Lemma same_votes_become_leader : steps_in same_votes become_leader.
Proof.
  unfold become_leader, set_role, init_peer. vote_steps.
Qed.

Lemma same_votes_notify i : steps_in same_votes (notify_pending_requests i).
Proof.
  unfold notify_pending_requests, notify_one, respond. vote_steps.
Qed.
Hint Resolve same_votes_notify : raft.

Lemma same_votes_advance t m ns : steps_in same_votes (advance_loop t m ns).
Proof. induction ns; simpl; vote_steps. Qed.
Hint Resolve same_votes_advance : raft.

Lemma same_votes_try_advance : steps_in same_votes try_advance_commit_index.
Proof. unfold try_advance_commit_index. vote_steps. Qed.
Hint Resolve same_votes_try_advance : raft.

Lemma same_votes_update_commit i : steps_in same_votes (update_commit_index i).
Proof. unfold update_commit_index, when. vote_steps. Qed.
Hint Resolve same_votes_update_commit same_votes_append_response : raft.

Lemma same_votes_propose c tx : steps_in same_votes (propose c tx).
Proof. unfold propose, respond. vote_steps. Qed.

Lemma same_votes_add_peer i a : steps_in same_votes (add_peer i a).
Proof. unfold add_peer, when. vote_steps. Qed.

Lemma same_votes_remove_peer i : steps_in same_votes (remove_peer i).
Proof. unfold remove_peer. vote_steps. Qed.

Lemma same_votes_get_status : steps_in same_votes get_status.
Proof. unfold get_status. vote_steps. Qed.

(** ** The invariant, and the programs that vote *)

Definition bs (n : RaftNode) : list (N * string) := ballots (outgoing n).

(** What the disk holds agrees with the ballots, if a restart can read it. *)
Definition disk_recorded (n : RaftNode) : Prop :=
  forall p, load_state (files (disk (log n))) = Some p -> recorded p (bs n).

Record vote_inv (n : RaftNode) : Prop := {
  vote_memory : recorded (persistent_state (log n)) (bs n);
  vote_disk : disk_recorded n;
  vote_single : single_ballot (bs n);
}.

(** The vote of this term is [c], and it is on disk. *)
Definition voted (c : string) (n : RaftNode) : Prop :=
  voted_for (persistent_state (log n)) = Some c /\
  load_state (files (disk (log n))) = Some (persistent_state (log n)).

Lemma load_state_same l l' : state_file l = state_file l' ->
  load_state (files (disk l)) = load_state (files (disk l')).
Proof. unfold load_state, state_file. by intros ->. Qed.

Lemma same_votes_inv n n' : same_votes n n' -> vote_inv n -> vote_inv n'.
Proof.
  intros [[Hp Hf] Hb] [Hm Hd Hs]. unfold disk_recorded, bs in *.
  split; unfold disk_recorded, bs; rewrite <-Hb; [by rewrite <-Hp| |done].
  by rewrite <-(load_state_same _ _ Hf).
Qed.

Lemma same_votes_voted c n n' : same_votes n n' -> voted c n -> voted c n'.
Proof.
  intros [[Hp Hf] Hb] [Hv Hl]. split; [by rewrite <-Hp|].
  by rewrite <-Hp, <-(load_state_same _ _ Hf).
Qed.

Lemma keeps_same {A} (m : M RaftNode A) : steps_in same_votes m -> steps_in (keeps vote_inv) m.
Proof. apply steps_in_mono. intros s s' Hs Hi. by eapply same_votes_inv. Qed.
Hint Resolve keeps_same : raft.
Hint Resolve same_votes_apply same_votes_append_response same_votes_refuse same_votes_heartbeats
  same_votes_become_leader same_votes_try_advance same_votes_propose same_votes_add_peer
  same_votes_remove_peer same_votes_get_status same_votes_update_commit : raft.

(** Changing the persistent state and saving it keeps the invariant when the new state
    still records the ballots. *)
Lemma saved_vote_inv n f : (forall p, recorded p (bs n) -> p = persistent_state (log n) ->
    recorded (f p) (bs n)) -> vote_inv n ->
  forall o n', on_log (modify (fun l => with_persistent_state (f (persistent_state l)) l) ;;; save_state)%raft n
    = (o, n') -> vote_inv n' /\ bs n' = bs n /\ (o = Ok tt \/ exists e, o = Err e) /\
    persistent_state (log n') = f (persistent_state (log n)) /\
    (o = Ok tt -> load_state (files (disk (log n'))) = Some (persistent_state (log n'))).
Proof.
  intros Hf [Hm Hd Hs] o n'. unfold on_log, zoom. rewrite bind_modify.
  destruct (save_state_saved (with_persistent_state (f (persistent_state (log n))) (log n)))
    as (o' & l' & -> & Hp & [Hcases Hok] & Ho). intros [= <- <-]. simpl in *.
  split_and!; try done. split; unfold disk_recorded, bs; simpl; [|intros p Hl|done].
  - rewrite Hp. by apply Hf.
  - destruct Hcases as [Heq|[Heq|Heq]]; rewrite Heq in Hl; simplify_eq.
    + by apply Hd.
    + rewrite Hp. by apply Hf.
Qed.

Lemma set_term_inv n t : node_term n < t -> vote_inv n ->
  forall o n', on_log (set_current_term t) n = (o, n') ->
    vote_inv n' /\ bs n' = bs n /\ (o = Ok tt \/ exists e, o = Err e) /\
    persistent_state (log n') = mkPersistent t None.
Proof.
  intros Ht Hinv o n' Hrun.
  destruct (saved_vote_inv n (fun _ => mkPersistent t None)) with (o := o) (n' := n')
    as (? & ? & ? & ? & _); try done.
  intros p Hr ->. eapply recorded_newer; [|done]. done.
Qed.

Lemma set_vote_inv n c : voted_for (persistent_state (log n)) = None \/
    voted_for (persistent_state (log n)) = Some (string_from ID_CAPACITY c) -> vote_inv n ->
  forall o n', on_log (set_voted_for (Some c)) n = (o, n') ->
    vote_inv n' /\ bs n' = bs n /\ (o = Ok tt \/ exists e, o = Err e) /\
    current_term (persistent_state (log n')) = current_term (persistent_state (log n)) /\
    (o = Ok tt -> voted (string_from ID_CAPACITY c) n').
Proof.
  intros Hv Hinv o n' Hrun.
  destruct (saved_vote_inv n (fun p => mkPersistent (current_term p) (Some (string_from ID_CAPACITY c))))
    with (o := o) (n' := n') as (? & ? & ? & Hp & Hok); try done.
  - intros p Hr ->. by apply recorded_vote.
  - split_and!; try done; [by rewrite Hp|]. intros ->. split; [by rewrite Hp|auto].
Qed.

(** Sending the recorded vote keeps the invariant. *)
Lemma send_ballot_inv env c n : ballot_of env = Some (node_term n, c) -> voted c n -> vote_inv n ->
  vote_inv (send env n).2 /\ voted c (send env n).2.
Proof.
  intros Henv [Hv Hl] [Hm Hd Hs]. split; [|done].
  assert (bs (send env n).2 = bs n ++ [(node_term n, c)]) as Hbs.
  { unfold bs, ballots. simpl. rewrite omap_app. simpl. by rewrite Henv. }
  split; unfold disk_recorded; rewrite Hbs; simpl.
  - by apply recorded_snoc.
  - rewrite Hl. intros p [= <-]. by apply recorded_snoc.
  - by eapply single_ballot_snoc.
Qed.

(** ** The handlers *)

Lemma vote_inv_guard n b : vote_inv n -> vote_inv (with_log_guard b n).
Proof. by apply same_votes_inv. Qed.

Ltac keep_steps :=
  repeat first
    [ progress node_steps
    | solve [apply keeps_same; node_steps; done] ].

Lemma raise_term_inv n t : vote_inv n ->
  vote_inv (when (node_term n <? t) (on_log (set_current_term t) ;;; set_role Follower)%raft n).2.
Proof.
  intros Hinv. unfold when. case_match eqn:Ht; [|done]. apply N.ltb_lt in Ht.
  apply (keeps_bind_at vote_inv).
  - destruct (on_log _ n) as [o n1] eqn:Hrun. by destruct (set_term_inv _ _ Ht Hinv _ _ Hrun).
  - intros _. by apply keeps_same, steps_in_modify.
Qed.

Lemma handle_append_entries_votes from req : steps_in (keeps vote_inv) (handle_append_entries from req).
Proof.
  intros n Hinv. apply (keeps_scope_at vote_inv); [apply vote_inv_guard|done|]. rewrite bind_gets.
  case_match.
  { by apply (keeps_same _ (same_votes_append_response _ _ _)), vote_inv_guard. }
  apply (keeps_bind_at vote_inv); [by apply raise_term_inv, vote_inv_guard|]. intros _.
  apply keeps_same. unfold reset_heartbeat, when. node_steps; done.
Qed.

Lemma step_down_votes n t : node_term n < t -> vote_inv n ->
  vote_inv ((drop_log ;;; lock_log ;;; on_log (set_current_term t) ;;; set_role Follower)%raft n).2.
Proof.
  intros Ht Hinv. unfold drop_log. rewrite bind_modify. apply (keeps_bind_run vote_inv).
  intros o n1 Hlock. unfold lock_log in Hlock. case_match; simplify_eq.
  - split; [by do 2 apply vote_inv_guard|]. intros _ _. apply (keeps_bind_at vote_inv).
    + destruct (on_log _ _) as [o n1] eqn:Hrun. eapply set_term_inv in Hrun as [? _]; [done..|].
      by do 2 apply vote_inv_guard.
    + intros _. by apply keeps_same, steps_in_modify.
  - split; [by apply vote_inv_guard|done].
Qed.

Lemma handle_append_entries_response_votes from resp :
  steps_in (keeps vote_inv) (handle_append_entries_response from resp).
Proof.
  intros n Hinv. apply (keeps_scope_at vote_inv); [apply vote_inv_guard|done|]. rewrite bind_gets.
  case_decide; [by apply vote_inv_guard|]. rewrite bind_gets. case_match eqn:Ht.
  { apply step_down_votes; [by apply N.ltb_lt|by apply vote_inv_guard]. }
  revert Hinv. apply (same_votes_inv n). etransitivity; [apply same_votes_guard|].
  apply (steps_in_mono same_votes same_votes); [done|]. node_steps; done.
Qed.

Lemma handle_request_vote_votes env req : from env = candidate_id req ->
  (String.length (candidate_id req) <= ID_CAPACITY)%nat ->
  steps_in (keeps vote_inv) (handle_request_vote (from env) req).
Proof.
  intros Hfrom Hlen n Hinv. apply (keeps_scope_at vote_inv); [apply vote_inv_guard|done|].
  rewrite bind_gets. case_match.
  { by apply (keeps_same _ (same_votes_refuse _ _)), vote_inv_guard. }
  apply (keeps_bind_at vote_inv); [by apply raise_term_inv, vote_inv_guard|]. clear n Hinv H.
  intros _ n Hinv. rewrite bind_gets. case_match eqn:Hcan.
  2: { clear Hcan. revert n Hinv. change (steps_in (keeps vote_inv)
         (term <- gets node_term ;; send_request_vote_response (from env) term false)%raft).
       apply keeps_same. node_steps. }
  apply andb_prop in Hcan as [Hcan _]. unfold can_vote in Hcan. apply bool_decide_eq_true in Hcan.
  assert (string_from ID_CAPACITY (candidate_id req) = candidate_id req) as Hc
    by by apply string_from_fits.
  apply (keeps_bind_run vote_inv). intros o n1 Hrun.
  destruct (set_vote_inv n (candidate_id req)) with (o := o) (n' := n1)
    as (Hinv1 & _ & _ & _ & Hvoted); [by rewrite Hc|done..|].
  split; [done|]. intros a ->. destruct a. specialize (Hvoted eq_refl). rewrite Hc in Hvoted.
  unfold reset_heartbeat. rewrite bind_modify, bind_gets.
  unfold send_request_vote_response. rewrite bind_gets.
  eapply send_ballot_inv; [|by apply (same_votes_voted _ n1)|by apply (same_votes_inv n1)].
  unfold ballot_of. simpl. by rewrite Hfrom, Hc.
Qed.

Lemma handle_request_vote_response_votes from resp :
  steps_in (keeps vote_inv) (handle_request_vote_response from resp).
Proof.
  intros n Hinv. apply (keeps_scope_at vote_inv); [apply vote_inv_guard|done|]. rewrite bind_gets.
  case_decide; [by apply vote_inv_guard|]. rewrite bind_gets. case_match eqn:Ht.
  { apply step_down_votes; [by apply N.ltb_lt|by apply vote_inv_guard]. }
  revert Hinv. apply (same_votes_inv n). etransitivity; [apply same_votes_guard|].
  apply (steps_in_mono same_votes same_votes); [done|]. unfold when. node_steps; try done.
  by case_decide.
Qed.

Lemma request_votes_inv c (req : RequestVoteRequest) me ps n :
  candidate_id req = c -> node_term n = rv_term req -> voted c n -> vote_inv n ->
  vote_inv (for_each ps (fun peer => send (MessageEnvelope_new me peer (RequestVote req))) n).2.
Proof.
  intros Hc Hterm. revert n Hterm. induction ps as [|p ps IH]; intros n Hterm Hv Hinv; [done|].
  simpl. destruct (send_ballot_inv (MessageEnvelope_new me p (RequestVote req)) c n)
    as [Hinv1 Hv1]; [unfold ballot_of; simpl; by rewrite Hterm, Hc|done..|].
  unfold send in *. rewrite bind_modify. by apply IH.
Qed.

(** An election, whatever comes after the requests. *)
Definition campaign_with {A} (k : list string -> M RaftNode A) : M RaftNode A := scope_log (
  new_term <- gets (fun n => u64_add (node_term n) 1) ;;
  on_log (set_current_term new_term) ;;;
  me <- gets node_id ;;
  on_log (set_voted_for (Some me)) ;;;
  set_role Candidate ;;;
  modify (with_votes_received [me]) ;;;
  reset_heartbeat ;;;
  l <- gets log ;;
  let request := mkRequestVote new_term (string_from ID_CAPACITY me) (last_index l) (last_term l) in
  ps <- gets (fun n => hash_keys (peers n)) ;;
  for_each ps (fun peer => send (MessageEnvelope_new me peer (RequestVote request))) ;;;
  k ps)%raft.

Lemma campaign_votes {A} (k : list string -> M RaftNode A) n :
  (forall ps, steps_in (keeps vote_inv) (k ps)) -> node_term n < u64_max -> vote_inv n ->
  vote_inv (campaign_with k n).2.
Proof.
  intros Hk Hmax Hinv. apply (keeps_scope_at vote_inv); [apply vote_inv_guard|done|]. rewrite bind_gets.
  set (t := u64_add _ 1). assert (t = node_term n + 1) as Ht by (by apply u64_add_small; lia).
  apply (keeps_bind_run vote_inv). intros o n1 Hrun.
  destruct (set_term_inv (with_log_guard true n) t) with (o := o) (n' := n1)
    as (Hinv1 & _ & _ & Hp1); [simpl; rewrite Ht; unfold node_term; simpl; lia|by apply vote_inv_guard|done|].
  split; [done|]. intros _ _. rewrite bind_gets.
  apply (keeps_bind_run vote_inv). intros o2 n2 Hrun2.
  destruct (set_vote_inv n1 (node_id n1)) with (o := o2) (n' := n2)
    as (Hinv2 & _ & _ & Hterm2 & Hvoted); [left; by rewrite Hp1|done..|].
  split; [done|]. intros [] ->. specialize (Hvoted eq_refl).
  unfold set_role, reset_heartbeat. rewrite !bind_modify, !bind_gets.
  apply (keeps_bind_at vote_inv).
  - eapply request_votes_inv; [done| |by apply (same_votes_voted _ n2)|by apply (same_votes_inv n2)].
    simpl. unfold node_term, log_current_term. simpl. by rewrite Hterm2, Hp1.
  - intros _. apply Hk.
Qed.

Lemma start_election_votes n : node_term n < u64_max -> vote_inv n -> vote_inv (start_election n).2.
Proof. apply campaign_votes. intros ps. apply keeps_same. unfold when. node_steps; done. Qed.

(** ** Restart *)

Lemma RaftLog_new_state dir d l : RaftLog_new dir d = Ok l ->
  load_state (files d) = Some (persistent_state l) /\ state_file l = files d !! state_path.
Proof.
  unfold RaftLog_new. set (l0 := mkLog dir ∅ PersistentState_default 0 None d).
  destruct ((io_call ;;; load_from_disk)%raft l0) as [[[]| | | |] l'] eqn:Hrun;
    intros [= <-]. unfold load_from_disk in Hrun.
  apply bind_Ok_inv in Hrun as ([] & s & Hcall & Hrun).
  pose proof (same_io_call l0) as H0. rewrite Hcall in H0. destruct H0 as [Hp0 Hf0].
  rewrite bind_gets in Hrun. apply bind_Ok_inv in Hrun as ([] & s0 & Hstate & Hrun).
  assert (same_state s0 l') as [Hp2 Hf2].
  { eapply (steps_in_tail same_state); [|exact Hrun].
    pose proof same_open_append. pose proof same_io_call.
    unfold when, fs_read, load_line. node_steps; done. }
  rewrite <-Hp2, <-Hf2. clear Hrun Hp2 Hf2 l' Hcall.
  unfold load_state, state_file in *. simpl in Hp0, Hf0. rewrite Hf0.
  destruct (files (disk s) !! state_path) as [text|] eqn:Hfile; simpl in Hstate.
  2: { injection Hstate as <-. by rewrite <-Hp0, Hfile. }
  unfold fs_read in Hstate. rewrite bind_assoc in Hstate.
  apply bind_Ok_inv in Hstate as ([] & s1 & Hcall & Hstate). rewrite bind_gets in Hstate.
  pose proof (same_io_call s) as H0. rewrite Hcall in H0. destruct H0 as [Hp1 Hf1].
  unfold state_file in Hf1. simpl in Hf1. rewrite <-Hf1, Hfile in Hstate. simpl in Hstate.
  destruct (from_str text) as [st|] eqn:Htext; [|done].
  injection Hstate as <-. simpl. by rewrite <-Hf1.
Qed.

Lemma RaftNode_new_log cfg d now n : RaftNode_new cfg d now = Ok n ->
  load_state (files d) = Some (persistent_state (log n)) /\
  files (disk (log n)) !! state_path = files d !! state_path /\ outgoing n = [].
Proof.
  unfold RaftNode_new. destruct (RaftLog_new _ d) as [l| | | |] eqn:Hl; intros [= <-]. simpl.
  by apply RaftLog_new_state in Hl as [? ?].
Qed.

Lemma restart_votes n io now n' : restart n io now = Ok n' -> vote_inv n -> vote_inv n'.
Proof.
  unfold restart. destruct (RaftNode_new _ _ now) as [n1| | | |] eqn:Hn; intros [= <-] [Hm Hd Hs].
  apply RaftNode_new_log in Hn as (Hl & Hf & _). simpl in Hl, Hf.
  specialize (Hd _ Hl). split; unfold disk_recorded, bs in *; simpl; try done.
  intros p Hp. unfold load_state in Hl, Hp. rewrite Hf, Hl in Hp. by simplify_eq.
Qed.

Lemma run_event_votes n ev : honest_vote n ev -> vote_inv n -> vote_inv (run_event ev n).2.
Proof.
  destruct ev as [env|t| |c tx|i a|i|]; simpl; intros Hok Hinv.
  - unfold handle_message. destruct (message env); simpl in *.
    + revert Hinv. apply handle_append_entries_votes.
    + revert Hinv. apply handle_append_entries_response_votes.
    + destruct Hok. revert Hinv. by apply handle_request_vote_votes.
    + revert Hinv. apply handle_request_vote_response_votes.
    + done.
    + done.
  - unfold election_tick. rewrite bind_gets. unfold when at 1. case_match; [|done].
    rewrite bind_gets. unfold when. case_match; [|done]. by apply start_election_votes.
  - revert Hinv. apply (keeps_same heartbeat_tick). unfold heartbeat_tick, when. node_steps.
  - revert Hinv. apply (keeps_same (propose c tx)), same_votes_propose.
  - revert Hinv. apply (keeps_same (add_peer i a)), same_votes_add_peer.
  - revert Hinv. apply (keeps_same (remove_peer i)), same_votes_remove_peer.
  - revert Hinv. apply (keeps_same (status <- get_status ;; ret tt)%raft). node_steps.
Qed.

Lemma reachable_votes cfg n : node_reachable honest_vote cfg n -> vote_inv n.
Proof.
  induction 1 as [io now n Hn|n n' Hn IH Hstep].
  - apply RaftNode_new_log in Hn as (Hl & Hf & Ho).
    split; unfold disk_recorded, bs; rewrite Ho.
    + by intros t c Hin%not_elem_of_nil.
    + by intros p _ t c Hin%not_elem_of_nil.
    + by intros t c1 c2 Hin%not_elem_of_nil.
  - inversion Hstep; subst.
    + by apply run_event_votes.
    + by apply (same_votes_inv n).
    + by eapply restart_votes.
Qed.
End node_votes.

(** ** Properties *)

(** C12: A node votes for at most one candidate per term: among all the ballots it has sent,
    over rounds of the daemon with any outcome of the file operations, restarts and crashes in
    the middle of a round, two for the same term name the same candidate. The runs assume that a
    vote request comes from the candidate it names, as [start_election] sends it, and that no
    election starts in the largest term. *)
Theorem vote_once {E : Env} {EL : EnvLaws E} cfg n t c1 c2 : node_reachable honest_vote cfg n ->
  (t, c1) ∈ ballots (outgoing n) -> (t, c2) ∈ ballots (outgoing n) -> c1 = c2.
Proof. intros Hn. apply (vote_single _ (reachable_votes _ _ Hn)). Qed.

(** [node-01] votes for [node-02] in term 1, is restarted, and is then asked by [node-03]. *)
Definition voter_asked (c : string) : event :=
  Deliver (mkEnvelope c "node-01" (RequestVote (mkRequestVote 1 c 0 0))).

Definition voter_before : RaftNode :=
  (@run_event ref_env (voter_asked "node-02") (sample three "node-01")).2.
Definition voter_restarted : RaftNode :=
  match @restart ref_env voter_before [] 5 with Ok n => n | _ => voter_before end.
Definition voter_after : RaftNode := (@run_event ref_env (voter_asked "node-03") voter_restarted).2.

Lemma vote_once_witness :
  outgoing voter_after = [mkEnvelope "node-01" "node-02" (RequestVoteResp (mkRequestVoteResponse 1 true "node-01"));
    mkEnvelope "node-01" "node-03" (RequestVoteResp (mkRequestVoteResponse 1 false "node-01"))] /\
  forall c, (1, c) ∈ ballots (outgoing voter_after) -> c = "node-02".
Proof.
  split; [by vm_compute|]. intros c Hc. symmetry.
  apply (@vote_once ref_env _ (member_config three "node-01") voter_after 1);
    [|vm_compute; left|exact Hc].
  apply (reach_step _ _ voter_restarted); [apply (reach_step _ _ voter_before)|].
  - apply (reach_step _ _ (sample three "node-01")); [by apply (reach_start _ _ [] 0); vm_compute|].
    apply (step_event _ (sample three "node-01") (voter_asked "node-02")).
    split; [reflexivity|vm_compute; lia].
  - apply (step_restart _ _ _ [] 5). vm_compute. reflexivity.
  - apply (step_event _ voter_restarted (voter_asked "node-03")). split; [reflexivity|vm_compute; lia].
Defined.
