(* ===== verification/TasksVotes.v ===== *)
(** * Votes, with the tasks of a daemon interleaved

    The invariant of Votes.v through every section of every task, in any order: the votes that
    leave a node agree with the persistent state as long as a task that steps down is not
    overtaken ([unraced]).  Races.v shows that this condition is needed. *)

From S2P Require Import Prelude Heapless Protocol Serde HashMap Log LogFacts StateMachine.
From S2P Require Import Config Env Node NodeFacts Sample Daemon Tasks Votes.
Local Open Scope N_scope.

(** What a run assumes of a section: a vote request comes from its candidate, the term has not
    reached the largest [u64] when an election starts, and a task that steps down has not been
    overtaken by another one that raised the term. *)
Definition unraced (n : RaftNode) (p : point) : Prop :=
  match p with
  | AtRequestVote from req => from = candidate_id req /\
      (String.length (candidate_id req) <= ID_CAPACITY)%nat
  | AtStartElection => node_term n < u64_max
  | AtStepDown t => node_term n < t
  | _ => True
  end.

Section votes.
Context {E : Env} {EL : EnvLaws E}.

Hint Resolve same_votes_guard same_votes_on_log same_append same_store_entries same_votes_apply_loop
  same_votes_append_response same_votes_heartbeats same_votes_notify same_votes_update_commit
  same_votes_get_status : raft.

Lemma same_votes_advance_section t m ns : steps_in same_votes (advance_section t m ns).
Proof. induction ns; simpl; node_steps; done. Qed.
Hint Resolve same_votes_advance_section : raft.

Lemma append_entries_section_votes from req : steps_in (keeps vote_inv) (append_entries_section from req).
Proof.
  intros n Hinv. apply (keeps_scope_at vote_inv); [apply vote_inv_guard|done|]. rewrite bind_gets.
  case_match.
  { apply (keeps_same _); [node_steps|by apply vote_inv_guard]. }
  apply (keeps_bind_at vote_inv); [by apply raise_term_inv, vote_inv_guard|]. intros _.
  apply keeps_same. unfold reset_heartbeat, when. node_steps; done.
Qed.
Lemma election_section_votes n : node_term n < u64_max -> vote_inv n -> vote_inv (election_section n).2.
Proof. apply campaign_votes. intros ps. apply keeps_same. node_steps. Qed.

Lemma quiet_votes {A} (m : M RaftNode A) n : steps_in same_votes m -> vote_inv n -> vote_inv (m n).2.
Proof. intros Hm. by apply (keeps_same m Hm). Qed.

Lemma resume_votes n p : unraced n p -> vote_inv n -> vote_inv (resume p n).2.
Proof.
  intros Hok Hinv. destruct p as [from req| | |to t b|from resp|t| | |i|i|from req|from resp| | | |last| | |
    timeout|timeout| | |c tx|tx|c tx|i tx|i a|i|i|i|i|i| ]; simpl resume; simpl in Hok.
  all: try (apply quiet_votes; [|done];
    unfold set_role, init_peer, respond, heartbeat_to, append_response_section; node_steps; done).
  - by apply append_entries_section_votes.
  - apply (keeps_bind_at vote_inv); [|by intros _ s Hs].
    apply (keeps_scope_at vote_inv); [apply vote_inv_guard|done|]. apply (keeps_bind_at vote_inv).
    + destruct (on_log _ _) as [o n1] eqn:Hrun.
      by destruct (set_term_inv (with_log_guard true n) t Hok (vote_inv_guard n true Hinv) _ _ Hrun).
    + intros _. by apply keeps_same, steps_in_modify.
  - destruct Hok as [-> Hlen]. apply (keeps_bind_at vote_inv); [|by intros _ s Hs].
    by apply (handle_request_vote_votes (mkEnvelope (candidate_id req) "" (RequestVote req))).
  - apply quiet_votes; [|done]. unfold vote_response_section. node_steps; try done.
    by destruct (decide (from ∈ votes_received s)).
  - apply quiet_votes; [|done]. unfold heartbeat_to. node_steps; try done. by apply same_votes_send.
  - by apply election_section_votes.
Qed.

Lemma resume_task_votes i p t s : cr_tasks s !! i = Some (p :: t) -> unraced (cr_node s) p ->
  vote_inv (cr_node s) -> vote_inv (cr_node (resume_task i s)).
Proof.
  intros Hi Hok Hinv. unfold resume_task. rewrite Hi. pose proof (resume_votes _ _ Hok Hinv) as Hr.
  by destruct (resume p (cr_node s)) as [[] n].
Qed.

Lemma crew_votes cfg s : crew_reachable unraced cfg s -> vote_inv (cr_node s).
Proof.
  induction 1 as [io now n Hn|s s' Hs IH Hstep].
  - apply (reachable_votes cfg n). by eapply reach_start.
  - inversion Hstep; subst; simpl; [done|by eapply resume_task_votes|by apply (same_votes_inv (cr_node s))|].
    by eapply restart_votes.
Qed.

(** C13: A node votes for at most one candidate per term however the tasks of its daemon are
    interleaved at their awaits, over restarts and any outcome of the file operations, under the
    assumptions of [vote_once] and one more: no task that steps down is overtaken by another one
    that raises the term while it waits for the log. *)
Theorem interleaved_vote_once cfg s t c1 c2 : crew_reachable unraced cfg s ->
  (t, c1) ∈ ballots (outgoing (cr_node s)) -> (t, c2) ∈ ballots (outgoing (cr_node s)) -> c1 = c2.
Proof. intros Hs. apply (vote_single _ (crew_votes _ _ Hs)). Qed.
End votes.

(** The tasks of two vote requests of one term, begun together on [node-01]. *)
Definition rival_request (c : string) : RequestVoteRequest := mkRequestVote 1 c 0 0.
Definition rivals_begun : crew :=
  let ask c := begin_task (Deliver (mkEnvelope c "node-01" (RequestVote (rival_request c)))) in
  ask "node-03" (ask "node-02" (mkCrew (sample three "node-01") [])).
Definition second_first : crew := @resume_task ref_env 1 rivals_begun.
Definition rivals_asked : crew := @resume_task ref_env 0 second_first.

Lemma interleaved_vote_once_witness :
  cr_tasks rivals_asked = [[]; []] /\ ballots (outgoing (cr_node rivals_asked)) = [(1, "node-03"%string)] /\
  forall c, (1, c) ∈ ballots (outgoing (cr_node rivals_asked)) -> c = "node-03".
Proof.
  split; [by vm_compute|]. split; [by vm_compute|]. intros c Hc. symmetry.
  apply (@interleaved_vote_once ref_env _ (member_config three "node-01") rivals_asked 1);
    [|vm_compute; left|exact Hc].
  eapply crew_next; [eapply crew_next; [eapply crew_next; [eapply crew_next|]|]|].
  - apply (crew_start _ _ [] 0). vm_compute. reflexivity.
  - apply crew_begin.
  - apply crew_begin.
  - apply (crew_resume _ rivals_begun 1 (AtRequestVote "node-03" (rival_request "node-03")) []);
      [reflexivity|]. split; [reflexivity|vm_compute; lia].
  - apply (crew_resume _ second_first 0 (AtRequestVote "node-02" (rival_request "node-02")) []);
      [reflexivity|]. split; [reflexivity|vm_compute; lia].
Defined.
