(* ===== verification/Rounds.v ===== *)
(** * What a round can and cannot do, whatever the file system does

    The properties here hold in every state and for every outcome of the file operations:
    the term never decreases, a round that delivers no message commits nothing, and a
    failed save of a new term leaves a leader in place. *)

From S2P Require Import Prelude Heapless Protocol Serde HashMap Log LogFacts StateMachine.
From S2P Require Import Config Env Node NodeFacts Sample Daemon Votes.
Local Open Scope N_scope.

Definition same_term (n n' : RaftNode) : Prop := node_term n' = node_term n.

#[export] Instance same_term_preorder : PreOrder same_term.
Proof. unfold same_term. split; [done|]. intros n1 n2 n3 H12 H23. by rewrite H23. Qed.

Section rounds.
Context {E : Env} {EL : EnvLaws E}.

(** ** The term *)

Definition term_from (t : N) (n : RaftNode) : Prop := t <= node_term n.

Lemma same_votes_term t n n' : same_votes n n' -> term_from t n -> term_from t n'.
Proof. intros [[Hp _] _]. unfold term_from, node_term, log_current_term. by rewrite Hp. Qed.

Lemma keeps_term t {A} (m : M RaftNode A) : steps_in same_votes m -> steps_in (keeps (term_from t)) m.
Proof. apply steps_in_mono. intros s s' Hs Ht. by apply (same_votes_term _ s). Qed.

Lemma keeps_same_term t {A} (m : M RaftNode A) : steps_in same_term m -> steps_in (keeps (term_from t)) m.
Proof. apply steps_in_mono. unfold keeps, term_from. by intros a b ->. Qed.

Lemma same_term_become_leader : steps_in same_term become_leader.
Proof.
  eapply steps_in_mono; [|apply same_votes_become_leader].
  intros a b [[Hp _] _]. unfold same_term, node_term, log_current_term. by rewrite Hp.
Qed.

Lemma set_term_term t n : node_term (on_log (set_current_term t) n).2 = t.
Proof.
  unfold on_log, zoom, set_current_term. rewrite bind_modify.
  destruct (save_state_saved (with_persistent_state (mkPersistent t None) (log n)))
    as (o & l' & Hrun & Hp & _). rewrite Hrun. unfold node_term, log_current_term. simpl.
  by rewrite Hp.
Qed.

Lemma set_vote_term c n : node_term (on_log (set_voted_for c) n).2 = node_term n.
Proof.
  unfold on_log, zoom, set_voted_for. rewrite bind_modify.
  match goal with |- context [save_state ?l] =>
    destruct (save_state_saved l) as (o & l' & Hrun & Hp & _) end.
  rewrite Hrun. unfold node_term, log_current_term. simpl. by rewrite Hp.
Qed.

Lemma term_from_guard t n b : term_from t n -> term_from t (with_log_guard b n).
Proof. done. Qed.

Lemma adopt_term t n : node_term n <= t -> term_from t
  (when (node_term n <? t) (on_log (set_current_term t) ;;; set_role Follower)%raft n).2.
Proof.
  intros Hle. unfold when. case_match eqn:Ht.
  - apply (keeps_bind_at (term_from t)); [unfold term_from; by rewrite set_term_term|].
    intros _. by apply keeps_term, steps_in_modify.
  - unfold term_from. simpl. apply N.ltb_ge in Ht. lia.
Qed.

Lemma step_down_term t t0 n : t0 < t -> term_from t0 n -> term_from t0
  ((drop_log ;;; lock_log ;;; on_log (set_current_term t) ;;; set_role Follower)%raft n).2.
Proof.
  intros Ht Hn. unfold drop_log. rewrite bind_modify, (bind_run _ _ _ _ _ (lock_log_free (with_log_guard false n) eq_refl)).
  apply (keeps_bind_at (term_from t0)); [unfold term_from; rewrite set_term_term; lia|].
  intros _. by apply keeps_term, steps_in_modify.
Qed.

Hint Resolve same_votes_apply same_votes_append_response same_votes_refuse same_votes_heartbeats
  same_votes_become_leader same_votes_try_advance same_votes_propose same_votes_add_peer
  same_votes_remove_peer same_votes_get_status same_votes_update_commit same_votes_guard
  same_votes_on_log same_append same_store_entries : raft.

Lemma append_entries_term from req n : node_term n <= node_term (handle_append_entries from req n).2.
Proof.
  apply (keeps_scope_at (term_from (node_term n))); [apply term_from_guard|unfold term_from; done|].
  rewrite bind_gets. change (node_term (with_log_guard true n)) with (node_term n). case_match eqn:Ht.
  - apply (keeps_term _ _ (same_votes_append_response _ _ _)). unfold term_from. done.
  - apply N.ltb_ge in Ht. apply (keeps_bind_at (term_from (node_term n))).
    + unfold term_from. etransitivity; [exact Ht|apply (adopt_term _ (with_log_guard true n) Ht)].
    + intros _. apply keeps_term. unfold reset_heartbeat, when. node_steps; done.
Qed.

Lemma append_response_term from resp n :
  node_term n <= node_term (handle_append_entries_response from resp n).2.
Proof.
  apply (keeps_scope_at (term_from (node_term n))); [apply term_from_guard|unfold term_from; done|].
  rewrite bind_gets. case_decide; [unfold term_from; done|]. rewrite bind_gets. case_match eqn:Ht.
  - apply step_down_term; [by apply N.ltb_lt|unfold term_from; done].
  - apply (keeps_term (node_term n)); [|unfold term_from; done]. node_steps; done.
Qed.

Lemma vote_response_term from resp n :
  node_term n <= node_term (handle_request_vote_response from resp n).2.
Proof.
  apply (keeps_scope_at (term_from (node_term n))); [apply term_from_guard|unfold term_from; done|].
  rewrite bind_gets. case_decide; [unfold term_from; done|]. rewrite bind_gets. case_match eqn:Ht.
  - apply step_down_term; [by apply N.ltb_lt|unfold term_from; done].
  - apply (keeps_term (node_term n)); [|unfold term_from; done]. unfold when. node_steps; try done.
    by case_decide.
Qed.

Lemma request_vote_term from req n : node_term n <= node_term (handle_request_vote from req n).2.
Proof.
  apply (keeps_scope_at (term_from (node_term n))); [apply term_from_guard|unfold term_from; done|].
  rewrite bind_gets. change (node_term (with_log_guard true n)) with (node_term n). case_match eqn:Ht.
  - apply (keeps_term _ _ (same_votes_refuse _ _)). unfold term_from. done.
  - apply N.ltb_ge in Ht. apply (keeps_bind_at (term_from (node_term n))).
    + unfold term_from. etransitivity; [exact Ht|apply (adopt_term _ (with_log_guard true n) Ht)].
    + intros _ n1 Hn1. rewrite bind_gets. case_match.
      * apply (keeps_bind_at (term_from (node_term n))); [unfold term_from; by rewrite set_vote_term|].
        intros _. unfold reset_heartbeat, send_request_vote_response.
        apply keeps_same_term. by intros m.
      * revert Hn1. apply (keeps_term _ (term <- gets node_term ;;
          send_request_vote_response from term false)%raft). node_steps.
Qed.

Lemma start_election_term n : node_term n < u64_max -> node_term n <= node_term (start_election n).2.
Proof.
  intros Hmax. apply (keeps_scope_at (term_from (node_term n)));
    [apply term_from_guard|unfold term_from; done|].
  rewrite bind_gets. change (node_term (with_log_guard true n)) with (node_term n).
  rewrite u64_add_small by lia. apply (keeps_bind_run (term_from (node_term n))). intros o n1 Hrun.
  pose proof (set_term_term (node_term n + 1) (with_log_guard true n)) as Ht. rewrite Hrun in Ht.
  split; [unfold term_from; simpl in Ht; lia|]. intros _ _. rewrite bind_gets.
  apply (keeps_bind_at (term_from (node_term n))).
  - unfold term_from. rewrite set_vote_term. simpl in Ht. lia.
  - intros _. unfold set_role, reset_heartbeat, when.
    pose proof same_term_become_leader. apply keeps_same_term. unfold send. node_steps; done.
Qed.
End rounds.

(** ** The commit index *)

Definition same_commit (n n' : RaftNode) : Prop := commit_index n' = commit_index n.

#[export] Instance same_commit_preorder : PreOrder same_commit.
Proof. unfold same_commit. split; [done|]. intros n1 n2 n3 H12 H23. by rewrite H23. Qed.

Section commits.
Context {E : Env}.

Lemma same_commit_guard n b : same_commit n (with_log_guard b n).
Proof. done. Qed.
Hint Resolve same_commit_guard : raft.

Lemma same_commit_on_log {A} (m : M RaftLog A) : steps_in same_commit (on_log m).
Proof. intros n. unfold on_log, zoom. by destruct (m (log n)). Qed.
Hint Resolve same_commit_on_log : raft.

Lemma same_commit_heartbeats : steps_in same_commit send_heartbeats.
Proof. unfold send_heartbeats, heartbeat_to, send. node_steps; done. Qed.
Hint Resolve same_commit_heartbeats : raft.

Lemma same_commit_become_leader : steps_in same_commit become_leader.
Proof. unfold become_leader, set_role, init_peer. node_steps; done. Qed.
Hint Resolve same_commit_become_leader : raft.

Lemma local_event_commit ev : local_event ev = true -> steps_in same_commit (run_event ev).
Proof.
  destruct ev; simpl; [done| | | | | | ]; intros _.
  - unfold election_tick, start_election, set_role, reset_heartbeat, send, when. node_steps; done.
  - unfold heartbeat_tick, when. node_steps.
  - unfold propose, respond. node_steps; done.
  - unfold add_peer, when. node_steps; done.
  - unfold remove_peer. node_steps; done.
  - unfold get_status. node_steps.
Qed.
End commits.

(** The term never falls. *)
Lemma event_term {E : Env} {EL : EnvLaws E} n ev :
  (forall timeout, ev = ElectionTick timeout -> node_term n < u64_max) ->
  node_term n <= node_term (run_event ev n).2.
Proof.
  intros Hmax. destruct ev as [[f t m]|timeout| |c tx|id addr|id| ]; simpl.
  - unfold handle_message. destruct m; simpl; try done.
    + apply append_entries_term.
    + apply append_response_term.
    + apply request_vote_term.
    + apply vote_response_term.
  - unfold election_tick. rewrite bind_gets. unfold when at 1. case_match; [|done].
    rewrite bind_gets. unfold when. case_match; [|done]. by eapply start_election_term, Hmax.
  - apply (keeps_term (node_term n)); [|unfold term_from; done]. pose proof same_votes_heartbeats.
    unfold heartbeat_tick, when. node_steps.
  - by apply (keeps_term (node_term n) _ (same_votes_propose _ _)); unfold term_from.
  - by apply (keeps_term (node_term n) _ (same_votes_add_peer _ _)); unfold term_from.
  - by apply (keeps_term (node_term n) _ (same_votes_remove_peer _)); unfold term_from.
  - apply (keeps_term (node_term n)); [|unfold term_from; done]. pose proof same_votes_get_status.
    node_steps.
Qed.

(** ** Properties *)

(** No round makes the term of a node decrease, whatever the outcome of the file operations, as
    long as an election does not overflow it. *)
Theorem terms_never_decrease {E : Env} {EL : EnvLaws E} n ev :
  (forall timeout, ev = ElectionTick timeout -> node_term n < u64_max) ->
  node_term n <= node_term (run_event ev n).2.
Proof. apply event_term. Qed.

(** A node whose save of the newer term is cut short: the term in memory still rises. *)
Lemma terms_never_decrease_witness :
  let n := with_io [IoErr (Some 3%nat)] (sample three "node-01") in
  node_term n <= node_term (@run_event ref_env (ElectionTick 0) n).2 /\
  (@run_event ref_env (ElectionTick 0) n).1 = Err IoError.
Proof.
  split; [|vm_compute; reflexivity]. apply (@terms_never_decrease ref_env _).
  intros timeout _. vm_compute. reflexivity.
Defined.

(** Only a message from a peer can advance the commit index: the rounds a daemon makes by
    itself, proposals included, never do, so a cluster of one node never commits. *)
Theorem local_rounds_never_commit {E : Env} n ev : local_event ev = true ->
  commit_index (run_event ev n).2 = commit_index n.
Proof. intros Hev. apply (local_event_commit ev Hev n). Qed.

(** The single node of a cluster is elected, appends an entry, and does not commit it. *)
Lemma local_rounds_never_commit_witness :
  let n := (@run_event ref_env (ElectionTick 0) (sample ["solo"] "solo")).2 in
  let n' := (@run_event ref_env (Propose Noop 1) n).2 in
  role n = Leader /\ last_index (log n') = 1 /\ commit_index n' = commit_index n /\ replies n' = [].
Proof.
  intros n n'. split; [vm_compute; reflexivity|]. split; [vm_compute; reflexivity|].
  split; [|vm_compute; reflexivity].
  apply (@local_rounds_never_commit ref_env n (Propose Noop 1)). reflexivity.
Defined.

(** A higher term whose save fails is kept in memory while the role is not changed: a leader of
    the old term stays a leader, now of the new one. *)
Theorem failed_save_keeps_role {E : Env} {EL : EnvLaws E} n from req e l : log_guard n = false ->
  node_term n < ae_term req -> set_current_term (ae_term req) (log n) = (Err e, l) ->
  exists n', handle_append_entries from req n = (Err e, n') /\ role n' = role n /\
    node_term n' = ae_term req /\ leader_id n' = leader_id n /\ log_guard n' = false.
Proof.
  intros Hg Ht Hs. set (ng := with_log_guard true n).
  assert (on_log (set_current_term (ae_term req)) ng = (Err e, with_log l ng)) as Hrun.
  { unfold on_log, zoom. change (log ng) with (log n). by rewrite Hs. }
  exists (with_log_guard false (with_log l ng)). split_and!; try done.
  - unfold handle_append_entries. apply scope_log_Err; [done|]. rewrite bind_gets.
    change (node_term (with_log_guard true n)) with (node_term n).
    rewrite (proj2 (N.ltb_ge _ _)) by lia. unfold when at 1.
    rewrite (proj2 (N.ltb_lt _ _)) by done. apply bind_run_err. by apply bind_run_err.
  - pose proof (set_term_term (ae_term req) ng) as Hterm. by rewrite Hrun in Hterm.
Qed.

(** A leader of term 1 that fails to save term 2 goes on as the leader of term 2. *)
Lemma failed_save_keeps_role_witness :
  let ldr := with_io [IoErr None] (@run_event ref_env (Deliver (mkEnvelope "node-02" "node-01"
    (RequestVoteResp (mkRequestVoteResponse 1 true "node-02"))))
    (@run_event ref_env (ElectionTick 0) (sample three "node-01")).2).2 in
  exists n', @handle_append_entries ref_env "node-03" (mkAppendEntries 2 "node-03" 0 0 [] 0) ldr
      = (Err IoError, n') /\
    role n' = Leader /\ node_term n' = 2 /\
    (fun env => match message env with AppendEntries req => ae_term req | _ => 0 end) <$>
      drop (length (outgoing n')) (outgoing (@heartbeat_tick ref_env n').2) = [2; 2].
Proof.
  intros ldr.
  destruct (@failed_save_keeps_role ref_env _ ldr "node-03" (mkAppendEntries 2 "node-03" 0 0 [] 0)
    IoError (@set_current_term ref_json 2 (log ldr)).2)
    as (n' & Hrun & Hrole & Ht & _); [vm_compute; reflexivity..|].
  exists n'. split; [exact Hrun|]. split; [rewrite Hrole; vm_compute; reflexivity|].
  split; [exact Ht|]. replace n' with (@handle_append_entries ref_env "node-03"
    (mkAppendEntries 2 "node-03" 0 0 [] 0) ldr).2 by (rewrite Hrun; reflexivity).
  vm_compute. reflexivity.
Defined.
