(* ===== verification/Follower.v ===== *)
(** * Replication at a follower: [handle_append_entries] and [apply_committed_entries]

    [node_ok n es] is the invariant of an idle node whose log is the sequence [es]: the
    log and its files are in order, the store is the result of the entries applied so
    far, and they are among the committed ones.  An accepted request turns [es] into
    [follower_log es p new], the rule of the Raft paper: keep what precedes, keep what
    agrees, replace from the first conflict.  A refused one is a deadlock. *)

From S2P Require Import Prelude Heapless Protocol Serde HashMap Log LogFacts StateMachine.
From S2P Require Import Config Env LogProps Node NodeFacts Sample Daemon.
Local Open Scope N_scope.

Record node_ok {E : Env} (n : RaftNode) (es : list LogEntry) : Prop := {
  ok_guard : log_guard n = false;
  ok_log : log_inv (log n) es;
  ok_store : reflects (state_machine n) es (N.to_nat (last_applied n));
  ok_applied : last_applied n <= commit_index n;
  ok_commit : commit_index n <= N.of_nat (length es);
  ok_bound : N.of_nat (length es) <= u64_max;
}.

(** The entries [new] over the rest of a log: what agrees is kept, the first entry of
    another term and all that follow are replaced. *)
Fixpoint reconcile (rest new : list LogEntry) {struct new} : list LogEntry :=
  match new, rest with
  | [], _ => rest
  | e :: new', old :: rest' => if term old =? term e then e :: reconcile rest' new' else new
  | _, [] => new
  end.

Definition follower_log (es : list LogEntry) (p : nat) (new : list LogEntry) : list LogEntry :=
  take p es ++ reconcile (drop p es) new.

(** The entry that precedes the new ones is in the log, with its term. *)
Definition matches (es : list LogEntry) (p : nat) (t : N) : Prop :=
  p = 0%nat \/ exists e, lookup1 es (N.of_nat p) = Some e /\ term e = t.

(** The commit index after a request of a leader that has committed [lc] entries. *)
Definition follower_commit (commit lc last : N) : N := if commit <? lc then N.min lc last else commit.

#[export] Instance matches_dec es p t : Decision (matches es p t).
Proof.
  unfold matches. destruct (decide (p = 0%nat)) as [|Hp]; [left; by left|].
  destruct (lookup1 es (N.of_nat p)) as [e|].
  - destruct (decide (term e = t)); [left|right]; naive_solver.
  - right. naive_solver.
Defined.

Lemma matches_length es p t : matches es p t -> (p <= length es)%nat.
Proof.
  intros [->|(e & He & _)]; [lia|]. apply mk_is_Some, lookup1_Some in He. lia.
Qed.

Lemma reconcile_length rest new : (length new <= length (reconcile rest new))%nat.
Proof.
  revert rest. induction new as [|e new IH]; intros [|old rest]; simpl; try lia.
  case_match; simpl; [specialize (IH rest)|]; lia.
Qed.

Lemma reconcile_new rest new k e : new !! k = Some e -> reconcile rest new !! k = Some e.
Proof.
  revert rest k. induction new as [|e' new IH]; intros [|old rest] k Hk; simpl; try done.
  case_match; [|done]. destruct k; simpl in *; [done|by apply IH].
Qed.

(** The loop of the code and the rule agree. *)
Section delete.
Context {E : Env} {EL : EnvLaws E}.

Lemma delete_conflicting_beyond new : forall l es p, log_inv l es -> (length es <= p)%nat ->
  consecutive p new -> delete_conflicting new l = (Ok tt, l).
Proof.
  induction new as [|e new IH]; intros l es p Hinv Hp Hc; [done|]. simpl.
  apply consecutive_cons in Hc as [He Hc]. rewrite bind_gets.
  rewrite (repr_term_at _ _ _ (inv_repr _ _ Hinv)), He, lookup1_S, lookup_ge_None_2 by done.
  simpl. by apply (IH l es (S p)); [|lia|].
Qed.

Lemma delete_conflicting_inv new : forall l es p, log_inv l es -> (p <= length es)%nat ->
  consecutive p new -> exists l' es', delete_conflicting new l = (Ok tt, l') /\
    log_inv l' es' /\ (p <= length es')%nat /\ persistent_state l' = persistent_state l /\
    spec_overwrite es' p new = follower_log es p new.
Proof.
  induction new as [|e new IH]; intros l es p Hinv Hp Hc.
  { exists l, es. split_and!; try done. unfold follower_log, spec_overwrite. simpl.
    by rewrite Nat.add_0_r. }
  apply consecutive_cons in Hc as [He Hc]. simpl. rewrite bind_gets.
  rewrite (repr_term_at _ _ _ (inv_repr _ _ Hinv)), He, lookup1_S.
  unfold follower_log. destruct (es !! p) as [old|] eqn:Hold; simpl.
  - erewrite drop_S by done. simpl. case_match eqn:Ht.
    + pose proof (lookup_lt_Some _ _ _ Hold).
      destruct (IH l es (S p)) as (l' & es' & Hrun & Hinv' & Hp' & Hst & Heq); [done|lia|done|].
      exists l', es'. split_and!; try done; [lia|].
      unfold follower_log, spec_overwrite in *.
      apply app_inj_1 in Heq as [Htake Heq]; [|rewrite !length_take; lia].
      rewrite <-Heq. simpl. rewrite Nat.add_succ_r. f_equal.
      by apply (f_equal (take p)) in Htake; rewrite !take_take, !Nat.min_l in Htake by lia.
    + destruct (truncate_from_inv l es (N.of_nat (S p))) as (l' & Hrun & Hinv' & Hst); [done| |].
      { rewrite (repr_last _ _ (inv_repr _ _ Hinv)). lia. }
      exists l', (spec_truncate es (N.of_nat (S p))). unfold spec_truncate.
      replace (N.to_nat (N.of_nat (S p)) - 1)%nat with p by lia.
      unfold spec_truncate in Hinv'. replace (N.to_nat (N.of_nat (S p)) - 1)%nat with p in Hinv' by lia.
      split_and!; try done; [rewrite length_take; lia|]. unfold spec_overwrite.
      rewrite take_take, Nat.min_id, drop_ge by (rewrite length_take; simpl; lia).
      by rewrite app_nil_r.
  - apply lookup_ge_None in Hold.
    exists l, es. rewrite (delete_conflicting_beyond new l es (S p)) by (done || lia).
    split_and!; try done. unfold spec_overwrite.
    rewrite !drop_ge by (simpl; lia). by rewrite app_nil_r.
Qed.

Lemma store_entries_inv new l es p : log_inv l es -> Forall wf_entry new -> (p <= length es)%nat ->
  consecutive p new -> exists l', store_entries new l = (Ok tt, l') /\
    log_inv l' (follower_log es p new) /\ persistent_state l' = persistent_state l.
Proof.
  intros Hinv Hwf Hp Hc.
  destruct (delete_conflicting_inv new l es p) as (l1 & es1 & Hrun & Hinv1 & Hp1 & Hst1 & Heq); [done..|].
  destruct (append_entries_inv l1 es1 p new) as (l2 & Hrun2 & Hinv2 & Hst2); [done..|].
  exists l2. unfold store_entries. rewrite (bind_run _ _ _ _ _ Hrun), <-Heq.
  split_and!; [done..|congruence].
Qed.
End delete.

(** ** Applying the committed entries *)

Section apply.
Context {E : Env} {EL : EnvLaws E}.

(** [n] after its store and [last_applied] were brought to the entry [m]. *)
Definition applied (sm : StateMachine) (m : N) (n : RaftNode) : RaftNode :=
  with_state_machine sm (with_last_applied m n).

Lemma apply_loop_ok fuel : forall n es commit, log_repr (log n) es ->
  reflects (state_machine n) es (N.to_nat (last_applied n)) -> commit <= N.of_nat (length es) ->
  N.of_nat (length es) <= u64_max -> (N.to_nat (commit - last_applied n) <= fuel)%nat ->
  exists sm, apply_loop fuel commit n = (Ok tt, applied sm (N.max (last_applied n) commit) n) /\
    reflects sm es (N.to_nat (N.max (last_applied n) commit)).
Proof.
  induction fuel as [|fuel IH]; intros n es commit Hr Hsm Hc Hmax Hf; simpl; rewrite bind_gets.
  - exists (state_machine n). rewrite (proj2 (N.ltb_ge _ _)) by lia.
    rewrite N.max_l by lia. split; [by destruct n|done].
  - destruct (_ <? _) eqn:Hlt.
    2: { apply N.ltb_ge in Hlt. exists (state_machine n). rewrite N.max_l by lia.
         split; [by destruct n|done]. }
    apply N.ltb_lt in Hlt. rewrite u64_add_small by lia. rewrite bind_modify.
    assert (is_Some (es !! N.to_nat (last_applied n))) as [e He] by (apply lookup_lt_is_Some; lia).
    assert (entries (log n) !! (last_applied n + 1) = Some e) as Hent.
    { rewrite (repr_entries _ _ Hr), <-He, <-lookup1_S. f_equal. lia. }
    erewrite bind_run.
    2: { unfold apply_entry. rewrite bind_gets. unfold get. simpl. rewrite Hent. reflexivity. }
    destruct (IH (applied (apply e (state_machine n)).2 (last_applied n + 1) n) es commit)
      as (sm & Hrun & Href); simpl; [done| |done..|lia|].
    + replace (N.to_nat (last_applied n + 1)) with (S (N.to_nat (last_applied n))) by lia.
      eapply reflects_step; [done..|]. apply (repr_index _ _ Hr) in He. lia.
    + simpl in Hrun, Href. replace (N.max (last_applied n + 1) commit) with commit in * by lia.
      exists sm. rewrite N.max_r by lia. split; [exact Hrun|done].
Qed.

(** The loop ends within its fuel, and the store reflects the committed prefix. *)
Lemma apply_committed_ok n es : log_guard n = false -> log_repr (log n) es ->
  reflects (state_machine n) es (N.to_nat (last_applied n)) ->
  commit_index n <= N.of_nat (length es) -> N.of_nat (length es) <= u64_max ->
  exists sm, apply_committed_entries n =
    (Ok tt, with_log_guard false (applied sm (N.max (last_applied n) (commit_index n)) n)) /\
    reflects sm es (N.to_nat (N.max (last_applied n) (commit_index n))).
Proof.
  intros Hg Hr Hsm Hc Hmax. unfold apply_committed_entries. rewrite !bind_gets.
  destruct (apply_loop_ok (N.to_nat (commit_index n - last_applied n)) (with_log_guard true n) es
    (commit_index n)) as (sm & Hrun & Href); [done..|].
  exists sm. split; [|done]. by apply (scope_log_Ok _ _ _ _ Hg Hrun).
Qed.
End apply.

(** ** An accepted request *)

Section accept.
Context {E : Env} {EL : EnvLaws E}.

Lemma set_term_ok n es t : log_inv (log n) es -> exists l,
  on_log (set_current_term t) n = (Ok tt, with_log l n) /\ log_inv l es /\
  persistent_state l = mkPersistent t None.
Proof.
  intros Hinv. destruct (set_current_term_inv _ _ t Hinv) as (l & Hrun & Hinv' & Hp).
  exists l. unfold on_log, zoom. by rewrite Hrun.
Qed.

(** The prologue of the request handlers: adopt a newer term as a follower. *)
Lemma adopt_term_ok n es t : log_inv (log n) es -> node_term n <= t -> exists l,
  when (node_term n <? t) (on_log (set_current_term t) ;;; set_role Follower)%raft n =
    (Ok tt, with_role (if node_term n <? t then Follower else role n) (with_log l n)) /\
  log_inv l es /\ persistent_state l =
    if node_term n <? t then mkPersistent t None else persistent_state (log n).
Proof.
  intros Hinv Ht. unfold when. destruct (_ <? _) eqn:Hlt.
  - destruct (set_term_ok n es t Hinv) as (l & Hrun & Hinv' & Hp).
    exists l. by rewrite (bind_run _ _ _ _ _ Hrun).
  - exists (log n). split_and!; by destruct n.
Qed.

Lemma append_response_ok n to t b : log_guard n = false ->
  send_append_entries_response to t b n = (Ok tt,
    with_log_guard false (with_outgoing (outgoing n ++
      [MessageEnvelope_new (node_id n) to (AppendEntriesResp
        (mkAppendEntriesResponse t b (last_index (log n)) (string_from ID_CAPACITY (node_id n))))]) n)).
Proof.
  intros Hg. unfold send_append_entries_response. rewrite scope_log_free by done.
  by rewrite !bind_gets.
Qed.

Lemma matches_has_entry l es p t : log_repr l es ->
  (0 <? N.of_nat p) && negb (has_entry l (N.of_nat p) t) = false <-> matches es p t.
Proof.
  intros Hr. unfold matches. destruct (decide (p = 0%nat)) as [->|Hp]; simpl; [naive_solver|].
  rewrite (proj2 (N.ltb_lt _ _)) by lia. simpl. rewrite negb_false_iff.
  rewrite (repr_has_entry _ _ _ _ Hr) by lia. naive_solver.
Qed.

Lemma store_ok n es p new : log_inv (log n) es -> Forall wf_entry new -> (p <= length es)%nat ->
  consecutive p new -> exists l,
  when (negb (bool_decide (new = []))) (on_log (store_entries new)) n = (Ok tt, with_log l n) /\
  log_inv l (follower_log es p new) /\ persistent_state l = persistent_state (log n).
Proof.
  intros Hinv Hwf Hp Hc. unfold when. destruct new as [|e new]; simpl.
  - exists (log n). split_and!; [by destruct n| |done].
    unfold follower_log. simpl. by rewrite take_drop.
  - destruct (store_entries_inv (e :: new) (log n) es p) as (l & Hrun & ? & ?); [done..|].
    exists l. unfold on_log, zoom. by rewrite Hrun.
Qed.

(** The state of a follower that accepted [req]. *)
Record accepted (n : RaftNode) (from : string) (req : AppendEntriesRequest) (p : nat)
    (es : list LogEntry) (n' : RaftNode) : Prop := {
  acc_ok : node_ok n' (follower_log es p (ae_entries req));
  acc_term : node_term n' = ae_term req;
  acc_commit : commit_index n' = follower_commit (commit_index n) (leader_commit req)
    (N.of_nat (length (follower_log es p (ae_entries req))));
  acc_applied : last_applied n' = commit_index n';
  acc_leader : leader_id n' = Some (ae_leader_id req);
  acc_timer : last_heartbeat n' = clock n;
  acc_role : role n' = if node_term n <? ae_term req then Follower else role n;
  acc_sent : outgoing n' = outgoing n ++ [MessageEnvelope_new (node_id n) from (AppendEntriesResp
    (mkAppendEntriesResponse (node_term n) true
       (N.of_nat (length (follower_log es p (ae_entries req))))
       (string_from ID_CAPACITY (node_id n))))];
  acc_match : match_index n' = match_index n;
}.

Lemma accept_ok n es from req p : node_ok n es -> node_term n <= ae_term req ->
  prev_log_index req = N.of_nat p -> matches es p (prev_log_term req) ->
  Forall wf_entry (ae_entries req) -> consecutive p (ae_entries req) ->
  N.of_nat (length (follower_log es p (ae_entries req))) <= u64_max ->
  take (N.to_nat (commit_index n)) (follower_log es p (ae_entries req)) =
    take (N.to_nat (commit_index n)) es ->
  exists n', handle_append_entries from req n = (Ok tt, n') /\ accepted n from req p es n'.
Proof.
  intros Hok Hterm Hprev Hm Hwf Hc Hmax Hkeep. destruct Hok as [Hg Hlog Hsm Happ Hcom Hb].
  destruct (adopt_term_ok (with_log_guard true n) es (ae_term req)) as (l1 & Hrun1 & Hinv1 & Hp1); [done..|].
  change (node_term (with_log_guard true n)) with (node_term n) in *.
  set (n1 := with_leader_id (Some (ae_leader_id req)) (with_last_heartbeat (clock n)
    (with_role (if node_term n <? ae_term req then Follower else role n)
      (with_log l1 (with_log_guard true n))))).
  destruct (store_ok n1 es p (ae_entries req)) as (l2 & Hrun2 & Hinv2 & Hp2);
    [done|done|by eapply matches_length|done|].
  set (es' := follower_log es p (ae_entries req)) in *.
  set (commit' := follower_commit (commit_index n) (leader_commit req) (N.of_nat (length es'))).
  assert (Hlast2 : last_index l2 = N.of_nat (length es')) by apply (repr_last _ _ (inv_repr _ _ Hinv2)).
  assert (Hlen : (N.to_nat (commit_index n) <= length es')%nat).
  { apply (f_equal length) in Hkeep. rewrite !length_take in Hkeep. lia. }
  assert (Hcommit' : commit_index n <= commit' <= N.of_nat (length es')).
  { unfold commit', follower_commit.
    destruct (commit_index n <? _) eqn:Hlt; [apply N.ltb_lt in Hlt|]; lia. }
  set (n2 := with_log_guard false (with_commit_index commit' (with_log l2 n1))).
  destruct (apply_committed_ok n2 es') as (sm & Hrun3 & Hsm3); [done|by destruct Hinv2| |simpl; lia|lia|].
  { apply (reflects_prefix _ es); [done| |simpl; lia]. simpl.
    apply (f_equal (take (N.to_nat (last_applied n)))) in Hkeep.
    rewrite !take_take, !Nat.min_l in Hkeep by lia. done. }
  set (n3 := with_log_guard false (applied sm (N.max (last_applied n2) (commit_index n2)) n2)) in *.
  eexists. split.
  { unfold handle_append_entries. apply scope_log_Ok; [done|]. rewrite bind_gets.
    change (node_term (with_log_guard true n)) with (node_term n).
    rewrite (proj2 (N.ltb_ge _ _)) by done. rewrite (bind_run _ _ _ _ _ Hrun1).
    unfold reset_heartbeat. rewrite !bind_modify, bind_gets.
    change (with_leader_id _ _) with n1. cbv beta. rewrite Hprev. change (log n1) with l1.
    rewrite (proj2 (matches_has_entry l1 es p _ (inv_repr _ _ Hinv1)) Hm).
    rewrite (bind_run _ _ _ _ _ Hrun2). unfold update_commit_index.
    erewrite bind_run with (s1 := with_commit_index commit' (with_log l2 n1)).
    2: { rewrite bind_gets. change (commit_index (with_log l2 n1)) with (commit_index n).
         unfold when, commit', follower_commit.
         destruct (commit_index n <? leader_commit req); [|done].
         rewrite bind_gets. change (last_index (log (with_log l2 n1))) with (last_index l2).
         by rewrite Hlast2. }
    unfold drop_log. rewrite bind_modify. rewrite (bind_run _ _ _ _ _ Hrun3).
    by apply append_response_ok. }
  assert (Hmx : N.max (last_applied n) commit' = commit') by lia.
  split; simpl; try done.
  - split; simpl; try done; [by rewrite Hmx|apply Hcommit'].
  - change (current_term (persistent_state l2) = ae_term req).
    rewrite Hp2. change (persistent_state (log n1)) with (persistent_state l1). rewrite Hp1.
    destruct (node_term n <? ae_term req) eqn:Hlt; [done|]. apply N.ltb_ge in Hlt.
    apply N.le_antisymm; [exact Hterm|exact Hlt].
  - by rewrite Hlast2.
Qed.
End accept.

(** ** A refused request *)

(** Once a guard of the log is never released, no round of the daemon sends a message,
    touches the log or commits. *)
Definition frozen (n n' : RaftNode) : Prop :=
  log_guard n = true -> log_guard n' = true /\ outgoing n' = outgoing n /\ log n' = log n /\
    commit_index n' = commit_index n /\ state_machine n' = state_machine n /\ last_applied n' = last_applied n.

#[export] Instance frozen_preorder : PreOrder frozen.
Proof.
  split; [by intros n|]. intros n1 n2 n3 H12 H23 Hg.
  destruct (H12 Hg) as (Hg2 & ? & ? & ? & ? & ?). destruct (H23 Hg2) as (? & ? & ? & ? & ? & ?).
  split_and!; congruence.
Qed.

Section refuse.
Context {E : Env} {EL : EnvLaws E}.

Lemma frozen_scope {A} (body : M RaftNode A) : steps_in frozen (scope_log body).
Proof. intros n Hg. by rewrite scope_log_held. Qed.
Hint Resolve frozen_scope : raft.

Lemma frozen_send_heartbeats : steps_in frozen send_heartbeats.
Proof. unfold send_heartbeats. run_steps. Qed.
Hint Resolve frozen_send_heartbeats : raft.

Lemma frozen_event ev : steps_in frozen (run_event ev).
Proof.
  destruct ev as [[f t m]| | | | | |]; simpl; try apply frozen_scope.
  - unfold handle_message. destruct m; simpl; first [apply frozen_scope | auto with raft].
  - unfold election_tick, when. run_steps; apply frozen_scope.
  - unfold heartbeat_tick, when. run_steps.
  - unfold propose, respond. run_steps; done.
  - unfold add_peer, when. run_steps; done.
  - unfold remove_peer. run_steps; done.
  - unfold get_status. run_steps.
Qed.

Lemma frozen_events evs n : frozen n (run_events evs n).
Proof.
  revert n. induction evs as [|ev evs IH]; intros n; simpl; [done|].
  etransitivity; [apply frozen_event|apply IH].
Qed.

(** The sender is behind, or the log does not hold the entry before the new ones. *)
Definition refused (n : RaftNode) (es : list LogEntry) (req : AppendEntriesRequest) : Prop :=
  ae_term req < node_term n \/
  node_term n <= ae_term req /\
    ~ matches es (N.to_nat (prev_log_index req)) (prev_log_term req).

(** The state after a refusal: in order but for the guard, which is held. *)
Record refusal (n : RaftNode) (es : list LogEntry) (req : AppendEntriesRequest) (n' : RaftNode) : Prop := {
  rf_guard : log_guard n' = true;
  rf_ok : node_ok (with_log_guard false n') es;
  rf_term : node_term n' = N.max (node_term n) (ae_term req);
  rf_role : role n' = if node_term n <? ae_term req then Follower else role n;
  rf_commit : commit_index n' = commit_index n;
  rf_match : match_index n' = match_index n;
  rf_sent : outgoing n' = outgoing n;
}.

Lemma refuse_ok n es from req : node_ok n es -> refused n es req ->
  exists n', handle_append_entries from req n = (Blocked, n') /\ refusal n es req n'.
Proof.
  intros [Hg Hlog Hsm Happ Hcom Hb] Href. unfold handle_append_entries, send_append_entries_response.
  destruct Href as [Hlt|[Hterm Hno]].
  - exists (with_log_guard true n). split.
    + apply scope_log_Blocked; [done|].
      rewrite bind_gets. change (node_term (with_log_guard true n)) with (node_term n).
      rewrite (proj2 (N.ltb_lt _ _)) by done. by apply scope_log_held.
    + split; rewrite ?(proj2 (N.ltb_ge _ _)), ?N.max_l by lia; by try split.
  - destruct (adopt_term_ok (with_log_guard true n) es (ae_term req)) as (l1 & Hrun1 & Hinv1 & Hp1); [done..|].
    change (node_term (with_log_guard true n)) with (node_term n) in *.
    eexists. split; [apply scope_log_Blocked; [done|]|].
    { rewrite bind_gets. change (node_term (with_log_guard true n)) with (node_term n).
      rewrite (proj2 (N.ltb_ge _ _)) by done. rewrite (bind_run _ _ _ _ _ Hrun1).
      unfold reset_heartbeat. rewrite !bind_modify, bind_gets.
      cbv zeta beta. change (log (with_leader_id _ _)) with l1.
      destruct (_ && _) eqn:Hm.
      - rewrite bind_gets. by apply scope_log_held.
      - exfalso. apply Hno. rewrite <-(N2Nat.id (prev_log_index req)) in Hm.
        by apply (matches_has_entry l1 es _ _ (inv_repr _ _ Hinv1)) in Hm. }
    split; try done.
    rewrite N.max_r by done. change (log_current_term l1 = ae_term req).
    unfold log_current_term. rewrite Hp1.
    destruct (N.ltb_spec (node_term n) (ae_term req)) as [|Hge]; [done|].
    apply N.le_antisymm; [exact Hterm|exact Hge].
Qed.
End refuse.

(** ** Starting and restarting *)

Section start.
Context {E : Env} {EL : EnvLaws E}.

Lemma start_ok cfg dir now l es :
  RaftLog_new (path_join (s_data_dir (server cfg)) (s_node_id (server cfg))) dir = Ok l ->
  log_inv l es -> N.of_nat (length es) <= u64_max -> exists n, RaftNode_new cfg dir now = Ok n /\
    node_ok n es /\ log n = l /\ role n = Follower /\ node_id n = s_node_id (server cfg).
Proof.
  intros Hl Hinv Hb. unfold RaftNode_new. rewrite Hl. eexists. split; [done|].
  split_and!; try done. split; simpl; try done; [|lia]. split_and!; try done. simpl. lia.
Qed.

(** A restart on the files of a log finds the log. *)
Lemma recovered_inv l es st0 : log_inv l es ->
  log_inv (mkLog st0 (entries l) (persistent_state l) (last_index l) (Some Linked) (disk l)) es.
Proof. intros [[] ? [ws []] ?]. split; simpl; try done. by exists ws. Qed.

Lemma restart_log n es now : log_inv (log n) es -> exists n', restart n [] now = Ok n' /\
  log_inv (log n') es /\ persistent_state (log n') = persistent_state (log n).
Proof.
  intros Hlog. unfold restart, RaftNode_new. set (dd := path_join _ _).
  assert (mkDir (files (disk (log n))) [] = disk (log n)) as ->.
  { pose proof (inv_io _ _ Hlog). destruct (disk (log n)) as [fs io]; simpl in *. by subst. }
  rewrite (recovery_ok (log n) es dd Hlog). eexists. split; [reflexivity|].
  split; [by apply recovered_inv|done].
Qed.

Lemma fresh_ok cfg now : exists n, RaftNode_new cfg (mkDir ∅ []) now = Ok n /\ node_ok n [].
Proof.
  destruct (fresh_log (path_join (s_data_dir (server cfg)) (s_node_id (server cfg))))
    as (l & Hl & Hinv & _).
  destruct (start_ok cfg (mkDir ∅ []) now l [] Hl Hinv) as (n & ? & ? & _); [done|]. by exists n.
Qed.
End start.

Lemma sample_ok all me : @node_ok ref_env (sample all me) [].
Proof.
  destruct (@fresh_ok ref_env (member_config all me) 0) as (n & Hn & Hok).
  unfold sample. by rewrite Hn.
Qed.

(** ** Properties *)


(** A follower with one entry of term 1 too many. *)
Definition first_request : AppendEntriesRequest :=
  mkAppendEntries 1 "node-01" 0 0 [mkEntry 1 1 (Put "a" []); mkEntry 2 1 (Put "b" [])] 1.
Definition second_request : AppendEntriesRequest :=
  mkAppendEntries 2 "node-03" 1 1 [mkEntry 2 2 (Delete "a"); mkEntry 3 2 Noop] 2.


(** C23: A refused [AppendEntries] deadlocks: [handle_append_entries] calls
    [send_append_entries_response], which locks the log, while it holds the lock; no answer is
    ever sent, and from then on no round sends a message, changes the log or commits. *)
Theorem refused_append_deadlocks {E : Env} {EL : EnvLaws E} n es from req evs :
  node_ok n es -> refused n es req ->
  exists n', handle_append_entries from req n = (Blocked, n') /\
    outgoing (run_events evs n') = outgoing n /\ log (run_events evs n') = log n' /\
    commit_index (run_events evs n') = commit_index n'.
Proof.
  intros Hok Href. destruct (refuse_ok n es from req Hok Href) as (n' & Hrun & [Hg _ _ _ _ _ Ho]).
  exists n'. split; [done|]. destruct (frozen_events evs n' Hg) as (_ & Ho' & Hl & Hc & _).
  split_and!; congruence.
Qed.

Lemma refused_append_deadlocks_witness : exists n',
  @handle_append_entries ref_env "node-01" second_request (sample three "node-02") = (Blocked, n') /\
  outgoing (@run_events ref_env [ElectionTick 0; Deliver (mkEnvelope "node-01" "node-02"
    (AppendEntries first_request))] n') = [].
Proof.
  destruct (@refused_append_deadlocks ref_env _ (sample three "node-02") [] "node-01" second_request
    [ElectionTick 0; Deliver (mkEnvelope "node-01" "node-02" (AppendEntries first_request))]
    (sample_ok _ _)) as (n' & Hrun & Ho & _).
  - right. split; [done|]. intros [?|(e & He & _)]; done.
  - by exists n'.
Defined.
