(* ===== verification/Leader.v ===== *)
(** * The leader: commitment, replication and client requests

    The first part is the commit rule of [try_advance_commit_index]: what the code commits
    is the last entry of its own term that a majority of the members acknowledged, and the
    requests up to it are answered.  The second part is what a round of heartbeats sends
    and what a proposal does.  The third part says which rounds cannot commit. *)

From Stdlib Require Import Init.Byte.
From S2P Require Import Prelude Heapless Protocol Serde HashMap Log LogFacts StateMachine.
From S2P Require Import Config Env LogProps Node NodeFacts Sample Daemon Follower.
Local Open Scope N_scope.

(** The entry [i] is of the leader's term, and more than half of the members have it: the
    leader itself, and the peers with a [match_index] of at least [i]. *)
Definition committable (n : RaftNode) (es : list LogEntry) (i : N) : Prop :=
  (exists e, lookup1 es i = Some e /\ log_current_term (log n) = term e) /\
  (size (peers n) + 1 < 2 * (1 + size (filter (fun p => i <= p.2)%N (match_index n))))%nat.

(** The answers to the requests of [m] with an index up to [i], in some order. *)
Definition answers (m : gmap N N) (ks : list N) : list (N * ProposeResult) :=
  omap (fun k => (fun tx => (tx, Success k)) <$> m !! k) ks.

Section commit.
Context {E : Env} {EL : EnvLaws E}.

Lemma count_replicated_size i (m : gmap string N) :
  count_replicated i m = S (size (filter (fun p => i <= p.2) m)).
Proof.
  unfold count_replicated.
  assert (forall (l : list (string * N)) c,
    foldl (fun count p => if i <=? p.2 then S count else count) c l =
    (c + length (filter (fun p : string * N => i <= p.2)%N l))%nat) as Hf.
  { induction l as [|p l IH]; intros c; simpl; [lia|]. rewrite IH, filter_cons.
    destruct (N.leb_spec i p.2); [rewrite decide_True by done|rewrite decide_False by lia];
      simpl; lia. }
  rewrite Hf, <-length_hash_iter. simpl. by rewrite hash_iter_filter.
Qed.

(** What the loop does when it meets a committable index. *)
Definition commit_at (i : N) : M RaftNode unit :=
  (drop_log ;;; modify (with_commit_index i) ;;; apply_committed_entries ;;;
   notify_pending_requests i)%raft.

Definition may_commit (t : N) (majority : nat) (n : RaftNode) (i : N) : bool :=
  bool_decide (term_at (log n) i = Some t) && (majority <=? count_replicated i (match_index n))%nat.

Lemma advance_loop_cons t majority i rest n : advance_loop t majority (i :: rest) n =
  if may_commit t majority n i then commit_at i n else advance_loop t majority rest n.
Proof.
  unfold may_commit. simpl. rewrite bind_gets.
  destruct (decide (term_at (log n) i = Some t)) as [Ht|Ht].
  - rewrite decide_False by tauto. rewrite bind_gets, bool_decide_true by done. simpl.
    by case_match.
  - by rewrite decide_True, bool_decide_false by done.
Qed.

(** The loop visits the indices from the last one down. *)
Lemma advance_loop_spec t majority a k n :
  (exists i, a <= i < a + N.of_nat k /\ may_commit t majority n i = true /\
    (forall j, i < j < a + N.of_nat k -> may_commit t majority n j = false) /\
    advance_loop t majority (reverse (range a (a + N.of_nat k))) n = commit_at i n) \/
  ((forall j, a <= j < a + N.of_nat k -> may_commit t majority n j = false) /\
    advance_loop t majority (reverse (range a (a + N.of_nat k))) n = (Ok tt, n)).
Proof.
  induction k as [|k IH].
  - right. split; [lia|]. by rewrite range_nil by lia.
  - replace (a + N.of_nat (S k)) with (a + N.of_nat k + 1) by lia.
    rewrite range_snoc, reverse_app, reverse_singleton by lia.
    change ([a + N.of_nat k] ++ reverse (range a (a + N.of_nat k))) with
      (a + N.of_nat k :: reverse (range a (a + N.of_nat k))). rewrite advance_loop_cons.
    destruct (may_commit _ _ _ (a + N.of_nat k)) eqn:Hm.
    + left. exists (a + N.of_nat k). split_and!; [lia..|done|intros; lia|done].
    + destruct IH as [(i & Hi & Hok & Hmax & Hrun)|[Hno Hrun]]; [left|right].
      * exists i. split_and!; [lia..|done| |done]. intros j Hj.
        destruct (decide (j = a + N.of_nat k)) as [->|]; [done|]. apply Hmax. lia.
      * split; [|done]. intros j Hj.
        destruct (decide (j = a + N.of_nat k)) as [->|]; [done|]. apply Hno. lia.
Qed.

Lemma notify_all ks n : NoDup ks -> for_each ks notify_one n =
  (Ok tt, with_replies (replies n ++ answers (pending_requests n) ks)
    (with_pending_requests (filter (fun p => p.1 ∉ ks) (pending_requests n)) n)).
Proof.
  revert n. induction ks as [|k ks IH]; intros n Hnd.
  - unfold answers. simpl. rewrite app_nil_r, map_filter_id; [by destruct n|].
    intros i x _. apply not_elem_of_nil.
  - apply NoDup_cons in Hnd as [Hk Hnd]. unfold answers. simpl.
    assert (forall m : gmap N N, filter (fun p => p.1 ∉ k :: ks) m =
      filter (fun p => p.1 ∉ ks) (delete k m)) as Hdel.
    { intros m. apply map_eq. intros j. apply option_eq. intros x.
      rewrite !map_lookup_filter_Some, lookup_delete_Some. set_solver. }
    destruct (pending_requests n !! k) as [tx|] eqn:Htx; simpl.
    + erewrite bind_run by (unfold notify_one; rewrite bind_gets, Htx; reflexivity).
      assert (answers (delete k (pending_requests n)) ks = answers (pending_requests n) ks) as Ha.
      { apply list_omap_ext, Forall_Forall2_diag, Forall_forall.
        intros j Hj. rewrite lookup_delete_ne; [done|]. by intros ->. }
      rewrite IH by done. simpl. by rewrite Ha, <-(assoc_L (++)), Hdel.
    + erewrite bind_run by (unfold notify_one; rewrite bind_gets, Htx; reflexivity).
      rewrite IH by done. by rewrite Hdel, delete_id by done.
Qed.

(** The requests up to [i] are answered with success, the others stay. *)
Definition answered (i : N) (n n' : RaftNode) : Prop :=
  pending_requests n' = filter (fun p => i < p.1) (pending_requests n) /\
  exists ks, NoDup ks /\ (forall k, k ∈ ks <-> is_Some (pending_requests n !! k) /\ k <= i) /\
    replies n' = replies n ++ answers (pending_requests n) ks.

Lemma notify_ok i n : exists m rs, notify_pending_requests i n =
    (Ok tt, with_replies rs (with_pending_requests m n)) /\
  answered i n (with_replies rs (with_pending_requests m n)).
Proof.
  unfold notify_pending_requests. rewrite bind_gets. set (ks := filter _ _).
  assert (NoDup ks) as Hnd by apply NoDup_filter, NoDup_hash_keys.
  assert (forall k, k ∈ ks <-> is_Some (pending_requests n !! k) /\ k <= i) as Hks.
  { intros k. unfold ks. rewrite list_elem_of_filter, elem_of_hash_keys. tauto. }
  do 2 eexists. split; [by apply notify_all|]. split; simpl; [|by exists ks].
  apply map_eq. intros k. apply option_eq. intros tx.
  rewrite !map_lookup_filter_Some. simpl. rewrite Hks. split; intros [Hk Hi]; split; try done.
  - apply N.nle_gt. intros Hle. by apply Hi; split.
  - intros [_ ?]. lia.
Qed.

Lemma commit_at_ok n es i : node_ok (with_log_guard false n) es -> commit_index n <= i ->
  i <= N.of_nat (length es) -> exists n', commit_at i n = (Ok tt, n') /\ node_ok n' es /\
    commit_index n' = i /\ last_applied n' = i /\ log n' = log n /\ answered i n n'.
Proof.
  intros [_ Hlog Hsm Happ Hcom Hb] Hci Hi. simpl in *. unfold commit_at, drop_log.
  rewrite !bind_modify. set (n1 := with_commit_index i (with_log_guard false n)).
  destruct (apply_committed_ok n1 es) as (sm & Hrun & Hsm'); [done|by destruct Hlog|done..|].
  rewrite (bind_run _ _ _ _ _ Hrun). set (n2 := with_log_guard false _).
  destruct (notify_ok i n2) as (m & rs & Hrun' & Hans).
  assert (N.max (last_applied n) i = i) as Hmx by lia. simpl in Hsm'. rewrite Hmx in Hsm'.
  eexists. split; [exact Hrun'|]. split_and!; simpl; try done.
  split; simpl; try done; [by rewrite Hmx|lia].
Qed.

Lemma majority_of_spec total c : (majority_of total <= c)%nat <-> (total < 2 * c)%nat.
Proof.
  unfold majority_of. pose proof (Nat.div_mod_eq total 2).
  pose proof (Nat.mod_upper_bound total 2). lia.
Qed.

Lemma may_commit_spec n es i : log_repr (log n) es ->
  may_commit (node_term n) (majority_of (size (peers n) + 1)) n i = true <-> committable n es i.
Proof.
  intros Hr. unfold may_commit, committable. rewrite andb_true_iff, bool_decide_eq_true,
    Nat.leb_le, majority_of_spec, count_replicated_size, (repr_term_at _ _ _ Hr).
  rewrite fmap_Some. done.
Qed.

(** The index range of the loop, for a node in order. *)
Definition candidates (n : RaftNode) (es : list LogEntry) : list N :=
  reverse (range (commit_index n + 1)
    (commit_index n + 1 + N.of_nat (length es - N.to_nat (commit_index n)))).

Lemma try_advance_run n es n1 : node_ok n es -> role n = Leader -> commit_index n < u64_max ->
  advance_loop (node_term n) (majority_of (size (peers n) + 1)) (candidates n es)
    (with_log_guard true n) = (Ok tt, n1) ->
  try_advance_commit_index n = (Ok tt, with_log_guard false n1).
Proof.
  intros [Hg Hlog _ _ Hcom _] Hrole Hmax Hrun. unfold try_advance_commit_index.
  rewrite bind_gets, decide_False by naive_solver. apply scope_log_Ok; [done|].
  rewrite !bind_gets. simpl. rewrite u64_add_small by lia. unfold range_inclusive.
  rewrite (repr_last _ _ (inv_repr _ _ Hlog)). unfold candidates in Hrun.
  by replace (N.of_nat (length es) + 1) with
    (commit_index n + 1 + N.of_nat (length es - N.to_nat (commit_index n))) by lia.
Qed.

Lemma try_advance_ok n es : node_ok n es -> role n = Leader -> commit_index n < u64_max ->
  exists n', try_advance_commit_index n = (Ok tt, n') /\ node_ok n' es /\ log n' = log n /\
  ((forall i, commit_index n < i -> ~ committable n es i) /\ n' = n \/
   exists i, commit_index n < i /\ committable n es i /\
     (forall j, i < j -> ~ committable n es j) /\
     commit_index n' = i /\ last_applied n' = i /\ answered i n n').
Proof.
  intros Hok Hrole Hmax. pose proof Hok as [Hg Hlog _ _ Hcom _].
  pose proof (inv_repr _ _ Hlog) as Hr. set (ng := with_log_guard true n).
  set (mj := majority_of (size (peers n) + 1)).
  assert (forall j, may_commit (node_term n) mj ng j = true <-> committable n es j) as Hmc.
  { intros j. apply (may_commit_spec ng es j Hr). }
  assert (forall a, (forall j, a <= j < commit_index n + 1 +
      N.of_nat (length es - N.to_nat (commit_index n)) -> may_commit (node_term n) mj ng j = false) ->
    forall j, a <= j -> ~ committable n es j) as Hnone.
  { intros a Hno j Hj Hj'. destruct (decide (j <= N.of_nat (length es))).
    - apply Hmc in Hj'. rewrite Hno in Hj' by lia. done.
    - destruct Hj' as [(e & He & _) _]. apply mk_is_Some, lookup1_Some in He. lia. }
  destruct (advance_loop_spec (node_term n) mj (commit_index n + 1)
    (length es - N.to_nat (commit_index n)) ng) as [(i & Hi & Hm & Hno & Hrun)|[Hno Hrun]].
  - destruct (commit_at_ok ng es i) as (n' & Hrun' & Hok' & Hc' & Ha' & Hl' & Hans); [|simpl; lia..|].
    { by destruct n, Hok. }
    exists n'. split_and!; [|done..|].
    + erewrite (try_advance_run n es n') by (done || by rewrite <-Hrun').
      f_equal. by destruct n', Hok'; simplify_eq/=.
    + right. exists i. split_and!; [lia|by apply Hmc| |done..]. intros j Hj.
      apply (Hnone (i + 1)); [|lia]. intros j' Hj'. apply Hno. lia.
  - exists n. split_and!; [|done..|].
    + erewrite (try_advance_run n es ng) by done. by destruct n; simplify_eq/=.
    + left. split; [|done]. intros j Hj. apply (Hnone (commit_index n + 1)); [done|lia].
Qed.
End commit.

(** ** What the leader sends *)

Section send.
Context {E : Env} {EL : EnvLaws E}.

(** The first index to send to a peer, by the leader's view of it. *)
Definition next_of (n : RaftNode) (peer : string) : N := default 1 (next_index n !! peer).

(** The heartbeat for a peer of a leader with the log [es]: the entry before the next one
    and at most 64 entries from there. *)
Definition heartbeat (n : RaftNode) (es : list LogEntry) (peer : string) : MessageEnvelope :=
  let prev := next_of n peer - 1 in
  MessageEnvelope_new (node_id n) peer (AppendEntries (mkAppendEntries (node_term n)
    (string_from ID_CAPACITY (node_id n)) prev (default 0 (term <$> lookup1 es prev))
    (take MAX_ENTRIES (drop (N.to_nat prev) es)) (commit_index n))).

Lemma heartbeat_to_ok n0 n es peer : log_repr (log n0) es ->
  heartbeat_to n0 peer n = (Ok tt, with_outgoing (outgoing n ++ [heartbeat n0 es peer]) n).
Proof.
  intros Hr. unfold heartbeat_to, heartbeat, next_of, u64_saturating_sub.
  rewrite (get_entries_from _ _ _ Hr).
  rewrite (repr_term_at _ _ _ Hr).
  rewrite vec_from_iter_fits; [done|]. rewrite length_take. lia.
Qed.

Lemma heartbeats_to_ok n0 es ps n : log_repr (log n0) es ->
  for_each ps (heartbeat_to n0) n =
    (Ok tt, with_outgoing (outgoing n ++ (heartbeat n0 es <$> ps)) n).
Proof.
  intros Hr. revert n. induction ps as [|peer ps IH]; intros n; simpl.
  - rewrite app_nil_r. by destruct n.
  - rewrite (bind_run _ _ _ _ _ (heartbeat_to_ok n0 n es peer Hr)).
    rewrite IH. simpl. by rewrite <-(assoc_L (++)).
Qed.

Lemma send_heartbeats_ok n es : node_ok n es -> role n = Leader ->
  send_heartbeats n = (Ok tt,
    with_outgoing (outgoing n ++ (heartbeat n es <$> hash_keys (peers n))) n).
Proof.
  intros [Hg Hlog _ _ _ _] Hrole. unfold send_heartbeats.
  rewrite bind_gets, decide_False by naive_solver.
  erewrite scope_log_Ok; [| |rewrite bind_gets; apply (heartbeats_to_ok _ es)]; try done.
  - by destruct n; simplify_eq/=.
  - by destruct Hlog.
Qed.
End send.

(** ** Proposals and responses *)

Section requests.
Context {E : Env} {EL : EnvLaws E}.

Lemma on_log_append n es c : node_ok n es -> wf_command c -> N.of_nat (length es) < u64_max ->
  exists l, scope_log (term <- gets node_term ;; on_log (append term c))%raft n =
      (Ok (N.of_nat (length es) + 1), with_log l n) /\
    log_inv l (spec_append es (node_term n) c) /\ persistent_state l = persistent_state (log n).
Proof.
  intros [Hg Hlog _ _ _ _] Hc Hmax.
  pose proof (repr_last _ _ (inv_repr _ _ Hlog)) as Hlast.
  destruct (append_inv (log n) es (node_term n) c Hlog Hc) as (l & Hrun & Hinv & Hp); [by rewrite Hlast|].
  rewrite Hlast in Hrun. exists l. split_and!; [|done..].
  erewrite scope_log_Ok; [|done|].
  2: { rewrite bind_gets. unfold on_log, zoom. change (log (with_log_guard true n)) with (log n).
       change (node_term (with_log_guard true n)) with (node_term n). by rewrite Hrun. }
  by destruct n; simplify_eq/=.
Qed.

Lemma node_ok_append n es c l : node_ok n es -> N.of_nat (length es) < u64_max ->
  log_inv l (spec_append es (node_term n) c) -> node_ok (with_log l n) (spec_append es (node_term n) c).
Proof.
  intros [Hg Hlog Hsm Happ Hcom Hb] Hmax Hl. unfold spec_append in *.
  split; simpl; try done; rewrite ?length_app; simpl; try lia.
  apply (reflects_prefix _ es); [done|by rewrite take_app_le by lia|]. rewrite length_app. lia.
Qed.

Lemma node_ok_same n n' es : node_ok n es -> log n' = log n -> log_guard n' = log_guard n ->
  state_machine n' = state_machine n -> commit_index n' = commit_index n ->
  last_applied n' = last_applied n -> node_ok n' es.
Proof. intros [] Hl Hg Hs Hc Ha. split; congruence. Qed.

Lemma propose_ok n es c tx : node_ok n es -> role n = Leader ->
  wf_command c -> N.of_nat (length es) < u64_max ->
  let es' := es ++ [mkEntry (N.of_nat (length es) + 1) (node_term n) c] in
  exists n', propose c tx n = (Ok tt, n') /\ node_ok n' es' /\ node_term n' = node_term n /\
    pending_requests n' = <[N.of_nat (length es) + 1 := tx]> (pending_requests n) /\
    commit_index n' = commit_index n /\ replies n' = replies n /\
    outgoing n' = outgoing n ++ (heartbeat n' es' <$> hash_keys (peers n)) /\ role n' = role n /\
    next_index n' = next_index n.
Proof.
  intros Hok Hrole Hc Hmax es'.
  destruct (on_log_append n es c Hok Hc Hmax) as (l & Hrun & Hinv & Hp).
  pose proof (node_ok_append n es c l Hok Hmax Hinv) as Hok'.
  assert (spec_append es (node_term n) c = es') as Heq.
  { unfold spec_append, es'. by replace (N.of_nat (S (length es))) with (N.of_nat (length es) + 1) by lia. }
  rewrite Heq in *. unfold propose. rewrite bind_gets, decide_False by naive_solver.
  rewrite (bind_run _ _ _ _ _ Hrun), bind_modify.
  match goal with |- context [send_heartbeats ?m] => set (n1 := m) end.
  eexists. split; [apply (send_heartbeats_ok n1 es'); [by apply (node_ok_same (with_log l n))|done..]|].
  split_and!; try done; [by apply (node_ok_same (with_log l n))|].
  unfold node_term, log_current_term. simpl. by rewrite Hp.
Qed.

(** The leader's view after [from] reported [m] as its last index. *)
Definition acknowledged (from : string) (m : N) (n : RaftNode) : RaftNode :=
  with_next_index (<[from := u64_add m 1]> (next_index n))
    (with_match_index (<[from := m]> (match_index n)) n).

Lemma response_success_ok n es from resp : node_ok n es -> role n = Leader ->
  aer_term resp <= node_term n -> success resp = true -> commit_index n < u64_max ->
  exists n', handle_append_entries_response from resp n = (Ok tt, n') /\
    try_advance_commit_index (acknowledged from (aer_last_log_index resp) n) = (Ok tt, n').
Proof.
  intros Hok Hrole Ht Hs Hmax. set (n1 := acknowledged from (aer_last_log_index resp) n).
  destruct (try_advance_ok n1 es) as (n' & Hrun & Hok' & _); [by eapply node_ok_same|done..|].
  exists n'. split; [|done]. pose proof (ok_guard _ _ Hok) as Hg.
  unfold handle_append_entries_response. rewrite scope_log_free by done.
  rewrite bind_gets, decide_False by naive_solver. rewrite bind_gets.
  change (node_term (with_log_guard true n)) with (node_term n).
  rewrite (proj2 (N.ltb_ge _ _)) by done. rewrite Hs. unfold drop_log. rewrite !bind_modify.
  match goal with |- context [try_advance_commit_index ?m] => replace m with n1 end.
  2: { unfold n1, acknowledged. by destruct n; simplify_eq/=. }
  rewrite Hrun. pose proof (ok_guard _ _ Hok'). f_equal. by destruct n'; simplify_eq/=.
Qed.

(** Nothing is committed, or the last entry that can be. *)
Lemma acknowledgement_ok n es from resp : node_ok n es -> role n = Leader -> success resp = true ->
  aer_term resp <= node_term n -> commit_index n < u64_max ->
  let n1 := acknowledged from (aer_last_log_index resp) n in
  exists n', handle_append_entries_response from resp n = (Ok tt, n') /\
    try_advance_commit_index n1 = (Ok tt, n') /\ node_ok n' es /\ log n' = log n /\
    ((forall i, commit_index n < i -> ~ committable n1 es i) /\ n' = n1 \/
     exists i, commit_index n < i /\ committable n1 es i /\ (forall j, i < j -> ~ committable n1 es j) /\
       commit_index n' = i /\ last_applied n' = i /\ answered i n1 n').
Proof.
  intros Hok Hrole Hs Ht Hmax n1.
  destruct (response_success_ok n es from resp) as (n' & Hrun & Htry); [done..|].
  destruct (try_advance_ok n1 es) as (n2 & Htry' & Hok' & Hl & Hcase); [by apply (node_ok_same n)|done..|].
  unfold n1 in Htry'. rewrite Htry in Htry'. injection Htry' as <-. by exists n'.
Qed.

(** A newer term seen in an acknowledgement makes a leader step down. *)
Lemma newer_term_ok n es from resp : node_ok n es -> role n = Leader -> node_term n < aer_term resp ->
  exists l, handle_append_entries_response from resp n = (Ok tt, with_role Follower (with_log l n)) /\
    log_inv l es /\ persistent_state l = mkPersistent (aer_term resp) None.
Proof.
  intros [Hg Hlog _ _ _ _] Hrole Ht.
  destruct (set_term_ok (with_log_guard true n) es (aer_term resp) Hlog) as (l & Hrun & Hinv & Hp).
  exists l. split_and!; [|done..]. unfold handle_append_entries_response.
  erewrite scope_log_Ok; [|done|].
  2: { rewrite bind_gets, decide_False by (simpl; naive_solver). rewrite bind_gets.
       change (node_term (with_log_guard true n)) with (node_term n).
       rewrite (proj2 (N.ltb_lt _ _)) by done. unfold drop_log. rewrite bind_modify.
       rewrite (bind_run _ _ _ _ _ (lock_log_free (with_log_guard false (with_log_guard true n)) eq_refl)).
       change (with_log_guard true (with_log_guard false (with_log_guard true n)))
         with (with_log_guard true n). by rewrite (bind_run _ _ _ _ _ Hrun). }
  by destruct n; simplify_eq/=.
Qed.
End requests.
