(* ===== verification/Election.v ===== *)
(** * Elections: what the handlers of the votes do

    For a node in order ([node_ok]) with no file operation that fails: the outcome, the
    whole effect on the state, and the messages of [start_election], [become_leader],
    [handle_request_vote] and [handle_request_vote_response], on every branch. *)

From S2P Require Import Prelude Heapless Protocol Serde HashMap Log LogFacts StateMachine.
From S2P Require Import Config Env LogProps Node NodeFacts Sample Daemon Follower Leader.
Local Open Scope N_scope.

Section election.
Context {E : Env} {EL : EnvLaws E}.

Lemma set_vote_ok n es c : log_inv (log n) es -> exists l,
  on_log (set_voted_for c) n = (Ok tt, with_log l n) /\ log_inv l es /\
  persistent_state l = mkPersistent (node_term n) (string_from ID_CAPACITY <$> c).
Proof.
  intros Hinv. destruct (set_voted_for_inv _ _ c Hinv) as (l & Hrun & Hinv' & Hp).
  exists l. unfold on_log, zoom. by rewrite Hrun.
Qed.

Lemma send_all_ok {A} (f : A -> MessageEnvelope) (xs : list A) n :
  for_each xs (fun x => send (f x)) n = (Ok tt, with_outgoing (outgoing n ++ (f <$> xs)) n).
Proof.
  revert n. induction xs as [|x xs IH]; intros n; simpl.
  - rewrite app_nil_r. by destruct n.
  - unfold send at 1. rewrite bind_modify, IH. simpl. by rewrite <-(assoc_L (++)).
Qed.

(** ** Becoming the leader *)

Lemma init_peers_ok last ps n : exists ni mi, for_each ps (init_peer last) n =
    (Ok tt, with_match_index mi (with_next_index ni n)) /\
  (forall q, ni !! q = if decide (q ∈ ps) then Some (u64_add last 1) else next_index n !! q) /\
  (forall q, mi !! q = if decide (q ∈ ps) then Some 0 else match_index n !! q).
Proof.
  revert n. induction ps as [|p ps IH]; intros n.
  - exists (next_index n), (match_index n). split; [by destruct n|]. by split.
  - simpl. unfold init_peer at 1. rewrite bind_assoc, !bind_modify.
    edestruct IH as (ni & mi & Hrun & Hni & Hmi). exists ni, mi. split; [exact Hrun|].
    split; intros q; [rewrite Hni|rewrite Hmi]; simpl;
      (destruct (decide (q = p)) as [->|];
        [rewrite lookup_insert_eq, (decide_True (P := p ∈ p :: ps)) by (by left); by case_decide
        |rewrite lookup_insert_ne by done; repeat case_decide; set_solver]).
Qed.

(** The state of a node that has just become the leader. *)
Record elected (n : RaftNode) (es : list LogEntry) (n' : RaftNode) : Prop := {
  el_ok : node_ok n' es;
  el_role : role n' = Leader;
  el_leader : leader_id n' = Some (node_id n);
  el_log : log n' = log n;
  el_commit : commit_index n' = commit_index n;
  el_next : forall q, is_Some (peers n !! q) ->
    next_index n' !! q = Some (u64_add (N.of_nat (length es)) 1) /\ match_index n' !! q = Some 0;
  el_sent : outgoing n' = outgoing n ++ (heartbeat n' es <$> hash_keys (peers n));
  el_keys q : is_Some (match_index n' !! q) -> is_Some (peers n !! q) \/ is_Some (match_index n !! q);
}.

Lemma become_leader_ok n es : node_ok n es -> N.of_nat (length es) < u64_max ->
  exists n', become_leader n = (Ok tt, n') /\ elected n es n'.
Proof.
  intros Hok Hmax. pose proof Hok as [Hg Hlog Hsm Happ Hcom Hb].
  pose proof (repr_last _ _ (inv_repr _ _ Hlog)) as Hlast.
  set (n1 := with_leader_id (Some (node_id n)) (with_role Leader n)).
  destruct (init_peers_ok (last_index (log n)) (hash_keys (peers n)) n1) as (ni & mi & Hrun & Hni & Hmi).
  set (n2 := with_match_index mi (with_next_index ni n1)) in *.
  assert (forall q, is_Some (peers n !! q) -> ni !! q = Some (N.of_nat (length es) + 1)) as Hnext.
  { intros q Hq. rewrite Hni, decide_True by (by apply elem_of_hash_keys).
    by rewrite Hlast, u64_add_small by lia. }
  pose proof (send_heartbeats_ok n2 es) as Hsend. eexists. split.
  - unfold become_leader, set_role. rewrite !bind_modify.
    erewrite bind_run; [|apply scope_log_Ok; [done|reflexivity]]. rewrite bind_gets.
    replace (with_log_guard false _) with n1 by (unfold n1; destruct n; simplify_eq/=; done).
    change (last_index (log (with_log_guard true _))) with (last_index (log n)).
    rewrite (bind_run _ _ _ _ _ Hrun). by apply Hsend; [apply (node_ok_same n)|].
  - split; try done.
    + intros q Hq. simpl. rewrite Hnext, Hmi by done.
      rewrite u64_add_small, decide_True by (lia || by apply elem_of_hash_keys). done.
    + intros q. simpl. rewrite Hmi. case_decide as Hq; [|by right].
      left. by apply elem_of_hash_keys.
Qed.

(** ** Starting an election *)

(** The vote request of a candidate with the log [es]. *)
Definition vote_request (n : RaftNode) (es : list LogEntry) (t : N) (peer : string) : MessageEnvelope :=
  MessageEnvelope_new (node_id n) peer (RequestVote (mkRequestVote t
    (string_from ID_CAPACITY (node_id n)) (N.of_nat (length es))
    (default 0 (term <$> last es)))).

(** A candidate of the next term: its vote is its own and recorded. *)
Record candidate (n : RaftNode) (es : list LogEntry) (n' : RaftNode) : Prop := {
  ca_ok : node_ok n' es;
  ca_role : role n' = Candidate;
  ca_state : persistent_state (log n') =
    mkPersistent (u64_add (node_term n) 1) (Some (string_from ID_CAPACITY (node_id n)));
  ca_votes : votes_received n' = [node_id n];
  ca_timer : last_heartbeat n' = clock n;
  ca_commit : commit_index n' = commit_index n;
  ca_sent : outgoing n' = outgoing n ++
    (vote_request n es (u64_add (node_term n) 1) <$> hash_keys (peers n));
  ca_match : match_index n' = match_index n;
}.

Lemma node_ok_log n es l : node_ok n es -> log_inv l es -> node_ok (with_log l n) es.
Proof. intros [] Hl. by split. Qed.

Lemma repr_last_term l es : log_repr l es -> last_term l = default 0 (term <$> last es).
Proof.
  intros Hr. unfold last_term. rewrite (repr_entries _ _ Hr), (repr_last _ _ Hr).
  rewrite last_lookup. destruct es as [|e es]; [done|]. simpl length.
  rewrite lookup1_S. simpl. by destruct (_ !! _).
Qed.

(** The part of [start_election] before the single-node case. *)
Definition campaign (l : RaftLog) (n : RaftNode) (es : list LogEntry) : RaftNode :=
  with_outgoing (outgoing n ++
      (vote_request n es (u64_add (node_term n) 1) <$> hash_keys (peers n)))
    (with_last_heartbeat (clock n) (with_votes_received [node_id n]
      (with_role Candidate (with_log l n)))).

Lemma campaign_ok n es l : node_ok n es -> log_inv l es ->
  persistent_state l =
    mkPersistent (u64_add (node_term n) 1) (Some (string_from ID_CAPACITY (node_id n))) ->
  candidate n es (campaign l n es).
Proof.
  intros Hok Hl Hp. split; try done.
  apply (node_ok_same (with_log l n)); try done. by apply node_ok_log.
Qed.

Lemma start_election_run n es : node_ok n es -> exists l, log_inv l es /\
  persistent_state l =
    mkPersistent (u64_add (node_term n) 1) (Some (string_from ID_CAPACITY (node_id n))) /\
  start_election n = scope_log (fun _ => (when (bool_decide (hash_keys (peers n) = []))
    (drop_log ;;; become_leader))%raft (campaign l (with_log_guard true n) es)) n.
Proof.
  intros [Hg Hlog _ _ _ _]. set (ng := with_log_guard true n).
  set (t := u64_add (node_term n) 1).
  destruct (set_term_ok ng es t Hlog) as (l1 & Hrun1 & Hinv1 & Hp1).
  destruct (set_vote_ok (with_log l1 ng) es (Some (node_id n)) Hinv1) as (l2 & Hrun2 & Hinv2 & Hp2).
  exists l2. split_and!; [done| |].
  { rewrite Hp2. unfold node_term, log_current_term. simpl. by rewrite Hp1. }
  unfold start_election. rewrite !scope_log_free by done. fold ng.
  rewrite bind_gets. change (u64_add (node_term ng) 1) with t.
  rewrite (bind_run _ _ _ _ _ Hrun1), bind_gets.
  change (node_id (with_log l1 ng)) with (node_id n).
  rewrite (bind_run _ _ _ _ _ Hrun2). unfold set_role, reset_heartbeat.
  rewrite !bind_modify, !bind_gets. rewrite (bind_run _ _ _ _ _ (send_all_ok _ _ _)).
  change (last_index (log _)) with (last_index l2). change (last_term (log _)) with (last_term l2).
  rewrite (repr_last _ _ (inv_repr _ _ Hinv2)), (repr_last_term _ _ (inv_repr _ _ Hinv2)).
  done.
Qed.

Lemma start_election_ok n es : node_ok n es -> N.of_nat (length es) < u64_max ->
  exists n1, candidate n es n1 /\
    (peers n <> ∅ -> start_election n = (Ok tt, n1)) /\
    (peers n = ∅ -> exists n', start_election n = (Ok tt, n') /\ elected n1 es n').
Proof.
  intros Hok Hmax. destruct (start_election_run n es Hok) as (l & Hl & Hp & Hrun).
  pose proof (ok_guard _ _ Hok) as Hg. pose proof (campaign_ok n es l Hok Hl Hp) as Hcand.
  exists (campaign l n es). split; [done|]. rewrite Hrun, scope_log_free by done. unfold when.
  assert (with_log_guard false (campaign l (with_log_guard true n) es) = campaign l n es) as Heq.
  { unfold campaign. by destruct n; simplify_eq/=. }
  split; intros Hps.
  - rewrite bool_decide_false by (by rewrite hash_keys_nil). unfold ret. by rewrite Heq.
  - rewrite bool_decide_true by (by apply hash_keys_nil). unfold drop_log. rewrite bind_modify, Heq.
    destruct (become_leader_ok (campaign l n es) es) as (n' & Hrun' & Hel); [apply Hcand|done|].
    exists n'. split; [|done]. rewrite Hrun'. pose proof (ok_guard _ _ (el_ok _ _ _ Hel)).
    f_equal. by destruct n'; simplify_eq/=.
Qed.

(** ** Answering a vote request *)

(** The conditions on which the vote is given: a term that is not past, no vote for
    another candidate in it, and a log at least as up to date as [es]. *)
Definition up_to_date (req : RequestVoteRequest) (es : list LogEntry) : Prop :=
  let t := default 0 (term <$> last es) in
  t < rv_last_log_term req \/ rv_last_log_term req = t /\ N.of_nat (length es) <= rv_last_log_index req.

Definition free_to_vote (req : RequestVoteRequest) (p : PersistentState) : Prop :=
  current_term p < rv_term req \/
  current_term p = rv_term req /\ (voted_for p = None \/ voted_for p = Some (candidate_id req)).

Definition vote_response (n : RaftNode) (to : string) (t : N) (granted : bool) : MessageEnvelope :=
  MessageEnvelope_new (node_id n) to (RequestVoteResp
    (mkRequestVoteResponse t granted (string_from ID_CAPACITY (node_id n)))).

(** The state after the answer [granted]: only what the vote concerns has changed. *)
Record answered_vote (n : RaftNode) (es : list LogEntry) (from : string) (req : RequestVoteRequest)
    (granted : bool) (n' : RaftNode) : Prop := {
  av_ok : node_ok n' es;
  av_term : node_term n' = N.max (node_term n) (rv_term req);
  av_vote : granted = true -> log_voted_for (log n') = Some (string_from ID_CAPACITY (candidate_id req));
  av_novote : granted = false -> log_voted_for (log n') =
    if node_term n <? rv_term req then None else log_voted_for (log n);
  av_role : role n' = if node_term n <? rv_term req then Follower else role n;
  av_timer : last_heartbeat n' = if granted then clock n else last_heartbeat n;
  av_commit : commit_index n' = commit_index n;
  av_sent : outgoing n' = outgoing n ++
    [vote_response n from (N.max (node_term n) (rv_term req)) granted];
  av_match : match_index n' = match_index n;
}.

Lemma log_ok_spec req l es : log_repr l es -> log_ok req l = true <-> up_to_date req es.
Proof.
  intros Hr. unfold log_ok, up_to_date. rewrite (repr_last_term _ _ Hr), (repr_last _ _ Hr).
  rewrite orb_true_iff, andb_true_iff, N.ltb_lt, N.eqb_eq, N.leb_le. done.
Qed.

Lemma vote_node_ok n n' es l : node_ok n es -> log_inv l es -> log n' = l ->
  log_guard n' = false -> state_machine n' = state_machine n -> commit_index n' = commit_index n ->
  last_applied n' = last_applied n -> node_ok n' es.
Proof.
  intros Hok Hl ? Hg ? ? ?. apply (node_ok_same (with_log l n)); try done; [by apply node_ok_log|].
  rewrite Hg. symmetry. apply (ok_guard _ _ Hok).
Qed.

Lemma vote_granted_ok n es from req : node_ok n es -> up_to_date req es ->
  free_to_vote req (persistent_state (log n)) -> exists n',
  handle_request_vote from req n = (Ok tt, n') /\ answered_vote n es from req true n'.
Proof.
  intros Hok Hup Hfree. pose proof Hok as [Hg Hlog _ _ _ _]. set (ng := with_log_guard true n).
  assert (node_term n <= rv_term req) as Ht.
  { unfold node_term, log_current_term. destruct Hfree as [|[]]; lia. }
  destruct (adopt_term_ok ng es (rv_term req) Hlog Ht) as (l1 & Hrun1 & Hinv1 & Hp1).
  change (node_term ng) with (node_term n) in *. set (n1 := with_role _ _) in Hrun1.
  destruct (set_vote_ok n1 es (Some (candidate_id req)) Hinv1) as (l2 & Hrun2 & Hinv2 & Hp2).
  assert (node_term n1 = rv_term req) as Ht1.
  { unfold node_term, log_current_term. simpl. rewrite Hp1.
    destruct (node_term n <? rv_term req) eqn:Hlt; [done|]. apply N.ltb_ge in Hlt.
    apply N.le_antisymm; [exact Ht|exact Hlt]. }
  assert (node_term (with_last_heartbeat (clock n) (with_log l2 n1)) = rv_term req) as Ht2.
  { unfold node_term, log_current_term. simpl. by rewrite Hp2. }
  assert (can_vote req l1 && log_ok req l1 = true) as Hyes.
  { apply andb_true_iff. split; [|by apply (log_ok_spec req l1 es (inv_repr _ _ Hinv1))].
    apply bool_decide_eq_true. unfold log_voted_for. rewrite Hp1.
    destruct (N.ltb_spec (node_term n) (rv_term req)) as [Hlt|Hge]; [by left|].
    destruct Hfree as [Hlt|[_ Hv]]; [|done]. unfold node_term, log_current_term in Hge. lia. }
  eexists. split.
  - unfold handle_request_vote. apply scope_log_Ok; [done|]. rewrite bind_gets.
    change (node_term (with_log_guard true n)) with (node_term n).
    rewrite (proj2 (N.ltb_ge _ _)) by done. rewrite (bind_run _ _ _ _ _ Hrun1), bind_gets.
    change (log n1) with l1. rewrite Hyes, (bind_run _ _ _ _ _ Hrun2).
    unfold reset_heartbeat, send_request_vote_response. rewrite bind_modify, !bind_gets.
    reflexivity.
  - split; simpl; try done.
    + by eapply (vote_node_ok n _ _ l2).
    + rewrite N.max_r by done. exact Ht2.
    + intros _. unfold log_voted_for. by rewrite Hp2.
    + rewrite N.max_r by done. unfold vote_response. do 3 f_equal.
      change (clock (with_log l2 n1)) with (clock n). by rewrite Ht2.
Qed.

Lemma vote_refused_ok n es from req : node_ok n es ->
  ~ (up_to_date req es /\ free_to_vote req (persistent_state (log n))) -> exists n',
  handle_request_vote from req n = (Ok tt, n') /\ answered_vote n es from req false n'.
Proof.
  intros Hok Hno. pose proof Hok as [Hg Hlog _ _ _ _]. set (ng := with_log_guard true n).
  destruct (decide (rv_term req < node_term n)) as [Hold|Ht].
  - eexists. split.
    + unfold handle_request_vote. apply scope_log_Ok; [done|]. rewrite bind_gets.
      change (node_term (with_log_guard true n)) with (node_term n).
      rewrite (proj2 (N.ltb_lt _ _)) by done. unfold send_request_vote_response.
      rewrite !bind_gets. reflexivity.
    + split; simpl; rewrite ?(proj2 (N.ltb_ge _ _)), ?N.max_l by lia; try done.
      by apply (node_ok_same n).
  - apply N.nlt_ge in Ht.
    destruct (adopt_term_ok ng es (rv_term req) Hlog Ht) as (l1 & Hrun1 & Hinv1 & Hp1).
    change (node_term ng) with (node_term n) in *. set (n1 := with_role _ _) in Hrun1.
    assert (node_term n1 = rv_term req) as Ht1.
    { unfold node_term, log_current_term. simpl. rewrite Hp1.
      destruct (node_term n <? rv_term req) eqn:Hlt; [done|]. apply N.ltb_ge in Hlt.
      apply N.le_antisymm; [exact Ht|exact Hlt]. }
    assert (can_vote req l1 && log_ok req l1 = false) as Hyes.
    { apply not_true_iff_false. rewrite andb_true_iff, (log_ok_spec req l1 es (inv_repr _ _ Hinv1)).
      intros [Hv Hup]. apply Hno. split; [done|]. apply bool_decide_eq_true in Hv.
      unfold log_voted_for in Hv. rewrite Hp1 in Hv. unfold free_to_vote.
      destruct (N.ltb_spec (node_term n) (rv_term req)) as [Hlt|Hge]; [by left|right].
      split; [|done]. unfold node_term, log_current_term in *. lia. }
    eexists. split.
    + unfold handle_request_vote. apply scope_log_Ok; [done|]. rewrite bind_gets.
      change (node_term (with_log_guard true n)) with (node_term n).
      rewrite (proj2 (N.ltb_ge _ _)) by done. rewrite (bind_run _ _ _ _ _ Hrun1), bind_gets.
      change (log n1) with l1. rewrite Hyes. unfold send_request_vote_response.
      rewrite !bind_gets. reflexivity.
    + split; simpl; try done.
      * by eapply (vote_node_ok n _ _ l1).
      * rewrite N.max_r by done. exact Ht1.
      * intros _. unfold log_voted_for. rewrite Hp1. by destruct (_ <? _).
      * rewrite N.max_r by done. unfold vote_response. by rewrite Ht1.
Qed.

(** ** Counting votes *)

Definition with_vote (from : string) (n : RaftNode) : RaftNode :=
  if decide (from ∈ votes_received n) then n
  else with_votes_received (votes_received n ++ [from]) n.

(** The votes are enough, by the count of the code. *)
Definition enough_votes (n : RaftNode) : Prop :=
  (size (peers n) + 1 < 2 * (length (votes_received n) + 1))%nat.

Lemma with_vote_guard from b n : with_vote from (with_log_guard b n) = with_log_guard b (with_vote from n).
Proof. unfold with_vote. by destruct n; simpl; case_decide. Qed.

Lemma with_vote_ok from n es : node_ok n es -> node_ok (with_vote from n) es.
Proof. intros Hok. apply (node_ok_same n); [done|..]; unfold with_vote; by case_decide. Qed.

(** A candidate that is granted a vote. *)
Lemma vote_counted_ok n es from resp : node_ok n es -> role n = Candidate ->
  rvr_term resp <= node_term n -> vote_granted resp = true -> N.of_nat (length es) < u64_max ->
  (enough_votes (with_vote from n) -> exists n',
    handle_request_vote_response from resp n = (Ok tt, n') /\ elected (with_vote from n) es n') /\
  (~ enough_votes (with_vote from n) ->
    handle_request_vote_response from resp n = (Ok tt, with_vote from n)).
Proof.
  intros Hok Hrole Ht Hv Hmax. pose proof (ok_guard _ _ Hok) as Hg.
  pose proof (with_vote_ok from n es Hok) as Hok1. pose proof (ok_guard _ _ Hok1) as Hg1.
  set (n1 := with_vote from n) in *.
  assert (handle_request_vote_response from resp n = scope_log (fun _ =>
    when (majority_of (size (peers n1) + 1) <=? length (votes_received n1) + 1)%nat
      (drop_log ;;; become_leader)%raft (with_log_guard true n1)) n) as ->.
  { unfold handle_request_vote_response. rewrite !scope_log_free by done.
    rewrite bind_gets, decide_False by (simpl; rewrite Hrole; naive_solver). rewrite bind_gets.
    change (node_term (with_log_guard true n)) with (node_term n).
    rewrite (proj2 (N.ltb_ge _ _)), Hv by done. unfold when at 1. rewrite bind_modify, !bind_gets.
    change (if decide _ then _ else _) with (with_vote from (with_log_guard true n)).
    by rewrite with_vote_guard. }
  rewrite scope_log_free by done. unfold when, enough_votes.
  destruct (_ <=? _)%nat eqn:Hm.
  - apply Nat.leb_le, majority_of_spec in Hm. split; [intros _|done].
    unfold drop_log. rewrite bind_modify.
    replace (with_log_guard false (with_log_guard true n1)) with n1 by (destruct n1; simplify_eq/=; done).
    destruct (become_leader_ok n1 es Hok1 Hmax) as (n' & Hrun & Hel).
    exists n'. split; [|done]. rewrite Hrun. pose proof (ok_guard _ _ (el_ok _ _ _ Hel)).
    f_equal. by destruct n'; simplify_eq/=.
  - apply Nat.leb_gt in Hm. split; intros He.
    + apply majority_of_spec in He. lia.
    + f_equal. unfold ret. by destruct n1; simplify_eq/=.
Qed.

(** A newer term seen in a response makes a candidate or a leader step down. *)
Lemma newer_vote_term_ok n es from resp : node_ok n es -> role n = Candidate ->
  node_term n < rvr_term resp -> exists l,
  handle_request_vote_response from resp n = (Ok tt, with_role Follower (with_log l n)) /\
  log_inv l es /\ persistent_state l = mkPersistent (rvr_term resp) None.
Proof.
  intros [Hg Hlog _ _ _ _] Hrole Ht.
  destruct (set_term_ok (with_log_guard true n) es (rvr_term resp) Hlog) as (l & Hrun & Hinv & Hp).
  exists l. split_and!; [|done..]. unfold handle_request_vote_response.
  erewrite scope_log_Ok; [|done|].
  2: { rewrite bind_gets, decide_False by (simpl; rewrite Hrole; naive_solver). rewrite bind_gets.
       change (node_term (with_log_guard true n)) with (node_term n).
       rewrite (proj2 (N.ltb_lt _ _)) by done. unfold drop_log. rewrite bind_modify.
       rewrite (bind_run _ _ _ _ _ (lock_log_free (with_log_guard false (with_log_guard true n)) eq_refl)).
       change (with_log_guard true (with_log_guard false (with_log_guard true n)))
         with (with_log_guard true n). by rewrite (bind_run _ _ _ _ _ Hrun). }
  by destruct n; simplify_eq/=.
Qed.
End election.
