(* ===== verification/Invariant.v ===== *)
(** * The invariant of a node, through the rounds of the daemon

    [node_ok n es] ties together the log in memory, the two files, the store, and the
    indices.  Every round of a daemon whose file operations succeed keeps it, with the
    outcome [Ok]; the one exception is a refused [AppendEntries], which deadlocks. *)

From Stdlib Require Import Init.Byte.
From S2P Require Import Prelude Heapless Protocol Serde HashMap Log LogFacts StateMachine.
From S2P Require Import Config Env LogProps Node NodeFacts Sample Daemon Follower Leader.
From S2P Require Import Election.
Local Open Scope N_scope.

(** What a request must satisfy to be accepted by a node with the log [es]: its sender is
    not behind, the log holds the entry before the new ones, these are well formed and
    numbered from there, and they agree with what the node has committed. *)
Record acceptable (n : RaftNode) (es : list LogEntry) (req : AppendEntriesRequest) : Prop := {
  acp_term : log_current_term (log n) <= ae_term req;
  acp_matches : matches es (N.to_nat (prev_log_index req)) (prev_log_term req);
  acp_wf : Forall wf_entry (ae_entries req);
  acp_numbered : consecutive (N.to_nat (prev_log_index req)) (ae_entries req);
  acp_bound : N.of_nat (length (follower_log es (N.to_nat (prev_log_index req)) (ae_entries req))) <= u64_max;
  acp_committed : take (N.to_nat (commit_index n))
      (follower_log es (N.to_nat (prev_log_index req)) (ae_entries req)) =
    take (N.to_nat (commit_index n)) es;
}.

(** The rounds the invariant covers. *)
Definition admissible (n : RaftNode) (es : list LogEntry) (ev : event) : Prop :=
  match ev with
  | Deliver env =>
      match message env with
      | AppendEntries req => acceptable n es req
      | _ => True
      end
  | Propose command _ => wf_command command
  | _ => True
  end.

Section invariant.
Context {E : Env} {EL : EnvLaws E}.

(** A program that succeeds and keeps the invariant, for some log. *)
Definition keeps_ok {A} (m : M RaftNode A) (n : RaftNode) : Prop :=
  exists a n' es', m n = (Ok a, n') /\ node_ok n' es'.

Lemma heartbeats_any n0 ps n : exists ms, for_each ps (heartbeat_to n0) n =
  (Ok tt, with_outgoing (outgoing n ++ ms) n).
Proof.
  revert n. induction ps as [|peer ps IH]; intros n; simpl.
  - exists []. rewrite app_nil_r. by destruct n.
  - unfold heartbeat_to at 1. rewrite vec_from_iter_fits by (rewrite length_take; lia).
    unfold send at 1. rewrite bind_modify. edestruct IH as [ms ->]. simpl.
    eexists. by rewrite <-(assoc_L (++)).
Qed.

Lemma send_heartbeats_keeps n es : node_ok n es -> exists n', send_heartbeats n = (Ok tt, n') /\
  node_ok n' es.
Proof.
  intros Hok. unfold send_heartbeats. rewrite bind_gets. case_decide; [by eexists|].
  pose proof (ok_guard _ _ Hok) as Hg.
  destruct (heartbeats_any (with_log_guard true n) (hash_keys (peers (with_log_guard true n)))
    (with_log_guard true n)) as [ms Hrun].
  eexists. split; [apply scope_log_Ok; [done|rewrite bind_gets; exact Hrun]|].
  by apply (node_ok_same n).
Qed.

Lemma response_keeps n es from resp : node_ok n es -> N.of_nat (length es) < u64_max ->
  keeps_ok (handle_append_entries_response from resp) n.
Proof.
  intros Hok Hmax. pose proof Hok as [Hg Hlog _ _ Hcom _].
  destruct (decide (role n = Leader)) as [Hrole|Hrole].
  2: { exists tt. eexists _, es. split.
       - apply scope_log_Ok; [done|]. rewrite bind_gets, decide_True by done. reflexivity.
       - by apply (node_ok_same n). }
  destruct (decide (node_term n < aer_term resp)) as [Ht|Ht].
  - destruct (newer_term_ok n es from resp) as (l & Hrun & Hinv & _); [done..|].
    exists tt. eexists _, es. split; [exact Hrun|by apply (vote_node_ok n _ _ l)].
  - apply N.nlt_ge in Ht. destruct (success resp) eqn:Hs.
    + destruct (response_success_ok n es from resp) as (n' & Hrun & Htry); [done..|lia|].
      destruct (try_advance_ok (acknowledged from (aer_last_log_index resp) n) es)
        as (n2 & Htry' & Hok' & _); [by apply (node_ok_same n)|done|simpl; lia|].
      rewrite Htry in Htry'. injection Htry' as <-. by exists tt, n', es.
    + exists tt. eexists _, es. split.
      * apply scope_log_Ok; [done|]. rewrite bind_gets, decide_False by (simpl; naive_solver).
        rewrite bind_gets. change (node_term (with_log_guard true n)) with (node_term n).
        rewrite (proj2 (N.ltb_ge _ _)), Hs by done. reflexivity.
      * by apply (node_ok_same n).
Qed.

Lemma vote_request_keeps n es from req : node_ok n es -> keeps_ok (handle_request_vote from req) n.
Proof.
  intros Hok. destruct (decide (up_to_date req es /\ free_to_vote req (persistent_state (log n))))
    as [[]|]; [destruct (vote_granted_ok n es from req) as (n' & ? & [])
              |destruct (vote_refused_ok n es from req) as (n' & ? & [])]; try done; by exists tt, n', es.
Qed.

(** A scope that leaves the node as it was. *)
Lemma scope_same_keeps {A} (body : M RaftNode A) (a : A) n es : node_ok n es ->
  body (with_log_guard true n) = (Ok a, with_log_guard true n) -> keeps_ok (scope_log body) n.
Proof.
  intros Hok Hrun. exists a. eexists _, es.
  pose proof (ok_guard _ _ Hok) as Hg.
  split; [by apply (scope_log_Ok _ _ _ _ Hg Hrun)|by apply (node_ok_same n)].
Qed.

Lemma vote_response_keeps n es from resp : node_ok n es -> N.of_nat (length es) < u64_max ->
  keeps_ok (handle_request_vote_response from resp) n.
Proof.
  intros Hok Hmax. destruct (decide (role n = Candidate)) as [Hrole|Hrole].
  2: { apply (scope_same_keeps _ tt n es Hok). by rewrite bind_gets, decide_True. }
  destruct (decide (node_term n < rvr_term resp)) as [Ht|Ht].
  - destruct (newer_vote_term_ok n es from resp) as (l & Hrun & Hinv & _); [done..|].
    exists tt. eexists _, es. split; [exact Hrun|]. pose proof (ok_guard _ _ Hok). by apply (vote_node_ok n _ _ l).
  - apply N.nlt_ge in Ht. destruct (vote_granted resp) eqn:Hv.
    + destruct (vote_counted_ok n es from resp) as [Hyes Hno]; [done..|].
      destruct (decide (enough_votes (with_vote from n))) as [He|He].
      * destruct (Hyes He) as (n' & Hrun & Hel). exists tt, n', es. split; [done|apply Hel].
      * exists tt. eexists _, es. split; [by apply Hno|by apply with_vote_ok].
    + apply (scope_same_keeps _ tt n es Hok). rewrite bind_gets, decide_False by (simpl; naive_solver).
      rewrite bind_gets. change (node_term (with_log_guard true n)) with (node_term n).
      by rewrite (proj2 (N.ltb_ge _ _)), Hv.
Qed.

Lemma election_keeps n es timeout : node_ok n es -> N.of_nat (length es) < u64_max ->
  keeps_ok (election_tick timeout) n.
Proof.
  intros Hok Hmax. assert (keeps_ok (ret tt) n) as Hret by by exists tt, n, es.
  unfold election_tick. unfold keeps_ok. rewrite bind_gets. unfold when at 1. case_match; [|done].
  rewrite bind_gets. unfold when. case_match; [|done].
  destruct (start_election_ok n es Hok Hmax) as (n1 & Hcand & Hsome & Hnone).
  destruct (decide (peers n = ∅)) as [Hps|Hps].
  - destruct (Hnone Hps) as (n' & Hrun & Hel). exists tt, n', es. split; [done|apply Hel].
  - exists tt, n1, es. split; [by apply Hsome|apply Hcand].
Qed.

Lemma propose_keeps n es c tx : node_ok n es -> N.of_nat (length es) < u64_max -> wf_command c ->
  keeps_ok (propose c tx) n.
Proof.
  intros Hok Hmax Hc. unfold propose, keeps_ok. rewrite bind_gets. case_decide.
  - rewrite bind_gets. exists tt. eexists _, es. split; [reflexivity|by apply (node_ok_same n)].
  - destruct (on_log_append n es c Hok Hc Hmax) as (l & Hrun & Hinv & _).
    rewrite (bind_run _ _ _ _ _ Hrun), bind_modify.
    pose proof (node_ok_append n es c l Hok Hmax Hinv) as Hok'.
    match goal with |- context [send_heartbeats ?m] =>
      destruct (send_heartbeats_keeps m (spec_append es (node_term n) c)) as (n' & Hrun' & Hok'') end.
    { by apply (node_ok_same (with_log l n)). }
    by exists tt, n', (spec_append es (node_term n) c).
Qed.

Lemma membership_keeps n es : node_ok n es ->
  (forall id addr, keeps_ok (add_peer id addr) n) /\ (forall id, keeps_ok (remove_peer id) n).
Proof.
  intros Hok. pose proof (ok_guard _ _ Hok) as Hg. split; [intros id addr|intros id].
  - unfold add_peer, keeps_ok. rewrite bind_modify, bind_gets. unfold when. case_match.
    + exists tt. eexists _, es. split; [apply scope_log_Ok; [done|reflexivity]|by apply (node_ok_same n)].
    + exists tt. eexists _, es. split; [reflexivity|by apply (node_ok_same n)].
  - exists tt. eexists _, es. split; [reflexivity|by apply (node_ok_same n)].
Qed.

Lemma append_keeps n es from req : node_ok n es -> acceptable n es req ->
  keeps_ok (handle_append_entries from req) n.
Proof.
  intros Hok [].
  destruct (accept_ok n es from req (N.to_nat (prev_log_index req))) as (n' & Hrun & Hacc); try done; [lia|].
  exists tt, n'. eexists. split; [done|apply Hacc].
Qed.

Lemma round_keeps n es ev : node_ok n es -> N.of_nat (length es) < u64_max -> admissible n es ev ->
  keeps_ok (run_event ev) n.
Proof.
  intros Hok Hmax Hadm. assert (keeps_ok (ret tt) n) as Hret by by exists tt, n, es.
  destruct ev as [[f t m]|timeout| |c tx|id addr|id| ]; simpl in *.
  - unfold handle_message. destruct m; simpl in *; try done.
    + by eapply append_keeps.
    + by eapply response_keeps.
    + by eapply vote_request_keeps.
    + by eapply vote_response_keeps.
  - by eapply election_keeps.
  - unfold heartbeat_tick, keeps_ok. rewrite bind_gets. unfold when. case_match; [|done].
    destruct (send_heartbeats_keeps n es Hok) as (n' & ? & ?). by exists tt, n', es.
  - by eapply propose_keeps.
  - by eapply membership_keeps.
  - by eapply membership_keeps.
  - pose proof (ok_guard _ _ Hok) as Hg.
    exists tt. eexists _, es. split.
    + erewrite bind_run; [reflexivity|]. apply scope_log_Ok; [done|reflexivity].
    + by apply (node_ok_same n).
Qed.

Lemma restart_ok n es now : node_ok n es -> exists n', restart n [] now = Ok n' /\ node_ok n' es /\
  persistent_state (log n') = persistent_state (log n) /\ role n' = Follower /\
  commit_index n' = 0 /\ last_applied n' = 0 /\ data (state_machine n') = ∅.
Proof.
  intros [_ Hlog _ _ _ Hb]. destruct (restart_log n es now Hlog) as (n' & Hrun & Hlog' & Hp).
  exists n'. split; [done|]. unfold restart, RaftNode_new in Hrun.
  destruct (RaftLog_new _ _); simplify_eq/=.
  split_and!; try done. split; simpl; [done..| |done|lia|done]. split_and!; try done. simpl. lia.
Qed.
End invariant.

(** ** Runs *)

(** A daemon started on an empty directory, whose file operations succeed, and whose rounds are
    all admissible: none of them refuses a request.  [daemon_run] of Effects.v has refusals. *)
Inductive in_order_run {E : Env} (cfg : Config) : RaftNode -> Prop :=
  | run_start now n : RaftNode_new cfg (mkDir ∅ []) now = Ok n -> in_order_run cfg n
  | run_round n es ev : in_order_run cfg n -> node_ok n es -> N.of_nat (length es) < u64_max ->
      admissible n es ev -> in_order_run cfg (run_event ev n).2
  | run_time n now : in_order_run cfg n -> clock n <= now -> in_order_run cfg (with_clock now n)
  | run_restart n n' now : in_order_run cfg n -> restart n [] now = Ok n' -> in_order_run cfg n'.

Lemma in_order_run_ok {E : Env} {EL : EnvLaws E} cfg n : in_order_run cfg n -> exists es, node_ok n es.
Proof.
  induction 1 as [now n Hn|n es ev _ _ Hok Hmax Hadm|n now _ [es Hok] _|n n' now _ [es Hok] Hn].
  - destruct (fresh_ok cfg now) as (n' & Hn' & Hok). rewrite Hn in Hn'. simplify_eq. by exists [].
  - destruct (round_keeps n es ev Hok Hmax Hadm) as (a & n' & es' & Hrun & Hok').
    exists es'. by rewrite Hrun.
  - exists es. by apply (node_ok_same n).
  - destruct (restart_ok n es now Hok) as (n2 & Hn2 & Hok2 & _).
    rewrite Hn in Hn2. simplify_eq. by exists es.
Qed.

(** ** Concrete runs

    A list of events none of which is an [AppendEntries] is checked by evaluation. *)

Definition plain (ev : event) : bool :=
  match ev with
  | Deliver env => match message env with AppendEntries _ => false | _ => true end
  | Propose command _ => bool_decide (wf_command command)
  | _ => true
  end.

Fixpoint plain_run {E : Env} (evs : list event) (n : RaftNode) : bool :=
  match evs with
  | [] => true
  | ev :: evs' => plain ev && (last_index (log n) <? u64_max) && plain_run evs' (run_event ev n).2
  end.

Definition log_entries (l : RaftLog) : list LogEntry := get_entries l 1 (last_index l).

Lemma log_entries_repr {E : Env} {EL : EnvLaws E} l es : log_inv l es -> log_entries l = es.
Proof.
  intros Hl. unfold log_entries. change 1 with (N.of_nat 1).
  by rewrite (repr_get_entries _ es 0 (inv_repr _ _ Hl)).
Qed.

Lemma plain_run_in_order {E : Env} {EL : EnvLaws E} cfg evs n : in_order_run cfg n ->
  plain_run evs n = true -> in_order_run cfg (run_events evs n).
Proof.
  revert n. induction evs as [|ev evs IH]; intros n Hn Hp; [done|]. simpl in *.
  apply andb_true_iff in Hp as [[Hpl Hlt]%andb_true_iff Hp]. apply IH; [|done].
  destruct (in_order_run_ok cfg n Hn) as [es Hok]. apply (run_round cfg n es); try done.
  - apply N.ltb_lt in Hlt. by rewrite (repr_last _ _ (inv_repr _ _ (ok_log _ _ Hok))) in Hlt.
  - unfold plain in Hpl. destruct ev as [[f t []]| | | | | |]; simpl in *; try done.
    by apply bool_decide_eq_true in Hpl.
Qed.

Lemma in_order_entries {E : Env} {EL : EnvLaws E} cfg n : in_order_run cfg n ->
  node_ok n (log_entries (log n)).
Proof.
  intros Hn. destruct (in_order_run_ok cfg n Hn) as [es Hok].
  by rewrite (log_entries_repr _ es (ok_log _ _ Hok)).
Qed.

Lemma sample_in_order all me : @in_order_run ref_env (member_config all me) (sample all me).
Proof. by apply (run_start _ 0). Qed.

Lemma sample_run_ok all me evs : @plain_run ref_env evs (sample all me) = true ->
  @node_ok ref_env (@run_events ref_env evs (sample all me))
    (log_entries (log (@run_events ref_env evs (sample all me)))).
Proof.
  intros Hp. eapply (in_order_entries (member_config all me)), plain_run_in_order; [|done].
  apply sample_in_order.
Qed.

(** [node-01] elected in term 1 by [node-02], after [k] proposals. *)
Definition elected_by (all : list string) (me voter : string) : list event :=
  [ElectionTick 0; Deliver (mkEnvelope voter me (RequestVoteResp (mkRequestVoteResponse 1 true voter)))].

Definition example_events : list event :=
  elected_by three "node-01" "node-02" ++ [Propose (Put "a" [x61]) 7; Propose (Delete "b") 8].

Definition example_leader : RaftNode := @run_events ref_env example_events (sample three "node-01").

(** ** Properties *)

(** C31: Every admissible round of a node in order terminates with success, without deadlock,
    panic or loop, and leaves the node in order. *)
Theorem rounds_complete {E : Env} {EL : EnvLaws E} n es ev : node_ok n es ->
  N.of_nat (length es) < u64_max -> admissible n es ev ->
  exists n' es', run_event ev n = (Ok tt, n') /\ node_ok n' es'.
Proof.
  intros Hok Hmax Hadm. destruct (round_keeps n es ev Hok Hmax Hadm) as ([] & n' & es' & ? & ?).
  by exists n', es'.
Qed.

Lemma rounds_complete_witness : exists n' es', @run_event ref_env
    (Deliver (mkEnvelope "node-02" "node-01" (AppendEntriesResp (mkAppendEntriesResponse 1 true 2 "node-02"))))
    example_leader = (Ok tt, n') /\ @node_ok ref_env n' es'.
Proof.
  apply (@rounds_complete ref_env _ _ (log_entries (log example_leader))); [|by vm_compute|done].
  by apply (sample_run_ok three "node-01" example_events); vm_compute.
Defined.

(** C32: A restart gives back the whole log, the term and the vote, as a follower that has
    committed and applied nothing and whose store is empty. *)
Theorem restart_recovers {E : Env} {EL : EnvLaws E} n es now : node_ok n es ->
  exists n', restart n [] now = Ok n' /\ node_ok n' es /\
    persistent_state (log n') = persistent_state (log n) /\ role n' = Follower /\
    commit_index n' = 0 /\ last_applied n' = 0 /\ data (state_machine n') = ∅.
Proof. apply restart_ok. Qed.

Lemma restart_recovers_witness : exists n',
  @restart ref_env example_leader [] 9 = Ok n' /\
  @node_ok ref_env n' [mkEntry 1 1 (Put "a" [x61]); mkEntry 2 1 (Delete "b")] /\
  persistent_state (log n') = mkPersistent 1 (Some "node-01").
Proof.
  destruct (@restart_recovers ref_env _ example_leader
    [mkEntry 1 1 (Put "a" [x61]); mkEntry 2 1 (Delete "b")] 9) as (n' & Hn & Hok & Hp & _).
  - by apply (sample_run_ok three "node-01" example_events); vm_compute.
  - exists n'. split; [done|]. split; [done|]. by rewrite Hp.
Defined.
