(* ===== verification/IpcProps.v ===== *)
(** * Properties of the IPC server *)

From Stdlib Require Import Init.Byte.
From stdpp Require Import pretty countable.
From S2P Require Import Prelude Heapless Protocol Serde HashMap Log LogFacts StateMachine.
From S2P Require Import StoreProps Config Env LogProps Node NodeFacts Sample Daemon Histories Follower.
From S2P Require Import Leader Election Invariant Ipc.
Local Open Scope N_scope.

(** ** UTF-8 *)

(** The well-formed sequences of one character, by the table of the Unicode standard. *)
Inductive utf8_char : list byte -> Prop :=
  | utf8_1 a : in_range 0x00 0x7F a -> utf8_char [a]
  | utf8_2 a b : in_range 0xC2 0xDF a -> in_range 0x80 0xBF b -> utf8_char [a; b]
  | utf8_3a a b c : in_range 0xE0 0xE0 a -> in_range 0xA0 0xBF b -> in_range 0x80 0xBF c -> utf8_char [a; b; c]
  | utf8_3b a b c : in_range 0xE1 0xEC a -> in_range 0x80 0xBF b -> in_range 0x80 0xBF c -> utf8_char [a; b; c]
  | utf8_3c a b c : in_range 0xED 0xED a -> in_range 0x80 0x9F b -> in_range 0x80 0xBF c -> utf8_char [a; b; c]
  | utf8_3d a b c : in_range 0xEE 0xEF a -> in_range 0x80 0xBF b -> in_range 0x80 0xBF c -> utf8_char [a; b; c]
  | utf8_4a a b c d : in_range 0xF0 0xF0 a -> in_range 0x90 0xBF b -> in_range 0x80 0xBF c ->
      in_range 0x80 0xBF d -> utf8_char [a; b; c; d]
  | utf8_4b a b c d : in_range 0xF1 0xF3 a -> in_range 0x80 0xBF b -> in_range 0x80 0xBF c ->
      in_range 0x80 0xBF d -> utf8_char [a; b; c; d]
  | utf8_4c a b c d : in_range 0xF4 0xF4 a -> in_range 0x80 0x8F b -> in_range 0x80 0xBF c ->
      in_range 0x80 0xBF d -> utf8_char [a; b; c; d].

Inductive utf8 : list byte -> Prop :=
  | utf8_nil : utf8 []
  | utf8_cons cs bs : utf8_char cs -> utf8 bs -> utf8 (cs ++ bs).

Lemma in_range_spec a b x : Is_true (in_range a b x) <-> a <= Byte.to_N x <= b.
Proof. unfold in_range. rewrite andb_True, !Is_true_true, !N.leb_le. done. Qed.

Lemma in_range_true a b x : a <= Byte.to_N x <= b -> in_range a b x = true.
Proof. intros [? ?]. unfold in_range. apply andb_true_iff. by rewrite !N.leb_le. Qed.

(** Decide the comparisons of a first byte that is known to be in a range. *)
Ltac byte_cases :=
  repeat match goal with H : Is_true (in_range _ _ _) |- _ => apply in_range_spec in H end;
  repeat match goal with
  | |- context [?x <? ?y] => destruct (N.ltb_spec x y); try lia
  | |- context [?x <=? ?y] => destruct (N.leb_spec x y); try lia
  | |- context [?x =? ?y] => destruct (N.eqb_spec x y); try lia
  end; simpl.

Lemma first_sequence_char a cs bs : utf8_char (a :: cs) -> first_sequence a (cs ++ bs) = (a :: cs, true).
Proof.
  intros Hc. inversion Hc; subst; unfold first_sequence, second_range, continuation; simpl;
    byte_cases; unfold continuation; rewrite ?in_range_true by lia; done.
Qed.

Lemma utf8_lossy_valid bs : utf8 bs -> forall fuel, (length bs <= fuel)%nat -> utf8_lossy fuel bs = bs.
Proof.
  induction 1 as [|cs bs Hc _ IH]; intros fuel Hf; [by destruct fuel|].
  destruct cs as [|a cs]; [inversion Hc|]. rewrite <-app_comm_cons in *. simpl in Hf.
  rewrite length_app in Hf. destruct fuel as [|fuel]; [lia|]. cbn [utf8_lossy].
  rewrite first_sequence_char by done. simpl. rewrite Nat.sub_0_r, drop_app_length, IH by lia.
  done.
Qed.

(** Well-formed text goes through [from_utf8_lossy] unchanged. *)
Lemma from_utf8_lossy_valid s : utf8 (String.list_byte_of_string s) ->
  from_utf8_lossy (String.list_byte_of_string s) = s.
Proof.
  intros Hs. unfold from_utf8_lossy. rewrite utf8_lossy_valid by done.
  apply String.string_of_list_byte_of_string.
Qed.

(** ** Decimal numbers *)

Lemma pretty_char_digit d : d < 10 -> N_of_ascii (pretty_N_char d) = 48 + d.
Proof.
  intros Hd. assert (d = 0 \/ d = 1 \/ d = 2 \/ d = 3 \/ d = 4 \/ d = 5 \/ d = 6 \/ d = 7 \/ d = 8 \/ d = 9)
    as Hcases by lia.
  by repeat destruct Hcases as [->|Hcases]; [..|subst].
Qed.

Lemma parse_digits_step acc d s : d < 10 -> acc * 10 + d <= u128_max ->
  parse_digits acc (String (pretty_N_char d) s) = parse_digits (acc * 10 + d) s.
Proof.
  intros Hd Hmax. simpl. rewrite pretty_char_digit by done.
  rewrite (proj2 (N.leb_le 48 _)), (proj2 (N.leb_le _ 57)) by lia. simpl.
  replace (48 + d - 48) with d by lia. by rewrite (proj2 (N.leb_le _ _)).
Qed.

Lemma parse_digits_pretty x : forall s, x <= u128_max -> parse_digits 0 (pretty_N_go x s) = parse_digits x s.
Proof.
  induction x as [x IH] using (well_founded_induction N.lt_wf_0). intros s Hx.
  destruct (decide (x = 0)) as [->|Hne]; [by rewrite pretty_N_go_0|].
  pose proof (N.div_mod x 10). pose proof (N.mod_lt x 10).
  assert (x / 10 < x) by (apply N.div_lt; lia).
  rewrite pretty_N_go_step, IH, parse_digits_step by lia. f_equal. lia.
Qed.

Lemma digit_not_plus d : d < 10 -> pretty_N_char d <> "+"%char.
Proof. intros Hd Heq. pose proof (pretty_char_digit d Hd) as H. rewrite Heq in H. change (43 = 48 + d) in H. lia. Qed.

(** The first character of a number is a digit. *)
Lemma pretty_go_head x : forall c s, c <> "+"%char -> exists c' s',
  pretty_N_go x (String c s) = String c' s' /\ c' <> "+"%char.
Proof.
  induction x as [x IH] using (well_founded_induction N.lt_wf_0). intros c s Hc.
  destruct (decide (x = 0)) as [->|Hne]; [by exists c, s; rewrite pretty_N_go_0|].
  pose proof (N.mod_lt x 10). assert (x / 10 < x) by (apply N.div_lt; lia).
  rewrite pretty_N_go_step by lia. apply IH; [done|]. apply digit_not_plus. lia.
Qed.

Lemma parse_u128_pretty x : x <= u128_max -> parse_u128 (pretty x) = Some x.
Proof.
  intros Hx. change (pretty x) with (if decide (x = 0) then "0" else pretty_N_go x "").
  case_decide as H0; [by subst|]. pose proof (parse_digits_pretty x "" Hx) as Hp.
  pose proof (N.mod_lt x 10). rewrite pretty_N_go_step in * by lia.
  destruct (pretty_go_head (x / 10) (pretty_N_char (x mod 10)) "") as (c & s & Heq & Hc).
  { apply digit_not_plus. lia. }
  rewrite Heq in *. unfold parse_u128. by rewrite decide_False.
Qed.

Lemma pretty_go_length k : forall x s, x < 10 ^ N.of_nat k ->
  (String.length (pretty_N_go x s) <= k + String.length s)%nat.
Proof.
  induction k as [|k IH]; intros x s Hx.
  - change (x < 1) in Hx. replace x with 0 by lia. by rewrite pretty_N_go_0.
  - destruct (decide (x = 0)) as [->|Hne]; [rewrite pretty_N_go_0; lia|].
    rewrite pretty_N_go_step by lia. etransitivity; [apply IH|simpl; lia].
    apply N.Div0.div_lt_upper_bound. rewrite Nat2N.inj_succ, N.pow_succ_r' in Hx. lia.
Qed.

Lemma pretty_u128_length x : x <= u128_max -> (String.length (pretty x) <= 39)%nat.
Proof.
  intros Hx. change (pretty x) with (if decide (x = 0) then "0" else pretty_N_go x "").
  case_decide; [simpl; lia|]. etransitivity; [apply (pretty_go_length 39)|simpl; lia].
  eapply N.le_lt_trans; [exact Hx|]. vm_compute. reflexivity.
Qed.

(** ** What a key holds after a log *)

Definition touches (key : string) (c : Command) : Prop :=
  match c with Put k _ | Delete k => k = key | Noop => False end.

Lemma exec_untouched key cs m : Forall (fun c => ~ touches key c) cs ->
  foldl exec_command m cs !! key = m !! key.
Proof.
  intros Hcs. revert m. induction Hcs as [|c cs Hc _ IH]; intros m; [done|]. simpl.
  rewrite IH. destruct c as [k v|k|]; simpl in *; [|by rewrite lookup_delete_ne|done].
  by rewrite lookup_insert_ne.
Qed.

Lemma exec_last_put key v cs1 cs2 : Forall (fun c => ~ touches key c) cs2 ->
  exec (cs1 ++ Put key v :: cs2) !! key = Some v.
Proof.
  intros Hcs. unfold exec. rewrite foldl_app. simpl. rewrite exec_untouched by done.
  apply lookup_insert_eq.
Qed.

Lemma list_find_prefix {A} (P : A -> Prop) `{!forall x, Decision (P x)} l l' i x :
  list_find P l = Some (i, x) -> l `prefix_of` l' -> list_find P l' = Some (i, x).
Proof. intros Hf [t ->]. by apply list_find_app_l. Qed.

Section ipc_props.
Context {E : Env} {EL : EnvLaws E} {Value : Type} {JV : JsonValue Value} {JA : JsonApi Value}.
Context {IF : IpcFormat Value}.

Lemma propose_redirected n c tx leader meanwhile : role n <> Leader -> leader_id n = leader ->
  tx ∉ (replies n).*1 -> exists n', propose c tx n = (Ok tt, n') /\
    recv_reply tx (run_events meanwhile n') = Reply (NotLeader leader) /\
    n' = with_replies (replies n ++ [(tx, NotLeader leader)]) n.
Proof.
  intros Hr Hl Htx. eexists. split; [|split; [|reflexivity]].
  - unfold propose. by rewrite bind_gets, decide_True, bind_gets, Hl by done.
  - unfold recv_reply.
    assert (list_find (fun p => p.1 = tx) (replies n ++ [(tx, NotLeader leader)]) =
      Some (length (replies n), (tx, NotLeader leader))) as Hf.
    { apply list_find_Some. rewrite list_lookup_middle by done. split_and!; [done..|].
      intros j y Hj Hlt. rewrite lookup_app_l in Hj by done.
      intros <-. apply Htx, list_elem_of_fmap. exists y. split; [done|].
      by eapply list_elem_of_lookup_2. }
    by rewrite (list_find_prefix _ _ _ _ _ Hf (proj1 (histories_grow_events meanwhile (with_replies _ n)))).
Qed.

(** An entry that writes [key], among those applied, and none after it that touches it. *)
Lemma get_last_put n es key v es1 es2 e : node_ok n es ->
  take (N.to_nat (last_applied n)) es = es1 ++ e :: es2 -> command e = Put key v ->
  Forall (fun e' => ~ touches key (command e')) es2 -> get_value key n = Some v.
Proof.
  intros Hok Hes He Hno. unfold get_value, sm_get.
  destruct (ok_store _ _ Hok) as [-> _]. rewrite Hes, fmap_app, fmap_cons, He.
  by apply exec_last_put, Forall_fmap.
Qed.

Lemma string_bytes_length v : length (String.list_byte_of_string v) = String.length v.
Proof.
  unfold String.list_byte_of_string. rewrite length_map. induction v as [|c v IH]; simpl; congruence.
Qed.

Lemma command_fits key v : (String.length key <= MAX_KEY_SIZE)%nat ->
  (String.length v <= MAX_VALUE_SIZE)%nat ->
  command_of key (Some v) = Put key (String.list_byte_of_string v).
Proof.
  intros Hk Hv. unfold command_of.
  by rewrite string_from_fits, vec_from_fits by (done || by rewrite string_bytes_length).
Qed.

End ipc_props.

Section connection.
Context {E : Env} {Value : Type} {JV : JsonValue Value} {JA : JsonApi Value} {IF : IpcFormat Value}.

(** Lines written by a connection that reaches the end of its input. *)
Lemma connection_answers reads : forall w w', handle_ipc_connection reads w = (Ok tt, w') ->
  exists texts, ipc_written w' = ipc_written w ++ texts /\ length texts = length reads /\
    LineError ∉ reads.
Proof.
  assert (forall response w w', write_response response w = (Ok tt, w') ->
    exists text, ipc_written w' = ipc_written w ++ [text]) as Hw.
  { intros response w w' Hrun. unfold write_response in Hrun.
    apply bind_Ok_inv in Hrun as (text & w1 & Hr & Hrun).
    destruct (render_response response); [|done]. injection Hr as -> <-.
    unfold write_line in Hrun. destruct (ipc_writes w) as [|[] fate]; simplify_eq/=; by eexists. }
  induction reads as [|[text tx now meanwhile|] reads IH]; intros w w' Hrun; simpl in Hrun; [|..].
  - injection Hrun as <-. exists []. rewrite app_nil_r. split_and!; [done..|set_solver].
  - apply bind_Ok_inv in Hrun as ([] & w1 & Hone & Hrun).
    destruct (IH _ _ Hrun) as (texts & Htexts & Hlen & Herr).
    assert (exists line, ipc_written w1 = ipc_written w ++ [line]) as [line Hline].
    { destruct (parse_request text) as [request|e]; [|by eapply Hw].
      apply bind_Ok_inv in Hone as (response & w2 & Hreq & Hone).
      assert (ipc_written w2 = ipc_written w) as <-; [|by eapply Hw].
      unfold on_node, zoom in Hreq. destruct (process_request _ _ _ _ _) as [o n2].
      by injection Hreq as _ <-. }
    exists (line :: texts). rewrite Htexts, Hline, <-(assoc_L (++)). simpl.
    split_and!; [done|by rewrite Hlen|set_solver].
  - done.
Qed.
End connection.

(** ** Instances, for evaluating the model: a value is its text *)

Definition quoted (s : string) : string := String.append "'" (String.append s "'").

Definition joined (l : list string) : string := String.concat "," l.

Definition ref_api : JsonApi string := {|
  json_null := "null"; json_str := quoted; json_num n := pretty n;
  json_arr vs := String.append "[" (String.append (joined vs) "]");
  json_obj fs := String.append "{" (String.append
    (joined ((fun f => String.append (quoted f.1) (String.append ":" f.2)) <$> fs)) "}");
  value_text v := v;
  value_get _ _ := None; as_str _ := None; as_u64 _ := None; as_array _ := None; is_null v := bool_decide (v = "null");
|}.

Definition ref_text_value : JsonValue string := {| value_from_slice bs := Some (String.string_of_list_byte bs) |}.

Definition ref_format : @IpcFormat string := {|
  status_value s := sr_node_id s;
  error_text e := match e with IoError => "io" | SerdeError => "serde" | Bail msg => msg end;
  parse_request s := if decide (s = "status") then inl Status else inr "expected value";
  render_response r := Some (ipc_message r);
|}.

(** What is read back from the text of a value. *)
Class JsonTextLaws (Value : Type) (JV : JsonValue Value) (JA : JsonApi Value) : Prop := {
  value_text_parses v : value_from_slice (String.list_byte_of_string (value_text v)) = Some v;
}.

#[global] Instance ref_text_laws : JsonTextLaws string ref_text_value ref_api.
Proof. split. intros v. simpl. by rewrite String.string_of_list_byte_of_string. Qed.

(** ** Properties *)

(** [Get] on a node in order returns the value of the last applied [Put] of the key that no
    later command touched. *)
Theorem get_returns_last_put {E : Env} {EL : EnvLaws E} {Value} {JV : JsonValue Value}
    {JA : JsonApi Value} {IF : IpcFormat Value} n es key v es1 e es2 tx now meanwhile :
  node_ok n es -> (String.length key <= MAX_KEY_SIZE)%nat -> (String.length v <= MAX_VALUE_SIZE)%nat ->
  utf8 (String.list_byte_of_string v) -> take (N.to_nat (last_applied n)) es = es1 ++ e :: es2 ->
  command e = command_of key (Some v) -> Forall (fun e' => ~ touches key (command e')) es2 ->
  process_request tx now meanwhile (Get key) n =
    (Ok (mkResponse true "OK" (Some (json_obj [("key", json_str key); ("value", json_str v)]))), n).
Proof.
  intros Hok Hk Hv Hutf Hes He Hno. rewrite command_fits in He by done.
  cbn [process_request]. rewrite bind_gets, (get_last_put n es key _ es1 es2 e Hok Hes He Hno). simpl.
  by rewrite from_utf8_lossy_valid.
Qed.

(** The leader with its two entries committed. *)
Definition committed_leader : RaftNode := @run_events ref_env (example_events ++
  [Deliver (mkEnvelope "node-02" "node-01" (AppendEntriesResp (mkAppendEntriesResponse 1 true 2 "node-02")))])
  (sample three "node-01").

Lemma get_returns_last_put_witness :
  @process_request ref_env string ref_text_value ref_api ref_format 5 0 [] (Get "a") committed_leader =
    (Ok (mkResponse true "OK" (Some "{'key':'a','value':'a'}")), committed_leader).
Proof.
  apply (@get_returns_last_put ref_env _ string ref_text_value ref_api ref_format committed_leader
    (log_entries (log committed_leader)) "a" "a" [] (mkEntry 1 1 (Put "a" [x61])) [mkEntry 2 1 (Delete "b")]).
  - by apply (sample_run_ok three "node-01"); vm_compute.
  - apply Nat.leb_le. vm_compute. reflexivity.
  - apply Nat.leb_le. vm_compute. reflexivity.
  - apply (utf8_cons [x61] []); [by constructor|constructor].
  - vm_compute. reflexivity.
  - vm_compute. reflexivity.
  - repeat constructor. simpl. discriminate.
Defined.

(** A proposal to a node that is not the leader is answered [Not leader], with the leader it
    knows, and leaves no entry and no pending request. *)
Theorem proposal_redirected {E : Env} {Value} {JV : JsonValue Value}
    {JA : JsonApi Value} {IF : IpcFormat Value} n key value tx now meanwhile : role n <> Leader ->
  tx ∉ (replies n).*1 -> exists n',
  process_request tx now meanwhile (ProposeKey key value) n =
    (Ok (mkResponse false "Not leader" (leader_data (leader_id n))), n') /\
  n' = run_events meanwhile (with_replies (replies n ++ [(tx, NotLeader (leader_id n))]) n).
Proof.
  intros Hr Htx. eexists. split; [|reflexivity].
  destruct (propose_redirected n (command_of key value) tx (leader_id n) meanwhile)
    as (n' & Hrun & Hrecv & Hn'); [done..|].
  cbn [process_request]. unfold propose_and_wait.
  erewrite bind_run; [|unfold attempt; by rewrite Hrun].
  cbv beta iota. rewrite bind_modify, bind_gets, Hrecv.
  by rewrite Hn'.
Qed.

Lemma proposal_redirected_witness : exists n',
  @process_request ref_env string ref_text_value ref_api ref_format 5 0 [ElectionTick 0]
    (ProposeKey "k" (Some "v")) (sample three "node-01") = (Ok (mkResponse false "Not leader" None), n') /\
  role n' = Candidate.
Proof.
  destruct (@proposal_redirected ref_env string ref_text_value ref_api ref_format (sample three "node-01")
    "k" (Some "v") 5 0 [ElectionTick 0]) as (n' & Hrun & Hn').
  - vm_compute. discriminate.
  - vm_compute. intros Hin. inversion Hin.
  - exists n'. split; [exact Hrun|]. rewrite Hn'. vm_compute. reflexivity.
Defined.

(** C39: Keys of more than [MAX_KEY_SIZE] bytes are silently replaced by the empty key:
    proposals with two such keys have the same effect and the same answer, and values are cut at
    [MAX_VALUE_SIZE]. *)
Theorem long_keys_collide {E : Env} {EL : EnvLaws E} {Value} {JV : JsonValue Value}
    {JA : JsonApi Value} {IF : IpcFormat Value} key1 key2 value tx now meanwhile n :
  (MAX_KEY_SIZE < String.length key1)%nat -> (MAX_KEY_SIZE < String.length key2)%nat ->
  process_request tx now meanwhile (ProposeKey key1 value) n =
    process_request tx now meanwhile (ProposeKey key2 value) n /\
  (forall v, command_of key1 (Some v) = Put "" (take MAX_VALUE_SIZE (String.list_byte_of_string v))) /\
  command_of key1 None = Delete "".
Proof.
  intros H1 H2. cbn [process_request]. unfold command_of.
  rewrite !(string_from_overflow _ key1), !(string_from_overflow _ key2) by done.
  split_and!; [done| |done]. intros v. by rewrite vec_from_take.
Qed.

Definition long_key (c : ascii) : string := String.string_of_list_ascii (replicate 257 c).

Lemma long_keys_collide_witness :
  @process_request ref_env string ref_text_value ref_api ref_format 5 0 []
    (ProposeKey (long_key "a") (Some "1")) (sample three "node-01") =
  @process_request ref_env string ref_text_value ref_api ref_format 5 0 []
    (ProposeKey (long_key "b") (Some "1")) (sample three "node-01").
Proof.
  apply (@long_keys_collide ref_env _ string ref_text_value ref_api ref_format (long_key "a") (long_key "b"));
    apply Nat.ltb_lt; vm_compute; reflexivity.
Defined.

(** A message sent by [SendMessage], once its entry is applied, is in the list [GetMessages]
    returns. *)
Theorem sent_message_listed {E : Env} {EL : EnvLaws E} {Value} {JV : JsonValue Value} {JA : JsonApi Value}
    {JT : JsonTextLaws Value JV JA} me now message i t sm limit : now <= u128_max ->
  (String.length (value_text (message_value me now message)) <= MAX_VALUE_SIZE)%nat ->
  sm_last_applied sm < i -> (size (data sm) < N.to_nat limit)%nat ->
  message_value me now message ∈
    get_messages limit (apply (mkEntry i t (message_command me now message)) sm).2.
Proof.
  intros Hnow Hfit Hi Hlimit. set (sm' := (apply _ sm).2).
  destruct (messages_spec limit sm') as (l & -> & _ & Hin & Hl).
  set (key := String.append "_msg:" (pretty now)).
  set (v := message_value me now message) in *.
  assert (string_from MAX_KEY_SIZE key = key) as Hk.
  { apply string_from_fits. pose proof (pretty_u128_length now Hnow). unfold key, MAX_KEY_SIZE.
    rewrite length_string_append. simpl. lia. }
  assert (sm' = mkSM (<[key := String.list_byte_of_string (value_text v)]> (data sm)) i) as Hsm.
  { unfold sm'. rewrite apply_fresh by done. simpl. unfold message_command. fold v key.
    by rewrite Hk, vec_from_fits by by rewrite string_bytes_length. }
  assert ((now, v) ∈ l) as Hnv.
  { apply Hin. exists key, (String.list_byte_of_string (value_text v)). rewrite Hsm. simpl.
    rewrite lookup_insert_eq. split; [done|]. unfold parse_message. simpl fst. simpl snd.
    unfold key. rewrite strip_prefix_append. simpl. rewrite parse_u128_pretty by done. simpl.
    by rewrite value_text_parses. }
  rewrite take_ge.
  - apply list_elem_of_fmap. by exists (now, v).
  - rewrite Hl. etransitivity; [apply map_size_filter|]. rewrite Hsm. simpl.
    rewrite map_size_insert. destruct (data sm !! key); simpl; lia.
Qed.

Lemma sent_message_listed_witness :
  "{'from':'node-01','timestamp':1700000000000,'message':'hi'}" ∈ @get_messages ref_hash_order string
    ref_text_value 10 (apply (mkEntry 4 2 (@message_command ref_env string ref_api "node-01" 1700000000000 "hi"))
      (mkSM {["k" := [x61]]} 3)).2.
Proof.
  apply (@sent_message_listed ref_env _ string ref_text_value ref_api _ "node-01" 1700000000000 "hi");
    [by vm_compute|apply Nat.leb_le; vm_compute; reflexivity|by vm_compute|apply Nat.ltb_lt; vm_compute; reflexivity].
Defined.

(** A connection of the command line that ends well had exactly one answer written per request
    line. *)
Theorem every_line_answered {E : Env} {Value} {JV : JsonValue Value} {JA : JsonApi Value}
    {IF : IpcFormat Value} reads w w' : handle_ipc_connection reads w = (Ok tt, w') ->
  exists texts, ipc_written w' = ipc_written w ++ texts /\ length texts = length reads /\ LineError ∉ reads.
Proof. apply connection_answers. Qed.

Lemma every_line_answered_witness :
  let reads := [Line "status" 1 0 []; Line "nonsense" 2 0 []; Line "status" 3 0 []] in
  exists texts, ipc_written (@handle_ipc_connection ref_env string ref_text_value ref_api ref_format reads
    (mkWorld (sample three "node-01") [] [])).2 = [] ++ texts /\ length texts = 3%nat.
Proof.
  intros reads.
  destruct (@every_line_answered ref_env string ref_text_value ref_api ref_format reads
    (mkWorld (sample three "node-01") [] [])
    (@handle_ipc_connection ref_env string ref_text_value ref_api ref_format reads
      (mkWorld (sample three "node-01") [] [])).2) as (texts & Ht & Hl & _).
  - vm_compute. reflexivity.
  - exists texts. split; [exact Ht|exact Hl].
Defined.

(** The key of a message is its time in milliseconds alone: once a second message of the same
    millisecond is applied, whoever sent it, the store and the list of messages are as if the
    first had never been sent. *)
Theorem same_millisecond_overwrites {E : Env} {EL : EnvLaws E} {Value} {JV : JsonValue Value}
    {JA : JsonApi Value} sender1 sender2 now message1 message2 i j t1 t2 sm limit :
  sm_last_applied sm < i -> i < j ->
  let first := mkEntry i t1 (message_command sender1 now message1) in
  let second := mkEntry j t2 (message_command sender2 now message2) in
  (apply second (apply first sm).2).2 = (apply second sm).2 /\
  get_messages limit (apply second (apply first sm).2).2 = get_messages limit (apply second sm).2.
Proof.
  intros Hi Hj first second.
  assert ((apply second (apply first sm).2).2 = (apply second sm).2) as Heq.
  { rewrite !apply_fresh by (rewrite ?apply_fresh by done; simpl; lia). simpl.
    by rewrite insert_insert_eq. }
  by rewrite Heq.
Qed.

Lemma same_millisecond_overwrites_witness :
  @get_messages ref_hash_order string ref_text_value 10
    (apply (mkEntry 2 1 (@message_command ref_env string ref_api "node-01" 1700000000000 "two"))
      (apply (mkEntry 1 1 (@message_command ref_env string ref_api "node-01" 1700000000000 "one"))
        StateMachine_new).2).2 =
  ["{'from':'node-01','timestamp':1700000000000,'message':'two'}"].
Proof.
  destruct (@same_millisecond_overwrites ref_env _ string ref_text_value ref_api "node-01" "node-01"
    1700000000000 "one" "two" 1 2 1 1 StateMachine_new 10) as [_ Hget]; [by vm_compute..|].
  etransitivity; [exact Hget|]. vm_compute. reflexivity.
Defined.
