(* ===== verification/CliProps.v ===== *)
(** * Properties of the command line client

    [serve] puts a daemon of Ipc.v behind the socket of the client, so that a command is
    followed from its arguments to what it prints and to what it does to the daemon. *)

From Stdlib Require Import Init.Byte.
From stdpp Require Import pretty.
From S2P Require Import Prelude Heapless Protocol Serde HashMap Log LogFacts StateMachine.
From S2P Require Import StoreProps Config Env Node NodeFacts Sample Daemon Invariant Ipc Cli.
From S2P Require Import Follower IpcProps Json.
Local Open Scope N_scope.

(** ** A request and its answer *)

Section requests.
Context {Value : Type} {CF : CliFormat Value} {Daemon : Type}.
Variable serve_line : string -> Daemon -> reply * Daemon.

(** What a request comes to when the line has been answered. *)
Definition response_of (r : reply) : outcome (IpcResponse Value) :=
  match r with
  | ReplyLine line =>
      if decide (line = "") then Err (Bail "Connection closed by server")
      else match parse_response line with Some response => Ok response | None => Err SerdeError end
  | ReplyClosed => Err (Bail "Connection closed by server")
  | ReplyError => Err IoError
  | NoReply => Blocked
  end.

Lemma send_request_run client request text (w : terminal Daemon) d : render_request request = Some text ->
  daemons w !! client = Some d ->
  let '(r, d') := serve_line (String.append text (String newline "")) d in
  send_request serve_line client request w =
    (response_of r, mkTerminal (<[client := d']> (daemons w)) (screen w)).
Proof.
  intros Htext Hd. destruct (serve_line _ d) as [r d'] eqn:Hs.
  unfold send_request. rewrite Htext, bind_from_Some.
  erewrite bind_run by (unfold exchange; rewrite Hd, Hs; reflexivity).
  destruct r as [line| | |]; simpl; try done. case_decide; [done|].
  by destruct (parse_response line).
Qed.

Lemma connect_ok name (w : terminal Daemon) d : daemons w !! socket_path name = Some d ->
  connect name w = (Ok (socket_path name), w).
Proof. intros Hd. unfold connect. by rewrite bind_gets, Hd. Qed.
End requests.

(** ** A daemon behind a socket *)

(** The node, and the circumstances of the requests to come: their channel, their time, and
    the rounds made while they wait. *)
Record served := mkServed { s_node : RaftNode; s_requests : list (N * N * list event) }.

(** A connection that brings one line. *)
Definition serve {E : Env} {Value} {JV : JsonValue Value} {JA : JsonApi Value} {IF : IpcFormat Value}
    (line : string) (d : served) : reply * served :=
  match s_requests d with
  | [] => (NoReply, d)
  | (tx, now, meanwhile) :: rest =>
      match handle_ipc_connection [Line line tx now meanwhile] (mkWorld (s_node d) [] []) with
      | (Blocked, w) => (NoReply, mkServed (ipc_node w) rest)
      | (_, w) => (match ipc_written w with text :: _ => ReplyLine text | [] => ReplyClosed end,
                   mkServed (ipc_node w) rest)
      end
  end.

Section served.
Context {E : Env} {Value : Type} {JV : JsonValue Value} {JA : JsonApi Value}.
Context {IF : IpcFormat Value} {CF : CliFormat Value} {IW : IpcWire Value JA IF CF}.

(** The world after the daemon of [name] has become [d], and the screen after the lines [os]. *)
Definition after (name : string) (d : served) (os : list output) (w : terminal served) : terminal served :=
  mkTerminal (<[socket_path name := d]> (daemons w)) (screen w ++ os).

(** A request that the daemon answers with plain data is answered to the client. *)
Lemma send_request_ok name (w : terminal served) n tx now meanwhile rest request response n' :
  daemons w !! socket_path name = Some (mkServed n ((tx, now, meanwhile) :: rest)) ->
  process_request tx now meanwhile request n = (Ok response, n') -> plain_data (ipc_data response) ->
  send_request serve (socket_path name) request w =
    (Ok response, after name (mkServed n' rest) [] w).
Proof.
  intros Hd Hrun Hplain.
  destruct (request_crosses request) as (text & Htext & _ & Hparse).
  destruct (response_crosses response Hplain) as (answer & Hanswer & _ & Hread).
  pose proof (send_request_run serve _ _ _ w _ Htext Hd) as Hreq.
  assert (forall line, parse_request line = inl request -> serve line (mkServed n ((tx, now, meanwhile) :: rest)) =
    (ReplyLine (String.append answer (String newline "")), mkServed n' rest)) as Hserve.
  { intros line Hline. unfold serve. cbn [s_requests s_node handle_ipc_connection].
    rewrite Hline. unfold on_node, zoom, bind. cbn [ipc_node ipc_written ipc_writes].
    rewrite Hrun. unfold write_response, bind. by rewrite Hanswer. }
  rewrite Hserve in Hreq by done. rewrite Hreq. simpl.
  rewrite decide_False by by destruct answer. rewrite Hread. unfold after. by rewrite app_nil_r.
Qed.

Lemma leader_data_plain l : plain_data (leader_data l).
Proof.
  destruct l as [id|]; simpl; [|constructor]. apply plain_obj; simpl; [apply NoDup_singleton|].
  repeat constructor.
Qed.
End served.

(** ** What [put] and [delete] report *)

(** The lines of the client for a result of its proposal, [done] being the one of success. *)
Definition reported (done : string) (r : recv_result) : list output :=
  match r with
  | Reply (Success _) => [Out done]
  | Reply (NotLeader leader) =>
      ErrOut "✗ Operation failed: Not leader" ::
      match leader with
      | Some id => [ErrOut (String.append "  Hint: Try connecting to leader node: " id)]
      | None => []
      end
  | Reply (Failed reason) => [ErrOut (String.append "✗ Operation failed: " reason)]
  | ChannelClosed => [ErrOut "✗ Operation failed: Channel closed"]
  | TimedOut => [ErrOut "✗ Operation failed: Timeout waiting for commit"]
  end.

(** The operation and its argument, as the client is given them and as it reports them. *)
Definition put_or_delete (key : string) (value : option string) : Commands :=
  match value with
  | Some _ => CmdPropose "put" key value
  | None => CmdPropose "delete" key None
  end.

Definition done_line (key : string) (value : option string) : string :=
  match value with
  | Some v => concat_all ["✓ Set "; key; "="; v]
  | None => String.append "✓ Deleted " key
  end.

Section reports.
Context {E : Env} {Value : Type} {JV : JsonValue Value} {JA : JsonApi Value} {JL : JsonViewLaws Value JA}.
Context {IF : IpcFormat Value} {CF : CliFormat Value} {IW : IpcWire Value JA IF CF}.

Lemma print_screen (o : output) (w : terminal served) :
  print o w = (Ok tt, mkTerminal (daemons w) (screen w ++ [o])).
Proof. reflexivity. Qed.

(** What the client prints when the answer to a proposal arrives. *)
Definition cli_report (key : string) (value : option string) (response : IpcResponse Value) : list output :=
  if ipc_success response then [Out (done_line key value)]
  else ErrOut (String.append "✗ Operation failed: " (ipc_message response)) ::
    match ipc_data response ≫= field "leader_id" as_str with
    | Some id => [ErrOut (String.append "  Hint: Try connecting to leader node: " id)]
    | None => []
    end.

Lemma propose_prints name key value sleeps (w : terminal served) n tx now meanwhile rest response n' :
  daemons w !! socket_path name = Some (mkServed n ((tx, now, meanwhile) :: rest)) ->
  process_request tx now meanwhile (ProposeKey key value) n = (Ok response, n') ->
  plain_data (ipc_data response) ->
  cli_main serve (mkCli name (put_or_delete key value)) sleeps w =
    (Ok tt, after name (mkServed n' rest) (cli_report key value response) w).
Proof.
  intros Hd Hrun Hplain.
  assert (cli_main serve (mkCli name (put_or_delete key value)) sleeps w =
    cli_propose serve name (match value with Some _ => "put" | None => "delete" end) key value w)
    as -> by by destruct value.
  unfold cli_propose. rewrite (bind_run _ _ _ _ _ (connect_ok _ _ _ Hd)).
  assert (propose_request (match value with Some _ => "put" | None => "delete" end) key value =
    inl (ProposeKey key value)) as -> by by destruct value.
  rewrite (bind_run _ _ _ _ _ (send_request_ok _ _ _ _ _ _ _ _ _ _ Hd Hrun Hplain)).
  unfold cli_report, after. destruct (ipc_success response).
  - destruct value as [v|]; simpl; unfold println; rewrite print_screen; simpl;
      by rewrite !append_nil_r, app_nil_r.
  - unfold eprintln, bind. rewrite print_screen. simpl. rewrite append_nil_r, app_nil_r.
    destruct (ipc_data response) as [data|]; [|done]. simpl. unfold print_leader, if_some.
    destruct (field "leader_id" as_str data) as [id|]; [|done].
    unfold eprintln. rewrite print_screen. simpl. by rewrite append_nil_r, <-(assoc_L (++)).
Qed.

Lemma cli_report_response key value r :
  cli_report key value (propose_response r) = reported (done_line key value) r.
Proof.
  unfold cli_report. destruct r as [[i|[id|]|reason]| |]; try done. simpl. unfold field.
  rewrite (get_field _ "leader_id" (json_str id)); [|apply NoDup_singleton|by left].
  simpl. by rewrite as_str_str.
Qed.

Lemma propose_response_plain r : plain_data (ipc_data (propose_response r)).
Proof. destruct r as [[i|l|reason]| |]; simpl; try apply plain_none. apply leader_data_plain. Qed.
End reports.

(** ** The time of a message *)

Lemma two_digits_of n : n < 60 -> String.length (two_digits n) = 2%nat /\
  parse_digits 0 (two_digits n) = Some n.
Proof.
  intros Hn. assert (forallb (fun k => bool_decide (String.length (two_digits (N.of_nat k)) = 2%nat /\
    parse_digits 0 (two_digits (N.of_nat k)) = Some (N.of_nat k))) (seq 0 60) = true) as Hall
    by by vm_compute.
  rewrite forallb_forall in Hall. specialize (Hall (N.to_nat n)).
  rewrite N2Nat.id in Hall. eapply bool_decide_eq_true, Hall, in_seq. lia.
Qed.

Lemma two_digits_inj x y k : 0 < k <= 60 -> two_digits (x mod k) = two_digits (y mod k) ->
  x mod k = y mod k.
Proof.
  intros Hk Heq. pose proof (N.mod_lt x k). pose proof (N.mod_lt y k).
  destruct (two_digits_of (x mod k)) as [_ Hx]; [lia|].
  destruct (two_digits_of (y mod k)) as [_ Hy]; [lia|]. rewrite Heq in Hx. congruence.
Qed.

Lemma two_digits_length x k : 0 < k <= 60 -> String.length (two_digits (x mod k)) = 2%nat.
Proof. intros Hk. apply two_digits_of. pose proof (N.mod_lt x k). lia. Qed.

Lemma chrono_lite_parts a b : chrono_lite a = chrono_lite b ->
  a mod 60 = b mod 60 /\ (a / 60) mod 60 = (b / 60) mod 60 /\ (a / 3600) mod 24 = (b / 3600) mod 24.
Proof.
  unfold chrono_lite. intros Heq.
  apply append_inj in Heq as [Hh Heq]; [|by rewrite !two_digits_length].
  apply (append_inj ":" _ ":") in Heq as [_ Heq]; [|done].
  apply append_inj in Heq as [Hm Heq]; [|by rewrite !two_digits_length].
  apply (append_inj ":" _ ":") in Heq as [_ Heq]; [|done].
  split_and!; by apply two_digits_inj.
Qed.

Lemma day_parts a : a mod 86400 =
  3600 * ((a / 3600) mod 24) + 60 * ((a / 60) mod 60) + a mod 60.
Proof.
  change 86400 with (60 * (60 * 24)). rewrite !N.Div0.mod_mul_r, N.Div0.div_div.
  change (60 * 60) with 3600. lia.
Qed.

(** ** Watching *)

Section watching.
Context {Value : Type} {JA : JsonApi Value} {CF : CliFormat Value} {Daemon : Type}.
Variable serve_line : string -> Daemon -> reply * Daemon.

(** The messages of one answer, oldest first; [None] when the command ends with it. *)
Definition answered (r : reply) : option (list Value) :=
  match response_of r with
  | Ok response => Some (if ipc_success response
      then reverse (default [] (ipc_data response ≫= field "messages" as_array)) else [])
  | _ => None
  end.

(** The line of every request. *)
Definition watch_line : option string :=
  (fun text => String.append text (String newline "")) <$> render_request (Messages (Some 50) None).

(** All the messages the polls are answered with, in the order they come. *)
Fixpoint polled (line : string) (sleeps : list (Daemon -> Daemon)) (d : Daemon) : list Value :=
  match sleeps with
  | [] => []
  | sleep :: sleeps' =>
      match answered (serve_line line d).1 with
      | Some msgs => msgs ++ polled line sleeps' (sleep (serve_line line d).2)
      | None => []
      end
  end.

(** The first message of each key that is not in [seen]. *)
Fixpoint firsts (seen : gset string) (msgs : list Value) : list Value :=
  match msgs with
  | [] => []
  | msg :: msgs' => if decide (seen_key msg ∈ seen) then firsts seen msgs'
                    else msg :: firsts ({[ seen_key msg ]} ∪ seen) msgs'
  end.

Definition message_line (msg : Value) : output :=
  Out (concat_all ["["; chrono_lite (msg_ts msg / 1000); "] "; msg_from msg; ": "; msg_text msg]).

Lemma firsts_app seen l1 l2 :
  firsts seen (l1 ++ l2) = firsts seen l1 ++ firsts (list_to_set (seen_key <$> l1) ∪ seen) l2.
Proof.
  revert seen. induction l1 as [|m l1 IH]; intros seen; simpl.
  - by rewrite (left_id_L ∅ (∪)).
  - case_decide.
    + rewrite IH. do 2 f_equal. set_solver.
    + simpl. f_equal. rewrite IH. do 2 f_equal. set_solver.
Qed.

(** [firsts] keeps each key once, and loses none. *)
Lemma firsts_spec seen l : NoDup (seen_key <$> firsts seen l) /\
  (forall msg, msg ∈ firsts seen l -> msg ∈ l /\ seen_key msg ∉ seen) /\
  (forall msg, msg ∈ l -> seen_key msg ∈ seen \/ seen_key msg ∈ seen_key <$> firsts seen l).
Proof.
  revert seen. induction l as [|m l IH]; intros seen; simpl.
  - split_and!; [constructor|set_solver|set_solver].
  - case_decide as Hin.
    + destruct (IH seen) as (Hnd & Hsub & Hall). split_and!; [done|set_solver|].
      intros msg [->|Hmsg]%elem_of_cons; [by left|by apply Hall].
    + destruct (IH ({[ seen_key m ]} ∪ seen)) as (Hnd & Hsub & Hall). split_and!.
      * apply NoDup_cons. split; [|done]. intros (msg & Hk & Hmsg)%list_elem_of_fmap.
        apply Hsub in Hmsg as [_ Hmsg]. set_solver.
      * intros msg [->|Hmsg]%elem_of_cons; [set_solver|]. apply Hsub in Hmsg. set_solver.
      * intros msg [->|Hmsg]%elem_of_cons; [right; by left|].
        destruct (Hall msg Hmsg) as [[->%elem_of_singleton|?]%elem_of_union|?].
        -- right. by left.
        -- by left.
        -- right. by right.
Qed.

Lemma show_new_spec msgs : forall seen (w : terminal Daemon),
  show_new seen msgs w = (Ok (list_to_set (seen_key <$> msgs) ∪ seen),
    mkTerminal (daemons w) (screen w ++ (message_line <$> firsts seen msgs))).
Proof.
  induction msgs as [|m msgs IH]; intros seen w; simpl.
  - rewrite app_nil_r, (left_id_L ∅ (∪)). by destruct w.
  - case_decide.
    + rewrite IH. do 2 f_equal. set_solver.
    + unfold print_message, println, print. rewrite bind_modify, IH. simpl.
      rewrite <-(assoc_L (++)). do 2 f_equal. set_solver.
Qed.

Lemma watch_poll_spec name line seen (w : terminal Daemon) d : daemons w !! socket_path name = Some d ->
  watch_line = Some line ->
  let w' := mkTerminal (<[socket_path name := (serve_line line d).2]> (daemons w)) in
  match answered (serve_line line d).1 with
  | Some msgs => watch_poll serve_line name seen w = (Ok (list_to_set (seen_key <$> msgs) ∪ seen),
                   w' (screen w ++ (message_line <$> firsts seen msgs)))
  | None => exists o, watch_poll serve_line name seen w = (o, w' (screen w)) /\ (forall s, o <> Ok s)
  end.
Proof.
  intros Hd Hline w'. unfold watch_line in Hline.
  destruct (render_request _) as [text|] eqn:Htext; [|done]. injection Hline as <-.
  pose proof (send_request_run serve_line _ _ _ w d Htext Hd) as Hreq.
  destruct (serve_line _ d) as [r d'] eqn:Hs. simpl in w'. simpl.
  unfold watch_poll. rewrite (bind_run _ _ _ _ _ (connect_ok _ _ _ Hd)).
  unfold bind. rewrite Hreq. fold (w' (screen w)). unfold answered.
  destruct (response_of r) as [response| | | |]; try (by eexists; split; [reflexivity|]).
  destruct (ipc_success response); simpl; [|by rewrite (left_id_L ∅ (∪)), app_nil_r].
  destruct (ipc_data response ≫= field "messages" as_array) as [msgs|]; simpl.
  - by rewrite show_new_spec.
  - by rewrite (left_id_L ∅ (∪)), app_nil_r.
Qed.

Lemma watch_loop_spec name line sleeps : watch_line = Some line ->
  forall seen (w : terminal Daemon) d, daemons w !! socket_path name = Some d ->
  exists o w', watch_loop serve_line name sleeps seen w = (o, w') /\ (forall u, o <> Ok u) /\
    screen w' = screen w ++ (message_line <$> firsts seen (polled line sleeps d)).
Proof.
  intros Hline. induction sleeps as [|sleep sleeps IH]; intros seen w d Hd; simpl.
  - eexists _, w. by rewrite app_nil_r.
  - pose proof (watch_poll_spec name line seen w d Hd Hline) as Hpoll. simpl in Hpoll.
    destruct (answered _) as [msgs|].
    + rewrite (bind_run _ _ _ _ _ Hpoll), bind_modify. simpl.
      edestruct (IH (list_to_set (seen_key <$> msgs) ∪ seen)) as (o & w2 & Hrun & Ho & Hscreen).
      2: { exists o, w2. split; [exact Hrun|]. split; [done|]. rewrite Hscreen. simpl.
           rewrite firsts_app, fmap_app, (assoc_L (++)). done. }
      simpl. by rewrite lookup_fmap, lookup_insert_eq.
    + destruct Hpoll as (o & Hpoll & Ho). unfold bind. rewrite Hpoll.
      rewrite app_nil_r. destruct o as [u| | | |]; [by destruct (Ho u)|by eexists _, _..].
Qed.
End watching.

(** ** Properties *)

(** C34: What [raft-cli propose] prints for a put or a delete is decided by what became of the
    proposal: the confirmation for [Success] only, the leader to try for [NotLeader], and
    otherwise the reason; the daemon behind the socket has handled the proposal, and the rounds
    that came while the client waited, once. *)
Theorem put_reports_outcome {E : Env} {Value} {JV : JsonValue Value} {JA : JsonApi Value}
    {JL : JsonViewLaws Value JA} {IF : IpcFormat Value} {CF : CliFormat Value}
    {IW : IpcWire Value JA IF CF} name key value sleeps (w : terminal served) n tx now meanwhile rest r n1 :
  daemons w !! socket_path name = Some (mkServed n ((tx, now, meanwhile) :: rest)) ->
  attempt (propose (command_of key value) tx) n = (Ok r, n1) ->
  let '(n2, printed) := match r with
    | inl _ => (run_events meanwhile n1,
                reported (done_line key value) (recv_reply tx (run_events meanwhile n1)))
    | inr e => (n1, [ErrOut (concat_all ["✗ Operation failed: "; "Propose failed: "; error_text e])])
    end in
  cli_main serve (mkCli name (put_or_delete key value)) sleeps w =
    (Ok tt, after name (mkServed n2 rest) printed w).
Proof.
  intros Hd Hrun. destruct r as [u|e].
  - rewrite <-cli_report_response. apply (propose_prints _ _ _ _ _ n tx now meanwhile); [done| |].
    + cbn [process_request]. unfold propose_and_wait. by erewrite bind_run by done.
    + apply propose_response_plain.
  - erewrite (propose_prints _ _ _ _ _ n tx now meanwhile); [|done| |].
    2: { cbn [process_request]. unfold propose_and_wait. by erewrite bind_run by done. }
    + unfold cli_report, concat_all. simpl. by rewrite append_nil_r.
    + apply plain_none.
Qed.

(** The sockets of the client: the daemon [n], whose next request has the channel 9. *)
Definition one_daemon (name : string) (n : RaftNode) (meanwhile : list event) : terminal served :=
  mkTerminal {[ socket_path name := mkServed n [(9, 1700000000000, meanwhile)] ]} [].

Definition acknowledge_three : event :=
  Deliver (mkEnvelope "node-02" "node-01" (AppendEntriesResp (mkAppendEntriesResponse 1 true 3 "node-02"))).

Lemma put_reports_outcome_witness : screen (@cli_main json tree_api served tree_cli_format
    (@serve ref_env json tree_value tree_api tree_format) (mkCli "node-01" (CmdPropose "put" "k" (Some "v"))) []
    (one_daemon "node-01" example_leader [acknowledge_three])).2 = [Out "✓ Set k=v"].
Proof.
  pose proof (@put_reports_outcome ref_env json tree_value tree_api _ tree_format tree_cli_format _
    "node-01" "k" (Some "v") [] (one_daemon "node-01" example_leader [acknowledge_three])
    example_leader 9 1700000000000 [acknowledge_three] [] (inl tt)
    (@propose ref_env (@command_of ref_env "k" (Some "v")) 9 example_leader).2) as Hput.
  unfold put_or_delete in Hput. rewrite Hput; [..|].
  - vm_compute. reflexivity.
  - vm_compute. reflexivity.
  - vm_compute. reflexivity.
Defined.

(** C35: [raft-cli propose get] on the socket of a node in order prints the value of the last
    applied put of the key that no later command touched, and leaves the node as it was:
    arguments, request line, handler, store, answer line and output taken together. *)
Theorem get_prints_last_put {E : Env} {EL : EnvLaws E} {Value} {JV : JsonValue Value} {JA : JsonApi Value}
    {JL : JsonViewLaws Value JA} {IF : IpcFormat Value} {CF : CliFormat Value}
    {IW : IpcWire Value JA IF CF} name key v n es es1 e es2 sleeps (w : terminal served) request rest :
  daemons w !! socket_path name = Some (mkServed n (request :: rest)) ->
  node_ok n es -> (String.length key <= MAX_KEY_SIZE)%nat -> (String.length v <= MAX_VALUE_SIZE)%nat ->
  utf8 (String.list_byte_of_string v) -> take (N.to_nat (last_applied n)) es = es1 ++ e :: es2 ->
  command e = command_of key (Some v) -> Forall (fun e' => ~ touches key (command e')) es2 ->
  cli_main serve (mkCli name (CmdPropose "get" key None)) sleeps w =
    (Ok tt, after name (mkServed n rest) [Out (concat_all [key; ": "; v])] w).
Proof.
  intros Hd Hok Hk Hv Hutf Hes He Hno. destruct request as [[tx now] meanwhile].
  rewrite command_fits in He by done.
  pose proof (get_last_put n es key _ es1 es2 e Hok Hes He Hno) as Hget.
  change (cli_propose serve name "get" key None w =
    (Ok tt, after name (mkServed n rest) [Out (concat_all [key; ": "; v])] w)).
  unfold cli_propose. rewrite (bind_run _ _ _ _ _ (connect_ok _ _ _ Hd)).
  change (propose_request "get" key None) with (inl (A := IpcRequest) (B := error) (Get key)). cbv beta iota.
  erewrite bind_run.
  2: { eapply send_request_ok; [exact Hd|cbn [process_request]; rewrite bind_gets, Hget; reflexivity|].
       apply plain_obj; [|repeat constructor]. simpl. apply NoDup_cons. split; [set_solver|apply NoDup_singleton]. }
  simpl. rewrite from_utf8_lossy_valid by done. unfold print_value.
  rewrite (get_field _ "value" (json_str v)).
  - simpl. rewrite null_str, as_str_str. simpl. unfold println. rewrite print_screen. simpl.
    unfold after. simpl. by rewrite app_nil_r.
  - simpl. apply NoDup_cons. split; [set_solver|apply NoDup_singleton].
  - right. by left.
Qed.

Lemma get_prints_last_put_witness : screen (@cli_main json tree_api served tree_cli_format
    (@serve ref_env json tree_value tree_api tree_format) (mkCli "node-01" (CmdPropose "get" "a" None)) []
    (one_daemon "node-01" committed_leader [])).2 = [Out "a: a"].
Proof.
  rewrite (@get_prints_last_put ref_env _ json tree_value tree_api _ tree_format tree_cli_format _
    "node-01" "a" "a" committed_leader (log_entries (log committed_leader)) [] (mkEntry 1 1 (Put "a" [x61]))
    [mkEntry 2 1 (Delete "b")] [] _ (9, 1700000000000, []) []).
  - vm_compute. reflexivity.
  - vm_compute. reflexivity.
  - by apply (sample_run_ok three "node-01"); vm_compute.
  - apply Nat.leb_le. vm_compute. reflexivity.
  - apply Nat.leb_le. vm_compute. reflexivity.
  - apply (utf8_cons [x61] []); [by constructor|constructor].
  - vm_compute. reflexivity.
  - vm_compute. reflexivity.
  - repeat constructor. simpl. discriminate.
Defined.

(** [raft-cli watch] never ends well; until it ends it prints its header and then, of all the
    messages the polls are answered with, one per pair of timestamp and text, each pair once and
    none left out. *)
Theorem watch_shows_each_once {Value} {JA : JsonApi Value} {CF : CliFormat Value} {Daemon}
    (serve_line : string -> Daemon -> reply * Daemon) name line sleeps (w : terminal Daemon) d :
  daemons w !! socket_path name = Some d -> watch_line = Some line ->
  exists o w' shown, watch serve_line name sleeps w = (o, w') /\ (forall u, o <> Ok u) /\
    screen w' = screen w ++ [Out (concat_all ["Watching for messages on "; name; " (Ctrl+C to stop)..."]);
      Out rule] ++ (message_line <$> shown) /\
    NoDup (seen_key <$> shown) /\
    (forall msg, msg ∈ shown -> msg ∈ polled serve_line line sleeps d) /\
    (forall msg, msg ∈ polled serve_line line sleeps d -> seen_key msg ∈ seen_key <$> shown).
Proof.
  intros Hd Hline. unfold watch, println, print. rewrite !bind_modify.
  edestruct (watch_loop_spec serve_line name line sleeps Hline ∅) as (o & w' & Hrun & Ho & Hscreen).
  2: { exists o, w', (firsts ∅ (polled serve_line line sleeps d)).
       destruct (firsts_spec ∅ (polled serve_line line sleeps d)) as (Hnd & Hsub & Hall).
       split; [exact Hrun|]. split; [done|]. split.
       { rewrite Hscreen. simpl. by rewrite append_nil_r, <-!(assoc_L (++)). }
       split_and!; [done|intros msg Hmsg; by apply Hsub|].
       intros msg Hmsg. destruct (Hall msg Hmsg) as [Hin|]; [set_solver|done]. }
  done.
Qed.

(** A node with one message in its store, and a second one by the time of the second poll. *)
Definition message_text (message : string) (ts : N) : list byte :=
  String.list_byte_of_string (json_text (@message_value json tree_api "node-02" ts message)).

Definition with_messages (ms : list (string * N)) (n : RaftNode) : RaftNode :=
  with_state_machine (mkSM (list_to_map
    ((fun m => (String.append "_msg:" (pretty m.2), message_text m.1 m.2)) <$> ms)) 2) n.

Definition polled_daemon : terminal served :=
  mkTerminal {[ socket_path "node-01" := mkServed (with_messages [("one", 1000)] (sample three "node-01"))
    [(1, 0, []); (2, 0, [])] ]} [].

Definition second_message (d : served) : served :=
  mkServed (with_messages [("one", 1000); ("two", 2000)] (s_node d)) (s_requests d).

Lemma watch_shows_each_once_witness : exists shown : list json,
  screen (@watch json tree_api served tree_cli_format (@serve ref_env json tree_value tree_api tree_format)
    "node-01" [second_message; second_message] polled_daemon).2 =
  [] ++ [Out "Watching for messages on node-01 (Ctrl+C to stop)..."; Out rule] ++
    (@message_line json tree_api <$> shown) /\ length shown = 2%nat.
Proof.
  destruct (@watch_shows_each_once json tree_api tree_cli_format served
    (@serve ref_env json tree_value tree_api tree_format) "node-01"
    (default "" (@watch_line json tree_cli_format)) [second_message; second_message] polled_daemon
    (mkServed (with_messages [("one", 1000)] (sample three "node-01")) [(1, 0, []); (2, 0, [])]))
    as (o & w' & shown & Hrun & _ & Hscreen & _).
  - vm_compute. reflexivity.
  - vm_compute. reflexivity.
  - exists shown. rewrite Hrun. split; [exact Hscreen|].
    assert (length (screen w') = 4%nat) as Hlen.
    { replace w' with (@watch json tree_api served tree_cli_format
        (@serve ref_env json tree_value tree_api tree_format) "node-01"
        [second_message; second_message] polled_daemon).2 by by rewrite Hrun.
      vm_compute. reflexivity. }
    rewrite Hscreen in Hlen. simpl in Hlen. rewrite length_fmap in Hlen. lia.
Defined.

(** The time printed for a message identifies the second of the day, and nothing more. *)
Theorem chrono_lite_of_day a b : chrono_lite a = chrono_lite b <-> a mod 86400 = b mod 86400.
Proof.
  split; intros Heq.
  - apply chrono_lite_parts in Heq as (H1 & H2 & H3). by rewrite !day_parts, H1, H2, H3.
  - rewrite !day_parts in Heq.
    assert (forall h m s h' m' s', s < 60 -> s' < 60 -> m < 60 -> m' < 60 ->
      3600 * h + 60 * m + s = 3600 * h' + 60 * m' + s' -> h = h' /\ m = m' /\ s = s') as Hparts
      by (intros; lia).
    apply Hparts in Heq as (Hh & Hm & Hs); try by apply N.mod_lt.
    unfold chrono_lite. by rewrite Hh, Hm, Hs.
Qed.
