(* ===== verification/Replication.v ===== *)
(** * Properties of replication

    What the leader commits and when, what it sends, and that a heartbeat handled by a
    follower makes the two logs agree: the Log Matching property, one message at a time. *)

From Stdlib Require Import Init.Byte.
From S2P Require Import Prelude Heapless Protocol Serde HashMap Log LogFacts StateMachine.
From S2P Require Import Config Env LogProps Node NodeFacts Sample Daemon Follower Leader.
From S2P Require Import Election Invariant.
Local Open Scope N_scope.

(** ** Log matching *)

Lemma take_add {A} (p k : nat) (l : list A) : take (p + k) l = take p l ++ take k (drop p l).
Proof. by rewrite <-take_take_drop. Qed.

(** The new entries are in the log, and what was committed stays. *)
Lemma reconcile_take rest new : take (length new) (reconcile rest new) = new.
Proof.
  revert rest. induction new as [|e new IH]; intros [|old rest]; simpl; try done.
  - by rewrite take_ge.
  - case_match; simpl; [by rewrite IH|by rewrite take_ge].
Qed.

Lemma reconcile_length_le rest new : (length (reconcile rest new) <= length rest `max` length new)%nat.
Proof.
  revert rest. induction new as [|e new IH]; intros [|old rest]; simpl; try lia.
  case_match; simpl; [specialize (IH rest)|]; lia.
Qed.

Lemma reconcile_committed (m k : nat) rest ldr : take m rest = take m ldr ->
  take m (reconcile rest (take k ldr)) = take m rest.
Proof.
  revert m k rest. induction ldr as [|e ldr IH]; intros m k rest Hm; [by rewrite take_nil|].
  destruct k as [|k]; [done|]. destruct m as [|m]; [done|].
  destruct rest as [|old rest]; [done|]. simpl in *. injection Hm as -> Hm.
  rewrite N.eqb_refl. simpl. by rewrite IH.
Qed.

Section matching.
Context (es ldr : list LogEntry) (p k : nat).
Context (Hp : (p <= length ldr)%nat) (Hprefix : take p es = take p ldr).

Lemma common_prefix_length : (p <= length es)%nat.
Proof. apply (f_equal length) in Hprefix. rewrite !length_take in Hprefix. lia. Qed.

Lemma follower_log_matching (new := take k (drop p ldr)) :
  take (p + length new) (follower_log es p new) = take (p + length new) ldr.
Proof.
  unfold follower_log. rewrite Hprefix, take_app_add' by (rewrite length_take; lia).
  rewrite reconcile_take, take_add. f_equal. unfold new.
  by rewrite length_take, <-take_take, (take_ge _ (length _)).
Qed.

Lemma follower_log_committed c : take c es = take c ldr ->
  take c (follower_log es p (take k (drop p ldr))) = take c es.
Proof.
  intros Hc. unfold follower_log. pose proof common_prefix_length.
  rewrite take_app, length_take, Nat.min_l by done.
  rewrite (reconcile_committed (c - p) k (drop p es) (drop p ldr)).
  - destruct (decide (c <= p)%nat).
    + replace (c - p)%nat with 0%nat by lia. by rewrite take_take, Nat.min_l, app_nil_r by lia.
    + rewrite take_take, Nat.min_r by lia. rewrite <-take_add. f_equal. lia.
  - apply (f_equal (drop p)) in Hc. by rewrite !skipn_firstn_comm in Hc.
Qed.

Lemma follower_log_length :
  (length (follower_log es p (take k (drop p ldr))) <= length es `max` length ldr)%nat.
Proof.
  unfold follower_log. pose proof common_prefix_length. rewrite length_app, length_take.
  pose proof (reconcile_length_le (drop p es) (take k (drop p ldr))) as Hr.
  rewrite length_take, !length_drop in Hr. lia.
Qed.

Lemma prefix_matches : matches es p (default 0 (term <$> lookup1 ldr (N.of_nat p))).
Proof.
  destruct p as [|q]; [by left|]. right. rewrite !lookup1_S.
  assert (is_Some (ldr !! q)) as [e He] by (apply lookup_lt_is_Some; lia).
  exists e. rewrite He. split; [|done].
  by rewrite <-(lookup_take_lt _ (S q)), Hprefix, lookup_take_lt by lia.
Qed.
End matching.

(** ** Properties *)

(** C14: Log Matching, one message at a time: between two nodes in order, a follower whose term
    is not higher than the leader's, whose log agrees with the leader's up to the entry before
    the ones sent, and whose committed entries are the leader's, handles the leader's heartbeat
    with success, ends in the leader's term with a log that agrees with the leader's through the
    last entry sent, and keeps every entry it had committed; if its commit index is then within
    the entries sent, its store is the result of the leader's entries up to it. *)
Theorem heartbeat_replicates {E : Env} {EL : EnvLaws E} ldr esl peer flw esf :
  node_ok ldr esl -> node_ok flw esf -> node_term flw <= node_term ldr ->
  let p := N.to_nat (next_of ldr peer - 1) in
  let sent := (p + length (take MAX_ENTRIES (drop p esl)))%nat in
  (p <= length esl)%nat -> take p esf = take p esl ->
  take (N.to_nat (commit_index flw)) esf = take (N.to_nat (commit_index flw)) esl ->
  exists flw' esf', handle_message (heartbeat ldr esl peer) flw = (Ok tt, flw') /\
    node_ok flw' esf' /\ take sent esf' = take sent esl /\
    take (N.to_nat (commit_index flw)) esf' = take (N.to_nat (commit_index flw)) esf /\
    node_term flw' = node_term ldr /\ commit_index flw <= commit_index flw' /\
    (commit_index flw' <= N.of_nat sent -> data (state_machine flw') =
      exec (command <$> take (N.to_nat (commit_index flw')) esl)).
Proof.
  intros Hl Hf Ht p sent Hp Hpre Hcom. set (new := take MAX_ENTRIES (drop p esl)) in *.
  pose proof (follower_log_length esf esl p MAX_ENTRIES Hp Hpre) as Hlen.
  pose proof (follower_log_committed esf esl p MAX_ENTRIES Hp Hpre _ Hcom) as Hkeep.
  pose proof (follower_log_matching esf esl p MAX_ENTRIES Hp Hpre) as Hm. cbv zeta in Hm. fold new sent in Hlen, Hkeep, Hm.
  set (esf' := follower_log esf p new) in *.
  destruct Hl as [_ [Hr Hwf _ _] _ _ _ Hbl]. pose proof (ok_bound _ _ Hf).
  destruct (accept_ok flw esf (string_from ID_CAPACITY (node_id ldr)) (mkAppendEntries (node_term ldr)
    (string_from ID_CAPACITY (node_id ldr)) (next_of ldr peer - 1)
    (default 0 (term <$> lookup1 esl (next_of ldr peer - 1))) new (commit_index ldr)) p)
    as (flw' & Hrun & [Hok Ht' Hc Ha _ _ _ _]); simpl; try done; [unfold p; lia|..].
  - rewrite <-(N2Nat.id (next_of ldr peer - 1)). by apply prefix_matches.
  - by apply Forall_take, Forall_drop.
  - intros k e Hk. apply lookup_take_Some in Hk as [Hk _]. rewrite lookup_drop in Hk.
    apply (repr_index _ _ Hr) in Hk. lia.
  - fold esf'. lia.
  - simpl in *. fold esf' in Hc, Hok. exists flw', esf'. split_and!; [exact Hrun|done|exact Hm|done|done|..].
    + rewrite Hc. pose proof (ok_commit _ _ Hf). unfold follower_commit.
      assert (commit_index flw <= N.of_nat (length esf')).
      { apply (f_equal length) in Hkeep. rewrite !length_take in Hkeep. lia. }
      destruct (_ <? _) eqn:Hlt; [apply N.ltb_lt in Hlt|]; lia.
    + intros Hle. destruct (ok_store _ _ Hok) as [-> _]. rewrite Ha. do 2 f_equal.
      apply (f_equal (take (N.to_nat (commit_index flw')))) in Hm.
      by rewrite !take_take, !Nat.min_l in Hm by lia.
Qed.

Lemma heartbeat_replicates_witness : exists flw',
  @handle_message ref_env (@heartbeat ref_env example_leader (log_entries (log example_leader)) "node-02")
    (sample three "node-02") = (Ok tt, flw') /\
  exists esf', @node_ok ref_env flw' esf' /\ take 2 esf' = log_entries (log example_leader).
Proof.
  destruct (@heartbeat_replicates ref_env _ example_leader (log_entries (log example_leader)) "node-02"
    (sample three "node-02") []) as (flw' & esf' & Hrun & Hok & Hm & _).
  - by apply (sample_run_ok three "node-01" example_events); vm_compute.
  - apply sample_ok.
  - by vm_compute.
  - vm_compute. lia.
  - done.
  - done.
  - exists flw'. split; [exact Hrun|]. exists esf'. split; [exact Hok|].
    match type of Hm with take ?k _ = _ => replace k with 2%nat in Hm by by vm_compute end.
    rewrite Hm. by vm_compute.
Defined.

(** C17: A leader that counts a successful acknowledgement commits the last entry of its own
    term that a majority of the members, itself included, is recorded to hold, if there is one
    beyond its commit index; it then applies the entries up to it and answers the requests that
    waited for them. Otherwise only the recorded indices change. *)
Theorem leader_counts_acknowledgement {E : Env} {EL : EnvLaws E} n es from resp : node_ok n es ->
  role n = Leader -> success resp = true -> aer_term resp <= node_term n ->
  commit_index n < u64_max ->
  let n1 := acknowledged from (aer_last_log_index resp) n in
  exists n', handle_append_entries_response from resp n = (Ok tt, n') /\ node_ok n' es /\
    log n' = log n /\
    ((forall i, commit_index n < i -> ~ committable n1 es i) /\ n' = n1 \/
     exists i, commit_index n < i /\ committable n1 es i /\ (forall j, i < j -> ~ committable n1 es j) /\
       commit_index n' = i /\ last_applied n' = i /\ answered i n1 n').
Proof.
  intros Hok Hrole Hs Ht Hmax n1.
  destruct (acknowledgement_ok n es from resp) as (n' & ? & _ & ? & ? & ?); [done..|]. by exists n'.
Qed.

Lemma leader_counts_acknowledgement_witness : exists n',
  @handle_append_entries_response ref_env "node-02" (mkAppendEntriesResponse 1 true 1 "node-02")
    example_leader = (Ok tt, n') /\
  commit_index n' = 1 /\ last_applied n' = 1 /\
  data (state_machine n') = {["a" := [x61]]}.
Proof.
  destruct (@leader_counts_acknowledgement ref_env _ example_leader (log_entries (log example_leader))
    "node-02" (mkAppendEntriesResponse 1 true 1 "node-02")) as (n' & Hrun & Hok & _ & Hcase).
  - by apply (sample_run_ok three "node-01" example_events); vm_compute.
  - by vm_compute.
  - done.
  - by vm_compute.
  - by vm_compute.
  - exists n'. split; [exact Hrun|].
    assert (commit_index n' = 1 /\ last_applied n' = 1) as [Hc Ha].
    { destruct Hcase as [[Hno _]|(i & Hi & [(e & He & _) Hmaj] & _ & <- & Ha & _)].
      - destruct (Hno 1); [by vm_compute|]. split; [|vm_compute; lia].
        exists (mkEntry 1 1 (Put "a" [x61])). split; vm_compute; reflexivity.
      - assert (commit_index n' <> 2) as H2 by (intros H2; rewrite H2 in Hmaj; vm_compute in Hmaj; lia).
        apply mk_is_Some, lookup1_Some in He. change (commit_index example_leader) with 0 in Hi.
        replace (N.of_nat (length (log_entries (log example_leader)))) with 2 in He by (vm_compute; reflexivity).
        clear Hmaj Hrun Hok. lia. }
    split; [exact Hc|]. split; [exact Ha|].
    rewrite (proj1 (@ok_store ref_env _ _ Hok)), Ha. vm_compute. reflexivity.
Defined.

(** C21: [propose] on a leader appends one entry of the current term after the last one, in
    memory and on disk, remembers the request under the index of the entry, answers nothing yet,
    and sends every peer its heartbeat with the new entry. *)
Theorem proposal_appended {E : Env} {EL : EnvLaws E} n es c tx : node_ok n es -> role n = Leader ->
  wf_command c -> N.of_nat (length es) < u64_max ->
  let es' := es ++ [mkEntry (N.of_nat (length es) + 1) (node_term n) c] in
  exists n', propose c tx n = (Ok tt, n') /\ node_ok n' es' /\ node_term n' = node_term n /\
    pending_requests n' = <[N.of_nat (length es) + 1 := tx]> (pending_requests n) /\
    commit_index n' = commit_index n /\ replies n' = replies n /\
    outgoing n' = outgoing n ++ (heartbeat n' es' <$> hash_keys (peers n)).
Proof.
  intros Hok Hrole Hc Hmax es'. destruct (propose_ok n es c tx) as (n' & ? & ? & ? & ? & ? & ? & ? & _); [done..|].
  by exists n'.
Qed.

Lemma proposal_appended_witness : exists n',
  @propose ref_env (Put "c" []) 9 example_leader = (Ok tt, n') /\
  pending_requests n' = {[1 := 7; 2 := 8; 3 := 9]} /\ replies n' = [].
Proof.
  destruct (@proposal_appended ref_env _ example_leader (log_entries (log example_leader)) (Put "c" []) 9)
    as (n' & Hrun & _ & _ & Hp & _ & Hr & _).
  - by apply (sample_run_ok three "node-01" example_events); vm_compute.
  - vm_compute. reflexivity.
  - apply (bool_decide_unpack _); vm_compute; exact I.
  - by vm_compute.
  - exists n'. split; [exact Hrun|]. split; [rewrite Hp|rewrite Hr]; vm_compute; reflexivity.
Defined.

(** A heartbeat round of a leader sends every peer one [AppendEntries], with the entries from
    its next index on, at most 64, and changes nothing else. *)
Theorem heartbeats_sent {E : Env} {EL : EnvLaws E} n es : node_ok n es -> role n = Leader ->
  heartbeat_tick n = (Ok tt,
    with_outgoing (outgoing n ++ (heartbeat n es <$> hash_keys (peers n))) n).
Proof.
  intros Hok Hrole. unfold heartbeat_tick. rewrite bind_gets. unfold when.
  rewrite bool_decide_true by done. by apply send_heartbeats_ok.
Qed.

(** Two nodes, and a log of 70 entries: the heartbeat carries the first 64. *)
Definition long_leader : RaftNode := @run_events ref_env
  (elected_by ["a"; "b"] "a" "b" ++ replicate 70 (Propose Noop 0)) (sample ["a"; "b"] "a").

Lemma heartbeats_sent_witness : exists ms n',
  @heartbeat_tick ref_env long_leader = (Ok tt, n') /\
  outgoing n' = outgoing long_leader ++ ms /\
  omap (fun env => match message env with
    | AppendEntries req => Some (prev_log_index req, length (ae_entries req)) | _ => None end) ms = [(0, 64%nat)].
Proof.
  eexists _, _. split; [apply (@heartbeats_sent ref_env _ long_leader (log_entries (log long_leader)))|].
  - by apply (sample_run_ok ["a"; "b"] "a" (elected_by ["a"; "b"] "a" "b" ++
      replicate 70 (Propose Noop 0))); vm_compute.
  - vm_compute. reflexivity.
  - split; [reflexivity|]. vm_compute. reflexivity.
Defined.
