(* ===== verification/ElectionProps.v ===== *)
(** * Properties of elections, one node at a time *)

From Stdlib Require Import Init.Byte.
From S2P Require Import Prelude Heapless Protocol Serde HashMap Log LogFacts StateMachine.
From S2P Require Import Config Env LogProps Node NodeFacts Sample Daemon Follower Leader.
From S2P Require Import Election Invariant.
Local Open Scope N_scope.

(** C19: [handle_request_vote] on every branch: the vote is granted exactly when the candidate's
    log is at least as up to date and the node is free to vote for it in that term; a higher
    term is adopted and makes the node a follower, the vote is saved before the answer is sent,
    and one answer is sent. *)
Theorem vote_request_answered {E : Env} {EL : EnvLaws E} n es from req : node_ok n es ->
  exists granted n', handle_request_vote from req n = (Ok tt, n') /\
    (granted = true <-> up_to_date req es /\ free_to_vote req (persistent_state (log n))) /\
    answered_vote n es from req granted n'.
Proof.
  intros Hok. destruct (decide (up_to_date req es /\ free_to_vote req (persistent_state (log n))))
    as [[Hup Hfree]|Hno].
  - destruct (vote_granted_ok n es from req Hok Hup Hfree) as (n' & ? & ?). by exists true, n'.
  - destruct (vote_refused_ok n es from req Hok Hno) as (n' & ? & ?). by exists false, n'.
Qed.

(** The leader of term 1, with two entries, is asked in term 2 by a candidate with one. *)
Lemma vote_request_answered_witness : exists n',
  @handle_request_vote ref_env "node-03" (mkRequestVote 2 "node-03" 1 1) example_leader = (Ok tt, n') /\
  node_term n' = 2 /\ role n' = Follower /\ log_voted_for (log n') = None.
Proof.
  destruct (@vote_request_answered ref_env _ example_leader (log_entries (log example_leader)) "node-03"
    (mkRequestVote 2 "node-03" 1 1)) as (granted & n' & Hrun & Hg & Ha).
  { by apply (sample_run_ok three "node-01" example_events); vm_compute. }
  exists n'. split; [exact Hrun|].
  assert (granted = false) as ->.
  { destruct granted; [|reflexivity]. destruct (proj1 Hg eq_refl) as [Hup _].
    vm_compute in Hup. destruct Hup as [Hup|[_ Hup]]; [discriminate Hup|by destruct Hup]. }
  split; [rewrite (@av_term ref_env _ _ _ _ _ _ Ha); vm_compute; reflexivity|].
  split; [rewrite (@av_role ref_env _ _ _ _ _ _ Ha); vm_compute; reflexivity|].
  rewrite (@av_novote ref_env _ _ _ _ _ _ Ha) by reflexivity. vm_compute. reflexivity.
Defined.

(** C20: A candidate that receives a vote records the voter once; it becomes the leader, with
    fresh indices for its peers and a first round of heartbeats, exactly when the count it uses
    reaches the majority, and nothing else changes otherwise. *)
Theorem granted_vote_counted {E : Env} {EL : EnvLaws E} n es from resp : node_ok n es ->
  role n = Candidate -> rvr_term resp <= node_term n -> vote_granted resp = true ->
  N.of_nat (length es) < u64_max ->
  exists n', handle_request_vote_response from resp n = (Ok tt, n') /\
    (enough_votes (with_vote from n) -> elected (with_vote from n) es n') /\
    (~ enough_votes (with_vote from n) -> n' = with_vote from n).
Proof.
  intros Hok Hrole Ht Hv Hmax. destruct (vote_counted_ok n es from resp) as [Hyes Hno]; [done..|].
  destruct (decide (enough_votes (with_vote from n))) as [He|He].
  - destruct (Hyes He) as (n' & ? & ?). by exists n'.
  - eexists. by split; [apply Hno|].
Qed.

Definition example_candidate : RaftNode :=
  @run_events ref_env [ElectionTick 0] (sample three "node-01").

Lemma granted_vote_counted_witness : exists n',
  @handle_request_vote_response ref_env "node-02" (mkRequestVoteResponse 1 true "node-02")
    example_candidate = (Ok tt, n') /\ role n' = Leader /\
  next_index n' !! "node-02" = Some 1 /\ next_index n' !! "node-03" = Some 1.
Proof.
  destruct (@granted_vote_counted ref_env _ example_candidate [] "node-02"
    (mkRequestVoteResponse 1 true "node-02")) as (n' & Hrun & Hyes & _).
  - by apply (sample_run_ok three "node-01" [ElectionTick 0]); vm_compute.
  - vm_compute. reflexivity.
  - by vm_compute.
  - reflexivity.
  - by vm_compute.
  - exists n'. split; [exact Hrun|].
    assert (enough_votes (with_vote "node-02" example_candidate)) as He by (vm_compute; lia).
    specialize (Hyes He). split; [apply Hyes|].
    split; [apply (@el_next ref_env _ _ _ Hyes "node-02")|apply (@el_next ref_env _ _ _ Hyes "node-03")];
      vm_compute; by eexists.
Defined.

(** [start_election] saves the next term and the vote of the node for itself and asks every peer
    for its vote; a node without peers becomes the leader at once. *)
Theorem election_started {E : Env} {EL : EnvLaws E} n es : node_ok n es ->
  N.of_nat (length es) < u64_max ->
  exists n1, candidate n es n1 /\
    (peers n <> ∅ -> start_election n = (Ok tt, n1)) /\
    (peers n = ∅ -> exists n', start_election n = (Ok tt, n') /\ elected n1 es n').
Proof. apply start_election_ok. Qed.

Lemma election_started_witness : exists n1 n',
  @start_election ref_env (sample ["solo"] "solo") = (Ok tt, n') /\
  persistent_state (log n1) = mkPersistent 1 (Some "solo") /\ role n' = Leader /\ log n' = log n1.
Proof.
  destruct (@election_started ref_env _ (sample ["solo"] "solo") [] (sample_ok _ _)) as (n1 & Hc & _ & Hs).
  { by vm_compute. }
  destruct Hs as (n' & Hrun & Hel); [by vm_compute|]. exists n1, n'. split; [exact Hrun|].
  split; [rewrite (@ca_state ref_env _ _ _ Hc); vm_compute; reflexivity|].
  split; [apply Hel|apply Hel].
Defined.
