(* ===== verification/TimersProps.v ===== *)
(** * The timers: silence is noticed

    A follower that hears nothing for twice the largest timeout becomes a candidate of a later
    term and asks every peer for its vote, whatever its timer tasks draw and whenever they wake,
    unless the election task is late.  With a configuration whose timeouts are in the wrong
    order the election task ends before its first round, and the node is a follower for ever. *)

From S2P Require Import Prelude Heapless Protocol Serde HashMap Log LogFacts StateMachine.
From S2P Require Import Config Env LogProps Node NodeFacts Sample Daemon Histories Timers Votes.
From S2P Require Import Rounds Follower Leader Replication Election Invariant.
Local Open Scope N_scope.

(** [rng.gen_range(min..=max)] is in the range, unless it is empty. *)
Definition lawful (gen_range : N -> N -> N) : Prop :=
  forall min max, min <= max -> min <= gen_range min max <= max.

Section timers.
Context {E : Env} {EL : EnvLaws E}.

Definition timeout_max (n : RaftNode) : N := election_timeout_max_ms (timing (config n)).
Definition timeout_min (n : RaftNode) : N := election_timeout_min_ms (timing (config n)).

(** ** Roles *)

(** No round but that of the election task makes a follower anything else. *)
Definition stays_follower (n : RaftNode) : Prop := role n = Follower.

Ltac follow_steps := node_steps; try done; unfold keeps, stays_follower; try (by intros Hn).

Lemma follower_guard n b : keeps stays_follower n (with_log_guard b n).
Proof. intros Hn. exact Hn. Qed.
Hint Resolve follower_guard : raft.

Lemma follower_on_log {A} (m : M RaftLog A) : steps_in (keeps stays_follower) (on_log m).
Proof. intros n Hn. unfold on_log, zoom. by destruct (m (log n)). Qed.
Hint Resolve follower_on_log : raft.

Lemma follower_heartbeats : steps_in (keeps stays_follower) send_heartbeats.
Proof. unfold send_heartbeats, heartbeat_to, send. follow_steps. Qed.
Hint Resolve follower_heartbeats : raft.

Lemma follower_apply : steps_in (keeps stays_follower) apply_committed_entries.
Proof.
  assert (forall fuel commit, steps_in (keeps stays_follower) (apply_loop fuel commit)) as Hl.
  { intros fuel commit. induction fuel; simpl; unfold apply_entry; follow_steps. }
  unfold apply_committed_entries. node_steps.
Qed.
Hint Resolve follower_apply : raft.

Lemma follower_append_response to t b : steps_in (keeps stays_follower) (send_append_entries_response to t b).
Proof. unfold send_append_entries_response, send. follow_steps. Qed.
Hint Resolve follower_append_response : raft.

Lemma follower_event n ev : others ev = true -> role n = Follower -> role (run_event ev n).2 = Follower.
Proof.
  intros Hev Hr. destruct ev as [[f t m]|timeout| |cmd tx|id addr|id| ]; try done; simpl.
  - unfold handle_message. destruct m as [req|resp|req|resp|r|r]; simpl; try done.
    + refine (_ n Hr). change (steps_in (keeps stays_follower) (handle_append_entries f req)).
      unfold handle_append_entries, update_commit_index, reset_heartbeat, set_role, when. follow_steps.
    + unfold handle_append_entries_response. apply (keeps_scope_at stays_follower); try done.
      rewrite bind_gets, decide_True; [done|]. simpl. by rewrite Hr.
    + refine (_ n Hr). change (steps_in (keeps stays_follower) (handle_request_vote f req)).
      unfold handle_request_vote, send_request_vote_response, send, reset_heartbeat, set_role, when.
      follow_steps.
    + unfold handle_request_vote_response. apply (keeps_scope_at stays_follower); try done.
      rewrite bind_gets, decide_True; [done|]. simpl. by rewrite Hr.
  - refine (_ n Hr). change (steps_in (keeps stays_follower) (propose cmd tx)).
    unfold propose, respond. follow_steps.
  - refine (_ n Hr). change (steps_in (keeps stays_follower) (add_peer id addr)).
    unfold add_peer, when. follow_steps.
  - refine (_ n Hr). change (steps_in (keeps stays_follower) (status <- get_status;; ret tt)%raft).
    unfold get_status. node_steps.
Qed.

(** ** Configurations without a timeout *)

Lemma inverted_step a s : tm_election s = Over -> role (tm_node s) = Follower ->
  tm_election (exec_timer a s) = Over /\ role (tm_node (exec_timer a s)) = Follower.
Proof.
  intros Ht Hr. destruct a as [g| |ev|now]; simpl.
  - by rewrite Ht.
  - case_match; [|done]. case_match; [|done].
    unfold heartbeat_tick. rewrite bind_gets. unfold when. by rewrite Hr.
  - case_match eqn:Hev; [|done]. split; [done|by apply follower_event].
  - by case_match.
Qed.

(** With a smallest election timeout above the largest one the election task ends before its
    first round, for nothing compares the two before [gen_range] does, and the node is a
    follower whatever happens to it. *)
Theorem inverted_timeouts_never_elect g acts n : timeout_max n < timeout_min n -> role n = Follower ->
  tm_election (run_timers acts (start_timers g n)) = Over /\
  role (tm_node (run_timers acts (start_timers g n))) = Follower.
Proof.
  intros Hlt Hr.
  assert (tm_election (start_timers g n) = Over) as Hover.
  { simpl. unfold election_sleep, election_timeout. by rewrite (proj2 (N.leb_gt _ _)). }
  unfold run_timers. revert Hover. change n with (tm_node (start_timers g n)) in Hr. revert Hr.
  generalize (start_timers g n). induction acts as [|a acts IH]; intros s Hr Ht; [done|].
  destruct (inverted_step a s Ht Hr). by apply IH.
Qed.

(** ** Silence *)

(** Nothing happens but time and the timers. *)
Definition silent (a : timer_action) : Prop :=
  match a with
  | WakeElection g => lawful g
  | Meanwhile _ => False
  | _ => True
  end.

(** The sleep of the election task is over, but the task has not had its turn. *)
Definition overdue (s : timers) : Prop :=
  match tm_election s with Asleep since timeout => since + timeout <= clock (tm_node s) | Over => False end.

(** Every peer has been asked for its vote in the term of the node. *)
Definition canvassed (n : RaftNode) : Prop :=
  forall peer, is_Some (peers n !! peer) -> exists env req, env ∈ outgoing n /\
    to env = string_from ID_CAPACITY peer /\ message env = RequestVote req /\ rv_term req = node_term n.

Record standing (t : N) (n : RaftNode) : Prop := {
  st_role : role n = Candidate;
  st_term : t < node_term n;
  st_sent : canvassed n;
}.

Lemma election_campaigns n es : node_ok n es -> peers n <> ∅ -> exists l, log_inv l es /\
  persistent_state l =
    mkPersistent (u64_add (node_term n) 1) (Some (string_from ID_CAPACITY (node_id n))) /\
  start_election n = (Ok tt, campaign l n es).
Proof.
  intros Hok Hps. destruct (start_election_run n es Hok) as (l & Hl & Hp & Hrun).
  exists l. split_and!; [done..|]. pose proof (ok_guard _ _ Hok) as Hg.
  rewrite Hrun, scope_log_free by done. unfold when.
  rewrite bool_decide_false by (by rewrite hash_keys_nil). unfold ret. unfold campaign.
  by destruct n; simplify_eq/=.
Qed.

Lemma campaign_canvassed n es l : node_term n < u64_max -> persistent_state l =
    mkPersistent (u64_add (node_term n) 1) (Some (string_from ID_CAPACITY (node_id n))) ->
  node_term (campaign l n es) = node_term n + 1 /\ canvassed (campaign l n es).
Proof.
  intros Hmax Hp. assert (node_term (campaign l n es) = node_term n + 1) as Ht.
  { unfold node_term at 1, log_current_term. simpl. rewrite Hp. simpl. by rewrite u64_add_small by lia. }
  split; [done|]. intros peer Hpeer. exists (vote_request n es (u64_add (node_term n) 1) peer).
  eexists. split_and!; [|reflexivity..|].
  - simpl. apply elem_of_app. right. apply list_elem_of_fmap. exists peer. split; [done|].
    by apply elem_of_hash_keys.
  - rewrite Ht. simpl. by rewrite u64_add_small by lia.
Qed.

(** A round of the election task: too early, or a campaign. *)
Lemma election_tick_outcome d n es : node_ok n es -> peers n <> ∅ -> role n <> Leader ->
  (time_since_heartbeat n < d /\ election_tick d n = (Ok tt, n)) \/
  (exists l, log_inv l es /\ persistent_state l =
      mkPersistent (u64_add (node_term n) 1) (Some (string_from ID_CAPACITY (node_id n))) /\
    election_tick d n = (Ok tt, campaign l n es)).
Proof.
  intros Hok Hps Hr. unfold election_tick. rewrite bind_gets. unfold when at 1 3.
  rewrite bool_decide_true by (destruct (role n); naive_solver). rewrite !bind_gets. unfold when.
  case_match eqn:Hd; [|left; split; [by apply N.leb_gt|done]]. right.
  by apply election_campaigns.
Qed.

Record hushed (c t : N) (es : list LogEntry) (s : timers) : Prop := {
  hu_ok : node_ok (tm_node s) es;
  hu_peers : peers (tm_node s) <> ∅;
  hu_range : timeout_min (tm_node s) <= timeout_max (tm_node s);
  hu_state : standing t (tm_node s) \/
    role (tm_node s) = Follower /\ node_term (tm_node s) = t /\ last_heartbeat (tm_node s) <= c /\
    exists since d, tm_election s = Asleep since d /\ d <= timeout_max (tm_node s) /\
      since + d <= c + 2 * timeout_max (tm_node s);
}.

Lemma hushed_role c t es s : hushed c t es s -> role (tm_node s) <> Leader.
Proof. intros [_ _ _ [[Hr _ _]|[Hr _]]]; by rewrite Hr. Qed.

Lemma next_sleep g n : lawful g -> timeout_min n <= timeout_max n ->
  exists d, election_sleep g n = Asleep (clock n) d /\ d <= timeout_max n.
Proof.
  intros Hg Hle. exists (g (timeout_min n) (timeout_max n)). split; [|by apply Hg].
  unfold election_sleep, election_timeout. fold (timeout_min n) (timeout_max n).
  by rewrite (proj2 (N.leb_le _ _) Hle).
Qed.

Lemma hushed_wake c t es g s : lawful g -> hushed c t es s -> node_term (tm_node s) < u64_max ->
  hushed c t es (exec_timer (WakeElection g) s) /\
  node_term (tm_node (exec_timer (WakeElection g) s)) <= node_term (tm_node s) + 1.
Proof.
  intros Hg Hs Hmax. pose proof (hushed_role _ _ _ _ Hs) as Hnl. pose proof Hs as [Hok Hps Hle Hst]. simpl.
  destruct (tm_election s) as [since d|] eqn:Ht; [|split; [done|lia]].
  case_match eqn:Hdue; [|split; [done|lia]]. apply N.leb_le in Hdue.
  destruct (election_tick_outcome d (tm_node s) es Hok Hps Hnl) as [[Hearly ->]|(l & Hl & Hp & ->)].
  - split; [|simpl; lia]. split; simpl; try done.
    destruct Hst as [Hst|(Hr & Hterm & Hhb & Hd)]; [by left|right].
    split_and!; try done. destruct (next_sleep g (tm_node s) Hg Hle) as (d' & Hsleep & Hd').
    exists (clock (tm_node s)), d'. split_and!; try done.
    destruct Hd as (since' & d'' & Heq & Hlt & _). simplify_eq. unfold time_since_heartbeat in Hearly. lia.
  - destruct (campaign_canvassed _ es l Hmax Hp) as [Hterm Hcan]. cbn [tm_node]. rewrite Hterm. split; [|lia].
    pose proof (campaign_ok _ _ _ Hok Hl Hp) as [Hok' _ _ _ _ _ _ _]. split; try done.
    left. split; try done. cbn [tm_node]. rewrite Hterm. destruct Hst as [[_ Hlt _]|(_ & Heq & _)]; lia.
Qed.

Lemma hushed_step c t es a s : silent a -> hushed c t es s -> node_term (tm_node s) < u64_max ->
  hushed c t es (exec_timer a s) /\
  node_term (tm_node (exec_timer a s)) <= node_term (tm_node s) + 1.
Proof.
  intros Ha Hs Hmax. destruct a as [g| |ev|now]; [by apply hushed_wake| |done|].
  - assert (heartbeat_tick (tm_node s) = (Ok tt, tm_node s)) as Hidle.
    { unfold heartbeat_tick. rewrite bind_gets. unfold when. rewrite bool_decide_false; [done|].
      by apply (hushed_role c t es). }
    simpl. case_match; [|split; [done|lia]]. case_match; [|split; [done|lia]]. rewrite Hidle.
    split; [|simpl; lia]. by destruct Hs.
  - simpl. case_match; [|split; [done|lia]]. split; [|unfold node_term; simpl; lia].
    destruct Hs as [Hok Hps Hle Hst]. split; simpl; try done; [by apply (node_ok_same (tm_node s))|].
    destruct Hst as [[]|Hst]; [by left; split|by right].
Qed.

Lemma hushed_run c t es acts s : Forall silent acts -> hushed c t es s ->
  node_term (tm_node s) + N.of_nat (length acts) <= u64_max -> hushed c t es (run_timers acts s).
Proof.
  revert s. induction acts as [|a acts IH]; intros s Hall Hs Hmax; [done|].
  inversion Hall; subst. simpl in Hmax. destruct (hushed_step c t es a s) as [Hs' Hterm]; [done..|lia|].
  apply IH; [done..|lia].
Qed.

(** C37: A follower that hears nothing for twice the largest election timeout, whatever its
    timer tasks draw and whenever they wake, is a candidate of a later term that has asked every
    peer for its vote, unless its election task is overdue: its sleep is over and its turn has
    not come. *)
Theorem silence_is_noticed acts s es since d : node_ok (tm_node s) es -> peers (tm_node s) <> ∅ ->
  role (tm_node s) = Follower -> timeout_min (tm_node s) <= timeout_max (tm_node s) ->
  tm_election s = Asleep since d -> d <= timeout_max (tm_node s) -> since <= clock (tm_node s) ->
  last_heartbeat (tm_node s) <= clock (tm_node s) ->
  Forall silent acts -> node_term (tm_node s) + N.of_nat (length acts) <= u64_max ->
  let s' := run_timers acts s in
  clock (tm_node s) + 2 * timeout_max (tm_node s') <= clock (tm_node s') ->
  overdue s' \/ standing (node_term (tm_node s)) (tm_node s').
Proof.
  intros Hok Hps Hr Hle Ht Hd Hsince Hhb Hall Hmax s' Hclock.
  assert (hushed (clock (tm_node s)) (node_term (tm_node s)) es s) as Hs.
  { split; try done. right. split_and!; try done. exists since, d. split_and!; try done. lia. }
  destruct (hushed_run _ _ _ _ _ Hall Hs Hmax) as [_ _ _
    [Hst|(_ & _ & _ & since' & d' & Heq & _ & Hend)]]; [by right|].
  left. unfold overdue. fold s' in Heq, Hend. rewrite Heq. lia.
Qed.

End timers.

Lemma inverted_timeouts_never_elect_witness :
  let cfg := mkConfig (server (member_config three "node-01")) (mkTiming 50 300 150 1000)
    (cfg_peers (member_config three "node-01")) EbpfConfig_default in
  exists n, @RaftNode_new ref_env cfg (mkDir ∅ []) 0 = Ok n /\
  tm_election (@run_timers ref_env [Passing 1000; WakeElection (fun _ max => max)]
    (start_timers (fun _ max => max) n)) = Over.
Proof.
  intros cfg. eexists. split; [vm_compute; reflexivity|].
  apply (@inverted_timeouts_never_elect ref_env _); vm_compute; reflexivity.
Defined.

Lemma silence_is_noticed_witness :
  let n := sample three "node-01" in let s := start_timers (fun _ max => max) n in
  let acts := [Passing 100; WakeElection (fun _ max => max); Passing 350; WakeElection (fun min _ => min);
    Passing 600; WakeHeartbeat; WakeElection (fun _ max => max)] in
  @standing ref_env (node_term n) (tm_node (@run_timers ref_env acts s)) /\
  ~ overdue (@run_timers ref_env acts s).
Proof.
  intros n s acts. assert (~ overdue (@run_timers ref_env acts s)) as Hdue
    by (vm_compute; intros H; by apply H).
  split; [|done].
  assert (overdue (@run_timers ref_env acts s) \/
    @standing ref_env (node_term n) (tm_node (@run_timers ref_env acts s))) as [H|H];
    [|by destruct Hdue|exact H].
  apply (@silence_is_noticed ref_env _ acts s [] 0 300).
  - apply sample_ok.
  - by vm_compute.
  - by vm_compute.
  - by vm_compute.
  - by vm_compute.
  - by vm_compute.
  - by vm_compute.
  - by vm_compute.
  - subst acts. clear. repeat constructor; simpl; unfold lawful; lia.
  - by vm_compute.
  - by vm_compute.
Defined.

