(* ===== verification/Members.v ===== *)
(** * A member of a fixed cluster

    The properties of the whole cluster need, of each node, what it sends and to whom, and
    how its role and term change.  [member] is the invariant of a node whose file
    operations succeed and whose peers are fixed; [calm] is the effect of every program
    but the two that make a candidate or a leader: the role stays in its term, or the node
    becomes a follower. *)

From S2P Require Import Prelude Heapless Protocol Serde HashMap Log LogFacts StateMachine.
From S2P Require Import Config Env Node NodeFacts Sample Daemon Votes Rounds.
Local Open Scope N_scope.

(** ** The file operations succeed *)

Definition no_failures (l : RaftLog) : Prop := io (disk l) = [].

Section no_failures.
Context {E : Env} {EL : EnvLaws E}.

Ltac quiet_steps := node_steps; try (let Hl := fresh in intros Hl; exact Hl).

Lemma quiet_next_io : steps_in (keeps no_failures) next_io.
Proof. intros l Hl. by rewrite (next_io_ok l Hl). Qed.
Hint Resolve quiet_next_io : raft.

Lemma quiet_io_call : steps_in (keeps no_failures) io_call.
Proof. unfold io_call. quiet_steps. Qed.

Lemma quiet_set_file name text : steps_in (keeps no_failures) (set_file name text).
Proof. unfold set_file. quiet_steps. Qed.
Hint Resolve quiet_io_call quiet_set_file : raft.

Lemma quiet_file_append name text : steps_in (keeps no_failures) (file_append name text).
Proof. unfold file_append. quiet_steps. Qed.

Lemma quiet_open_append : steps_in (keeps no_failures) open_append.
Proof. unfold open_append. quiet_steps. Qed.
Hint Resolve quiet_file_append quiet_open_append : raft.

Lemma quiet_write_entry e : steps_in (keeps no_failures) (write_entry e).
Proof. unfold write_entry, handle_writeln. quiet_steps. Qed.
Hint Resolve quiet_write_entry : raft.

Lemma quiet_flush_file : steps_in (keeps no_failures) flush_file.
Proof. unfold flush_file, flush. quiet_steps. Qed.
Hint Resolve quiet_flush_file : raft.

Lemma quiet_append t c : steps_in (keeps no_failures) (append t c).
Proof. unfold append. quiet_steps. Qed.

Lemma quiet_truncate_from i : steps_in (keeps no_failures) (truncate_from i).
Proof.
  unfold truncate_from, flush, rename_temp, rewrite_entry. quiet_steps.
Qed.
Hint Resolve quiet_truncate_from : raft.

Lemma quiet_store_entries new : steps_in (keeps no_failures) (store_entries new).
Proof.
  unfold store_entries, append_entries, append_entry. quiet_steps.
  induction new as [|e new IH]; simpl; quiet_steps.
Qed.

Lemma quiet_new dir d l : io d = [] -> RaftLog_new dir d = Ok l -> no_failures l.
Proof.
  intros Hd. unfold RaftLog_new. set (l0 := mkLog dir ∅ PersistentState_default 0 None d).
  destruct ((io_call ;;; load_from_disk)%raft l0) as [[[]| | | |] l'] eqn:Hrun;
    intros [= <-].
  refine (steps_in_tail (keeps no_failures) _ l0 _ l' _ Hrun Hd).
  unfold load_from_disk, fs_read, load_line, when. quiet_steps.
Qed.
End no_failures.

Section members.
Context {E : Env} {EL : EnvLaws E}.
Context (names : list string) (me : string) (cfg : Config) (ps : gmap string PeerInfo).

(** A node the member can be sent to, or hear from. *)
Definition known (p : string) : Prop :=
  p ∈ names /\ p <> me /\ (String.length p <= ID_CAPACITY)%nat.

(** A message the member can have sent. *)
Record genuine (env : MessageEnvelope) : Prop := {
  gen_from : from env = me;
  gen_to : known (to env);
  gen_candidate req : message env = RequestVote req -> candidate_id req = me;
}.

Record member (n : RaftNode) : Prop := {
  mem_id : node_id n = me;
  mem_config : config n = cfg;
  mem_peers : peers n = ps;
  mem_files : no_failures (log n);
  mem_sent : Forall genuine (outgoing n);
}.

Definition calm (n n' : RaftNode) : Prop := member n ->
  member n' /\ outgoing n `prefix_of` outgoing n' /\
  (role n' = Follower \/ role n' = role n /\ node_term n' = node_term n).

#[export] Instance calm_preorder : PreOrder calm.
Proof.
  split.
  - intros n Hn. split_and!; [done|done|by right].
  - intros n1 n2 n3 H12 H23 H1. destruct (H12 H1) as (H2 & Ho2 & Hr2).
    destruct (H23 H2) as (H3 & Ho3 & Hr3). split_and!; [done|by etransitivity|].
    destruct Hr3 as [|[Hr3 Ht3]]; [by left|]. rewrite Hr3, Ht3. done.
Qed.

(** A change of the fields no other node sees. *)
Lemma calm_same n n' : node_id n' = node_id n -> config n' = config n -> peers n' = peers n ->
  log n' = log n -> outgoing n' = outgoing n -> role n' = role n \/ role n' = Follower ->
  calm n n'.
Proof.
  intros Hi Hc Hp Hl Ho Hr []. unfold node_term. rewrite Hl, Ho. split_and!; [|done|].
  - split; by rewrite ?Hi, ?Hc, ?Hp, ?Hl, ?Ho.
  - destruct Hr; [by right|by left].
Qed.

Lemma calm_guard n b : calm n (with_log_guard b n).
Proof. by apply calm_same; auto. Qed.
Hint Resolve calm_guard : raft.

Ltac calm_steps := node_steps; try (by apply calm_same; auto).

Lemma calm_on_log {A} (m : M RaftLog A) : steps_in same_state m -> steps_in (keeps no_failures) m ->
  steps_in calm (on_log m).
Proof.
  intros Hs Hq n []. unfold on_log, zoom. specialize (Hs (log n)) as [Hp _]. specialize (Hq (log n)).
  destruct (m (log n)) as [o l]. simpl in *. split_and!; [split; simpl; auto|done|].
  right. split; [done|]. unfold node_term, log_current_term. simpl. by rewrite Hp.
Qed.

Lemma calm_append t c : steps_in calm (on_log (append t c)).
Proof. apply calm_on_log; [apply same_append|apply quiet_append]. Qed.

Lemma calm_store new : steps_in calm (on_log (store_entries new)).
Proof. apply calm_on_log; [apply same_store_entries|apply quiet_store_entries]. Qed.
Hint Resolve calm_append calm_store : raft.

Lemma calm_send env : genuine env -> steps_in calm (send env).
Proof.
  intros Henv. apply steps_in_modify. intros n []. split_and!; [|by exists [env]|by right].
  split; simpl; [done..|]. apply Forall_app. split; [done|]. by apply Forall_singleton.
Qed.

(** ** Programs on the persistent state, when the files do not fail *)

Lemma member_log l n : no_failures l -> member n -> member (with_log l n).
Proof. intros Hl []. by split. Qed.

Lemma save_member n f : member n -> exists l,
  on_log (modify (fun l => with_persistent_state (f (persistent_state l)) l) ;;; save_state)%raft n =
    (Ok tt, with_log l n) /\ persistent_state l = f (persistent_state (log n)) /\ no_failures l.
Proof.
  intros []. unfold on_log, zoom. rewrite bind_modify.
  destruct (save_state_ok (with_persistent_state (f (persistent_state (log n))) (log n)))
    as (text & _ & ->); [done|]. by eexists.
Qed.

Lemma set_term_member n t : member n -> exists l,
  on_log (set_current_term t) n = (Ok tt, with_log l n) /\
  persistent_state l = mkPersistent t None /\ no_failures l.
Proof. apply (save_member n (fun _ => mkPersistent t None)). Qed.

Lemma set_vote_member n c : member n -> exists l,
  on_log (set_voted_for (Some c)) n = (Ok tt, with_log l n) /\
  persistent_state l = mkPersistent (node_term n) (Some (string_from ID_CAPACITY c)) /\ no_failures l.
Proof.
  intros Hn. apply (save_member n
    (fun p => mkPersistent (current_term p) (Some (string_from ID_CAPACITY c))) Hn).
Qed.

Lemma calm_adopt t : steps_in calm (on_log (set_current_term t) ;;; set_role Follower)%raft.
Proof.
  intros n Hn. destruct (set_term_member n t Hn) as (l & Hrun & _ & Hl).
  rewrite (bind_run _ _ _ _ _ Hrun). split_and!; [|done|by left].
  by destruct (member_log l n Hl Hn).
Qed.
Hint Resolve calm_adopt : raft.

Lemma calm_vote c : steps_in calm (on_log (set_voted_for (Some c))).
Proof.
  intros n Hn. destruct (set_vote_member n c Hn) as (l & -> & Hp & Hl).
  split_and!; [by apply member_log|done|right]. split; [done|].
  unfold node_term at 1, log_current_term. simpl. by rewrite Hp.
Qed.
Hint Resolve calm_vote : raft.

(** ** The handlers *)

Context (me_fits : (String.length me <= ID_CAPACITY)%nat).
Context (ps_known : forall p, is_Some (ps !! p) -> known p).

Lemma genuine_new p m : known p -> (forall req, m = RequestVote req -> candidate_id req = me) ->
  genuine (MessageEnvelope_new me p m).
Proof.
  intros Hp Hm. unfold MessageEnvelope_new. destruct Hp as (? & ? & ?).
  rewrite !string_from_fits by done. by split.
Qed.

(** A scope of the guard at one state. *)
Lemma calm_scope_at {A} (body : M RaftNode A) n :
  calm (with_log_guard true n) (body (with_log_guard true n)).2 -> calm n (scope_log body n).2.
Proof.
  intros Hb. apply (keeps_scope_at (calm n)).
  - intros n' b Hn'. etransitivity; [done|apply calm_guard].
  - done.
  - etransitivity; [apply calm_guard|done].
Qed.

Lemma calm_send_to (k : string -> MessageEnvelope) n :
  (k me = k (node_id n) -> genuine (k me)) -> calm n (send (k (node_id n)) n).2.
Proof. intros Hk Hn. pose proof (mem_id _ Hn) as Hi. rewrite Hi in *. by apply calm_send; auto. Qed.

Lemma calm_append_response to t b : known to -> steps_in calm (send_append_entries_response to t b).
Proof.
  intros Hto n. apply calm_scope_at. rewrite !bind_gets.
  apply (calm_send_to (fun i => MessageEnvelope_new i to (AppendEntriesResp
    (mkAppendEntriesResponse t b (last_index (log n)) (string_from ID_CAPACITY i))))).
  intros _. by apply genuine_new.
Qed.

Lemma calm_vote_response to t b : known to -> steps_in calm (send_request_vote_response to t b).
Proof.
  intros Hto n. unfold send_request_vote_response. rewrite bind_gets.
  apply (calm_send_to (fun i => MessageEnvelope_new i to (RequestVoteResp
    (mkRequestVoteResponse t b (string_from ID_CAPACITY i))))).
  intros _. by apply genuine_new.
Qed.
Hint Resolve calm_append_response calm_vote_response : raft.

Lemma calm_apply_loop fuel commit : steps_in calm (apply_loop fuel commit).
Proof. induction fuel; simpl; unfold apply_entry; calm_steps. Qed.
Hint Resolve calm_apply_loop : raft.

Lemma calm_apply : steps_in calm apply_committed_entries.
Proof. unfold apply_committed_entries. calm_steps. Qed.
Hint Resolve calm_apply : raft.

Lemma calm_notify i : steps_in calm (notify_pending_requests i).
Proof. unfold notify_pending_requests, notify_one, respond. calm_steps. Qed.
Hint Resolve calm_notify : raft.

Lemma calm_append_entries from req : known from -> steps_in calm (handle_append_entries from req).
Proof.
  intros Hfrom. unfold handle_append_entries, reset_heartbeat, update_commit_index, when. calm_steps.
Qed.

Lemma calm_try_advance : steps_in calm try_advance_commit_index.
Proof.
  assert (forall t m ns, steps_in calm (advance_loop t m ns)).
  { intros t m ns. induction ns; simpl; calm_steps. }
  unfold try_advance_commit_index. calm_steps.
Qed.
Hint Resolve calm_try_advance : raft.

Lemma calm_response from resp : steps_in calm (handle_append_entries_response from resp).
Proof. unfold handle_append_entries_response. calm_steps. Qed.

Lemma calm_request_vote from req : known from -> steps_in calm (handle_request_vote from req).
Proof. intros Hfrom. unfold handle_request_vote, reset_heartbeat, when. calm_steps. Qed.

(** The messages of a round of heartbeats. *)
Lemma calm_broadcast : steps_in calm
  (scope_log (n <- gets (fun n => n) ;; for_each (hash_keys (peers n)) (heartbeat_to n)))%raft.
Proof.
  intros n. apply calm_scope_at. rewrite bind_gets.
  intros Hn. pose proof (mem_id _ Hn) as Hi. pose proof (mem_peers _ Hn) as Hp. revert Hn.
  apply (steps_in_for_each_in calm). intros p Hin%elem_of_hash_keys. rewrite Hp in Hin.
  unfold heartbeat_to. case_match; [|by calm_steps]. rewrite Hi.
  apply calm_send, genuine_new; [by apply ps_known|done].
Qed.
Hint Resolve calm_broadcast : raft.

Lemma calm_heartbeats : steps_in calm send_heartbeats.
Proof. unfold send_heartbeats. calm_steps. Qed.
Hint Resolve calm_heartbeats : raft.

Lemma calm_propose c tx : steps_in calm (propose c tx).
Proof. unfold propose, respond. calm_steps. Qed.

(** ** The two programs that change the role upwards *)

(** What remains when the role is left out. *)
Definition grows (n n' : RaftNode) : Prop := member n -> member n' /\ outgoing n `prefix_of` outgoing n'.

#[export] Instance grows_preorder : PreOrder grows.
Proof.
  split; [by intros n Hn|]. intros n1 n2 n3 H12 H23 H1. destruct (H12 H1) as [H2 Ho2].
  destruct (H23 H2) as [H3 Ho3]. split; [done|by etransitivity].
Qed.

Lemma calm_grows n n' : calm n n' -> grows n n'.
Proof. intros Hc Hn. by destruct (Hc Hn) as (? & ? & _). Qed.

Lemma grows_of_calm {A} (m : M RaftNode A) : steps_in calm m -> steps_in grows m.
Proof. apply steps_in_mono, calm_grows. Qed.

Lemma grows_guard n b : grows n (with_log_guard b n).
Proof. apply calm_grows, calm_guard. Qed.

Lemma grows_role r n : grows n (with_role r n).
Proof. intros []. by split; [split|]. Qed.

Lemma grows_become_leader : steps_in grows become_leader.
Proof.
  pose proof grows_guard. pose proof grows_role. pose proof (grows_of_calm _ calm_heartbeats).
  unfold become_leader, set_role, init_peer. node_steps; by apply calm_grows, calm_same; auto.
Qed.

Lemma grows_take_lead : steps_in grows (drop_log ;;; become_leader)%raft.
Proof. pose proof grows_guard. pose proof grows_become_leader. node_steps. Qed.

Lemma calm_step_down t : steps_in calm
  (drop_log ;;; lock_log ;;; on_log (set_current_term t) ;;; set_role Follower)%raft.
Proof. calm_steps. Qed.

(** A vote that may make the candidate a leader. *)
Definition decisive (resp : RequestVoteResponse) (n n' : RaftNode) : Prop :=
  role n = Candidate /\ rvr_term resp <= node_term n /\ vote_granted resp = true /\
  node_term n' = node_term n.

Lemma vote_response_member from resp n : member n ->
  let n' := (handle_request_vote_response from resp n).2 in grows n n' /\
  (calm n n' \/ decisive resp n n').
Proof.
  intros Hn n'. subst n'. unfold handle_request_vote_response.
  destruct (log_guard n) eqn:Hg; [by rewrite scope_log_held by done; split; [|left]|].
  set (body := bind (gets role) _).
  assert (calm (with_log_guard true n) (body (with_log_guard true n)).2 \/
    grows (with_log_guard true n) (body (with_log_guard true n)).2 /\
    decisive resp (with_log_guard true n) (body (with_log_guard true n)).2) as [Hc|[Hgr Hd]].
  - subst body. rewrite bind_gets. case_decide as Hrole; [by left|]. rewrite bind_gets.
    case_match eqn:Ht; [left; apply calm_step_down|]. apply N.ltb_ge in Ht. unfold when.
    destruct (vote_granted resp) eqn:Hv; [|by left]. rewrite bind_modify, !bind_gets.
    set (n1 := if decide _ then _ else _).
    assert (calm (with_log_guard true n) n1 /\ node_term n1 = node_term n) as [Hc1 Ht1]
      by (unfold n1; case_decide; split; done || by apply calm_same; auto).
    case_match; [right|by left]. split.
    + etransitivity; [by apply calm_grows|].
      apply grows_take_lead.
    + split_and!; try done. unfold drop_log. rewrite bind_modify.
      by rewrite (same_term_become_leader (with_log_guard false n1)).
  - pose proof (calm_scope_at body n Hc). split; [by apply calm_grows|by left].
  - split.
    + apply (keeps_scope_at (grows n)); [|done|].
      * intros n' b Hn'. etransitivity; [done|apply grows_guard].
      * etransitivity; [apply grows_guard|done].
    + right. rewrite scope_log_free by done. destruct Hd as (? & ? & ? & ?).
      destruct (body _) as [[] ?]; done.
Qed.

(** A candidate has voted for itself. *)
Definition stands (n : RaftNode) : Prop := role n = Candidate /\ (node_term n, me) ∈ bs n.

Lemma send_to_peers (k : string -> MessageEnvelope) l n :
  for_each l (fun p => send (k p)) n = (Ok tt, with_outgoing (outgoing n ++ (k <$> l)) n).
Proof.
  revert n. induction l as [|p l IH]; intros n; simpl; [by rewrite app_nil_r; destruct n|].
  unfold send at 1. rewrite bind_modify, IH. simpl. by rewrite <-(assoc_L (++)).
Qed.

Lemma campaign_member {A} (k : list string -> M RaftNode A) (a : A) n : member n -> ps <> ∅ ->
  (forall l s, l <> [] -> k l s = (Ok a, s)) ->
  let n' := (campaign_with k n).2 in
  (forall b, (campaign_with k n).1 = Ok b -> b = a) /\ grows n n' /\
  (calm n n' \/ stands n' /\ node_term n' = u64_add (node_term n) 1).
Proof.
  intros Hn Hps Hk n'. subst n'. unfold campaign_with.
  destruct (log_guard n) eqn:Hg; [by rewrite scope_log_held by done; split_and!; [| |left]|].
  rewrite scope_log_free by done. rewrite bind_gets. set (ng := with_log_guard true n).
  assert (member ng) as Hng by by apply (calm_guard n true Hn).
  set (t := u64_add (node_term ng) 1).
  destruct (set_term_member ng t Hng) as (l1 & Hrun1 & Hp1 & Hl1).
  destruct (set_vote_member (with_log l1 ng) me) as (l2 & Hrun2 & Hp2 & Hl2); [by apply member_log|].
  rewrite (bind_run _ _ _ _ _ Hrun1), bind_gets.
  change (node_id (with_log l1 ng)) with (node_id n). rewrite (mem_id _ Hn).
  rewrite (bind_run _ _ _ _ _ Hrun2). unfold set_role, reset_heartbeat.
  rewrite !bind_modify, !bind_gets. cbn [peers with_last_heartbeat with_votes_received with_role with_log with_log_guard ng].
  rewrite (mem_peers _ Hn). rewrite (bind_run _ _ _ _ _ (send_to_peers _ _ _)).
  assert (hash_keys ps <> []) as Hkeys by by rewrite hash_keys_nil.
  rewrite Hk by done. simpl. split; [by intros b [= <-]|]. split.
  - intros _. destruct Hn as [Hi Hc Hp Hf Hs]. split; [|by eexists]. split; simpl; try done.
    apply Forall_app. split; [done|]. apply Forall_fmap, Forall_forall. intros q Hq. simpl.
    apply genuine_new; [|intros req [= <-]; by apply string_from_fits].
    by apply ps_known, elem_of_hash_keys.
  - right. assert (current_term (persistent_state l2) = t) as Hterm.
    { rewrite Hp2. unfold node_term, log_current_term. simpl. by rewrite Hp1. }
    split; [split; [done|]|done]. unfold bs, ballots. simpl. rewrite omap_app. apply elem_of_app. right.
    destruct (hash_keys ps) as [|q l]; [done|].
    simpl. unfold node_term, log_current_term. simpl. rewrite Hterm, string_from_fits by done. left.
Qed.

Lemma start_election_member n : member n -> ps <> ∅ ->
  let n' := (start_election n).2 in grows n n' /\
  (calm n n' \/ stands n' /\ node_term n' = u64_add (node_term n) 1).
Proof.
  intros Hn Hps.
  apply (campaign_member (fun l => when (bool_decide (l = [])) (drop_log ;;; become_leader)%raft) tt); [done..|].
  intros l s Hl. by rewrite bool_decide_false.
Qed.

(** A round in a fixed cluster: no peer is added or removed, and what is delivered comes
    from a known node. *)
Definition in_cluster (ev : event) : Prop :=
  match ev with
  | Deliver env => known (from env)
  | AddPeer _ _ | RemovePeer _ => False
  | _ => True
  end.

Lemma round_member n ev : member n -> ps <> ∅ -> in_cluster ev ->
  let n' := (run_event ev n).2 in grows n n' /\
  (calm n n' \/
   (exists timeout, ev = ElectionTick timeout /\ stands n' /\ node_term n' = u64_add (node_term n) 1) \/
   exists env resp, ev = Deliver env /\ message env = RequestVoteResp resp /\ decisive resp n n').
Proof.
  intros Hn Hps Hev n'.
  assert (forall P, steps_in calm (run_event ev) -> grows n n' /\ (calm n n' \/ P)) as Hcalm.
  { intros P Hc. split; [apply calm_grows, Hc|left; apply Hc]. }
  destruct ev as [env|t| |c tx|i a|i|]; simpl in *; try done.
  - unfold handle_message in *. destruct (message env) as [req|resp|req|resp|r|r] eqn:Hm.
    + by apply Hcalm, calm_append_entries.
    + by apply Hcalm, calm_response.
    + by apply Hcalm, calm_request_vote.
    + destruct (vote_response_member (from env) resp n Hn) as [Hg Hc].
      split; [done|].
      destruct Hc; [by left|right; right]. by exists env, resp.
    + apply Hcalm. calm_steps.
    + apply Hcalm. calm_steps.
  - subst n'. simpl. unfold election_tick in *. rewrite bind_gets in *. unfold when in *.
    case_match; [|split; [done|by left]]. rewrite bind_gets. case_match; [|split; [done|by left]].
    destruct (start_election_member n Hn Hps) as [Hg [Hc|Hc]]; (split; [done|]); [by left|].
    right; left. by exists t.
  - apply Hcalm. unfold heartbeat_tick, when. calm_steps.
  - apply Hcalm, calm_propose.
  - apply Hcalm. unfold get_status. calm_steps.
Qed.
End members.
