(* ===== verification/Cluster.v ===== *)
(** * A cluster of daemons

    Nodes, and the messages between them: [send_message] of [raft/src/network.rs] hands an
    envelope to the connection of the peer named in its [to] field, and
    [handle_connection] of that peer calls [handle_message].  An action is a round of one
    daemon, the delivery or the loss of a message in flight, the passage of time, or a
    crash with a restart; [exec_action] is executable and [run_actions] runs a schedule. *)

From S2P Require Import Prelude Heapless Protocol Serde HashMap Log StateMachine Config Env.
From S2P Require Import Node Daemon Sample.
Local Open Scope N_scope.

Record cluster := mkCluster { nodes : gmap string RaftNode; in_flight : list MessageEnvelope }.

Inductive action :=
  | Act (name : string) (ev : event)
  | Receive (i : nat)
  | Lose (i : nat)
  | Elapse (name : string) (now : N)
  | Crash (name : string) (io : list io_result) (now : N).

Section cluster.
Context {E : Env}.

(** The node [name] makes the round [ev]; what it sent is then in flight. *)
Definition node_event (name : string) (ev : event) (c : cluster) : cluster :=
  match nodes c !! name with
  | Some n =>
      let n' := (run_event ev n).2 in
      mkCluster (<[name := n']> (nodes c))
        (in_flight c ++ drop (length (outgoing n)) (outgoing n'))
  | None => c
  end.

Definition take_off (i : nat) (c : cluster) : cluster :=
  mkCluster (nodes c) (take i (in_flight c) ++ drop (S i) (in_flight c)).

Definition exec_action (a : action) (c : cluster) : cluster :=
  match a with
  | Act name ev => if local_event ev then node_event name ev c else c
  | Receive i =>
      match in_flight c !! i with
      | Some env => node_event (to env) (Deliver env) (take_off i c)
      | None => c
      end
  | Lose i => take_off i c
  | Elapse name now =>
      match nodes c !! name with
      | Some n => if clock n <=? now
                  then mkCluster (<[name := with_clock now n]> (nodes c)) (in_flight c) else c
      | None => c
      end
  | Crash name io now =>
      match nodes c !! name with
      | Some n =>
          match restart n io now with
          | Ok n' => mkCluster (<[name := n']> (nodes c)) (in_flight c)
          | _ => mkCluster (delete name (nodes c)) (in_flight c)
          end
      | None => c
      end
  end.

Definition run_actions (acts : list action) (c : cluster) : cluster :=
  foldl (fun c a => exec_action a c) c acts.

(** A fresh cluster: every node started on an empty directory, nothing in flight. *)
Definition start_cluster (cfgs : list Config) : cluster :=
  mkCluster (foldl (fun m cfg =>
    match RaftNode_new cfg (mkDir ∅ []) 0 with
    | Ok n => <[s_node_id (server cfg) := n]> m
    | _ => m
    end) ∅ cfgs) [].

(** Is [name] a leader of [term]? *)
Definition leads (c : cluster) (name : string) (term : N) : bool :=
  match nodes c !! name with
  | Some n => bool_decide (role n = Leader) && (node_term n =? term)
  | None => false
  end.
End cluster.

(** An election of [name]: its timer fires after the clock passed the timeout. *)
Definition elect (name : string) (now : N) : list action :=
  [Elapse name now; Act name (ElectionTick 150)].
