(* ===== verification/Parallel.v ===== *)
(** * A cluster whose daemons run their tasks in parallel

    The cluster of Cluster.v with the crews of Tasks.v for nodes: [NetworkManager::run] spawns
    a task per connection, so that a message in flight begins a task of its receiver, beside
    those of the timers and of the clients, and a move makes one section of one task. *)

From S2P Require Import Prelude Heapless Protocol Serde HashMap Log StateMachine Config Env.
From S2P Require Import Node Daemon Tasks Cluster.
Local Open Scope N_scope.

Record parallel := mkParallel { crews : gmap string crew; flying : list MessageEnvelope }.

Inductive move :=
  | Begin (name : string) (ev : event)
  | Hand (i : nat)
  | Resume (name : string) (k : nat)
  | Vanish (i : nat)
  | Tick (name : string) (now : N)
  | Reboot (name : string) (now : N).

Section parallel.
Context {E : Env}.

(** What the change [f] of the crew [name] sends is then in flight. *)
Definition on_crew (name : string) (f : crew -> crew) (c : parallel) : parallel :=
  match crews c !! name with
  | Some s =>
      let s' := f s in
      mkParallel (<[name := s']> (crews c))
        (flying c ++ drop (length (outgoing (cr_node s))) (outgoing (cr_node s')))
  | None => c
  end.

Definition vanish (i : nat) (c : parallel) : parallel :=
  mkParallel (crews c) (take i (flying c) ++ drop (S i) (flying c)).

Definition exec_move (m : move) (c : parallel) : parallel :=
  match m with
  | Begin name ev => if local_event ev then on_crew name (begin_task ev) c else c
  | Hand i =>
      match flying c !! i with
      | Some env => on_crew (to env) (begin_task (Deliver env)) (vanish i c)
      | None => c
      end
  | Resume name k => on_crew name (resume_task k) c
  | Vanish i => vanish i c
  | Tick name now => on_crew name (fun s =>
      if clock (cr_node s) <=? now then mkCrew (with_clock now (cr_node s)) (cr_tasks s) else s) c
  | Reboot name now =>
      match crews c !! name with
      | Some s =>
          match restart (cr_node s) [] now with
          | Ok n => mkParallel (<[name := mkCrew n []]> (crews c)) (flying c)
          | _ => mkParallel (delete name (crews c)) (flying c)
          end
      | None => c
      end
  end.

Definition run_moves (ms : list move) (c : parallel) : parallel := foldl (fun c m => exec_move m c) c ms.

Definition start_parallel (cfgs : list Config) : parallel :=
  mkParallel ((fun n => mkCrew n []) <$> nodes (start_cluster cfgs)) [].

(** The nodes, without their tasks. *)
Definition cluster_of (c : parallel) : cluster := mkCluster (cr_node <$> crews c) (flying c).

(** ** Runs in which no task is overtaken *)

(** May the section be made?  [seen] is the term in which the task made its last one.  An
    election does not overflow the term; a task that steps down, or becomes the leader, still
    finds what it has seen; a vote that counts is of the current term. *)
Definition unhurried (n : RaftNode) (seen : N) (p : point) : bool :=
  match p with
  | AtStartElection => node_term n <? u64_max
  | AtStepDown t => node_term n <? t
  | AtBecomeLeader => bool_decide (role n = Candidate) && (node_term n =? seen)
  | AtRequestVoteResponse _ resp =>
      negb (bool_decide (role n = Candidate) && vote_granted resp && (rvr_term resp <? node_term n))
  | _ => true
  end.

Definition fair_move (m : move) (c : parallel) (seen : string -> nat -> N) : bool :=
  match m with
  | Begin _ (AddPeer _ _) | Begin _ (RemovePeer _) => false
  | Resume name k =>
      match crews c !! name with
      | Some s =>
          match cr_tasks s !! k with
          | Some (p :: _) => unhurried (cr_node s) (seen name k) p
          | _ => true
          end
      | None => true
      end
  | _ => true
  end.

(** The terms seen after a move that comes to [c]. *)
Definition note (m : move) (c : parallel) (seen : string -> nat -> N) : string -> nat -> N :=
  match m with
  | Resume name k => fun name' k' =>
      if decide (name' = name /\ k' = k)
      then default 0 ((fun s => node_term (cr_node s)) <$> crews c !! name) else seen name' k'
  | _ => seen
  end.

Inductive parallel_run (cfgs : list Config) : parallel -> (string -> nat -> N) -> Prop :=
  | par_start : parallel_run cfgs (start_parallel cfgs) (fun _ _ => 0)
  | par_move m c seen : parallel_run cfgs c seen -> fair_move m c seen = true ->
      parallel_run cfgs (exec_move m c) (note m (exec_move m c) seen).

(** The same, checked along a list of moves. *)
Fixpoint all_fair (ms : list move) (c : parallel) (seen : string -> nat -> N) : bool :=
  match ms with
  | [] => true
  | m :: ms => fair_move m c seen && all_fair ms (exec_move m c) (note m (exec_move m c) seen)
  end.

Lemma all_fair_run cfgs ms c seen : parallel_run cfgs c seen -> all_fair ms c seen = true ->
  exists seen', parallel_run cfgs (run_moves ms c) seen'.
Proof.
  revert c seen. induction ms as [|m ms IH]; intros c seen Hc Hf; [by exists seen|].
  simpl in Hf. apply andb_prop in Hf as [Hm Hf]. by eapply IH; [apply par_move|].
Qed.
End parallel.

(** ** Schedules *)

(** A task that is begun, or run to its end, for a local round or for the oldest message from
    one node to another; the next sections of a task; the loss of a message; the passing of time. *)
Inductive plan :=
  | Round (name : string) (ev : event)
  | Open (name : string) (ev : event)
  | Reach (a b : string)
  | Arrive (a b : string)
  | Go (name : string) (k count : nat)
  | Miss (a b : string)
  | Wait (name : string) (now : N).

Definition oldest_flying (a b : string) (c : parallel) : nat :=
  default (length (flying c)) (fst <$> list_find (fun env => from env = a /\ to env = b) (flying c)).

(** The number of the next task of a crew. *)
Definition next_task (name : string) (c : parallel) : nat :=
  default 0%nat ((fun s => length (cr_tasks s)) <$> crews c !! name).

Definition moves_of (p : plan) (c : parallel) : list move :=
  match p with
  | Round name ev => Begin name ev :: replicate sections (Resume name (next_task name c))
  | Open name ev => [Begin name ev]
  | Reach a b => Hand (oldest_flying a b c) :: replicate sections (Resume b (next_task b c))
  | Arrive a b => [Hand (oldest_flying a b c)]
  | Go name k count => replicate count (Resume name k)
  | Miss a b => [Vanish (oldest_flying a b c)]
  | Wait name now => [Tick name now]
  end.

(** An election of [a], and an exchange of two messages. *)
Definition Stand (name : string) (now : N) : list plan := [Wait name now; Round name (ElectionTick 150)].
Definition Ask (a b : string) : list plan := [Reach a b; Reach b a].

Section plans.
Context {E : Env}.

Fixpoint plan_moves (ps : list plan) (c : parallel) : list move :=
  match ps with
  | [] => []
  | p :: ps => moves_of p c ++ plan_moves ps (run_moves (moves_of p c) c)
  end.

Definition run_plans (ps : list plan) (c : parallel) : parallel :=
  foldl (fun c p => run_moves (moves_of p c) c) c ps.

Lemma run_plans_moves ps c : run_plans ps c = run_moves (plan_moves ps c) c.
Proof.
  revert c. induction ps as [|p ps IH]; intros c; [done|]. simpl. unfold run_moves in *.
  by rewrite foldl_app, <-IH.
Qed.

Lemma exists_moves (P : parallel -> Prop) ps c : P (run_plans ps c) -> exists ms, P (run_moves ms c).
Proof. intros HP. exists (plan_moves ps c). by rewrite <-run_plans_moves. Qed.
End plans.
