(* ===== verification/Wire.v ===== *)
(** * The cluster on the wire: [raft/src/main.rs] and [raft/src/network.rs] together

    The daemons of a cluster with their network managers and the TCP streams between
    them.  [boot] is [main] up to the tasks; [phase] is where the process stands after it:
    [NetworkManager::run] binds its listener first ([Bind]), and [main] returns, which ends
    every task, when that fails, when the IPC server ends or at a signal ([Shutdown]).  The
    network task takes the next message of
    the channel and writes it to a stream ([Pump]); the listener of the host the stream
    leads to accepts it ([Accept]) and a task reads it, in pieces of any size ([Read]),
    and handles the frames one by one ([Serve]).  A connection may break at any time, a
    write may stop halfway, a process may be restarted: its channel, its pool and the
    connections it had accepted are gone, what it had written may still arrive.

    [route] says which daemon listens behind an address.  The action [Read] of a piece and
    [Serve] of a frame are the two halves of the loop of [handle_connection], so that the
    rounds of other tasks come between any two of them. *)

From Stdlib Require Import Init.Byte.
From S2P Require Import Prelude Heapless Protocol Serde HashMap Log StateMachine Config Env.
From S2P Require Import Node Network Daemon Sample Cluster.
Local Open Scope N_scope.

(** The network task of a process: the pool, the number of messages received from the
    channel (of the history [outgoing]), and the streams on which a write has failed. *)
Record endpoint := mkEndpoint { manager : NetworkManager; taken : nat; broken : gset N }.

(** An accepted connection: the daemon that reads it, the bytes it has read and, of those,
    the ones still in the buffer. *)
Inductive connection := Reading (reader : string) (received : nat) (buffer : list byte) | Closed.

(** The tasks run and the listener is not bound yet, everything runs, or [main] has returned. *)
Inductive phase := Starting | Running | Ended.

#[export] Instance phase_eq_dec : EqDecision phase.
Proof. solve_decision. Defined.

(** A stream is named by the daemon that opened it and its number there. *)
Record wire := mkWire {
  wire_nodes : gmap string RaftNode;
  endpoints : gmap string endpoint;
  accepted : gmap (string * N) connection;
  phases : gmap string phase }.

Section wire.
Context {E : Env} {JM : JsonBytes MessageEnvelope} (route : string -> option string).

(** ** A process *)

(** [NetworkManager::new], and the registration of the peers of the configuration. *)
Definition main_network (config : Config) (nm : NetworkManager) : NetworkManager :=
  foldl (fun nm peer => register_peer peer.1 peer.2 nm) nm (peer_registrations config).

(** [main], up to the spawning of the tasks. *)
Definition boot (parse_toml : string -> option ConfigToml) (content : option string) (d : Disk)
    (now : N) (fate : list tcp_result) : outcome (RaftNode * NetworkManager) :=
  match load parse_toml content with
  | Ok config =>
      match RaftNode_new config d now with
      | Ok node => Ok (node, main_network config (NetworkManager_new fate))
      | Err e => Err e
      | Blocked => Blocked
      | Panicked => Panicked
      | OutOfFuel => OutOfFuel
      end
  | Err e => Err e
  | Blocked => Blocked
  | Panicked => Panicked
  | OutOfFuel => OutOfFuel
  end.

(** A new process: the streams of the old one remain as a history. *)
Definition restart_network (config : Config) (nm : NetworkManager) : NetworkManager :=
  main_network config (mkNetwork ∅ ∅ (dialled nm) (sent_on nm) (next_stream nm) []).

Definition new_endpoint (config : Config) : endpoint :=
  mkEndpoint (main_network config (NetworkManager_new [])) 0 ∅.

Definition start_wire (cfgs : list Config) : wire :=
  mkWire (nodes (start_cluster cfgs))
    (list_to_map ((fun cfg => (s_node_id (server cfg), new_endpoint cfg)) <$> cfgs)) ∅
    (list_to_map ((fun cfg => (s_node_id (server cfg), Starting)) <$> cfgs)).

(** ** The steps *)

Inductive wire_action :=
  | Bind (name : string) (ok : bool)
  | Shutdown (name : string)
  | Round (name : string) (ev : event)
  | Pump (name : string) (fate : list tcp_result)
  | Accept (sender : string) (s : N)
  | Read (sender : string) (s : N) (k : nat)
  | Serve (sender : string) (s : N)
  | Hangup (sender : string) (s : N)
  | Tick (name : string) (now : N)
  | Reboot (name : string) (io : list io_result) (now : N).

Definition set_node (name : string) (n : RaftNode) (w : wire) : wire :=
  mkWire (<[name := n]> (wire_nodes w)) (endpoints w) (accepted w) (phases w).
Definition set_endpoint (name : string) (e : endpoint) (w : wire) : wire :=
  mkWire (wire_nodes w) (<[name := e]> (endpoints w)) (accepted w) (phases w).
Definition set_connection (key : string * N) (conn : connection) (w : wire) : wire :=
  mkWire (wire_nodes w) (endpoints w) (<[key := conn]> (accepted w)) (phases w).

Definition in_phase (ps : list phase) (name : string) (w : wire) : bool :=
  match phases w !! name with Some p => bool_decide (p ∈ ps) | None => false end.

(** The tasks of the process run; its listener and its network task do. *)
Definition alive : string -> wire -> bool := in_phase [Starting; Running].
Definition listening : string -> wire -> bool := in_phase [Running].

(** The message at the head of the channel. *)
Definition next_message (n : RaftNode) (e : endpoint) : option MessageEnvelope :=
  outgoing n !! taken e.

(** A stream whose write has failed takes nothing more. *)
Definition fate_of (e : endpoint) (peer : string) (fate : list tcp_result) : list tcp_result :=
  match connections (manager e) !! peer with
  | Some s => if decide (s ∈ broken e) then [TcpErr 0] else fate
  | None => fate
  end.

(** A turn of the loop of [run]: the message is sent, a failure is logged. *)
Definition pump (env : MessageEnvelope) (fate : list tcp_result) (e : endpoint) : endpoint :=
  let '(o, nm) := send_message (to env) env (with_tcp (fate_of e (to env) fate) (manager e)) in
  let failed := match o, connections nm !! to env with
                | Ok _, _ | _, None => ∅
                | _, Some s => {[s]}
                end in
  mkEndpoint nm (S (taken e)) (failed ∪ broken e).

(** The stream [s] of [e]: the bytes written to it so far. *)
Definition written (e : endpoint) (s : N) : list byte := default [] (sent_on (manager e) !! s).

(** A turn of the inner loop of [handle_connection]; a task that blocks or panics reads no more. *)
Definition serve_frame (reader : string) (received : nat) (buffer : list byte) (key : string * N)
    (w : wire) : wire :=
  match cut_frame buffer, wire_nodes w !! reader with
  | Frame payload rest, Some n =>
      let '(o, n') := handle_payload payload n in
      set_connection key (match o with Ok _ => Reading reader received rest | _ => Closed end)
        (set_node reader n' w)
  | TooLarge, _ => set_connection key Closed w
  | _, _ => w
  end.

(** The connections a process had accepted are gone with it. *)
Definition drop_reader (name : string) (conn : connection) : connection :=
  match conn with
  | Reading reader _ _ => if decide (reader = name) then Closed else conn
  | Closed => Closed
  end.

Definition enter (p : phase) (name : string) (w : wire) : wire :=
  mkWire (wire_nodes w) (endpoints w)
    (if decide (p = Running) then accepted w else drop_reader name <$> accepted w)
    (<[name := p]> (phases w)).

Definition reboot (name : string) (n : RaftNode) (io : list io_result) (now : N) (w : wire) : wire :=
  let w := enter Starting name w in
  match restart n io now with
  | Ok n' => mkWire (<[name := n']> (wire_nodes w))
      (alter (fun e => mkEndpoint (restart_network (config n) (manager e)) (length (outgoing n'))
        (broken e)) name (endpoints w)) (accepted w) (phases w)
  | _ => mkWire (delete name (wire_nodes w)) (endpoints w) (accepted w) (delete name (phases w))
  end.

Definition exec_wire (a : wire_action) (w : wire) : wire :=
  match a with
  | Bind name ok =>
      if in_phase [Starting] name w then enter (if ok then Running else Ended) name w else w
  | Shutdown name => if alive name w then enter Ended name w else w
  | Round name ev =>
      match wire_nodes w !! name with
      | Some n => if local_event ev && alive name w then set_node name (run_event ev n).2 w else w
      | None => w
      end
  | Pump name fate =>
      match wire_nodes w !! name, endpoints w !! name with
      | Some n, Some e =>
          match next_message n e with
          | Some env => if listening name w then set_endpoint name (pump env fate e) w else w
          | None => w
          end
      | _, _ => w
      end
  | Accept sender s =>
      match endpoints w !! sender ≫= (fun e => dialled (manager e) !! s), accepted w !! (sender, s) with
      | Some addr, None =>
          match route addr with
          | Some reader =>
              if listening reader w then set_connection (sender, s) (Reading reader 0 []) w else w
          | None => w
          end
      | _, _ => w
      end
  | Read sender s k =>
      match endpoints w !! sender, accepted w !! (sender, s) with
      | Some e, Some (Reading reader received buffer) =>
          match cut_frame buffer with
          | Partial =>
              if negb (alive reader w) then w else
              let piece := take k (drop received (written e s)) in
              set_connection (sender, s) (Reading reader (received + length piece) (buffer ++ piece)) w
          | _ => w
          end
      | _, _ => w
      end
  | Serve sender s =>
      match accepted w !! (sender, s) with
      | Some (Reading reader received buffer) =>
          if alive reader w then serve_frame reader received buffer (sender, s) w else w
      | _ => w
      end
  | Hangup sender s => set_connection (sender, s) Closed w
  | Tick name now =>
      match wire_nodes w !! name with
      | Some n => if clock n <=? now then set_node name (with_clock now n) w else w
      | None => w
      end
  | Reboot name io now =>
      match wire_nodes w !! name with
      | Some n => reboot name n io now w
      | None => w
      end
  end.

Definition run_wire (acts : list wire_action) (w : wire) : wire :=
  foldl (fun w a => exec_wire a w) w acts.

(** ** What a run may assume *)

(** The cluster's view of a step: the action it amounts to, if it is one, and the state in which
    that action is judged. *)
Definition view (a : wire_action) (w : wire) : option (action * cluster) :=
  match a with
  | Round name ev => Some (Act name ev, mkCluster (wire_nodes w) [])
  | Tick name now => Some (Elapse name now, mkCluster (wire_nodes w) [])
  | Reboot name io now => Some (Crash name io now, mkCluster (wire_nodes w) [])
  | Serve sender s =>
      match accepted w !! (sender, s) with
      | Some (Reading _ _ buffer) =>
          match cut_frame buffer with
          | Frame payload _ =>
              env ← from_slice payload;
              Some (Receive 0, mkCluster (wire_nodes w) [env])
          | _ => None
          end
      | _ => None
      end
  | _ => None
  end.

(** The length of a payload fits the four bytes of the header. *)
Definition pump_fits (a : wire_action) (w : wire) : bool :=
  match a with
  | Pump name _ =>
      match wire_nodes w !! name, endpoints w !! name with
      | Some n, Some e =>
          match next_message n e ≫= to_vec with
          | Some payload => N.of_nat (length payload) <=? u32_max
          | None => true
          end
      | _, _ => true
      end
  | _ => true
  end.

Definition wire_allowed (allowed : action -> cluster -> bool) (a : wire_action) (w : wire) : bool :=
  pump_fits a w && match view a w with Some (a', c) => allowed a' c | None => true end.

Definition wire_step (allowed : action -> cluster -> bool) (w w' : wire) : Prop :=
  exists a, wire_allowed allowed a w = true /\ w' = exec_wire a w.
End wire.
