(* ===== verification/Scenarios.v ===== *)
(** * Runs of a cluster in which Raft's guarantees do not hold

    Each theorem is a schedule of actions, run by evaluation from a fresh cluster with
    the reference environment: what the daemons do is computed by the model's handlers.
    In all of them the messages between two nodes arrive in the order they were sent. *)

From Stdlib Require Import Init.Byte.
From S2P Require Import Prelude Heapless Protocol Serde HashMap Log StateMachine Config Env.
From S2P Require Import Node Daemon Sample Cluster.
Local Open Scope N_scope.
#[local] Existing Instance ref_env.

(** The position of the oldest message in flight from [a] to [b]. *)
Definition oldest (a b : string) (c : cluster) : nat :=
  default (length (in_flight c))
    (fst <$> list_find (fun env => from env = a /\ to env = b) (in_flight c)).

(** A schedule: an action, or the delivery or loss of the oldest message between two nodes. *)
Inductive order := Do (a : action) | Pass (a b : string) | Drop (a b : string).

Definition order_action (o : order) (c : cluster) : action :=
  match o with
  | Do a => a
  | Pass a b => Receive (oldest a b c)
  | Drop a b => Lose (oldest a b c)
  end.

Definition run_orders (os : list order) (c : cluster) : cluster :=
  foldl (fun c o => exec_action (order_action o c) c) c os.

(** The actions a schedule comes to. *)
Fixpoint actions_of (os : list order) (c : cluster) : list action :=
  match os with
  | [] => []
  | o :: os' => order_action o c :: actions_of os' (exec_action (order_action o c) c)
  end.

Lemma run_orders_actions os c : run_orders os c = run_actions (actions_of os c) c.
Proof. revert c. induction os as [|o os IH]; intros c; [done|]. apply IH. Qed.

Definition fresh (names : list string) : cluster := start_cluster (cluster_configs names).

Definition Elect (name : string) (now : N) : list order := Do <$> elect name now.

(** The vote request of [a] reaches [b], and the answer reaches [a]. *)
Definition Canvass (a b : string) : list order := [Pass a b; Pass b a].

Definition put (k v : string) : Command := Put k (String.list_byte_of_string v).

Definition store (c : cluster) (name : string) : option StateMachine :=
  state_machine <$> nodes c !! name.

(** ** Elections *)

(** [node-03] votes for [node-02] in term 1, and its answer is still in flight when [node-02] is
    a candidate again, in term 2, for which [node-03] has voted for [node-01]. *)
Definition stale_vote_orders : list order :=
  Elect "node-02" 1000 ++ [Pass "node-02" "node-03"] ++
  Elect "node-02" 2000 ++ Elect "node-01" 3000 ++ Elect "node-01" 4000 ++
  [Pass "node-01" "node-03"; Drop "node-03" "node-01"] ++
  Canvass "node-01" "node-03".

(** In a cluster of five, [n1] is elected by [n3] and [n2] by [n4]. *)
Definition five : list string := ["n1"; "n2"; "n3"; "n4"; "n5"].

Definition double_count_orders : list order :=
  Elect "n1" 1000 ++ Elect "n2" 1000 ++ Canvass "n1" "n3" ++ Canvass "n2" "n4".

(** ** Commitment *)

(** [node-01], leader of term 1, appends an entry that reaches nobody, and [node-02] is elected
    in term 2. *)
Definition replaced_leader_orders : list order :=
  Elect "node-01" 1000 ++ Canvass "node-01" "node-03" ++
  [Pass "node-01" "node-02"; Drop "node-02" "node-01";
   Do (Act "node-01" (Propose (put "k" "old") 1));
   Drop "node-01" "node-02"; Drop "node-01" "node-02"] ++
  Elect "node-02" 2000 ++ Canvass "node-02" "node-03" ++ Canvass "node-02" "node-01".

(** [node-02] fails, and [node-01] is elected. *)
Definition failed_leader_orders : list order :=
  Elect "node-01" 3000 ++
  [Drop "node-01" "node-03"; Drop "node-01" "node-03"] ++ Canvass "node-01" "node-03".

(** After the delayed vote, [node-01] commits an entry with [node-03]; [node-02], leader of
    term 3 by the delayed vote, replaces it and commits its own with [node-03]. *)
Definition divergence_orders : list order :=
  Elect "node-02" 1000 ++ [Pass "node-02" "node-03"] ++
  Elect "node-02" 2000 ++ Elect "node-02" 2500 ++ Elect "node-01" 3000 ++ Elect "node-01" 4000 ++
  [Drop "node-01" "node-03"] ++ Canvass "node-01" "node-03" ++
  [Do (Act "node-01" (Propose (put "k" "one") 1))] ++
  Canvass "node-01" "node-03" ++ Canvass "node-01" "node-03" ++
  [Pass "node-03" "node-02"; Do (Act "node-02" (Propose (put "k" "two") 2));
   Drop "node-02" "node-03"; Drop "node-02" "node-03"] ++
  Canvass "node-02" "node-03" ++ Canvass "node-02" "node-03".

(** [node-01], leader of term 1, takes a request that reaches nobody.  [node-02], elected in
    term 2, replaces its entry; [node-01] is elected again and commits one more. *)
Definition superseded_orders : list order :=
  Elect "node-01" 1000 ++ Canvass "node-01" "node-03" ++
  [Drop "node-01" "node-02"; Drop "node-01" "node-02"; Drop "node-01" "node-03";
   Do (Act "node-01" (Propose (put "k" "lost") 1)); Drop "node-01" "node-02"; Drop "node-01" "node-03"] ++
  Elect "node-02" 2000 ++ [Drop "node-02" "node-01"; Drop "node-02" "node-03"] ++
  Elect "node-02" 2500 ++ [Drop "node-02" "node-01"] ++ Canvass "node-02" "node-03" ++
  [Drop "node-02" "node-01"; Drop "node-02" "node-03";
   Do (Act "node-02" (Propose (put "k" "kept") 2));
   Pass "node-02" "node-01"; Pass "node-02" "node-03"; Drop "node-01" "node-02"; Drop "node-03" "node-02"] ++
  Elect "node-01" 3000 ++ [Drop "node-01" "node-02"] ++ Canvass "node-01" "node-03" ++
  [Drop "node-01" "node-02"; Drop "node-01" "node-03";
   Do (Act "node-01" (Propose (put "j" "next") 3)); Drop "node-01" "node-02"] ++
  Canvass "node-01" "node-03".

(** [node-01], leader of term 1, replicates 64 entries; its first heartbeat to [node-02] is
    acknowledged too, and that answer is delayed.  [node-02] leads term 2 and appends an entry
    that reaches nobody; [node-01] leads term 4 and commits another one with [node-03].  Then
    the answer arrives, and the next heartbeat for [node-02] starts over with the 64 entries. *)
Definition uncompared_orders : list order :=
  Elect "node-01" 1000 ++ Canvass "node-01" "node-03" ++
  [Pass "node-01" "node-02"; Drop "node-02" "node-01"; Pass "node-01" "node-02"] ++
  replicate 64 (Do (Act "node-01" (Propose Noop 0))) ++
  replicate 63 (Drop "node-01" "node-02") ++ [Pass "node-01" "node-02"] ++
  replicate 64 (Drop "node-01" "node-03") ++ [Pass "node-01" "node-03"] ++
  Elect "node-02" 2000 ++ Canvass "node-02" "node-03" ++
  [Do (Act "node-02" (Propose (put "k" "two") 1))] ++
  Elect "node-03" 3000 ++ [Pass "node-03" "node-01"; Pass "node-03" "node-01"] ++
  Elect "node-01" 4000 ++ [Drop "node-01" "node-03"] ++ Canvass "node-01" "node-03" ++
  [Do (Act "node-01" (Propose (put "k" "one") 2))] ++
  Canvass "node-01" "node-03" ++ Canvass "node-01" "node-03" ++
  [Pass "node-02" "node-01"; Do (Act "node-01" HeartbeatTick)] ++
  replicate 3 (Drop "node-01" "node-02").

(** ** What the runs show *)

(** What a node has applied: up to which entry, and its store. *)
Definition applied_state (c : cluster) (name : string) : option (N * gmap string (list byte)) :=
  (fun n => (last_applied n, data (state_machine n))) <$> nodes c !! name.

(** The nodes whose log holds an entry at position [i] with command [cmd]. *)
Definition holders (c : cluster) (i : N) (cmd : Command) : list string :=
  fst <$> filter (fun p => command <$> entries (log p.2) !! i = Some cmd) (map_to_list (nodes c)).

Definition told (c : cluster) (name : string) (tx : N) (r : ProposeResult) : bool :=
  match nodes c !! name with
  | Some n => bool_decide ((tx, r) ∈ replies n)
  | None => false
  end.

Lemma exists_actions (P : cluster -> Prop) os names :
  P (run_orders os (fresh names)) -> exists acts, P (run_actions acts (fresh names)).
Proof. intros HP. exists (actions_of os (fresh names)). by rewrite <-run_orders_actions. Qed.

(** A candidate counts its own vote twice, in [votes_received] and as the [+ 1] of the
    comparison: in a cluster of five, two votes from others elect two leaders of term 1. *)
Theorem self_vote_counted_twice : exists acts,
  let c := run_actions acts (fresh five) in
  leads c "n1" 1 = true /\ leads c "n2" 1 = true.
Proof.
  apply (exists_actions (fun c => leads c "n1" 1 = true /\ leads c "n2" 1 = true)
    double_count_orders).
  split; by vm_compute.
Qed.

(** A run of a cluster of three at the end of which two nodes have applied different commands at
    the same index. *)
Theorem stores_diverge : exists acts,
  let c := run_actions acts (fresh three) in
  store c "node-01" = Some (apply (mkEntry 1 2 (put "k" "one")) StateMachine_new).2 /\
  store c "node-02" = Some (apply (mkEntry 1 3 (put "k" "two")) StateMachine_new).2.
Proof.
  apply (exists_actions (fun c =>
    store c "node-01" = Some (apply (mkEntry 1 2 (put "k" "one")) StateMachine_new).2 /\
    store c "node-02" = Some (apply (mkEntry 1 3 (put "k" "two")) StateMachine_new).2)
    divergence_orders).
  split; by vm_compute.
Qed.

(** A pending request is found again by the index of its entry alone, and a leader that steps
    down keeps its pending requests: once it leads again, a client whose entry was replaced is
    answered [Success], though no node holds the command. *)
Theorem superseded_request_told_success : exists acts,
  let c := run_actions acts (fresh three) in
  told c "node-01" 1 (Success 1) = true /\
  holders c 1 (put "k" "lost") = [] /\
  holders c 1 (put "k" "kept") = ["node-03"; "node-01"; "node-02"].
Proof.
  apply (exists_actions (fun c => told c "node-01" 1 (Success 1) = true /\
    holders c 1 (put "k" "lost") = [] /\ holders c 1 (put "k" "kept") = ["node-03"; "node-01"; "node-02"]) superseded_orders).
  split_and!; by vm_compute.
Qed.

