(* ===== verification/Races.v ===== *)
(** * Races between the tasks of a daemon

    The daemons of a cluster with the tasks of Tasks.v: a message begins a task of its
    receiver, and the tasks make their sections in any order.  Each theorem is a schedule, run
    by evaluation from a fresh cluster: what a task has seen before it waits is no longer true
    when it goes on, and the code does not look again.  In all of them the messages between two
    nodes arrive in the order they were sent, and their tasks do not overlap. *)

From Stdlib Require Import Init.Byte.
From S2P Require Import Prelude Heapless Protocol Serde HashMap Log StateMachine Config Env.
From S2P Require Import Node Daemon Sample Tasks Votes Cluster Parallel Scenarios.
Local Open Scope N_scope.
#[local] Existing Instance ref_env.

(** ** Schedules *)

Definition fresh_parallel (names : list string) : parallel := start_parallel (cluster_configs names).

(** [node-01] leads term 1.  Its task for a request has read the role when the vote request of
    [node-02] arrives, and [node-02] leads term 2. *)
Definition proposal_overtaken : list plan :=
  Stand "node-01" 1000 ++ Ask "node-01" "node-02" ++
  [Open "node-01" (Propose (put "k" "one") 1); Go "node-01" 2 1] ++ Ask "node-01" "node-02" ++
  Stand "node-02" 2000 ++ Ask "node-02" "node-01".

(** The task has appended its entry, and goes on.  The first heartbeat of [node-02] is answered,
    and [node-02] takes a request. *)
Definition proposal_resumed : list plan :=
  [Go "node-01" 2 8] ++ Ask "node-02" "node-01" ++
  [Round "node-02" (Propose (put "k" "two") 2)] ++ Ask "node-02" "node-01" ++
  [Round "node-02" HeartbeatTick; Reach "node-02" "node-01"].

(** [node-01] has the votes for term 1 when the vote request of [node-03] for term 2 arrives. *)
Definition raced_victory : list plan :=
  Stand "node-01" 1000 ++ [Reach "node-01" "node-02"; Arrive "node-02" "node-01"; Go "node-01" 1 1] ++
  Stand "node-03" 1000 ++ [Miss "node-03" "node-01"; Miss "node-01" "node-03"] ++ Stand "node-03" 2000 ++
  Ask "node-03" "node-01" ++ [Go "node-01" 1 9].

(** [node-01] is refused a vote by [node-02], which is in term 2.  Its task has dropped the log
    to take it again when the vote request of [node-03] for term 3 arrives. *)
Definition raced_step_down : list plan :=
  Stand "node-02" 1000 ++ Stand "node-02" 1500 ++ [Miss "node-02" "node-01"; Miss "node-02" "node-01"] ++
  Stand "node-01" 1000 ++ [Reach "node-01" "node-02"; Arrive "node-02" "node-01"; Go "node-01" 1 1] ++
  Stand "node-03" 1000 ++ Stand "node-03" 1500 ++ Stand "node-03" 2000 ++
  [Miss "node-03" "node-01"; Miss "node-03" "node-01"; Miss "node-01" "node-03"] ++ Ask "node-03" "node-01" ++
  [Go "node-01" 1 9] ++ Stand "node-02" 2000 ++ Ask "node-02" "node-01".

(** A heartbeat round of [node-01], leader of term 1, has read the role when the vote request of
    [node-02] arrives. *)
Definition raced_heartbeat : list plan :=
  Stand "node-01" 1000 ++ Ask "node-01" "node-02" ++
  [Open "node-01" HeartbeatTick; Go "node-01" 2 2] ++ Ask "node-01" "node-02" ++
  Stand "node-02" 2000 ++ [Reach "node-02" "node-01"; Go "node-01" 2 9].

(** ** What they show *)

Definition node_of (c : parallel) (name : string) : option RaftNode := cr_node <$> crews c !! name.

Definition reigns (c : parallel) (name : string) (t : N) : bool :=
  match node_of c name with
  | Some n => bool_decide (role n = Leader) && (node_term n =? t)
  | None => false
  end.

Definition applied_by (c : parallel) (name : string) : option (N * gmap string (list byte)) :=
  (fun n => (last_applied n, data (state_machine n))) <$> node_of c name.

Definition answered (c : parallel) (name : string) (tx : N) (r : ProposeResult) : bool :=
  match node_of c name with Some n => bool_decide ((tx, r) ∈ replies n) | None => false end.

(** The messages between two nodes are handed over in the order they were sent, none is lost,
    and no node is restarted. *)
Definition undisturbed (m : move) (c : parallel) : bool :=
  match m with
  | Hand i =>
      match flying c !! i with
      | Some env => (i =? oldest_flying (from env) (to env) c)%nat
      | None => true
      end
  | Vanish _ | Reboot _ _ => false
  | _ => true
  end.

Fixpoint all_undisturbed (ms : list move) (c : parallel) : bool :=
  match ms with
  | [] => true
  | m :: ms => undisturbed m c && all_undisturbed ms (exec_move m c)
  end.

(** The section that a task makes next, and the role of its node. *)
Definition stands_at (c : parallel) (name : string) (k : nat) : option (NodeRole * N * point) :=
  s ← crews c !! name; t ← cr_tasks s !! k; p ← head t; Some (role (cr_node s), node_term (cr_node s), p).

Definition logged (c : parallel) (name : string) (i : N) : option LogEntry :=
  n ← node_of c name; entries (log n) !! i.

(** C29: A proposal reads the role before it takes the log: in a run of fair moves, in which
    nothing is lost or reordered and no node is restarted, a task stands before the append of
    its command when its node has become a follower of term 2, which another node leads; its
    next section appends the command under term 2. At the end of the run the two nodes have
    applied different commands of the same index and term, and the client of the leader has been
    told of its success. *)
Theorem raced_proposal_diverges : exists ms k ms',
  let c := run_moves ms (fresh_parallel three) in
  let c' := exec_move (Resume "node-01" k) c in
  let c'' := run_moves ms' c' in
  all_fair (ms ++ Resume "node-01" k :: ms') (fresh_parallel three) (fun _ _ => 0) = true /\
  all_undisturbed (ms ++ Resume "node-01" k :: ms') (fresh_parallel three) = true /\
  stands_at c "node-01" k = Some (Follower, 2, AtAppend (put "k" "one") 1) /\
  reigns c "node-02" 2 = true /\
  logged c' "node-01" 1 = Some (mkEntry 1 2 (put "k" "one")) /\
  logged c'' "node-02" 1 = Some (mkEntry 1 2 (put "k" "two")) /\
  answered c'' "node-02" 2 (Success 1) = true /\
  applied_by c'' "node-01" = Some (1, {["k" := String.list_byte_of_string "one"]}) /\
  applied_by c'' "node-02" = Some (1, {["k" := String.list_byte_of_string "two"]}).
Proof.
  set (c := run_plans proposal_overtaken (fresh_parallel three)).
  exists (plan_moves proposal_overtaken (fresh_parallel three)), 2%nat,
    (plan_moves proposal_resumed (exec_move (Resume "node-01" 2) c)).
  rewrite <-run_plans_moves. fold c. subst c. split_and!; by vm_compute.
Qed.

(** A candidate that has its majority drops the log and then becomes the leader, of whatever
    term the node is in by then: when the vote request of a later term is handled in between,
    the node leads this term beside the candidate it has voted for. *)
Theorem raced_victory_two_leaders : exists ms,
  let c := run_moves ms (fresh_parallel three) in
  reigns c "node-01" 2 = true /\ reigns c "node-03" 2 = true.
Proof.
  apply (exists_moves (fun c => reigns c "node-01" 2 = true /\ reigns c "node-03" 2 = true) raced_victory).
  split; by vm_compute.
Qed.

(** C30: A task that steps down drops the log, takes it again and sets the term of the response
    without looking at it: when another task has raised the term in between, the term goes back
    and the vote is forgotten, the node votes for two candidates of one term, and both lead it.
    *)
Theorem raced_step_down_votes_twice : exists ms,
  let c := run_moves ms (fresh_parallel three) in
  (exists n, node_of c "node-01" = Some n /\
    ballots (outgoing n) = [(1, "node-01"%string); (1, "node-01"%string);
      (3, "node-03"%string); (3, "node-02"%string)]) /\
  reigns c "node-02" 3 = true /\ reigns c "node-03" 3 = true.
Proof.
  apply (exists_moves (fun c => (exists n, node_of c "node-01" = Some n /\
      ballots (outgoing n) = [(1, "node-01"%string); (1, "node-01"%string);
        (3, "node-03"%string); (3, "node-02"%string)]) /\
    reigns c "node-02" 3 = true /\ reigns c "node-03" 3 = true) raced_step_down).
  split_and!; [eexists; split; [by vm_compute|]|..]; by vm_compute.
Qed.

(** The terms of the [AppendEntries] a node has sent. *)
Definition heralded_terms (sent : list MessageEnvelope) : list N :=
  omap (fun env => match message env with AppendEntries req => Some (ae_term req) | _ => None end) sent.

(** A round of heartbeats reads the role before it takes the log: when the node steps down in
    between, it sends [AppendEntries] of the new term as a follower that has voted for another
    node. *)
Theorem raced_heartbeat_of_follower : exists ms,
  let c := run_moves ms (fresh_parallel three) in
  exists n, node_of c "node-01" = Some n /\ role n = Follower /\
    log_voted_for (log n) = Some "node-02"%string /\ heralded_terms (outgoing n) = [1; 1; 2; 2].
Proof.
  apply (exists_moves (fun c => exists n, node_of c "node-01" = Some n /\ role n = Follower /\
    log_voted_for (log n) = Some "node-02"%string /\ heralded_terms (outgoing n) = [1; 1; 2; 2])
    raced_heartbeat).
  eexists. split; [by vm_compute|]. split_and!; by vm_compute.
Qed.
