(* ===== verification/ClusterProps.v ===== *)
(** * Election safety, where it holds

    A cluster of two or three nodes, fully connected and fixed, whose file operations
    succeed, has at most one leader per term, if no vote of an earlier term is delivered to
    a candidate.  Each hypothesis is one of the faults of Scenarios.v and Rounds.v: in
    larger clusters the own vote, counted twice, makes up for a missing one.

    The invariant [sound] follows, for each node, everything it has sent, restarts
    included: who voted for whom can then be read in the histories. *)

From S2P Require Import Prelude Heapless Protocol Serde HashMap Log LogFacts StateMachine.
From S2P Require Import Config Env Node NodeFacts Sample Daemon Votes Rounds Members Cluster.
Local Open Scope N_scope.

Definition names_of (cfgs : list Config) : list string := (fun cfg => s_node_id (server cfg)) <$> cfgs.

Record connected (cfgs : list Config) : Prop := {
  con_distinct : NoDup (names_of cfgs);
  con_few : (2 <= length (names_of cfgs) <= 3)%nat;
  con_short : Forall (fun name => (String.length name <= ID_CAPACITY)%nat) (names_of cfgs);
  con_peers : Forall (fun cfg => forall p, p ∈ pc_id <$> cfg_peers cfg <->
    p ∈ names_of cfgs /\ p <> s_node_id (server cfg)) cfgs;
}.

Section cluster.
Context {E : Env} {EL : EnvLaws E}.

(** A granted vote of an earlier term, for a node that is a candidate again. *)
Definition stale_vote (c : cluster) (env : MessageEnvelope) : bool :=
  match message env, nodes c !! to env with
  | RequestVoteResp resp, Some n =>
      bool_decide (role n = Candidate) && vote_granted resp && (rvr_term resp <? node_term n)
  | _, _ => false
  end.

(** The actions of the runs considered. *)
Definition fair (a : action) (c : cluster) : bool :=
  match a with
  | Act name (ElectionTick _) =>
      match nodes c !! name with Some n => node_term n <? u64_max | None => true end
  | Act _ (AddPeer _ _) | Act _ (RemovePeer _) => false
  | Act _ _ => true
  | Receive i =>
      match in_flight c !! i with Some env => negb (stale_vote c env) | None => true end
  | Lose _ | Elapse _ _ => true
  | Crash _ io _ => match io with [] => true | _ => false end
  end.

(** What a fresh cluster can reach by actions that are [allowed] in their state. *)
Inductive cluster_run (allowed : action -> cluster -> bool) (cfgs : list Config) : cluster -> Prop :=
  | run_start : cluster_run allowed cfgs (start_cluster cfgs)
  | run_step a c : cluster_run allowed cfgs c -> allowed a c = true ->
      cluster_run allowed cfgs (exec_action a c).

(** A step of such a run. *)
Definition cluster_step (allowed : action -> cluster -> bool) (c c' : cluster) : Prop :=
  exists a, allowed a c = true /\ c' = exec_action a c.

Lemma cluster_run_steps allowed cfgs c : rtc (cluster_step allowed) (start_cluster cfgs) c ->
  cluster_run allowed cfgs c.
Proof.
  revert c. apply rtc_ind_r; [apply run_start|]. intros c c' _ (a & Ha & ->) Hc. by apply run_step.
Qed.

Lemma cluster_run_later allowed cfgs c c' : cluster_run allowed cfgs c -> rtc (cluster_step allowed) c c' ->
  cluster_run allowed cfgs c'.
Proof. intros Hrun Hr. induction Hr as [|c1 c2 c3 (a & Ha & ->) _ IH]; [done|]. by apply IH, run_step. Qed.

(** The same, checked along a list of actions. *)
Fixpoint all_allowed (allowed : action -> cluster -> bool) (acts : list action) (c : cluster) : bool :=
  match acts with
  | [] => true
  | a :: acts' => allowed a c && all_allowed allowed acts' (exec_action a c)
  end.

Lemma all_allowed_run allowed cfgs acts c : cluster_run allowed cfgs c ->
  all_allowed allowed acts c = true -> cluster_run allowed cfgs (run_actions acts c).
Proof.
  revert c. induction acts as [|a acts IH]; intros c Hc Ha; [done|].
  simpl in Ha. apply andb_prop in Ha as [Hf Ha]. apply IH; [by apply run_step|done].
Qed.

Lemma all_allowed_steps allowed acts c : all_allowed allowed acts c = true ->
  rtc (cluster_step allowed) c (run_actions acts c).
Proof.
  revert c. induction acts as [|a acts IH]; intros c Ha; [done|]. simpl in Ha.
  apply andb_prop in Ha as [Hf Ha]. eapply rtc_l; [by exists a|by apply IH].
Qed.

(** ** The nodes of the cluster are members *)

Definition peers_of (cfg : Config) : gmap string PeerInfo :=
  foldl (fun m peer => <[pc_id peer := PeerInfo_new (pc_id peer) (pc_address peer)]> m) ∅
    (cfg_peers cfg).

Lemma peers_of_dom cfg p : is_Some (peers_of cfg !! p) <-> p ∈ pc_id <$> cfg_peers cfg.
Proof.
  unfold peers_of. induction (cfg_peers cfg) as [|peer l IH] using rev_ind.
  - simpl. rewrite elem_of_nil, lookup_empty. split; [by intros []|done].
  - rewrite foldl_snoc, fmap_app, elem_of_app. simpl. rewrite list_elem_of_singleton.
    rewrite lookup_insert_is_Some, IH. split.
    + intros [->|[_ Hin]]; auto.
    + intros [Hin| ->]; [|by left]. destruct (decide (pc_id peer = p)); auto.
Qed.

Lemma RaftNode_new_fields cfg d now n : RaftNode_new cfg d now = Ok n -> config n = cfg /\
  node_id n = s_node_id (server cfg) /\ peers n = peers_of cfg /\ role n = Follower /\
  outgoing n = [] /\ (io d = [] -> no_failures (log n)).
Proof.
  unfold RaftNode_new. destruct (RaftLog_new _ d) eqn:Hl; intros [= <-]. split_and!; try done.
  intros Hd. by eapply quiet_new.
Qed.

Definition cluster_member (cfgs : list Config) (cfg : Config) (n : RaftNode) : Prop :=
  member (names_of cfgs) (s_node_id (server cfg)) cfg (peers_of cfg) n.

Lemma start_member cfgs cfg d now n : RaftNode_new cfg d now = Ok n -> io d = [] ->
  cluster_member cfgs cfg n.
Proof.
  intros (Hc & Hi & Hp & _ & Ho & Hf)%RaftNode_new_fields Hd. split; auto. by rewrite Ho.
Qed.

Lemma restart_member cfgs cfg n now n' : cluster_member cfgs cfg n -> restart n [] now = Ok n' ->
  cluster_member cfgs cfg n' /\ outgoing n' = outgoing n /\ role n' = Follower.
Proof.
  intros [Hi Hc Hp Hf Hs]. unfold restart. rewrite Hc.
  destruct (RaftNode_new cfg _ now) as [n1| | | |] eqn:Hn; intros [= <-].
  apply RaftNode_new_fields in Hn as (Hc1 & Hi1 & Hp1 & Hr1 & _ & Hf1).
  split_and!; [|done|done]. split; simpl; auto.
Qed.

(** ** The invariant of the cluster *)

Section invariant.
Context (cfgs : list Config) (con : connected cfgs).

Lemma config_name cfg : cfg ∈ cfgs -> s_node_id (server cfg) ∈ names_of cfgs.
Proof. intros Hcfg. apply list_elem_of_fmap. by exists cfg. Qed.

Lemma name_fits name : name ∈ names_of cfgs -> (String.length name <= ID_CAPACITY)%nat.
Proof. pose proof (con_short _ con) as Hs. rewrite Forall_forall in Hs. apply Hs. Qed.

Lemma config_fits cfg : cfg ∈ cfgs -> (String.length (s_node_id (server cfg)) <= ID_CAPACITY)%nat.
Proof. intros Hcfg. by apply name_fits, config_name. Qed.

Lemma config_peers_spec cfg p : cfg ∈ cfgs ->
  is_Some (peers_of cfg !! p) <-> p ∈ names_of cfgs /\ p <> s_node_id (server cfg).
Proof.
  intros Hcfg. rewrite peers_of_dom. pose proof (con_peers _ con) as Hp.
  rewrite Forall_forall in Hp. by apply Hp.
Qed.

Lemma config_known cfg : cfg ∈ cfgs -> forall p, is_Some (peers_of cfg !! p) ->
  known (names_of cfgs) (s_node_id (server cfg)) p.
Proof.
  intros Hcfg p Hp. apply config_peers_spec in Hp as [Hin Hne]; [|done].
  split_and!; [done|done|by apply name_fits].
Qed.

(** There is somebody else in the cluster. *)
Lemma config_peers cfg : cfg ∈ cfgs -> peers_of cfg <> ∅.
Proof.
  intros Hcfg Hempty. pose proof (con_few _ con) as [Hlen _]. pose proof (con_distinct _ con) as Hnd.
  assert (forall p, p ∈ names_of cfgs -> p = s_node_id (server cfg)) as Hall.
  { intros p Hp. destruct (decide (p = s_node_id (server cfg))) as [|Hne]; [done|].
    assert (is_Some (peers_of cfg !! p)) as [x Hx] by by apply config_peers_spec.
    by rewrite Hempty in Hx. }
  destruct (names_of cfgs) as [|x [|y l]]; simpl in Hlen; [lia..|].
  apply NoDup_cons in Hnd as [Hx _]. apply Hx.
  rewrite (Hall x), <-(Hall y) by (by repeat (left || right)). left.
Qed.

(** There are not more than two others. *)
Lemma config_few cfg : cfg ∈ cfgs -> (1 <= size (peers_of cfg) <= 2)%nat.
Proof.
  intros Hcfg. split.
  - pose proof (config_peers cfg Hcfg) as Hne. rewrite <-map_size_non_empty_iff in Hne. lia.
  - assert (s_node_id (server cfg) :: elements (dom (peers_of cfg)) ⊆+ names_of cfgs) as Hsub%submseteq_length.
    { assert (forall p, p ∈ elements (dom (peers_of cfg)) <-> p ∈ names_of cfgs /\ p <> s_node_id (server cfg)) as Hel.
      { intros p. rewrite elem_of_elements, elem_of_dom. by apply config_peers_spec. }
      apply NoDup_submseteq.
      - constructor; [|apply NoDup_elements]. rewrite Hel. tauto.
      - intros p [->|Hp]%elem_of_cons; [by apply config_name|by apply Hel]. }
    simpl in Hsub. rewrite <-size_dom. unfold size, set_size. simpl.
    pose proof (con_few _ con). lia.
Qed.

(** The vote of somebody else. *)
Definition supported (h : string -> list MessageEnvelope) (t : N) (name : string) : Prop :=
  exists voter, voter ∈ names_of cfgs /\ voter <> name /\ (t, name) ∈ ballots (h voter).

(** The name has its own vote in the term, and another one. *)
Definition elected (h : string -> list MessageEnvelope) (t : N) (name : string) : Prop :=
  name ∈ names_of cfgs /\ (t, name) ∈ ballots (h name) /\ supported h t name.

Record sound_node (h : string -> list MessageEnvelope) (name : string) (n : RaftNode) : Prop := {
  sn_member : exists cfg, cfg ∈ cfgs /\ s_node_id (server cfg) = name /\ cluster_member cfgs cfg n;
  sn_votes : vote_inv n;
  sn_sent : outgoing n = h name;
  sn_stands : role n = Candidate -> (node_term n, name) ∈ ballots (h name);
  sn_elected : role n = Leader -> elected h (node_term n) name;
}.

Record sound (h : string -> list MessageEnvelope) (c : cluster) : Prop := {
  so_nodes name n : nodes c !! name = Some n -> sound_node h name n;
  so_single name : single_ballot (ballots (h name));
  so_flight env : env ∈ in_flight c -> env ∈ h (from env) /\ from env ∈ names_of cfgs /\
    genuine (names_of cfgs) (from env) env;
}.

Definition extend (name : string) (sent : list MessageEnvelope) (h : string -> list MessageEnvelope) :
    string -> list MessageEnvelope :=
  fun name' => if decide (name' = name) then sent else h name'.

Lemma extend_grows name sent h : h name `prefix_of` sent -> forall v, h v `prefix_of` extend name sent h v.
Proof. intros Hp v. unfold extend. by case_decide; subst. Qed.

Lemma ballots_prefix l l' b : l `prefix_of` l' -> b ∈ ballots l -> b ∈ ballots l'.
Proof. intros [k ->]. unfold ballots. rewrite omap_app, elem_of_app. by left. Qed.

Lemma supported_grows h h' t name : (forall v, h v `prefix_of` h' v) -> supported h t name ->
  supported h' t name.
Proof.
  intros Hh (v & ? & ? & ?). exists v. split_and!; [done|done|]. by eapply ballots_prefix; [apply Hh|].
Qed.

Lemma elected_grows h h' t name : (forall v, h v `prefix_of` h' v) -> elected h t name -> elected h' t name.
Proof.
  intros Hh (? & ? & ?). split_and!; [done| |by eapply supported_grows].
  by eapply ballots_prefix; [apply Hh|].
Qed.

Lemma sound_node_grows h h' name n : (forall v, h v `prefix_of` h' v) -> h' name = h name ->
  sound_node h name n -> sound_node h' name n.
Proof.
  intros Hh Heq [Hm Hv Hs Hst He]. split; [done|done|congruence| |].
  - intros Hr. by eapply ballots_prefix; [apply Hh|apply Hst].
  - intros Hr. by eapply elected_grows, He.
Qed.

(** One node moves to a sound state and what it has sent is in flight. *)
Lemma sound_update h c name n n' fl : sound h c -> nodes c !! name = Some n ->
  outgoing n `prefix_of` outgoing n' -> vote_inv n' ->
  sound_node (extend name (outgoing n') h) name n' ->
  (forall env, env ∈ fl -> env ∈ in_flight c \/ env ∈ outgoing n') ->
  sound (extend name (outgoing n') h) (mkCluster (<[name := n']> (nodes c)) fl).
Proof.
  intros [Hn Hs Hf] Hname Hp Hv Hn' Hfl.
  assert (outgoing n = h name) as Ho by apply (sn_sent _ _ _ (Hn _ _ Hname)). rewrite Ho in Hp.
  pose proof (extend_grows name _ h Hp) as Hh. split; simpl.
  - intros name' m. rewrite lookup_insert_Some. intros [[<- <-]|[Hne Hm]]; [done|].
    apply (sound_node_grows h); [done| |by apply Hn]. unfold extend. by rewrite decide_False.
  - intros v. unfold extend. case_decide; [apply Hv|apply Hs].
  - intros env Henv. destruct (Hfl env Henv) as [Hold|Hnew].
    + destruct (Hf env Hold) as (Hin & Hfrom & Hg). split_and!; [|done|done].
      destruct (Hh (from env)) as [k ->]. apply elem_of_app. by left.
    + destruct (sn_member _ _ _ Hn') as (cfg & Hcfg & Hid & Hm).
      pose proof (mem_sent _ _ _ _ _ Hm) as Hall. rewrite Forall_forall in Hall.
      pose proof (Hall env Hnew) as Hg. rewrite Hid in Hg. pose proof (gen_from _ _ _ Hg) as Hfrom.
      rewrite Hfrom. split_and!; [by unfold extend; rewrite decide_True| |done].
      rewrite <-Hid. apply list_elem_of_fmap. by exists cfg.
Qed.
(** A vote delivered to a candidate of its own term elects it. *)
Definition vote_known (h : string -> list MessageEnvelope) (name : string) (n : RaftNode) (ev : event) : Prop :=
  forall env resp, ev = Deliver env -> message env = RequestVoteResp resp -> role n = Candidate ->
    vote_granted resp = true -> rvr_term resp <= node_term n -> supported h (node_term n) name.

(** What the rounds of a fair run satisfy. *)
Record fair_round (h : string -> list MessageEnvelope) (name : string) (n : RaftNode) (ev : event) : Prop := {
  fr_honest : honest_vote n ev;
  fr_known : in_cluster (names_of cfgs) name ev;
  fr_vote : vote_known h name n ev;
}.

(** A node that stays in its role, becomes a follower, or has voted for itself in its new term;
    or a candidate with the vote of another node, whatever role it takes in the term. *)
Definition lawful (h : string -> list MessageEnvelope) (name : string) (n n' : RaftNode) : Prop :=
  (role n' = Follower \/ role n' = role n /\ node_term n' = node_term n) \/ stands name n' \/
  role n = Candidate /\ node_term n' = node_term n /\ supported h (node_term n) name.

Lemma sound_moved h c name n n' : sound h c -> nodes c !! name = Some n -> vote_inv n' ->
  (forall cfg, cfg ∈ cfgs -> s_node_id (server cfg) = name -> cluster_member cfgs cfg n ->
    cluster_member cfgs cfg n' /\ outgoing n `prefix_of` outgoing n') ->
  lawful h name n n' ->
  sound (extend name (outgoing n') h)
    (mkCluster (<[name := n']> (nodes c)) (in_flight c ++ drop (length (outgoing n)) (outgoing n'))).
Proof.
  intros Hc Hname Hv Hgrows Hlaw.
  destruct (so_nodes _ _ Hc _ _ Hname) as [(cfg & Hcfg & Hid & Hm) _ Ho Hst He].
  destruct (Hgrows cfg Hcfg Hid Hm) as [Hm' Hp].
  assert (forall v, h v `prefix_of` extend name (outgoing n') h v) as Hh by (apply extend_grows; by rewrite <-Ho).
  assert ((node_term n, name) ∈ ballots (h name) ->
    (node_term n, name) ∈ ballots (extend name (outgoing n') h name)) as Hb by by apply ballots_prefix.
  apply (sound_update h c name n n'); try done.
  - split; [by exists cfg|done|by unfold extend; rewrite decide_True| |].
    + destruct Hlaw as [[->|[-> ->]]|[[_ Hs]|(Hr & -> & _)]]; [done|intros Hr; by apply Hb, Hst| |
        intros _; by apply Hb, Hst].
      intros _. unfold extend. by rewrite decide_True.
    + intros Hl. apply (elected_grows h); [done|].
      destruct Hlaw as [[|[Hr ->]]|[[Hs _]|(Hr & -> & Hs)]]; [congruence|apply He; congruence|congruence|].
      split_and!; [|by apply Hst|done]. rewrite <-Hid. by apply config_name.
  - intros env [|Henv]%elem_of_app; [by left|right]. by apply subseteq_drop in Henv.
Qed.

Lemma sound_round h c name n ev : sound h c -> nodes c !! name = Some n -> fair_round h name n ev ->
  sound (extend name (outgoing (run_event ev n).2) h) (node_event name ev c).
Proof.
  intros Hc Hname [Hhonest Hin Hvote]. unfold node_event. rewrite Hname.
  destruct (so_nodes _ _ Hc _ _ Hname) as [(cfg & Hcfg & Hid & Hm) Hv _ _ _].
  assert (forall cfg, cfg ∈ cfgs -> s_node_id (server cfg) = name -> cluster_member cfgs cfg n ->
    let n' := (run_event ev n).2 in grows (names_of cfgs) name cfg (peers_of cfg) n n' /\
    (calm (names_of cfgs) name cfg (peers_of cfg) n n' \/
     (exists timeout, ev = ElectionTick timeout /\ stands name n' /\ node_term n' = u64_add (node_term n) 1) \/
     exists env resp, ev = Deliver env /\ message env = RequestVoteResp resp /\ decisive resp n n')) as Hround.
  { intros cfg' Hcfg' <- Hm'. apply round_member; [by apply config_fits|by apply config_known|done|
      by apply config_peers|done]. }
  apply sound_moved; [done|done|by apply run_event_votes| |].
  - intros cfg' Hcfg' Hid' Hm'. destruct (Hround cfg' Hcfg' Hid' Hm') as [Hg _].
    unfold cluster_member in *. rewrite Hid' in *. by apply Hg.
  - unfold cluster_member in Hm. rewrite Hid in Hm.
    destruct (Hround cfg Hcfg Hid) as [_ [Hc'|[(t & _ & Hs & _)|(env & resp & Hev & Hmsg & Hd)]]].
    + unfold cluster_member. by rewrite Hid.
    + left. by destruct (Hc' Hm) as (_ & _ & ?).
    + right; left. done.
    + right; right. destruct Hd as (? & ? & ? & ?). split_and!; [done|done|]. by eapply Hvote.
Qed.

(** How a round of a fair run changes the role and the term of its node. *)
Definition turns (n : RaftNode) (ev : event) (n' : RaftNode) : Prop :=
  (role n' = Follower \/ role n' = role n /\ node_term n' = node_term n) \/
  (exists timeout, ev = ElectionTick timeout /\ role n' = Candidate /\ node_term n' = node_term n + 1) \/
  (exists env resp, ev = Deliver env /\ message env = RequestVoteResp resp /\ role n = Candidate /\
    node_term n' = node_term n).

Lemma round_turns h c name n ev : sound h c -> nodes c !! name = Some n -> fair_round h name n ev ->
  let n' := (run_event ev n).2 in outgoing n `prefix_of` outgoing n' /\ turns n ev n'.
Proof.
  intros Hc Hname [Hhonest Hin _] n'.
  destruct (so_nodes _ _ Hc _ _ Hname) as [(cfg & Hcfg & <- & Hm) _ _ _ _].
  destruct (round_member (names_of cfgs) (s_node_id (server cfg)) cfg (peers_of cfg)) with (n := n) (ev := ev)
    as [Hg Hround]; [by apply config_fits|by apply config_known|done|by apply config_peers|done|].
  split; [by apply Hg|]. destruct Hround as [Hcalm|[(t & -> & [Hs _] & Ht)|(env & resp & ? & ? & Hd)]].
  - left. by destruct (Hcalm Hm) as (_ & _ & ?).
  - right; left. exists t. split_and!; [done|done|]. subst n'. rewrite Ht.
    simpl in Hhonest. apply u64_add_small. lia.
  - right; right. exists env, resp. by destruct Hd as (? & _ & _ & ?).
Qed.

Lemma sound_take_off h c i : sound h c -> sound h (take_off i c).
Proof.
  intros [Hn Hs Hf]. split; [done|done|]. intros env Henv. apply Hf. simpl in Henv.
  apply elem_of_app in Henv as [Hin|Hin]; [by apply subseteq_take in Hin|by apply subseteq_drop in Hin].
Qed.

(** A node that is replaced by one in the same term, or by a follower. *)
Lemma sound_replace h c name n n' : sound h c -> nodes c !! name = Some n -> vote_inv n' ->
  (forall cfg, cluster_member cfgs cfg n -> cluster_member cfgs cfg n') ->
  outgoing n' = outgoing n -> (role n' = Follower \/ role n' = role n /\ node_term n' = node_term n) ->
  sound h (mkCluster (<[name := n']> (nodes c)) (in_flight c)).
Proof.
  intros [Hn Hs Hf] Hname Hv Hm Ho Hr. split; simpl; [|done|done].
  intros name' m. rewrite lookup_insert_Some. intros [[<- <-]|[_ Hlook]]; [|by apply Hn].
  destruct (Hn _ _ Hname) as [(cfg & Hcfg & Hid & Hmem) _ Ho' Hst He].
  split; [by exists cfg; auto|done|by rewrite Ho| |]; destruct Hr as [Hr|[-> ->]]; by rewrite ?Hr.
Qed.

Lemma fair_act h c name n ev : nodes c !! name = Some n -> local_event ev = true ->
  fair (Act name ev) c = true -> fair_round h name n ev.
Proof.
  intros Hname Hl Hfair. split; destruct ev; try done.
  simpl in *. rewrite Hname in Hfair. by apply N.ltb_lt.
Qed.

Lemma fair_receive h c i env n : sound h c -> in_flight c !! i = Some env ->
  nodes c !! to env = Some n -> fair (Receive i) c = true -> fair_round h (to env) n (Deliver env).
Proof.
  intros Hc Henv Hto Hfair. simpl in Hfair. rewrite Henv in Hfair.
  destruct (so_flight _ _ Hc env) as (Hin & Hfrom & Hgen); [by eapply list_elem_of_lookup_2|].
  pose proof (gen_to _ _ _ Hgen) as (Hto1 & Hto2 & _). split.
  - simpl. destruct (message env) as [| |req| | |] eqn:Hm; try done.
    rewrite (gen_candidate _ _ _ Hgen req Hm). split; [done|by apply name_fits].
  - split_and!; [done|congruence|by apply name_fits].
  - intros env' resp [= <-] Hm Hr Hg Hle. exists (from env). split_and!; [done|congruence|].
    unfold stale_vote in Hfair. rewrite Hm, Hto, Hr, Hg in Hfair. simpl in Hfair.
    apply negb_true_iff, N.ltb_ge in Hfair. unfold ballots. apply list_elem_of_omap.
    exists env. split; [done|]. unfold ballot_of. rewrite Hm, Hg. do 2 f_equal. lia.
Qed.

Lemma sound_action h c a : sound h c -> fair a c = true -> exists h', sound h' (exec_action a c).
Proof.
  intros Hc Hfair. destruct a as [name ev|i|i|name now|name io now].
  - simpl. destruct (local_event ev) eqn:Hl; [|by exists h].
    destruct (nodes c !! name) as [n|] eqn:Hname; [|exists h; unfold node_event; by rewrite Hname].
    eexists. apply (sound_round h c name n); [done..|by eapply fair_act].
  - simpl. destruct (in_flight c !! i) as [env|] eqn:Henv; [|by exists h].
    pose proof (sound_take_off _ _ i Hc) as Ht.
    destruct (nodes c !! to env) as [n|] eqn:Hto; [|exists h; unfold node_event; simpl; by rewrite Hto].
    eexists. apply (sound_round h (take_off i c) (to env) n); [done..|]. by apply (fair_receive h c i).
  - exists h. by apply sound_take_off.
  - exists h. simpl. destruct (nodes c !! name) as [n|] eqn:Hname; [|done]. case_match; [|done].
    pose proof (sn_votes _ _ _ (so_nodes _ _ Hc _ _ Hname)) as Hv.
    apply (sound_replace h c name n); try done; [by apply (same_votes_inv n)| |by right].
    by intros cfg [].
  - simpl in *. destruct io; [|done]. exists h.
    destruct (nodes c !! name) as [n|] eqn:Hname; [|done].
    destruct (so_nodes _ _ Hc _ _ Hname) as [(cfg & Hcfg & Hid & Hm) Hv _ _ _].
    destruct (restart n [] now) as [n'| | | |] eqn:Hrun.
    2-5: destruct Hc as [Hn Hs Hf]; split; [|done|done]; simpl; intros name' m Hl;
      apply lookup_delete_Some in Hl as [_ Hl]; by apply Hn.
    destruct (restart_member _ _ _ _ _ Hm Hrun) as (_ & Ho & Hr).
    apply (sound_replace h c name n); try done; [by eapply restart_votes| |by left].
    intros cfg' Hm'. by apply (restart_member _ _ _ _ _ Hm' Hrun).
Qed.

Lemma start_nodes name n : nodes (start_cluster cfgs) !! name = Some n -> exists cfg, cfg ∈ cfgs /\
  s_node_id (server cfg) = name /\ RaftNode_new cfg (mkDir ∅ []) 0 = Ok n.
Proof.
  simpl. assert (cfgs ⊆ cfgs) as Hsub by done. revert Hsub. generalize cfgs at 1 3 as l.
  intros l. induction l as [|cfg l IH] using rev_ind; intros Hl; [done|].
  assert (l ⊆ cfgs) by (intros x Hx; apply Hl, elem_of_app; by left).
  rewrite foldl_snoc. destruct (RaftNode_new cfg _ 0) as [n1| | | |] eqn:Hn; try by apply IH.
  rewrite lookup_insert_Some. intros [[<- <-]|[_ Hlook]]; [|by apply IH].
  exists cfg. split_and!; [|done|done]. apply Hl, elem_of_app. right. left.
Qed.

Lemma sound_start : sound (fun _ => []) (start_cluster cfgs).
Proof.
  split; [|by intros name t c1 c2 ?%not_elem_of_nil|by intros env ?%not_elem_of_nil].
  intros name n Hname. destruct (start_nodes name n Hname) as (cfg & Hcfg & <- & Hn).
  pose proof (start_member cfgs _ _ _ _ Hn eq_refl) as Hm.
  pose proof (reachable_votes cfg n (reach_start _ _ _ _ _ Hn)) as Hv.
  apply RaftNode_new_fields in Hn as (_ & _ & _ & Hr & Ho & _).
  split; [by exists cfg|done|done| |]; by rewrite Hr.
Qed.
Lemma fair_run_sound c : cluster_run fair cfgs c -> exists h, sound h c.
Proof.
  induction 1 as [|a c _ [h Hh] Hfair]; [by eexists; apply sound_start|by eapply sound_action].
Qed.

(** Two elected nodes would have two voters outside them: there is one place for both. *)
Lemma elected_unique h t name1 name2 : (forall name, single_ballot (ballots (h name))) ->
  elected h t name1 -> elected h t name2 -> name1 = name2.
Proof.
  intros Hone (Hin1 & Hb1 & v1 & Hv1 & Hne1 & Hvote1) (Hin2 & Hb2 & v2 & Hv2 & Hne2 & Hvote2).
  destruct (decide (name1 = name2)) as [|Hne]; [done|exfalso].
  assert (v1 <> name2) by (intros ->; by apply Hne, (Hone name2 t)).
  assert (v2 <> name1) by (intros ->; by apply Hne; symmetry; apply (Hone name1 t)).
  assert (v1 <> v2) by (intros ->; by apply Hne, (Hone v2 t)).
  assert ([name1; name2; v1; v2] ⊆+ names_of cfgs) as Hsub%submseteq_length.
  { apply NoDup_submseteq; [by repeat (constructor; [set_solver|]); constructor|set_solver]. }
  pose proof (con_few _ con) as Hfew. simpl in Hsub. lia.
Qed.

Lemma sound_one_leader h c name1 name2 t : sound h c -> leads c name1 t = true ->
  leads c name2 t = true -> name1 = name2.
Proof.
  unfold leads. intros Hc H1 H2.
  destruct (nodes c !! name1) as [n1|] eqn:Hn1; [|done].
  destruct (nodes c !! name2) as [n2|] eqn:Hn2; [|done].
  apply andb_prop in H1 as [Hr1%bool_decide_eq_true Ht1%N.eqb_eq].
  apply andb_prop in H2 as [Hr2%bool_decide_eq_true Ht2%N.eqb_eq].
  apply (elected_unique h t); [apply (so_single _ _ Hc)|rewrite <-Ht1|rewrite <-Ht2].
  - by apply (sn_elected _ _ _ (so_nodes _ _ Hc _ _ Hn1)).
  - by apply (sn_elected _ _ _ (so_nodes _ _ Hc _ _ Hn2)).
Qed.
End invariant.
End cluster.

(** ** Properties *)

(** C6: Election safety of the whole cluster: two or three fully connected nodes with fixed
    peers, whose file operations succeed, never have two leaders of one term, whatever messages
    are lost, delayed or reordered and whichever nodes are restarted, provided that no granted
    vote of an earlier term reaches a candidate and no election starts in the largest term. *)
Theorem one_leader_per_term {E : Env} {EL : EnvLaws E} cfgs c name1 name2 t : connected cfgs ->
  cluster_run fair cfgs c -> leads c name1 t = true -> leads c name2 t = true -> name1 = name2.
Proof.
  intros Hcon Hrun. destruct (fair_run_sound cfgs Hcon c Hrun) as [h Hc]. by eapply sound_one_leader.
Qed.

(** The three nodes of [nodes/]: [node-01] is elected, and its messages are still in flight
    when [node-02] stands in the same term. *)
Definition three_configs : list Config := cluster_configs three.

Lemma three_connected : connected three_configs.
Proof.
  split; [by vm_compute; repeat (constructor; [set_solver|]); constructor|vm_compute; lia| |].
  - repeat constructor; vm_compute; lia.
  - unfold three_configs at 2, cluster_configs, three. rewrite !fmap_cons, !Forall_cons.
    split_and!; [| | |done]; intros p; cbn; set_solver.
Qed.

Definition elected_actions : list action :=
  elect "node-01" 1000 ++ [Receive 0; Receive 1] ++ elect "node-02" 2000.

Definition elected_cluster : cluster :=
  @run_actions ref_env elected_actions (@start_cluster ref_env three_configs).

Lemma one_leader_per_term_witness : leads elected_cluster "node-01" 1 = true /\
  forall name, leads elected_cluster name 1 = true -> name = "node-01".
Proof.
  assert (leads elected_cluster "node-01" 1 = true) as Hlead by (vm_compute; reflexivity).
  split; [exact Hlead|]. intros name Hname.
  apply (@one_leader_per_term ref_env _ three_configs elected_cluster name "node-01" 1
    three_connected); [|exact Hname|exact Hlead].
  apply all_allowed_run; [apply run_start|vm_compute; reflexivity].
Defined.
