(* ===== verification/ParallelProps.v ===== *)
(** * Election safety, with the tasks of the daemons interleaved

    The invariant [sound] of ClusterProps.v through every section of every task of the daemons
    of Parallel.v: what a task has seen is followed along its points.  [unhurried] is what the
    runs leave out, section by section, and Races.v shows what happens without it. *)

From S2P Require Import Prelude Heapless Protocol Serde HashMap Log LogFacts StateMachine.
From S2P Require Import Config Env Node NodeFacts Sample Daemon Tasks Votes TasksVotes Rounds Members.
From S2P Require Import Cluster Parallel ClusterProps.
Local Open Scope N_scope.

(** ** What a section leaves *)

Section leaves.
Context {E : Env}.

(** The points a section returns are in [Q]. *)
Definition leaves {A} (Q : A -> Prop) (m : M RaftNode A) : Prop := forall n a n', m n = (Ok a, n') -> Q a.

Lemma leaves_ret {A} (Q : A -> Prop) a : Q a -> leaves Q (ret a).
Proof. by intros HQ n b n' [= <- <-]. Qed.

Lemma leaves_bind {A B} (Q : B -> Prop) (m : M RaftNode A) (k : A -> M RaftNode B) :
  (forall a, leaves Q (k a)) -> leaves Q (bind m k).
Proof. intros Hk n b n' (a & s & _ & Hrun)%bind_Ok_inv. by eapply Hk. Qed.

Lemma leaves_scope {A} (Q : A -> Prop) (m : M RaftNode A) : leaves Q m -> leaves Q (scope_log m).
Proof.
  intros Hm n a n' Hrun. unfold scope_log in Hrun.
  destruct ((lock_log ;;; m)%raft n) as [[b| | | |] s] eqn:Hb; simplify_eq.
  apply bind_Ok_inv in Hb as (u & s' & _ & Hb). by eapply Hm.
Qed.
End leaves.

Ltac leave_steps :=
  repeat first
    [ simple apply leaves_bind; intros
    | simple apply leaves_scope
    | simple apply leaves_ret
    | lazymatch goal with |- leaves _ _ => case_match end ].

Section sections.
Context {E : Env} {EL : EnvLaws E}.
Context (names : list string) (me : string) (cfg : Config) (ps : gmap string PeerInfo).
Context (me_fits : (String.length me <= ID_CAPACITY)%nat).
Context (ps_known : forall p, is_Some (ps !! p) -> known names me p).

Notation member := (member names me cfg ps).
Notation calm := (calm names me cfg ps).
Notation grows := (grows names me cfg ps).
Notation known := (known names me).

Hint Resolve calm_guard calm_append calm_store calm_adopt calm_vote calm_append_response
  calm_request_vote calm_broadcast calm_apply_loop calm_notify : raft.

(** What the runs ask of a point. *)
Definition point_known (p : point) : Prop :=
  match p with
  | AtAppendEntries from _ | AtRequestVote from _ | AtAppendResponse from _ _ => known from
  | AtAddPeer _ _ | AtAddPeerRole _ | AtAddPeerIndexes _ | AtRemovePeer _ | AtRemoveNext _ | AtRemoveMatch _ => False
  | _ => True
  end.

Ltac calm_steps := node_steps; try (by apply calm_same; auto).

Lemma calm_section p n : point_known p -> p <> AtStartElection -> p <> AtBecomeLeader ->
  calm n (resume p n).2.
Proof.
  intros Hp He Hb. revert n. change (steps_in calm (resume p)).
  destruct p as [from req| | |to t b|from resp|t| | |i|i|from req|from resp| | | |last| | |
    timeout|timeout| | |c tx|tx|c tx|i tx|i a|i|i|i|i|i| ]; simpl in Hp |- *; try done.
  all: try (unfold set_role, init_peer, respond; calm_steps; fail).
  - unfold append_entries_section, reset_heartbeat, update_commit_index, when. calm_steps.
  - unfold append_response_section. calm_steps.
  - assert (forall t m ns, steps_in calm (advance_section t m ns)).
    { intros t m ns. induction ns; simpl; calm_steps. }
    calm_steps.
  - unfold vote_response_section. calm_steps. destruct (decide (from ∈ votes_received s)); [done|].
    by apply calm_same; auto.
  - unfold get_status. calm_steps.
Qed.
Lemma role_points p : p = AtStartElection \/ p = AtBecomeLeader \/ p <> AtStartElection /\ p <> AtBecomeLeader.
Proof. destruct p; auto. Qed.

(** An election of a node with peers goes on to nothing. *)
Lemma campaign_section n : member n -> ps <> ∅ -> let n' := (resume AtStartElection n).2 in
  (forall next, (resume AtStartElection n).1 = Ok next -> next = []) /\ grows n n' /\
  (calm n n' \/ stands me n' /\ node_term n' = u64_add (node_term n) 1).
Proof.
  intros Hn Hps. apply (campaign_member names me cfg ps me_fits ps_known
    (fun l => ret (if bool_decide (l = []) then [AtBecomeLeader] else [])) []); [done..|].
  intros l s Hl. by rewrite bool_decide_false.
Qed.

Lemma resume_member p n : member n -> ps <> ∅ -> point_known p ->
  let n' := (resume p n).2 in grows n n' /\
  (calm n n' \/
   (p = AtStartElection /\ stands me n' /\ node_term n' = u64_add (node_term n) 1) \/
   (p = AtBecomeLeader /\ role n' = Leader /\ node_term n' = node_term n)).
Proof.
  intros Hn Hps Hp n'. destruct (role_points p) as [->|[->|[He Hb]]].
  - destruct (campaign_section n Hn Hps) as (_ & Hg & Hc).
    split; [exact Hg|]. destruct Hc as [Hc|Hc]; [by left|right; left]. by split.
  - split; [apply grows_role|]. by right; right.
  - assert (calm n n') as Hc by by apply calm_section. split; [by apply calm_grows|by left].
Qed.

(** ** The points that remain *)

Definition quiet (p : point) : Prop :=
  match p with AtApply | AtNotify _ => True | AtAppendResponse to _ _ => known to | _ => False end.

(** A point a section can go on with. *)
Definition inner (p : point) : Prop :=
  match p with
  | AtAppendEntries _ _ | AtRequestVote _ _ | AtRequestVoteResponse _ _ | AtBecomeLeader => False
  | _ => point_known p
  end.

Definition onward (r : route) : Prop := match r with [] => True | p :: r => inner p /\ Forall quiet r end.

Ltac onward_steps :=
  leave_steps; repeat case_match; simpl;
  repeat match goal with
    | |- _ /\ _ => split
    | |- Forall _ [] => apply Forall_nil_2
    | |- Forall _ (_ :: _) => apply Forall_cons_2
    end; try done.

Lemma onward_section p : point_known p -> p <> AtStartElection ->
  (forall from resp, p <> AtRequestVoteResponse from resp) -> leaves onward (resume p).
Proof.
  intros Hp He Hv. destruct p as [from req| | |to t b|from resp|t| | |i|i|from req|from resp| | | |last| | |
    timeout|timeout| | |c tx|tx|c tx|i tx|i a|i|i|i|i|i| ]; simpl in Hp |- *; try done.
  all: try (onward_steps; fail).
  - unfold append_entries_section. onward_steps.
  - unfold append_response_section. onward_steps.
  - leave_steps. match goal with |- leaves _ (advance_section _ _ ?l) => induction l end; simpl; by onward_steps.
  - by destruct (Hv from resp).
Qed.

(** The candidate that goes on to lead has counted a vote that is not later than its term. *)
Lemma vote_response_next from resp n next n' : resume (AtRequestVoteResponse from resp) n = (Ok next, n') ->
  next = [] \/ (exists t, next = [AtStepDown t]) \/
  next = [AtBecomeLeader] /\ role n = Candidate /\ vote_granted resp = true /\
    rvr_term resp <= node_term n /\ node_term n' = node_term n.
Proof.
  simpl. unfold vote_response_section. destruct (log_guard n) eqn:Hg; [by rewrite scope_log_held|].
  rewrite scope_log_free by done. rewrite bind_gets. case_decide as Hr; [intros [= <- <-]; by left|].
  rewrite bind_gets. destruct (_ <? rvr_term resp) eqn:Ht; [intros [= <- <-]; right; left; by eexists|].
  destruct (vote_granted resp) eqn:Hv; [|intros [= <- <-]; by left]. rewrite bind_modify, !bind_gets.
  unfold ret. destruct (majority_of _ <=? _)%nat; intros [= <- <-]; [right; right|by left].
  apply N.ltb_ge in Ht. split_and!; try done.
  unfold node_term. simpl. by case_decide.
Qed.

End sections.

(** ** The cluster *)

Section cluster.
Context {E : Env} {EL : EnvLaws E}.
Context (cfgs : list Config) (con : connected cfgs).

Notation names := (names_of cfgs).
Notation history := (string -> list MessageEnvelope).

(** What holds of a task that stands at a point: [seen] is the term of its last section. *)
Definition point_ok (h : history) (name : string) (seen : N) (p : point) : Prop :=
  match p with
  | AtRequestVoteResponse _ resp => vote_granted resp = true -> supported cfgs h (rvr_term resp) name
  | AtBecomeLeader => supported cfgs h seen name
  | AtRequestVote from req => known names name from /\ from = candidate_id req
  | _ => point_known names name p
  end.

Definition route_ok (h : history) (name : string) (seen : N) (t : route) : Prop :=
  match t with [] => True | p :: t => point_ok h name seen p /\ Forall (quiet names name) t end.

Record parallel_sound (h : history) (c : parallel) (seen : string -> nat -> N) : Prop := {
  ps_sound : sound cfgs h (cluster_of c);
  ps_routes name s k t : crews c !! name = Some s -> cr_tasks s !! k = Some t ->
    route_ok h name (seen name k) t;
}.

Lemma inner_ok h name seen p : inner names name p -> point_ok h name seen p.
Proof. by destruct p. Qed.

Lemma quiet_ok h name seen p : quiet names name p -> point_ok h name seen p.
Proof. by destruct p. Qed.

Lemma quiet_route h name seen t : Forall (quiet names name) t -> route_ok h name seen t.
Proof. destruct 1; [done|]. split; [by apply quiet_ok|done]. Qed.

Lemma onward_route h name seen next t : onward names name next -> Forall (quiet names name) t ->
  route_ok h name seen (next ++ t).
Proof.
  destruct next as [|p next]; intros Hn Ht; [by apply quiet_route|].
  destruct Hn as [Hp Hn]. split; [by apply inner_ok|by apply Forall_app].
Qed.

Lemma route_grows h h' name seen t : (forall v, h v `prefix_of` h' v) -> route_ok h name seen t ->
  route_ok h' name seen t.
Proof.
  intros Hh. destruct t as [|p t]; [done|]. intros [Hp Ht]. split; [|done].
  destruct p; try done; simpl in *; intros; eapply supported_grows; eauto.
Qed.

Lemma point_ok_known h name seen p : point_ok h name seen p -> point_known names name p.
Proof. destruct p; try done. by intros []. Qed.

(** A section of a fair run. *)
Lemma section_lawful h c name n seen p : sound cfgs h c -> nodes c !! name = Some n ->
  point_ok h name seen p -> unhurried n seen p = true -> let n' := (resume p n).2 in
  vote_inv n' /\ lawful cfgs h name n n' /\
  (forall cfg, cfg ∈ cfgs -> s_node_id (server cfg) = name -> cluster_member cfgs cfg n ->
    cluster_member cfgs cfg n' /\ outgoing n `prefix_of` outgoing n').
Proof.
  intros Hc Hname Hp Hu n'.
  assert (forall cfg, cfg ∈ cfgs -> s_node_id (server cfg) = name -> cluster_member cfgs cfg n ->
    grows names name cfg (peers_of cfg) n n' /\ (calm names name cfg (peers_of cfg) n n' \/
      (p = AtStartElection /\ stands name n' /\ node_term n' = u64_add (node_term n) 1) \/
      (p = AtBecomeLeader /\ role n' = Leader /\ node_term n' = node_term n))) as Hround.
  { intros cfg Hcfg <- Hm. apply resume_member; [by eapply config_fits|by apply config_known|done|
      by eapply config_peers|by eapply point_ok_known]. }
  destruct (so_nodes _ _ _ Hc _ _ Hname) as [(cfg & Hcfg & <- & Hm) Hv _ _ _]. split_and!.
  - apply resume_votes; [|done]. destruct p; try done; simpl in *; try by apply N.ltb_lt.
    destruct Hp as [(? & ? & ?) ->]. by split.
  - destruct (Hround cfg Hcfg eq_refl Hm) as [_ [Hc'|[(_ & Hs & _)|(-> & _ & Ht)]]].
    + left. by destruct (Hc' Hm) as (_ & _ & ?).
    + by right; left.
    + right; right. simpl in Hu. apply andb_prop in Hu as [Hr%bool_decide_eq_true Hs%N.eqb_eq].
      split_and!; [done|done|]. by rewrite Hs.
  - intros cfg' Hcfg' Hid Hm'. destruct (Hround cfg' Hcfg' Hid Hm') as [Hg _].
    unfold cluster_member in *. rewrite Hid in *. by apply Hg.
Qed.
Lemma section_route h c name n seen p next t : sound cfgs h c -> nodes c !! name = Some n ->
  point_ok h name seen p -> Forall (quiet names name) t -> unhurried n seen p = true ->
  (resume p n).1 = Ok next -> route_ok h name (node_term (resume p n).2) (next ++ t).
Proof.
  intros Hc Hname Hp Ht Hu Hnext.
  destruct (so_nodes _ _ _ Hc _ _ Hname) as [(cfg & Hcfg & <- & Hm) _ _ _ _].
  destruct (resume p n) as [o n'] eqn:Hrun. simpl in *. subst o.
  assert (p = AtStartElection \/ (exists from resp, p = AtRequestVoteResponse from resp) \/
    p <> AtStartElection /\ forall from resp, p <> AtRequestVoteResponse from resp)
    as [->|[(from & resp & ->)|[He Hv]]] by (destruct p; naive_solver).
  - destruct (campaign_section names (s_node_id (server cfg)) cfg (peers_of cfg)) with (n := n) as [Hn _];
      [by eapply config_fits|by apply config_known|done|by eapply config_peers|].
    rewrite Hrun in Hn. rewrite (Hn next eq_refl). by apply quiet_route.
  - destruct (vote_response_next from resp n next n' Hrun) as [->|[[t' ->]|(-> & Hr & Hg & Hle & Heq)]].
    + by apply quiet_route.
    + by split.
    + simpl in Hu, Hp |- *. rewrite Hr, Hg in Hu. simpl in Hu.
      split; [|done]. apply negb_true_iff, N.ltb_ge in Hu. replace (node_term n') with (rvr_term resp) by lia. by apply Hp.
  - apply onward_route; [|done]. eapply onward_section; [by eapply point_ok_known|done|done|done].
Qed.

(** ** The moves *)

Lemma nodes_of c name : nodes (cluster_of c) !! name = cr_node <$> crews c !! name.
Proof. apply lookup_fmap. Qed.

Lemma cluster_of_insert name s c fl : cluster_of (mkParallel (<[name := s]> (crews c)) fl) =
  mkCluster (<[name := cr_node s]> (nodes (cluster_of c))) fl.
Proof. unfold cluster_of. simpl. by rewrite fmap_insert. Qed.

Lemma cluster_of_same name s s' c : crews c !! name = Some s -> cr_node s' = cr_node s ->
  cluster_of (mkParallel (<[name := s']> (crews c)) (flying c)) = cluster_of c.
Proof.
  intros Hs Hn. rewrite cluster_of_insert, Hn. unfold cluster_of. simpl. f_equal.
  apply insert_id. by rewrite lookup_fmap, Hs.
Qed.

(** A crew whose new state has sent nothing. *)
Lemma on_crew_silent name f c s : crews c !! name = Some s ->
  outgoing (cr_node (f s)) = outgoing (cr_node s) ->
  on_crew name f c = mkParallel (<[name := f s]> (crews c)) (flying c).
Proof. intros Hs Ho. unfold on_crew. by rewrite Hs, Ho, drop_all, app_nil_r. Qed.

(** The tasks of one crew change, or the nodes do, and the histories grow. *)
Lemma routes_insert h h' c name s' seen seen' :
  (forall name' s k t, crews c !! name' = Some s -> cr_tasks s !! k = Some t -> route_ok h name' (seen name' k) t) ->
  (forall v, h v `prefix_of` h' v) -> (forall name' k, name' <> name -> seen' name' k = seen name' k) ->
  (forall k t, cr_tasks s' !! k = Some t -> route_ok h' name (seen' name k) t) ->
  forall name' s k t, <[name := s']> (crews c) !! name' = Some s -> cr_tasks s !! k = Some t ->
    route_ok h' name' (seen' name' k) t.
Proof.
  intros Hr Hh Hseen Hnew name' s k t [[<- <-]|[Hne Hs]]%lookup_insert_Some Hk; [by apply Hnew|].
  rewrite Hseen by done. eapply route_grows; [done|by eapply Hr].
Qed.

Lemma first_ok h c i env : sound cfgs h (cluster_of c) -> flying c !! i = Some env ->
  forall seen, route_ok h (to env) seen (first_point (Deliver env)).
Proof.
  intros Hc Hi seen. destruct (so_flight _ _ _ Hc env) as (Hin & Hfrom & Hg); [by eapply list_elem_of_lookup_2|].
  pose proof (gen_to _ _ _ Hg) as (Hto1 & Hto2 & Hto3).
  assert (known names (to env) (from env)) as Hknown.
  { split_and!; [done|congruence|by eapply name_fits]. }
  simpl. destruct (message env) as [req|resp|req|resp|r|r] eqn:Hm; try done; (split; [|done]); simpl.
  - split; [done|]. symmetry. by eapply gen_candidate.
  - intros Hgr. exists (from env). split_and!; [done|congruence|].
    unfold ballots. apply list_elem_of_omap. exists env. split; [done|]. unfold ballot_of. by rewrite Hm, Hgr.
Qed.

Lemma begin_sound h c seen name ev : parallel_sound h c seen ->
  (forall s, route_ok h name s (first_point ev)) -> parallel_sound h (on_crew name (begin_task ev) c) seen.
Proof.
  intros [Hc Hr] Hfirst. destruct (crews c !! name) as [s|] eqn:Hs; [|unfold on_crew; by rewrite Hs].
  rewrite (on_crew_silent name (begin_task ev) c s Hs eq_refl). split.
  - by rewrite (cluster_of_same name s).
  - apply (routes_insert h h c name _ seen seen); try done. simpl. intros k t.
    rewrite lookup_app_Some, list_lookup_singleton_Some. intros [Hk|(_ & _ & <-)]; [by eapply Hr|done].
Qed.

Lemma vanish_sound h c seen i : parallel_sound h c seen -> parallel_sound h (vanish i c) seen.
Proof. intros [Hc Hr]. split; [exact (sound_take_off cfgs h (cluster_of c) i Hc)|done]. Qed.

(** The node and the tasks of a crew after a section. *)
Lemma resume_task_node k s p t : cr_tasks s !! k = Some (p :: t) ->
  cr_node (resume_task k s) = (resume p (cr_node s)).2.
Proof. intros Hk. unfold resume_task. rewrite Hk. by destruct (resume p (cr_node s)) as [[] ?]. Qed.

Lemma resume_task_tasks k s p t k' t' : cr_tasks s !! k = Some (p :: t) ->
  cr_tasks (resume_task k s) !! k' = Some t' ->
  k' <> k /\ cr_tasks s !! k' = Some t' \/ k' = k /\ t' = [] \/
  k' = k /\ t' = p :: t /\ (resume p (cr_node s)).1 = Blocked \/
  exists next, k' = k /\ t' = next ++ t /\ (resume p (cr_node s)).1 = Ok next.
Proof.
  intros Hk. unfold resume_task. rewrite Hk.
  destruct (resume p (cr_node s)) as [[next|e| | |] n']; simpl.
  1: intros [(<- & <- & _)|[Hne Hk']]%list_lookup_insert_Some; [right; right; right; by exists next|left; split; [congruence|done]].
  2: { intros Hk'. destruct (decide (k' = k)) as [->|Hne]; [|by left].
       right; right; left. split_and!; [done|congruence|done]. }
  all: intros [(<- & <- & _)|[Hne Hk']]%list_lookup_insert_Some; [by right; left|left; split; [congruence|done]].
Qed.

Lemma blocked_seen h name seen seen' p n : (resume p n).1 = Blocked -> point_ok h name seen p ->
  point_ok h name seen' p.
Proof. by destruct p; try (intros _ Hp; exact Hp). Qed.

Lemma resume_sound h c seen name k : parallel_sound h c seen -> fair_move (Resume name k) c seen = true ->
  let c' := exec_move (Resume name k) c in
  exists h', parallel_sound h' c' (note (Resume name k) c' seen).
Proof.
  intros [Hc Hr] Hfair c'. simpl in Hfair.
  assert (forall seen' name' k', name' <> name \/ k' <> k ->
    (fun name' k' => if decide (name' = name /\ k' = k) then seen' else seen name' k') name' k' = seen name' k')
    as Hseen by (intros; simpl; rewrite decide_False; naive_solver).
  destruct (crews c !! name) as [s|] eqn:Hs.
  2: { exists h. subst c'. simpl. unfold on_crew. rewrite Hs. split; [done|]. intros name' s' k' t Hs' Hk.
       rewrite Hseen; [by eapply Hr|]. left. congruence. }
  assert (nodes (cluster_of c) !! name = Some (cr_node s)) as Hn by by rewrite nodes_of, Hs.
  assert ((exists p t, cr_tasks s !! k = Some (p :: t)) \/ resume_task k s = s /\
    forall t, cr_tasks s !! k = Some t -> t = []) as [(p & t & Hk)|[Hsame Hnil]].
  { unfold resume_task. destruct (cr_tasks s !! k) as [[|p t]|]; [right|left|right]; naive_solver. }
  - rewrite Hk in Hfair. destruct (Hr name s k _ Hs Hk) as [Hp Ht].
    destruct (section_lawful h _ name (cr_node s) (seen name k) p Hc Hn Hp Hfair) as (Hv & Hl & Hg).
    pose proof (fun next => section_route h _ name (cr_node s) (seen name k) p next t Hc Hn Hp Ht Hfair) as Hroute.
    pose proof (resume_task_node k s p t Hk) as Hn'.
    set (n' := (resume p (cr_node s)).2) in *. exists (extend name (outgoing n') h).
    assert (forall v, h v `prefix_of` extend name (outgoing n') h v) as Hh.
    { apply extend_grows. destruct (so_nodes _ _ _ Hc _ _ Hn) as [(cfg & Hcfg & Hid & Hm) _ Ho _ _].
      rewrite <-Ho. by destruct (Hg cfg Hcfg Hid Hm). }
    subst c'. simpl. unfold on_crew. rewrite Hs. split.
    + rewrite cluster_of_insert, Hn'. by apply sound_moved.
    + simpl. rewrite lookup_insert_eq. simpl. rewrite Hn'.
      apply (routes_insert h _ c name _ seen); [done|done|intros; apply Hseen; by left|].
      intros k' t' [[Hne Hk']|[[-> ->]|[(-> & -> & Hb)|(next & -> & -> & Hok)]]]%(resume_task_tasks _ _ _ _ _ _ Hk).
      * rewrite Hseen by (by right). eapply route_grows; [done|by eapply Hr].
      * done.
      * apply (route_grows h); [done|]. split; [by eapply blocked_seen|done].
      * rewrite decide_True by done. apply (route_grows h); [done|]. by eapply Hroute.
  - exists h. subst c'. simpl. rewrite (on_crew_silent _ _ c s) by (done || by rewrite Hsame). rewrite Hsame.
    split; [by rewrite (cluster_of_same name s)|].
    apply (routes_insert h h c name s seen); [done|done|intros; apply Hseen; by left|].
    intros k' t Hk'. destruct (decide (k' = k)) as [->|]; [by rewrite (Hnil t Hk')|].
    rewrite Hseen by (by right). by eapply Hr.
Qed.

Lemma move_sound h c seen m : parallel_sound h c seen -> fair_move m c seen = true ->
  exists h', parallel_sound h' (exec_move m c) (note m (exec_move m c) seen).
Proof.
  intros Hc Hfair. destruct m as [name ev|i|name k|i|name now|name now].
  - exists h. simpl. destruct (local_event ev) eqn:Hl; [|done]. apply begin_sound; [done|].
    intros seen'. by destruct ev.
  - exists h. simpl. destruct (flying c !! i) as [env|] eqn:Henv; [|done].
    apply begin_sound; [by apply vanish_sound|]. intros seen'. eapply first_ok; [apply Hc|done].
  - by eapply resume_sound.
  - exists h. by apply vanish_sound.
  - exists h. simpl. destruct (crews c !! name) as [s|] eqn:Hs; [|unfold on_crew; by rewrite Hs].
    rewrite (on_crew_silent _ _ c s) by (done || by case_match).
    assert (nodes (cluster_of c) !! name = Some (cr_node s)) as Hn by by rewrite nodes_of, Hs.
    destruct Hc as [Hc Hr]. split.
    + rewrite cluster_of_insert. apply (sound_replace cfgs h (cluster_of c) name (cr_node s)); try done.
      * pose proof (sn_votes _ _ _ _ (so_nodes _ _ _ Hc _ _ Hn)) as Hv. case_match; [|done].
        by apply (same_votes_inv (cr_node s)).
      * case_match; [|done]. by intros cfg [].
      * by case_match.
      * right. by case_match.
    + apply (routes_insert h h c name _ seen seen); try done. intros k t Hk. eapply Hr; [done|].
      by case_match.
  - exists h. simpl. destruct (crews c !! name) as [s|] eqn:Hs; [|done].
    assert (nodes (cluster_of c) !! name = Some (cr_node s)) as Hn by by rewrite nodes_of, Hs.
    destruct Hc as [Hc Hr]. destruct (restart (cr_node s) [] now) as [n'| | | |] eqn:Hrun.
    2-5: split; [|intros name' s' k t Hs'; simpl in Hs'; apply lookup_delete_Some in Hs' as [_ Hs']; by apply Hr];
      destruct Hc as [Hn' Hs' Hf]; split; [|done|done]; simpl; intros name' m; rewrite fmap_delete;
      intros [_ Hl]%lookup_delete_Some; by apply Hn'.
    destruct (so_nodes _ _ _ Hc _ _ Hn) as [(cfg & Hcfg & Hid & Hm) Hv _ _ _].
    destruct (restart_member _ _ _ _ _ Hm Hrun) as (_ & Ho & Hrole). split.
    + rewrite cluster_of_insert. apply (sound_replace cfgs h (cluster_of c) name (cr_node s)); try done;
        [by eapply restart_votes| |by left].
      intros cfg' Hm'. by apply (restart_member _ _ _ _ _ Hm' Hrun).
    + by apply (routes_insert h h c name _ seen seen).
Qed.

Lemma parallel_run_sound c seen : parallel_run cfgs c seen -> exists h, parallel_sound h c seen.
Proof.
  induction 1 as [|m c seen _ [h Hh] Hfair]; [|by eapply move_sound].
  exists (fun _ => []). split.
  - replace (cluster_of (start_parallel cfgs)) with (start_cluster cfgs); [by apply sound_start|].
    unfold cluster_of, start_parallel. simpl. rewrite <-map_fmap_compose.
    unfold start_cluster. f_equal. symmetry. apply map_fmap_id.
  - intros name s k t Hs Hk. unfold start_parallel in Hs. simpl in Hs.
    apply lookup_fmap_Some in Hs as (n & <- & _). done.
Qed.
End cluster.

(** ** Properties *)

(** C10: Election safety when the tasks of the daemons are interleaved at their awaits: two or
    three fully connected nodes with fixed peers, whose file operations succeed, never have two
    leaders of one term, in whatever order their tasks make their sections, whatever messages
    are lost or reordered and whichever nodes are restarted. The runs leave out, section by
    section, the count of a granted vote of an earlier term, an election in the largest term, a
    task that steps down to a term that is no longer higher, and a candidate that takes the lead
    when another task has changed its role or its term since its last vote was counted. *)
Theorem interleaved_one_leader {E : Env} {EL : EnvLaws E} cfgs c seen name1 name2 t : connected cfgs ->
  parallel_run cfgs c seen -> leads (cluster_of c) name1 t = true ->
  leads (cluster_of c) name2 t = true -> name1 = name2.
Proof.
  intros Hcon Hrun. destruct (parallel_run_sound cfgs Hcon c seen Hrun) as [h [Hc _]].
  by eapply sound_one_leader.
Qed.

(** Both votes of term 1 are on their way through [node-01], and [node-02] handles a vote request
    of [node-03] while it stands itself, when [node-01] becomes the leader. *)
Definition interleaved_election : list plan :=
  Stand "node-01" 1000 ++
  [Reach "node-01" "node-02"; Reach "node-01" "node-03"; Arrive "node-02" "node-01"; Arrive "node-03" "node-01";
   Go "node-01" 1 1; Wait "node-02" 3000; Open "node-02" (ElectionTick 150); Go "node-02" 1 2;
   Wait "node-03" 3000; Round "node-03" (ElectionTick 150); Arrive "node-03" "node-02";
   Go "node-01" 1 2; Go "node-01" 2 1; Go "node-02" 2 1; Go "node-02" 1 1; Go "node-01" 1 9].

Definition fresh_three : parallel := @start_parallel ref_env three_configs.
Definition interleaved_three : parallel := @run_plans ref_env interleaved_election fresh_three.

Lemma interleaved_one_leader_witness :
  leads (cluster_of interleaved_three) "node-01" 1 = true /\
  forall name, leads (cluster_of interleaved_three) name 1 = true -> name = "node-01".
Proof.
  assert (leads (cluster_of interleaved_three) "node-01" 1 = true) as Hlead by (vm_compute; reflexivity).
  split; [exact Hlead|]. intros name Hname.
  assert (exists seen, @parallel_run ref_env three_configs interleaved_three seen) as [seen Hrun].
  { unfold interleaved_three. rewrite run_plans_moves. eapply all_fair_run; [apply par_start|].
    vm_compute. reflexivity. }
  exact (@interleaved_one_leader ref_env _ three_configs interleaved_three seen name "node-01" 1
    three_connected Hrun Hname Hlead).
Defined.
