(* ===== verification/WireFacts.v ===== *)
(** * The invariant of the wire

    Every message between being sent and being handled is in one place: the channel of its
    sender or a stream.  A list of messages tagged with their places follows them; what is
    unread on a stream, buffers included, is the frames of the messages tagged with it, in
    order. *)

From Stdlib Require Import Init.Byte.
From S2P Require Import Prelude Heapless Protocol Serde HashMap Log StateMachine Config Env.
From S2P Require Import Node NodeFacts Network NetworkProps Daemon Histories Cluster ClusterProps Wire.
Local Open Scope N_scope.

(** ** Messages and their places *)

Inductive place := Channel (name : string) | Stream (name : string) (s : N).

#[export] Instance place_eq_dec : EqDecision place.
Proof. solve_decision. Defined.

Notation parcels := (list (place * MessageEnvelope)).

(** The messages at a place, oldest first. *)
Definition at_place (p : place) (F : parcels) : list MessageEnvelope :=
  snd <$> filter (fun x => x.1 = p) F.

Lemma at_place_app p F G : at_place p (F ++ G) = at_place p F ++ at_place p G.
Proof. unfold at_place. by rewrite filter_app, fmap_app. Qed.

Lemma at_place_tagged p envs : at_place p ((p,.) <$> envs) = envs.
Proof.
  induction envs as [|env envs IH]; [done|]. unfold at_place in *.
  rewrite fmap_cons, filter_cons_True, fmap_cons by done. by f_equal.
Qed.

Lemma tagged_messages (p : place) (envs : list MessageEnvelope) : ((p,.) <$> envs).*2 = envs.
Proof. induction envs as [|env envs IH]; [done|]. rewrite !fmap_cons. by f_equal. Qed.

Lemma at_place_other p q envs : q <> p -> at_place p ((q,.) <$> envs) = [].
Proof.
  intros Hne. induction envs as [|env envs IH]; [done|]. unfold at_place in *.
  by rewrite fmap_cons, filter_cons_False.
Qed.

Lemma at_place_added p q F envs : q <> p -> at_place p (F ++ ((q,.) <$> envs)) = at_place p F.
Proof. intros Hne. by rewrite at_place_app, at_place_other, app_nil_r. Qed.

(** The first message at a place is taken away; the other places keep theirs. *)
Lemma take_first p F env envs : at_place p F = env :: envs -> exists F',
  F.*2 ≡ₚ env :: F'.*2 /\ at_place p F' = envs /\ forall q, q <> p -> at_place q F' = at_place q F.
Proof.
  unfold at_place. induction F as [|[q e] F IH]; [done|]. destruct (decide (q = p)) as [->|Hne].
  - rewrite filter_cons_True by done. simpl. intros [= -> <-]. exists F. split_and!; [done|done|].
    intros q Hq. by rewrite filter_cons_False by (simpl; congruence).
  - rewrite filter_cons_False by done. intros (F' & Hperm & Hp & Hq)%IH.
    exists ((q, e) :: F'). split_and!.
    + simpl. rewrite Hperm. apply Permutation_swap.
    + by rewrite filter_cons_False.
    + intros q' Hne'. destruct (decide (q = q')) as [->|].
      * rewrite !filter_cons_True by done. simpl. by rewrite Hq.
      * by rewrite !filter_cons_False, Hq by done.
Qed.

Lemma take_drop_piece {A} k (l : list A) : take k l ++ drop (length (take k l)) l = l.
Proof.
  rewrite length_take. destruct (Nat.le_gt_cases k (length l)).
  - by rewrite Nat.min_l, take_drop.
  - by rewrite Nat.min_r, drop_all, app_nil_r, take_ge by lia.
Qed.

Section facts.
Context {E : Env} {JM : JsonBytes MessageEnvelope} (route : string -> option string).

(** ** The invariant *)

(** The address leads to nobody but the peer. *)
Definition routed (address peer : string) : Prop := forall name, route address = Some name -> name = peer.

Definition addressed (cfg : Config) : Prop :=
  Forall (fun peer => routed (pc_address peer) (pc_id peer)) (cfg_peers cfg).

(** The bytes are the beginning of the frames of the messages, or all of them on a stream
    whose writes have succeeded. *)
Definition carries (e : endpoint) (s : N) (bytes : list byte) (envs : list MessageEnvelope) : Prop :=
  exists cut, bytes ++ cut = stream_of (payload_of <$> envs) /\ (s ∉ broken e -> cut = []).

Definition meant_for (e : endpoint) (s : N) (env : MessageEnvelope) : Prop :=
  sendable (payload_of env) /\
  exists addr, dialled (manager e) !! s = Some addr /\ routed addr (to env).

Definition unread_inv (e : endpoint) (s : N) (conn : option connection) (envs : list MessageEnvelope) : Prop :=
  match conn with
  | None => carries e s (written e s) envs
  | Some (Reading reader received buffer) =>
      (received <= length (written e s))%nat /\
      (exists addr, dialled (manager e) !! s = Some addr /\ route addr = Some reader) /\
      carries e s (buffer ++ drop received (written e s)) envs
  | Some Closed => True
  end.

Record stream_inv (e : endpoint) (s : N) (conn : option connection) (envs : list MessageEnvelope) : Prop := {
  st_meant : Forall (meant_for e s) envs;
  st_unread : unread_inv e s conn envs;
}.

Definition open_to (e : endpoint) (s : N) (peer : string) : Prop :=
  s < next_stream (manager e) /\ is_Some (sent_on (manager e) !! s) /\
  exists addr, dialled (manager e) !! s = Some addr /\ routed addr peer.

Record endpoint_inv (e : endpoint) : Prop := {
  ep_addresses peer addr : peer_addresses (manager e) !! peer = Some addr -> routed addr peer;
  ep_connections peer s : connections (manager e) !! peer = Some s -> open_to e s peer;
  ep_dialled s : is_Some (dialled (manager e) !! s) -> s < next_stream (manager e);
  ep_written s : is_Some (sent_on (manager e) !! s) -> s < next_stream (manager e);
  ep_broken s : s ∈ broken e -> s < next_stream (manager e);
}.

Definition channel_inv (n : RaftNode) (e : endpoint) (envs : list MessageEnvelope) : Prop :=
  (taken e <= length (outgoing n))%nat /\ envs = drop (taken e) (outgoing n).

Record wire_inv (F : parcels) (w : wire) : Prop := {
  wi_config name n : wire_nodes w !! name = Some n -> addressed (config n);
  wi_channel name n e : wire_nodes w !! name = Some n -> endpoints w !! name = Some e ->
    channel_inv n e (at_place (Channel name) F);
  wi_endpoint name e : endpoints w !! name = Some e -> endpoint_inv e;
  wi_stream name e s : endpoints w !! name = Some e ->
    stream_inv e s (accepted w !! (name, s)) (at_place (Stream name s) F);
  wi_sender name s reader received buffer :
    accepted w !! (name, s) = Some (Reading reader received buffer) -> is_Some (endpoints w !! name);
}.

(** ** Steps that leave the streams alone *)

(** A round of a node: what it sends joins its channel. *)
Definition sent_since (n n' : RaftNode) : list MessageEnvelope :=
  drop (length (outgoing n)) (outgoing n').

Lemma inv_node F w name n n' : wire_inv F w -> wire_nodes w !! name = Some n ->
  histories_grow n n' ->
  wire_inv (F ++ ((Channel name,.) <$> sent_since n n')) (set_node name n' w).
Proof.
  intros [Hcfg Hch He Hs Hsd] Hn (_ & [sent Hout] & Hc). unfold sent_since. rewrite Hout, drop_app_length.
  split; simpl.
  - intros name' n1. destruct (decide (name' = name)) as [->|Hne].
    + rewrite lookup_insert_eq. intros [= <-]. rewrite Hc. by eapply Hcfg.
    + rewrite lookup_insert_ne by done. apply Hcfg.
  - intros name' n1 e. destruct (decide (name' = name)) as [->|Hne].
    + rewrite lookup_insert_eq. intros [= <-] Hname. destruct (Hch _ _ _ Hn Hname) as [Hle Heq].
      rewrite at_place_app, at_place_tagged, Heq. unfold channel_inv. rewrite Hout, length_app, drop_app_le by done.
      split; [lia|done].
    + rewrite lookup_insert_ne, at_place_added by (done || congruence). apply Hch.
  - exact He.
  - intros name' e s Hname. rewrite at_place_added by done. by apply Hs.
  - exact Hsd.
Qed.

(** Only one connection changes. *)
Lemma inv_connection F w name s conn : wire_inv F w ->
  (forall e, endpoints w !! name = Some e -> unread_inv e s (Some conn) (at_place (Stream name s) F)) ->
  conn = Closed \/ is_Some (endpoints w !! name) ->
  wire_inv F (set_connection (name, s) conn w).
Proof.
  intros [Hcfg Hch He Hs Hsd] Hconn Hsome. split; simpl; [exact Hcfg|exact Hch|exact He|..].
  - intros name' e s' Hname. destruct (decide ((name', s') = (name, s))) as [[= -> ->]|Hne].
    + rewrite lookup_insert_eq. destruct (Hs _ _ s Hname). split; [done|by apply Hconn].
    + rewrite lookup_insert_ne by done. by apply Hs.
  - intros name' s' reader received buffer. destruct (decide ((name', s') = (name, s))) as [[= -> ->]|Hne].
    + rewrite lookup_insert_eq. by destruct Hsome; [congruence|].
    + rewrite lookup_insert_ne by done. apply Hsd.
Qed.

Lemma unread_read e s reader received buffer envs k :
  let piece := take k (drop received (written e s)) in
  unread_inv e s (Some (Reading reader received buffer)) envs ->
  unread_inv e s (Some (Reading reader (received + length piece) (buffer ++ piece))) envs.
Proof.
  intros piece (Hle & Haddr & cut & Heq & Hcut). split_and!; [|done|].
  - subst piece. rewrite length_take, length_drop. lia.
  - exists cut. split; [|done]. rewrite <-Heq. f_equal. rewrite <-(assoc_L (++)). f_equal.
    subst piece. rewrite <-drop_drop. apply take_drop_piece.
Qed.
End facts.
