(* ===== verification/WireSends.v ===== *)
(** * The network task on the wire

    One turn of the loop of [run] keeps the invariant of the wire: the message leaves the
    channel for the stream of its peer, old or new, or is lost. *)

From Stdlib Require Import Init.Byte.
From S2P Require Import Prelude Heapless Protocol Serde HashMap Log StateMachine Config Env.
From S2P Require Import Node Network NetworkProps Daemon Cluster Wire WireFacts.
Local Open Scope N_scope.

Section sends.
Context {E : Env} {JM : JsonBytes MessageEnvelope} {JL : JsonBytesLaws MessageEnvelope JM}.
Context (route : string -> option string).

Definition frame_for (env : MessageEnvelope) : list byte := frame_of (payload_of env).

(** ** What [send_message] comes to *)

(** A connection to a new stream. *)
Definition dial (peer addr : string) (nm : NetworkManager) : NetworkManager :=
  mkNetwork (<[peer := next_stream nm]> (connections nm)) (peer_addresses nm)
    (<[next_stream nm := addr]> (dialled nm)) (<[next_stream nm := []]> (sent_on nm))
    (next_stream nm + 1) (tcp nm).

(** All of the frame was written, or the write failed. *)
Definition write_outcome (env : MessageEnvelope) (k : nat) (o : outcome unit) : Prop :=
  o = Ok tt /\ take k (frame_for env) = frame_for env \/ o = Err IoError.

Lemma transmit_result s env nm : exists k o fate,
  transmit s env nm = (o, with_tcp fate (put_on s (take k (frame_for env)) nm)) /\ write_outcome env k o.
Proof.
  unfold transmit, write_outcome. rewrite to_vec_payload, bind_from_Some.
  unfold write_all, next_tcp, bind. destruct nm as [? ? ? ? ? [|[|k] fate]]; simpl.
  - exists (length (frame_for env)), (Ok tt), []. rewrite take_ge by done. by split; [|left].
  - exists (length (frame_for env)), (Ok tt), fate. rewrite take_ge by done. by split; [|left].
  - exists k, (Err IoError), fate. by split; [|right].
Qed.

Lemma transmit_broken s env nm :
  transmit s env (with_tcp [TcpErr 0] nm) = (Err IoError, with_tcp [] (put_on s [] nm)).
Proof. unfold transmit. by rewrite to_vec_payload, bind_from_Some. Qed.

Lemma send_unknown peer env nm : connections nm !! peer = None -> exists o nm',
  send_message peer env nm = (o, nm') /\
  ((exists fate, nm' = with_tcp fate nm) \/
   exists addr k fate, peer_addresses nm !! peer = Some addr /\ write_outcome env k o /\
     nm' = with_tcp fate (put_on (next_stream nm) (take k (frame_for env)) (dial peer addr nm))).
Proof.
  intros Hc. unfold send_message. rewrite bind_gets, Hc, bind_gets.
  destruct (peer_addresses nm !! peer) as [addr|] eqn:Ha.
  2: { exists (Ok tt), nm. split; [done|left]. exists (tcp nm). by destruct nm. }
  assert (tcp_connect addr nm = match tcp nm with
    | TcpErr _ :: fate => (Err IoError, with_tcp fate nm)
    | fate => (Ok (next_stream nm), mkNetwork (connections nm) (peer_addresses nm)
        (<[next_stream nm := addr]> (dialled nm)) (<[next_stream nm := []]> (sent_on nm))
        (next_stream nm + 1) (tail fate))
    end) as Hconn.
  { unfold tcp_connect, next_tcp, bind. destruct nm as [? ? ? ? ? [|[|k] fate]]; done. }
  unfold bind at 1. rewrite Hconn.
  assert (forall fate, bind (modify (with_connection peer (next_stream nm)))
      (fun _ => transmit (next_stream nm) env) (mkNetwork (connections nm) (peer_addresses nm)
        (<[next_stream nm := addr]> (dialled nm)) (<[next_stream nm := []]> (sent_on nm))
        (next_stream nm + 1) fate) = transmit (next_stream nm) env (with_tcp fate (dial peer addr nm)))
    as Hdial by done.
  destruct (tcp nm) as [|[|k] fate]; [..|exists (Err IoError); eexists; split; [done|left; by eexists]];
    rewrite Hdial; match goal with |- context [transmit _ env ?nm'] =>
      destruct (transmit_result (next_stream nm) env nm') as (k & o & fate' & -> & Ho) end; exists o; eexists; (split; [done|right]); by exists addr, k, fate'.
Qed.

Lemma send_known_result peer s env nm : connections nm !! peer = Some s ->
  send_message peer env nm = transmit s env nm.
Proof. intros Hc. unfold send_message. by rewrite bind_gets, Hc. Qed.

(** ** The streams of an endpoint *)

(** The part of the invariant that is about one endpoint. *)
Definition streams_inv (F : parcels) (w : wire) (name : string) (e : endpoint) : Prop :=
  endpoint_inv route e /\
  forall s, stream_inv route e s (accepted w !! (name, s)) (at_place (Stream name s) F).

(** The endpoint has the same streams, more of them broken. *)
Record same_streams (e e' : endpoint) : Prop := {
  ss_connections : connections (manager e') = connections (manager e);
  ss_addresses : peer_addresses (manager e') = peer_addresses (manager e);
  ss_dialled : dialled (manager e') = dialled (manager e);
  ss_next : next_stream (manager e') = next_stream (manager e);
  ss_sent s : sent_on (manager e') !! s = sent_on (manager e) !! s;
  ss_broken s : s ∈ broken e -> s ∈ broken e';
  ss_bounded s : s ∈ broken e' -> s < next_stream (manager e') \/ s ∈ broken e;
}.

Lemma carries_mono e e' s bytes envs : (s ∈ broken e -> s ∈ broken e') ->
  carries e s bytes envs -> carries e' s bytes envs.
Proof. intros Hb (cut & Heq & Hcut). exists cut. split; [done|]. auto. Qed.

(** A stream depends on its endpoint only through these. *)
Lemma stream_mono e e' s conn envs : dialled (manager e') !! s = dialled (manager e) !! s ->
  written e' s = written e s -> (s ∈ broken e -> s ∈ broken e') ->
  stream_inv route e s conn envs -> stream_inv route e' s conn envs.
Proof.
  intros Hd Hw Hb [Hm Hu]. split.
  - eapply Forall_impl; [exact Hm|]. intros env [? Haddr]. split; [done|]. by rewrite Hd.
  - destruct conn as [[reader received buffer|]|]; simpl in *; rewrite ?Hd, ?Hw; [|done|].
    + destruct Hu as (? & ? & ?). split_and!; [done|done|]. by eapply carries_mono.
    + by eapply carries_mono.
Qed.

Lemma same_streams_inv F w name e e' : same_streams e e' -> streams_inv F w name e ->
  streams_inv F w name e'.
Proof.
  intros [Hc Ha Hd Hn Hs Hb Hbn] [[Haddr Hconn Hdial Hwr Hbr] Hst]. split.
  - split.
    + rewrite Ha. exact Haddr.
    + intros peer s. unfold open_to. rewrite Hc, Hd, Hn, Hs. apply Hconn.
    + intros s. rewrite Hd, Hn. apply Hdial.
    + intros s. rewrite Hs, Hn. apply Hwr.
    + intros s [?|?]%Hbn; [done|]. rewrite Hn. by apply Hbr.
  - intros s. apply (stream_mono e); [by rewrite Hd| |apply Hb|done]. unfold written. by rewrite Hs.
Qed.

(** A stream that was just opened. *)
Lemma dial_inv F w name e peer addr : streams_inv F w name e ->
  peer_addresses (manager e) !! peer = Some addr ->
  let e' := mkEndpoint (dial peer addr (manager e)) (taken e) (broken e) in
  streams_inv F w name e' /\ open_to route e' (next_stream (manager e)) peer /\
  next_stream (manager e) ∉ broken e'.
Proof.
  intros [[Haddr Hconn Hdial Hwr Hbr] Hst] Ha e'. set (nx := next_stream (manager e)).
  assert (open_to route e' nx peer) as Hopen.
  { unfold open_to, e', dial; simpl. fold nx. rewrite !lookup_insert_eq.
    split_and!; [lia|done|]. exists addr. split; [done|]. by apply Haddr. }
  split_and!; [|done|intros Hb%Hbr; lia]. split.
  - split; simpl.
    + exact Haddr.
    + intros p s. destruct (decide (p = peer)) as [->|Hne]; [rewrite lookup_insert_eq; by intros [= <-]|].
      rewrite lookup_insert_ne by done. intros (Hs & Hsent & Hd)%Hconn. unfold open_to; simpl.
      rewrite !lookup_insert_ne by (fold nx in Hs |- *; lia). split_and!; [lia|done|done].
    + intros s. rewrite lookup_insert_is_Some. intros [<-|[_ Hs]]; [lia|]. apply Hdial in Hs. lia.
    + intros s. rewrite lookup_insert_is_Some. intros [<-|[_ Hs]]; [lia|]. apply Hwr in Hs. lia.
    + intros s Hs%Hbr. lia.
  - intros s. destruct (decide (s = nx)) as [->|Hne].
    2: { apply (stream_mono e); [by apply lookup_insert_ne| |done|done].
         unfold written; simpl. by rewrite lookup_insert_ne. }
    assert (dialled (manager e) !! nx = None) as Hd.
    { destruct (dialled (manager e) !! nx) eqn:Hd; [|done]. assert (nx < nx); [|lia]. apply Hdial. by rewrite Hd. }
    destruct (Hst nx) as [Hm Hu]. destruct (at_place (Stream name nx) F) as [|env envs].
    2: { apply Forall_cons in Hm as [[_ (? & Hd' & _)] _]. congruence. }
    split; [done|]. destruct (accepted w !! (name, nx)) as [[reader received buffer|]|]; simpl in *; [|done|].
    + destruct Hu as (_ & (? & Hd' & _) & _). congruence.
    + exists []. unfold written, e', dial; simpl. fold nx. by rewrite lookup_insert_eq.
Qed.

Lemma stream_of_snoc ps p : stream_of (ps ++ [p]) = stream_of ps ++ frame_of p.
Proof. unfold stream_of. rewrite fmap_app, concat_app. simpl. by rewrite app_nil_r. Qed.

(** A frame, or the beginning of one, is written after what the stream carries. *)
Lemma carries_write e e' s bytes envs env k : carries e s bytes envs -> s ∉ broken e ->
  take k (frame_for env) = frame_for env \/ s ∈ broken e' ->
  carries e' s (bytes ++ take k (frame_for env)) (envs ++ [env]).
Proof.
  intros (cut & Heq & Hcut) Hb Hk. rewrite (Hcut Hb), app_nil_r in Heq.
  exists (drop k (frame_for env)). rewrite <-(assoc_L (++)), take_drop, fmap_app, Heq. simpl.
  split; [by rewrite stream_of_snoc|]. intros Hb'. destruct Hk as [Hk|]; [|done].
  apply (f_equal length) in Hk. rewrite length_take in Hk. apply length_zero_iff_nil.
  rewrite length_drop. lia.
Qed.

Lemma written_put s bytes nm m b s' :
  written (mkEndpoint (put_on s bytes nm) m b) s' =
    if decide (s' = s) then
      match sent_on nm !! s with Some old => old ++ bytes | None => [] end
    else default [] (sent_on nm !! s').
Proof.
  unfold written; simpl. case_decide; subst; [rewrite lookup_alter_eq|by rewrite lookup_alter_ne].
  by destruct (sent_on nm !! s).
Qed.

Lemma write_inv F w name e m b s k env fate : streams_inv F w name e ->
  open_to route e s (to env) -> s ∉ broken e -> sendable (payload_of env) ->
  (forall s', s' ∈ broken e -> s' ∈ b) -> (forall s', s' ∈ b -> s' = s \/ s' ∈ broken e) ->
  take k (frame_for env) = frame_for env \/ s ∈ b ->
  streams_inv (F ++ [(Stream name s, env)]) w name
    (mkEndpoint (with_tcp fate (put_on s (take k (frame_for env)) (manager e))) m b).
Proof.
  intros [[Haddr Hconn Hdial Hwr Hbr] Hst] (Hs & [old Hold] & addr & Hd & Hr) Hnb Hsend Hb Hb' Hk.
  set (e' := mkEndpoint _ m b).
  assert (forall s', written e' s' = if decide (s' = s) then old ++ take k (frame_for env)
    else written e s') as Hw.
  { intros s'. pose proof (written_put s (take k (frame_for env)) (manager e) m b s') as Hw. by rewrite Hold in Hw. }
  assert (forall s', is_Some (sent_on (manager e') !! s') <-> is_Some (sent_on (manager e) !! s')) as Hsent.
  { intros s'. simpl. by rewrite lookup_alter_is_Some. }
  split.
  - split; simpl.
    + exact Haddr.
    + intros p s' (? & ? & ?)%Hconn. split_and!; [done|by apply Hsent|done].
    + exact Hdial.
    + intros s' ?%Hsent. by apply Hwr.
    + intros s' [->|?]%Hb'; [done|by apply Hbr].
  - intros s'. change [(Stream name s, env)] with ((Stream name s,.) <$> [env]).
    destruct (decide (s' = s)) as [->|Hne].
    2: { rewrite at_place_added by congruence. apply (stream_mono e); [done| |apply Hb|done].
         by rewrite Hw, decide_False. }
    rewrite at_place_app, at_place_tagged. destruct (Hst s) as [Hm Hu]. split.
    { apply Forall_app. split; [done|]. apply Forall_singleton. split; [done|]. by exists addr. }
    specialize (Hw s). rewrite decide_True in Hw by done.
    assert (written e s = old) as Hwe by (unfold written; by rewrite Hold).
    destruct (accepted w !! (name, s)) as [[reader received buffer|]|]; simpl in *; [|done|].
    + destruct Hu as (Hle & Hreader & Hc). rewrite Hwe in *. rewrite Hw. split_and!; [|done|].
      * rewrite length_app. lia.
      * rewrite drop_app_le, (assoc_L (++)) by done. by eapply carries_write.
    + rewrite Hwe in *. rewrite Hw. by eapply carries_write.
Qed.

(** ** The turn of the loop *)

(** A message taken from the channel: what remains of the places. *)
Lemma inv_taken F w name n e e' env F' : wire_inv route F w -> wire_nodes w !! name = Some n ->
  endpoints w !! name = Some e -> next_message n e = Some env -> taken e' = S (taken e) ->
  at_place (Channel name) F' = drop 1 (at_place (Channel name) F) ->
  (forall q, q <> Channel name -> (forall s, q <> Stream name s) -> at_place q F' = at_place q F) ->
  streams_inv F' w name e' -> wire_inv route F' (set_endpoint name e' w).
Proof.
  intros [Hcfg Hch He Hs Hsd] Hn Hname Hnext Ht Hown Hother [He' Hs']. split; simpl; [exact Hcfg|..].
  - intros name' n' e1 Hn'. destruct (decide (name' = name)) as [->|Hne].
    + rewrite lookup_insert_eq. intros [= <-]. destruct (Hch _ _ _ Hn' Hname) as [Hle Heq].
      assert (n' = n) as -> by congruence. apply lookup_lt_Some in Hnext.
      rewrite Hown, Heq, drop_drop. split; [lia|]. by rewrite Ht, Nat.add_1_r.
    + rewrite lookup_insert_ne, Hother by congruence. by apply Hch.
  - intros name' e1. destruct (decide (name' = name)) as [->|Hne].
    + rewrite lookup_insert_eq. by intros [= <-].
    + rewrite lookup_insert_ne by done. apply He.
  - intros name' e1 s. destruct (decide (name' = name)) as [->|Hne].
    + rewrite lookup_insert_eq. intros [= <-]. apply Hs'.
    + rewrite lookup_insert_ne, Hother by congruence. apply Hs.
  - intros name' s reader received buffer Hr. apply lookup_insert_is_Some'. right. by eapply Hsd.
Qed.

(** What [pump] leaves, from what [send_message] came to. *)
Lemma pump_known env fate e s : connections (manager e) !! to env = Some s ->
  (s ∈ broken e /\
    pump env fate e = mkEndpoint (with_tcp [] (put_on s [] (manager e))) (S (taken e)) ({[s]} ∪ broken e)) \/
  (s ∉ broken e /\ exists k fate' b, (b = ∅ /\ take k (frame_for env) = frame_for env \/ b = {[s]}) /\
    pump env fate e = mkEndpoint (with_tcp fate' (put_on s (take k (frame_for env)) (manager e)))
      (S (taken e)) (b ∪ broken e)).
Proof.
  intros Hc. unfold pump, fate_of. rewrite Hc. case_decide as Hb.
  - left. split; [done|]. rewrite (send_known_result _ s), transmit_broken by done. simpl. by rewrite Hc.
  - right. split; [done|]. rewrite (send_known_result _ s) by done.
    destruct (transmit_result s env (with_tcp fate (manager e))) as (k & o & fate' & -> & Ho).
    exists k, fate'. simpl. rewrite Hc. destruct Ho as [[-> Hk]| ->]; eexists; (split; [|done]); auto.
Qed.

Lemma pump_unknown env fate e : connections (manager e) !! to env = None ->
  (exists fate', pump env fate e = mkEndpoint (with_tcp fate' (manager e)) (S (taken e)) (∅ ∪ broken e)) \/
  (exists addr k fate' b, let s := next_stream (manager e) in
    peer_addresses (manager e) !! to env = Some addr /\
    (b = ∅ /\ take k (frame_for env) = frame_for env \/ b = {[s]}) /\
    pump env fate e = mkEndpoint (with_tcp fate' (put_on s (take k (frame_for env)) (dial (to env) addr (manager e))))
      (S (taken e)) (b ∪ broken e)).
Proof.
  intros Hc. unfold pump, fate_of. rewrite Hc.
  destruct (send_unknown (to env) env (with_tcp fate (manager e))) as (o & nm' & -> & Hcase); [done|].
  destruct Hcase as [[fate' ->]|(addr & k & fate' & Ha & Ho & ->)]; [left|right].
  - exists fate'. simpl. rewrite Hc. by destruct o.
  - exists addr, k, fate'. simpl. rewrite lookup_insert_eq.
    destruct Ho as [[-> Hk]| ->]; eexists; split_and!; try done; auto.
Qed.

Lemma same_streams_with_tcp e fate m : same_streams e (mkEndpoint (with_tcp fate (manager e)) m (∅ ∪ broken e)).
Proof. split; try done; simpl; set_solver. Qed.

Lemma same_streams_broken e s m fate : s ∈ broken e ->
  same_streams e (mkEndpoint (with_tcp fate (put_on s [] (manager e))) m ({[s]} ∪ broken e)).
Proof.
  intros Hb. split; try done; simpl; [|set_solver..]. intros s'.
  destruct (decide (s' = s)) as [->|]; [rewrite lookup_alter_eq|by rewrite lookup_alter_ne].
  destruct (sent_on (manager e) !! s) as [old|]; simpl; [by rewrite app_nil_r|done].
Qed.

Lemma inv_pump F w name n e env fate : wire_inv route F w -> wire_nodes w !! name = Some n ->
  endpoints w !! name = Some e -> next_message n e = Some env -> sendable (payload_of env) ->
  exists F', F'.*2 ⊆+ F.*2 /\ wire_inv route F' (set_endpoint name (pump env fate e) w).
Proof.
  intros Hw Hn Hname Hnext Hsend. pose proof Hw as [Hcfg Hch He Hs _].
  destruct (Hch _ _ _ Hn Hname) as [_ Hplace]. unfold next_message in Hnext.
  rewrite (drop_S _ _ _ Hnext) in Hplace.
  destruct (take_first _ _ _ _ Hplace) as (F1 & Hperm & Hown & Hother).
  assert (streams_inv F1 w name e) as Hst.
  { split; [by eapply He|]. intros s. rewrite Hother by done. by apply Hs. }
  assert (F1.*2 ⊆+ F.*2) as Hsub by (rewrite Hperm; by apply submseteq_cons).
  assert (forall s, (F1 ++ [(Stream name s, env)]).*2 ⊆+ F.*2) as Hsub'.
  { intros s. rewrite Hperm, fmap_app. simpl. by rewrite (comm (++)). }
  assert (forall e', taken e' = S (taken e) -> streams_inv F1 w name e' -> exists F',
    F'.*2 ⊆+ F.*2 /\ wire_inv route F' (set_endpoint name e' w)) as Hlost.
  { intros e' Ht Hinv. exists F1. split; [done|]. apply (inv_taken F w name n e e' env F1); try done.
    - by rewrite Hown, Hplace.
    - intros q Hq _. by apply Hother. }
  assert (forall e' s, taken e' = S (taken e) -> streams_inv (F1 ++ [(Stream name s, env)]) w name e' ->
    exists F', F'.*2 ⊆+ F.*2 /\ wire_inv route F' (set_endpoint name e' w)) as Hmoved.
  { intros e' s Ht Hinv. eexists. split; [apply (Hsub' s)|].
    change [(Stream name s, env)] with ((Stream name s,.) <$> [env]) in *.
    apply (inv_taken F w name n e e' env _); try done.
    - by rewrite at_place_added, Hown, Hplace by done.
    - intros q Hq Hqs. rewrite at_place_added by auto. by apply Hother. }
  destruct (connections (manager e) !! to env) as [s|] eqn:Hc.
  - destruct (pump_known env fate e s Hc) as [[Hb ->]|(Hb & k & fate' & b & Hk & ->)].
    + apply Hlost; [done|]. eapply same_streams_inv; [by apply same_streams_broken|done].
    + apply (Hmoved _ s); [done|]. apply write_inv; try done; [by eapply ep_connections, Hc; apply Hst|set_solver..].
  - destruct (pump_unknown env fate e Hc) as [[fate' ->]|(addr & k & fate' & b & Ha & Hk & ->)].
    + apply Hlost; [done|]. eapply same_streams_inv; [apply same_streams_with_tcp|done].
    + destruct (dial_inv F1 w name e (to env) addr Hst Ha) as (Hst' & Hopen & Hnb).
      apply (Hmoved _ (next_stream (manager e))); [done|].
      apply (write_inv _ _ _ _ (S (taken e)) (b ∪ broken e) _ k env fate' Hst' Hopen Hnb); try done; set_solver.
Qed.
End sends.
