(* ===== verification/WireSim.v ===== *)
(** * The wire simulates the cluster

    Every step of the daemons with their sockets is an action of the cluster of Cluster.v,
    or none: the messages on the wire are among those the cluster has in flight. *)

From Stdlib Require Import Init.Byte.
From S2P Require Import Prelude Heapless Protocol Serde HashMap Log StateMachine Config Env.
From S2P Require Import Node NodeFacts Network NetworkProps Daemon Histories Cluster ClusterProps Wire WireFacts WireSends.
Local Open Scope N_scope.

(** Two clusters in which the same node makes the same round. *)
Definition same_sight (a : action) (c : cluster) (a' : action) (c' : cluster) : Prop :=
  nodes c = nodes c' /\
  match a, a' with
  | Receive i, Receive j => in_flight c !! i = in_flight c' !! j
  | Receive _, _ | _, Receive _ => False
  | _, _ => a = a'
  end.

(** The condition looks at the nodes and the message delivered only. *)
Definition judged_locally (allowed : action -> cluster -> bool) : Prop :=
  forall a a' c c', same_sight a c a' c' -> allowed a c = allowed a' c'.

Section simulation.
Context {E : Env} {EL : EnvLaws E} {JM : JsonBytes MessageEnvelope} {JL : JsonBytesLaws MessageEnvelope JM}.
Context (route : string -> option string).

(** ** The configuration of a process *)

Lemma main_network_fields cfg nm : let nm' := main_network cfg nm in
  connections nm' = connections nm /\ dialled nm' = dialled nm /\ sent_on nm' = sent_on nm /\
  next_stream nm' = next_stream nm /\
  forall peer addr, peer_addresses nm' !! peer = Some addr ->
    peer_addresses nm !! peer = Some addr \/
    exists p, p ∈ cfg_peers cfg /\ pc_id p = peer /\ pc_address p = addr.
Proof.
  unfold main_network, peer_registrations. induction (cfg_peers cfg) as [|p l IH] using rev_ind.
  - simpl. split_and!; try done. by left.
  - rewrite fmap_app, foldl_app. simpl. destruct IH as (Hc & Hd & Hs & Hn & Ha).
    split_and!; [done..|]. intros peer addr. destruct (decide (pc_id p = peer)) as [<-|Hne].
    + rewrite lookup_insert_eq. intros [= <-]. right. exists p. split_and!; [|done|done].
      apply elem_of_app. right. by apply list_elem_of_singleton.
    + rewrite lookup_insert_ne by done. intros [?|(q & Hq & ? & ?)]%Ha; [by left|right].
      exists q. split_and!; [|done|done]. apply elem_of_app. by left.
Qed.

Lemma main_network_addressed cfg nm peer addr : addressed route cfg -> peer_addresses nm = ∅ ->
  peer_addresses (main_network cfg nm) !! peer = Some addr -> routed route addr peer.
Proof.
  intros Hcfg Hnm Ha. destruct (main_network_fields cfg nm) as (_ & _ & _ & _ & Hall).
  apply Hall in Ha as [Ha|(p & Hp & <- & <-)].
  - by rewrite Hnm, lookup_empty in Ha.
  - unfold addressed in Hcfg. rewrite Forall_forall in Hcfg. by apply Hcfg.
Qed.

(** ** A restart *)

Lemma restart_fields n io now n' : restart n io now = Ok n' ->
  outgoing n' = outgoing n /\ config n' = config n.
Proof.
  unfold restart. destruct (RaftNode_new _ _ _) eqn:Hnew; intros [= <-].
  apply RaftNode_new_fields in Hnew as (Hc & _). done.
Qed.

Lemma unread_dropped e s name conn envs : unread_inv route e s conn envs ->
  unread_inv route e s (drop_reader name <$> conn) envs.
Proof. destruct conn as [[reader received buffer|]|]; simpl; try done. by case_decide. Qed.

(** The messages of a channel are gone. *)
Definition forget (p : place) (F : parcels) : parcels := filter (fun x => x.1 <> p) F.

Lemma at_place_forget p q F : at_place q (forget p F) = if decide (q = p) then [] else at_place q F.
Proof.
  unfold at_place, forget. induction F as [|[r env] F IH]; [by case_decide|].
  destruct (decide (r = p)) as [->|Hr].
  - rewrite (filter_cons_False (fun x => x.1 <> p)), IH by (simpl; auto). case_decide; [done|].
    by rewrite filter_cons_False.
  - rewrite (filter_cons_True (fun x => x.1 <> p)) by done. destruct (decide (r = q)) as [->|Hq].
    + rewrite !filter_cons_True, !fmap_cons, IH by done. by rewrite !decide_False.
    + rewrite !(filter_cons_False (fun x => x.1 = q)) by done. exact IH.
Qed.

Lemma forget_subset p F : (forget p F).*2 ⊆+ F.*2.
Proof.
  unfold forget. induction F as [|[r env] F IH]; [done|]. rewrite filter_cons. simpl.
  case_decide; simpl; [by apply submseteq_skip|by apply submseteq_cons].
Qed.

Lemma inv_reboot F w name n io now : wire_inv route F w -> wire_nodes w !! name = Some n ->
  exists F', F'.*2 ⊆+ F.*2 /\ wire_inv route F' (reboot name n io now w).
Proof.
  intros [Hcfg Hch He Hs Hsd] Hn. unfold reboot, enter. rewrite decide_False by done.
  assert (forall name' s reader received buffer,
    (drop_reader name <$> accepted w) !! (name', s) = Some (Reading reader received buffer) ->
    is_Some (endpoints w !! name')) as Hsd'.
  { intros name' s reader received buffer. rewrite lookup_fmap.
    destruct (accepted w !! (name', s)) as [[r k b|]|] eqn:Ha; simpl; try done. intros _. by eapply Hsd. }
  destruct (restart n io now) as [n'|e| | |] eqn:Hr.
  2-5: exists F; split; [done|]; split; simpl; [| |exact He| |exact Hsd'];
    [intros name' n' [_ ?]%lookup_delete_Some; by eapply Hcfg
    |intros name' n' e' [_ ?]%lookup_delete_Some; by apply Hch
    |intros name' e' s Hname; rewrite lookup_fmap; destruct (Hs _ _ s Hname); split; [done|];
      by apply unread_dropped].
  destruct (restart_fields _ _ _ _ Hr) as [Ho Hc]. exists (forget (Channel name) F).
  split; [apply forget_subset|]. split; simpl.
  - intros name' n1 [[<- <-]|[_ Hn1]]%lookup_insert_Some; [rewrite Hc|]; by eapply Hcfg.
  - intros name' n1 e1. rewrite at_place_forget. destruct (decide (name' = name)) as [->|Hne].
    + rewrite lookup_insert_eq, lookup_alter_eq, decide_True by done. intros [= <-].
      intros (e & Hname & ->)%fmap_Some. unfold channel_inv; simpl. by rewrite drop_all.
    + rewrite lookup_insert_ne, lookup_alter_ne, decide_False by congruence. apply Hch.
  - intros name' e1. destruct (decide (name' = name)) as [->|Hne].
    2: { rewrite lookup_alter_ne by done. apply He. }
    rewrite lookup_alter_eq. intros (e & Hname & ->)%fmap_Some. destruct (He _ _ Hname) as [Ha Hco Hd Hw Hb].
    destruct (main_network_fields (config n)
      (mkNetwork ∅ ∅ (dialled (manager e)) (sent_on (manager e)) (next_stream (manager e)) []))
      as (Hc' & Hd' & Hs' & Hn' & _).
    unfold restart_network. split; simpl; rewrite ?Hc', ?Hd', ?Hs', ?Hn'; try done.
    intros peer addr. apply main_network_addressed; [by eapply Hcfg|done].
  - intros name' e1 s. rewrite at_place_forget, decide_False, lookup_fmap by done.
    destruct (decide (name' = name)) as [->|Hne].
    2: { rewrite lookup_alter_ne by done. intros Hname. destruct (Hs _ _ s Hname). split; [done|].
         by apply unread_dropped. }
    rewrite lookup_alter_eq. intros (e & Hname & ->)%fmap_Some.
    destruct (main_network_fields (config n)
      (mkNetwork ∅ ∅ (dialled (manager e)) (sent_on (manager e)) (next_stream (manager e)) []))
      as (_ & Hd' & Hs' & _ & _).
    apply (stream_mono route e); [by unfold restart_network; simpl; rewrite Hd'| |done|].
    + unfold written, restart_network. simpl. by rewrite Hs'.
    + destruct (Hs _ _ s Hname). split; [done|]. by apply unread_dropped.
  - intros name' s reader received buffer Hread. apply Hsd' in Hread as [e Hname].
    destruct (decide (name' = name)) as [->|Hne]; [rewrite lookup_alter_eq, Hname|rewrite lookup_alter_ne by done];
      by eexists.
Qed.

(** ** A frame is handled *)

(** The frame at the head of a buffer is the first message of the stream, and it is the
    reader's. *)
Lemma inv_served F w name s reader received buffer payload rest : wire_inv route F w ->
  accepted w !! (name, s) = Some (Reading reader received buffer) ->
  cut_frame buffer = Frame payload rest ->
  exists env F', payload = payload_of env /\ to env = reader /\ F.*2 ≡ₚ env :: F'.*2 /\
    forall conn, conn = Closed \/ conn = Reading reader received rest ->
      wire_inv route F' (set_connection (name, s) conn w).
Proof.
  intros Hw Hread Hcut. pose proof Hw as [Hcfg Hch He Hs Hsd].
  destruct (Hsd _ _ _ _ _ Hread) as [e Hname]. destruct (Hs _ _ s Hname) as [Hm Hu].
  rewrite Hread in Hu. destruct Hu as (Hle & (addr & Hd & Hr) & cut & Heq & Hfull).
  rewrite <-(assoc_L (++)) in Heq.
  assert (Forall sendable (payload_of <$> at_place (Stream name s) F)) as Hsend.
  { apply Forall_fmap. eapply Forall_impl; [exact Hm|]. by intros env []. }
  destruct (cut_beginning _ _ _ _ _ Heq Hsend Hcut) as (ps & Hps & Hbuf).
  destruct (at_place (Stream name s) F) as [|env envs] eqn:Hplace; [done|].
  injection Hps as Hp Hps. apply Forall_cons in Hm as [(_ & addr' & Hd' & Hr') Hm].
  destruct (take_first _ _ _ _ Hplace) as (F' & Hperm & Hown & Hother).
  exists env, F'. split_and!; [done| |done|].
  { symmetry. apply Hr'. congruence. }
  intros conn Hconn.
  assert (wire_inv route F' (set_connection (name, s) Closed w)) as [Hcfg1 Hch1 He1 Hs1 Hsd1].
  { split; simpl; [exact Hcfg| |exact He|..].
    - intros name' n e' Hn Hname'. rewrite Hother by done. by apply Hch.
    - intros name' e' s' Hname'. destruct (decide ((name', s') = (name, s))) as [[= -> ->]|Hne].
      + rewrite lookup_insert_eq, Hown. assert (e' = e) as -> by congruence. by split.
      + rewrite lookup_insert_ne, Hother by congruence. by apply Hs.
    - intros name' s' r k b. destruct (decide ((name', s') = (name, s))) as [[= -> ->]|Hne].
      + by rewrite lookup_insert_eq.
      + rewrite lookup_insert_ne by done. apply Hsd. }
  destruct Hconn as [->| ->]; [by split|].
  assert (set_connection (name, s) (Reading reader received rest) w =
    set_connection (name, s) (Reading reader received rest) (set_connection (name, s) Closed w)) as ->.
  { unfold set_connection. simpl. by rewrite insert_insert_eq. }
  apply (inv_connection route); [by split| |by right; exists e].
  intros e' Hname'. simpl in Hname'. assert (e' = e) as -> by congruence. rewrite Hown. split_and!; [done|by exists addr|].
  exists cut. split; [|done]. subst buffer. rewrite fmap_cons, Hp, stream_of_cons, <-!(assoc_L (++)) in Heq.
  apply app_inv_head in Heq. by rewrite <-(assoc_L (++)).
Qed.

(** ** The simulation *)

Definition simulates (w : wire) (c : cluster) : Prop :=
  nodes c = wire_nodes w /\ exists F, F.*2 ⊆+ in_flight c /\ wire_inv route F w.

Lemma take_off_perm i env c : in_flight c !! i = Some env ->
  in_flight c ≡ₚ env :: in_flight (take_off i c).
Proof.
  intros Hi. rewrite <-(take_drop_middle _ _ _ Hi) at 1. simpl. by rewrite Permutation_middle.
Qed.

(** A round of a node of both. *)
Lemma simulates_round F w c name n ev : nodes c = wire_nodes w -> F.*2 ⊆+ in_flight c ->
  wire_inv route F w -> wire_nodes w !! name = Some n ->
  simulates (set_node name (run_event ev n).2 w) (node_event name ev c).
Proof.
  intros Hnodes Hsub Hw Hn. unfold node_event. rewrite Hnodes, Hn. split; simpl; [done|].
  eexists. split; [|eapply inv_node; [exact Hw|exact Hn|apply histories_grow_event]].
  rewrite fmap_app, tagged_messages. by apply submseteq_app.
Qed.

Context (allowed : action -> cluster -> bool) (local : judged_locally allowed).

Lemma simulates_serve w c name s : simulates w c ->
  wire_allowed allowed (Serve name s) w = true ->
  exists c', rtc (cluster_step allowed) c c' /\ simulates (exec_wire route (Serve name s) w) c'.
Proof.
  intros [Hnodes (F & Hsub & Hw)] Hallowed. simpl exec_wire.
  assert (simulates w c) as Hstay by (split; [done|by exists F]).
  destruct (accepted w !! (name, s)) as [[reader received buffer|]|] eqn:Hread; [|by exists c..].
  unfold wire_allowed in Hallowed. simpl in Hallowed. rewrite Hread in Hallowed.
  destruct (alive reader w); [|by exists c].
  unfold serve_frame. destruct (cut_frame buffer) as [| |payload rest] eqn:Hcut; [by exists c| |].
  { exists c. split; [done|]. split; [done|]. exists F. split; [done|].
    apply inv_connection; [done|done|by left]. }
  destruct (inv_served F w name s reader received buffer payload rest Hw Hread Hcut)
    as (env & F' & -> & Hto & Hperm & Hserved).
  destruct (wire_nodes w !! reader) as [n|] eqn:Hn; [|by exists c].
  rewrite (from_slice_to_vec _ _ (to_vec_payload env)) in Hallowed. simpl in Hallowed.
  unfold handle_payload. rewrite (from_slice_to_vec _ _ (to_vec_payload env)).
  assert (env ∈ in_flight c) as [i Hi]%list_elem_of_lookup_1.
  { eapply elem_of_submseteq; [|exact Hsub]. rewrite Hperm. left. }
  exists (exec_action (Receive i) c). split.
  { apply rtc_once. exists (Receive i). split; [|done]. rewrite <-Hallowed. apply local. by split. }
  simpl exec_action. rewrite Hi, Hto. set (ev := Deliver env).
  assert (exists o, log_error (handle_message env) n = (o, (run_event ev n).2)) as [o ->].
  { unfold log_error, ev; simpl. destruct (handle_message env n) as [[] ?]; by eexists. }
  set (conn := match o with Ok _ => Reading reader received rest | _ => Closed end).
  change (simulates (set_node reader (run_event ev n).2 (set_connection (name, s) conn w))
    (node_event reader ev (take_off i c))).
  apply (simulates_round F'); [done| |apply Hserved; subst conn; destruct o; auto|done].
  rewrite Hperm, (take_off_perm i env c Hi) in Hsub. by apply (submseteq_app_inv_l _ _ [env]).
Qed.

(** A turn of the network task. *)
Lemma simulates_pump w c name fate : simulates w c -> pump_fits (Pump name fate) w = true ->
  simulates (exec_wire route (Pump name fate) w) c.
Proof.
  intros Hstay Hfits. pose proof Hstay as [Hnodes (F & Hsub & Hw)].
  simpl in *. destruct (wire_nodes w !! name) as [n|] eqn:Hn; [|done].
  destruct (endpoints w !! name) as [e|] eqn:He; [|done].
  destruct (next_message n e) as [env|] eqn:Hnext; [|done]. simpl in Hfits.
  destruct (listening name w); [|done].
  rewrite to_vec_payload in Hfits. apply N.leb_le in Hfits.
  destruct (inv_pump route F w name n e env fate Hw Hn He Hnext Hfits) as (F' & Hsub' & Hw').
  split; [done|]. exists F'. split; [by etransitivity|done].
Qed.

(** The process is bound, or has ended. *)
Lemma simulates_enter w c p name : simulates w c -> simulates (enter p name w) c.
Proof.
  intros [Hnodes (F & Hsub & [Hcfg Hch He Hs Hsd])]. split; [done|]. exists F. split; [done|].
  split; simpl; [exact Hcfg|exact Hch|exact He|..]; case_decide; try done.
  - intros name' e s Hname. rewrite lookup_fmap. destruct (Hs _ _ s Hname). split; [done|].
    by apply unread_dropped.
  - intros name' s reader received buffer. rewrite lookup_fmap.
    destruct (accepted w !! (name', s)) as [[r k b|]|] eqn:Ha; simpl; try done. intros _. by eapply Hsd.
Qed.

(** The steps of the connections. *)
Lemma simulates_connection w c key conn : simulates w c ->
  (forall F e, wire_inv route F w -> endpoints w !! key.1 = Some e ->
    unread_inv route e key.2 (Some conn) (at_place (Stream key.1 key.2) F)) ->
  conn = Closed \/ is_Some (endpoints w !! key.1) -> simulates (set_connection key conn w) c.
Proof.
  destruct key as [name s]. intros [Hnodes (F & Hsub & Hw)] Hconn Hsome.
  split; [done|]. exists F. split; [done|]. apply inv_connection; [done|by intros; apply Hconn|done].
Qed.

Lemma simulates_accept w c name s : simulates w c -> simulates (exec_wire route (Accept name s) w) c.
Proof.
  intros Hsim. simpl. destruct (endpoints w !! name) as [e|] eqn:He; [|done]. simpl.
  destruct (dialled (manager e) !! s) as [addr|] eqn:Hd; [|done].
  destruct (accepted w !! (name, s)) eqn:Ha; [done|]. destruct (route addr) as [reader|] eqn:Hr; [|done].
  destruct (listening reader w); [|done].
  apply simulates_connection; [done| |by right; exists e]. intros F e' Hw He'. simpl in *.
  assert (e' = e) as -> by congruence. destruct (wi_stream _ _ _ Hw _ _ s He) as [_ Hu].
  rewrite Ha in Hu. split_and!; [lia|by exists addr|done].
Qed.

Lemma simulates_read w c name s k : simulates w c -> simulates (exec_wire route (Read name s k) w) c.
Proof.
  intros Hsim. simpl. destruct (endpoints w !! name) as [e|] eqn:He; [|done].
  destruct (accepted w !! (name, s)) as [[reader received buffer|]|] eqn:Ha; [|done..].
  destruct (cut_frame buffer); [|done..]. destruct (alive reader w); [simpl|done].
  apply simulates_connection; [done| |by right; exists e]. intros F e' Hw He'. simpl in He'.
  assert (e' = e) as -> by congruence. destruct (wi_stream _ _ _ Hw _ _ s He) as [_ Hu].
  rewrite Ha in Hu. by apply unread_read.
Qed.

(** Every step of the wire is matched by the cluster. *)
Lemma wire_simulated a w c : simulates w c -> wire_allowed allowed a w = true ->
  exists c', rtc (cluster_step allowed) c c' /\ simulates (exec_wire route a w) c'.
Proof.
  intros Hsim Hallowed. pose proof Hsim as [Hnodes (F & Hsub & Hw)].
  assert (forall a' cv, view a w = Some (a', cv) -> same_sight a' cv a' c ->
    rtc (cluster_step allowed) c (exec_action a' c)) as Hstep.
  { intros a' cv Hview Hsight. apply rtc_once. exists a'. split; [|done].
    unfold wire_allowed in Hallowed. rewrite Hview in Hallowed. apply andb_prop in Hallowed as [_ Ha].
    rewrite <-Ha. symmetry. by apply local. }
  destruct a as [name ok|name|name ev|name fate|name s|name s k|name s|name s|name now|name io now].
  - exists c. split; [done|]. simpl. case_match; [|done]. by apply simulates_enter.
  - exists c. split; [done|]. simpl. case_match; [|done]. by apply simulates_enter.
  - simpl exec_wire. destruct (wire_nodes w !! name) as [n|] eqn:Hn; [|by exists c].
    destruct (local_event ev && alive name w) eqn:Hact; [|by exists c].
    apply andb_prop in Hact as [Hlocal _].
    exists (exec_action (Act name ev) c). split; [by eapply Hstep|]. simpl. rewrite Hlocal.
    by eapply simulates_round.
  - exists c. split; [done|]. apply simulates_pump; [done|]. by apply andb_prop in Hallowed as [].
  - exists c. split; [done|]. by apply simulates_accept.
  - exists c. split; [done|]. by apply simulates_read.
  - by apply simulates_serve.
  - exists c. split; [done|]. apply simulates_connection; [done|done|by left].
  - exists (exec_action (Elapse name now) c). split; [by eapply Hstep|]. simpl. rewrite Hnodes.
    destruct (wire_nodes w !! name) as [n|] eqn:Hn; [|done]. case_match; [|done].
    split; simpl; [done|]. exists (F ++ ((Channel name,.) <$> sent_since n (with_clock now n))).
    split; [|by apply inv_node]. unfold sent_since. rewrite drop_all. simpl. by rewrite app_nil_r.
  - exists (exec_action (Crash name io now) c). split; [by eapply Hstep|]. simpl. rewrite Hnodes.
    destruct (wire_nodes w !! name) as [n|] eqn:Hn; [|done].
    destruct (inv_reboot F w name n io now Hw Hn) as (F' & Hsub' & Hw').
    split; [unfold reboot; by destruct (restart n io now)|]. exists F'. split; [|done].
    destruct (restart n io now); simpl; by etransitivity.
Qed.

Lemma wire_simulated_run w w' c : rtc (wire_step route allowed) w w' -> simulates w c ->
  exists c', rtc (cluster_step allowed) c c' /\ simulates w' c'.
Proof.
  intros Hrun. revert c. induction Hrun as [w|w w1 w2 (a & Ha & ->) _ IH]; intros c Hsim; [by exists c|].
  destruct (wire_simulated a w c Hsim Ha) as (c1 & Hstep & Hsim1).
  destruct (IH c1 Hsim1) as (c2 & Hsteps & Hsim2). exists c2. split; [by etransitivity|done].
Qed.

(** ** The start *)

Lemma start_simulates cfgs : Forall (addressed route) cfgs ->
  simulates (start_wire cfgs) (start_cluster cfgs).
Proof.
  intros Haddr. split; [done|]. exists []. split; [done|]. rewrite Forall_forall in Haddr.
  assert (forall name e, endpoints (start_wire cfgs) !! name = Some e -> exists cfg,
    cfg ∈ cfgs /\ e = new_endpoint cfg) as Hends.
  { intros name e (cfg & [= -> ->] & Hcfg)%elem_of_list_to_map_2%list_elem_of_fmap. by exists cfg. }
  split.
  - intros name n (cfg & Hcfg & _ & Hnew)%start_nodes.
    apply RaftNode_new_fields in Hnew as (-> & _). by apply Haddr.
  - intros name n e (cfg & _ & _ & Hnew)%start_nodes (cfg' & _ & ->)%Hends.
    apply RaftNode_new_fields in Hnew as (_ & _ & _ & _ & Ho & _). unfold channel_inv. by rewrite Ho.
  - intros name e (cfg & Hcfg & ->)%Hends.
    destruct (main_network_fields cfg (NetworkManager_new [])) as (Hc & Hd & Hs & Hn & _).
    split; simpl; rewrite ?Hc, ?Hd, ?Hs, ?Hn; try (by intros * []); try done.
    intros peer addr. apply main_network_addressed; [by apply Haddr|done].
  - intros name e s (cfg & Hcfg & ->)%Hends. split; [done|]. simpl.
    destruct (main_network_fields cfg (NetworkManager_new [])) as (_ & _ & Hs & _).
    exists []. unfold written. simpl. by rewrite Hs.
  - done.
Qed.
End simulation.
