(* ===== verification/Copies.v ===== *)
(** * What a round does to the log, and what it sends of it

    [writes n n'] holds of every program but those of an accepted request and of a
    proposal: the log stays the same sequence of entries, and every [AppendEntries] sent on
    the way copies it, in the name of the leader of the term. *)

From S2P Require Import Prelude Heapless Protocol Serde HashMap Log LogFacts StateMachine.
From S2P Require Import Config Env LogProps Node NodeFacts Sample Daemon Votes Rounds Follower.
From S2P Require Import Leader Members.
Local Open Scope N_scope.

(** The request carries the entries that follow the first [prev_log_index] of [es]; where
    there is no such entry, it carries nothing. *)
Record copies (es : list LogEntry) (req : AppendEntriesRequest) : Prop := {
  cop_entries : exists k, ae_entries req = take k (drop (N.to_nat (prev_log_index req)) es);
  cop_prev e : lookup1 es (prev_log_index req) = Some e -> prev_log_term req = term e;
}.

Definition not_append (env : MessageEnvelope) : Prop :=
  match message env with AppendEntries _ => False | _ => True end.

Section copies.
Context {E : Env} {EL : EnvLaws E}.

(** A message of a leader that stays one. *)
Definition heralds (n : RaftNode) (env : MessageEnvelope) : Prop :=
  forall req, message env = AppendEntries req -> role n = Leader /\ ae_term req = node_term n /\
    forall es, log_inv (log n) es -> copies es req.

Definition keeps_log (n n' : RaftNode) : Prop := forall es, log_inv (log n) es -> log_inv (log n') es.

Definition sends (P : MessageEnvelope -> Prop) (n n' : RaftNode) : Prop :=
  exists new, outgoing n' = outgoing n ++ new /\ Forall P new.

Definition silent (n n' : RaftNode) : Prop := keeps_log n n' /\ sends not_append n n'.
Definition writes (n n' : RaftNode) : Prop := keeps_log n n' /\ sends (heralds n') n n'.

#[export] Instance silent_preorder : PreOrder silent.
Proof.
  split.
  - intros n. split; [by intros es|]. exists []. by rewrite app_nil_r.
  - intros n1 n2 n3 [Hl12 (m1 & Ho1 & H1)] [Hl23 (m2 & Ho2 & H2)]. split; [intros es; auto|].
    exists (m1 ++ m2). split; [by rewrite Ho2, Ho1, (assoc_L (++))|by apply Forall_app].
Qed.

Lemma silent_writes n1 n2 n3 : silent n1 n2 -> writes n2 n3 -> writes n1 n3.
Proof.
  intros [Hl12 (m1 & Ho1 & H1)] [Hl23 (m2 & Ho2 & H2)]. split; [intros es; auto|].
  exists (m1 ++ m2). split; [by rewrite Ho2, Ho1, (assoc_L (++))|].
  apply Forall_app. split; [|done]. eapply Forall_impl; [exact H1|]. intros env Hn req Hm.
  unfold not_append in Hn. by rewrite Hm in Hn.
Qed.

Lemma writes_refl n : writes n n.
Proof. split; [by intros es|]. exists []. by rewrite app_nil_r. Qed.

Lemma writes_silent n n' : silent n n' -> writes n n'.
Proof. intros H. eapply silent_writes; [done|apply writes_refl]. Qed.

Lemma silent_same n n' : log n' = log n -> outgoing n' = outgoing n -> silent n n'.
Proof.
  intros Hl Ho. split; [intros es; by rewrite Hl|]. exists []. by rewrite Ho, app_nil_r.
Qed.

Lemma silent_guard n b : silent n (with_log_guard b n).
Proof. by apply silent_same. Qed.
Hint Resolve silent_guard : raft.

Ltac silent_steps := node_steps; try (by repeat case_decide; apply silent_same).

Lemma writes_bind {A B} (m : M RaftNode A) (k : A -> M RaftNode B) : steps_in silent m ->
  (forall a, steps_in writes (k a)) -> steps_in writes (bind m k).
Proof.
  intros Hm Hk n. unfold bind. specialize (Hm n).
  destruct (m n) as [[a| | | |] n1]; simpl in *; try by apply writes_silent.
  eapply silent_writes; [done|apply Hk].
Qed.

Lemma writes_scope {A} (body : M RaftNode A) : steps_in writes body -> steps_in writes (scope_log body).
Proof.
  intros Hb n. destruct (log_guard n) eqn:Hg; [rewrite scope_log_held by done; apply writes_refl|].
  rewrite scope_log_free by done. pose proof (Hb (with_log_guard true n)) as Hw.
  assert (writes n (body (with_log_guard true n)).2) as [Hl Hs]
    by (eapply silent_writes; [apply silent_guard|done]).
  destruct (body _) as [[] n']; done.
Qed.

Lemma writes_of {A} (m : M RaftNode A) : steps_in silent m -> steps_in writes m.
Proof. apply steps_in_mono, writes_silent. Qed.

(** ** The programs that leave the entries *)

Lemma silent_set_term t : steps_in silent (on_log (set_current_term t)).
Proof.
  intros n. split.
  - intros es Hes. by destruct (set_term_ok n es t Hes) as (l & -> & ? & _).
  - exists []. rewrite app_nil_r. split; [|done]. unfold on_log, zoom. by destruct (set_current_term t _).
Qed.

Lemma silent_set_vote c : steps_in silent (on_log (set_voted_for c)).
Proof.
  intros n. unfold on_log, zoom. destruct (set_voted_for c (log n)) as [o l] eqn:Hrun. split.
  - intros es Hes. destruct (set_voted_for_inv (log n) es c Hes) as (l' & Hrun' & Hinv & _).
    simpl. congruence.
  - exists []. by rewrite app_nil_r.
Qed.
Hint Resolve silent_set_term silent_set_vote : raft.

Lemma silent_send env : not_append env -> steps_in silent (send env).
Proof.
  intros Henv. apply steps_in_modify. intros n. split; [by intros es|].
  exists [env]. split; [done|]. by apply Forall_singleton.
Qed.

Lemma silent_append_response to t b : steps_in silent (send_append_entries_response to t b).
Proof. unfold send_append_entries_response. silent_steps. by apply silent_send. Qed.

Lemma silent_vote_response to t b : steps_in silent (send_request_vote_response to t b).
Proof. unfold send_request_vote_response. silent_steps. by apply silent_send. Qed.
Hint Resolve silent_append_response silent_vote_response : raft.

Lemma silent_apply : steps_in silent apply_committed_entries.
Proof.
  assert (forall fuel commit, steps_in silent (apply_loop fuel commit)).
  { intros fuel commit. induction fuel; simpl; unfold apply_entry; silent_steps. }
  unfold apply_committed_entries. silent_steps.
Qed.
Hint Resolve silent_apply : raft.

Lemma silent_try_advance : steps_in silent try_advance_commit_index.
Proof.
  assert (forall t m ns, steps_in silent (advance_loop t m ns)).
  { intros t m ns. induction ns; simpl; unfold notify_pending_requests, notify_one, respond; silent_steps. }
  unfold try_advance_commit_index. silent_steps.
Qed.
Hint Resolve silent_try_advance : raft.

Lemma silent_response from resp : steps_in silent (handle_append_entries_response from resp).
Proof. unfold handle_append_entries_response, set_role. silent_steps. Qed.

Lemma silent_request_vote from req : steps_in silent (handle_request_vote from req).
Proof. unfold handle_request_vote, set_role, reset_heartbeat, when. silent_steps. Qed.

(** ** The programs that send entries *)

Lemma log_inv_unique l es es' : log_inv l es -> log_inv l es' -> es = es'.
Proof.
  intros [Hr _ _ _] [Hr' _ _ _]. apply list_eq. intros k.
  by rewrite <-!lookup1_S, <-(repr_entries _ _ Hr), <-(repr_entries _ _ Hr').
Qed.

Lemma heartbeat_heralds n peer : role n = Leader -> exists env, heralds n env /\
  forall n', heartbeat_to n peer n' = (Ok tt, with_outgoing (outgoing n' ++ [env]) n').
Proof.
  intros Hrole. unfold heartbeat_to. rewrite vec_from_iter_fits by (rewrite length_take; lia).
  eexists. split; [|done]. intros req [= <-]. split_and!; [done..|]. intros es Hes. split; simpl.
  - exists MAX_ENTRIES. by rewrite (get_entries_from _ _ _ (inv_repr _ _ Hes)).
  - intros e He. by rewrite (repr_term_at _ _ _ (inv_repr _ _ Hes)), He.
Qed.

Lemma heartbeats_herald n ps n' : role n = Leader -> exists envs, Forall (heralds n) envs /\
  for_each ps (heartbeat_to n) n' = (Ok tt, with_outgoing (outgoing n' ++ envs) n').
Proof.
  intros Hrole. revert n'. induction ps as [|peer ps IH]; intros n'.
  - exists []. split; [done|]. rewrite app_nil_r. by destruct n'.
  - destruct (heartbeat_heralds n peer Hrole) as (env & Henv & Hrun).
    destruct (IH (with_outgoing (outgoing n' ++ [env]) n')) as (envs & Henvs & Hrun').
    exists (env :: envs). split; [by constructor|]. simpl. rewrite (bind_run _ _ _ _ _ (Hrun n')), Hrun'.
    simpl. by rewrite <-(assoc_L (++)).
Qed.

Lemma writes_heartbeats : steps_in writes send_heartbeats.
Proof.
  intros n. unfold send_heartbeats. rewrite bind_gets. case_decide as Hrole; [apply writes_refl|].
  assert (role n = Leader) as Hlead by by destruct (role n).
  destruct (log_guard n) eqn:Hg; [rewrite scope_log_held by done; apply writes_refl|].
  rewrite scope_log_free by done. rewrite bind_gets.
  destruct (heartbeats_herald (with_log_guard true n) (hash_keys (peers (with_log_guard true n)))
    (with_log_guard true n) Hlead) as (envs & Henvs & ->).
  split; [by intros es|]. by exists envs.
Qed.
Hint Resolve writes_heartbeats : raft.

Ltac writes_steps :=
  repeat first
    [ solve [auto with raft]
    | solve [apply writes_of; silent_steps]
    | simple apply writes_scope
    | simple apply writes_bind; [solve [silent_steps]|intros]
    | lazymatch goal with |- steps_in _ _ => case_match end ].

Lemma writes_become_leader : steps_in writes become_leader.
Proof. unfold become_leader, set_role, init_peer. writes_steps. Qed.
Hint Resolve writes_become_leader : raft.

Lemma writes_vote_response from resp : steps_in writes (handle_request_vote_response from resp).
Proof.
  unfold handle_request_vote_response, set_role, when. writes_steps.
Qed.

Lemma writes_election : steps_in writes start_election.
Proof.
  assert (forall a b r, steps_in silent (send (MessageEnvelope_new a b (RequestVote r))))
    by (intros; by apply silent_send).
  unfold start_election, set_role, reset_heartbeat, when. writes_steps.
Qed.

(** ** The programs that change the entries *)

Lemma propose_log n es c tx : log_inv (log n) es -> wf_command c -> N.of_nat (length es) < u64_max ->
  let n' := (propose c tx n).2 in
  writes n n' \/ role n = Leader /\ log_inv (log n') (spec_append es (node_term n) c) /\
    sends (heralds n') n n' /\ role n' = Leader /\ node_term n' = node_term n.
Proof.
  intros Hes Hc Hmax n'. subst n'. unfold propose. rewrite bind_gets.
  case_decide as Hrole; [left; apply writes_of; unfold respond; silent_steps|].
  assert (role n = Leader) as Hlead by by destruct (role n).
  destruct (log_guard n) eqn:Hg.
  { left. rewrite (bind_run_blocked _ _ _ _ (scope_log_held _ _ Hg)). apply writes_refl. }
  right. pose proof (repr_last _ _ (inv_repr _ _ Hes)) as Hlast.
  destruct (append_inv (log n) es (node_term n) c Hes Hc) as (l & Hrun & Hinv & Hp); [by rewrite Hlast|].
  erewrite bind_run; [|apply scope_log_Ok; [done|]; rewrite bind_gets; unfold on_log, zoom;
    change (log (with_log_guard true n)) with (log n);
    change (node_term (with_log_guard true n)) with (node_term n); by rewrite Hrun].
  rewrite bind_modify. match goal with |- context [send_heartbeats ?m] => set (n1 := m) end.
  destruct (writes_heartbeats n1) as [Hl Hs]. pose proof (Hl _ Hinv) as Hinv'.
  pose proof (same_votes_heartbeats n1) as [[Hp' _] _].
  assert (role (send_heartbeats n1).2 = Leader) as Hrole'.
  { unfold send_heartbeats. rewrite bind_gets, decide_False by naive_solver.
    rewrite scope_log_free by done. rewrite bind_gets.
    by destruct (heartbeats_herald (with_log_guard true n1) (hash_keys (peers (with_log_guard true n1)))
      (with_log_guard true n1) Hlead) as (envs & _ & ->). }
  split_and!; [done|done|done|done|]. unfold node_term, log_current_term. rewrite <-Hp'.
  change (current_term (persistent_state l) = current_term (persistent_state (log n))). by rewrite Hp.
Qed.

(** Only the messages, for the handler that changes the entries. *)
#[export] Instance mute_preorder : PreOrder (sends not_append).
Proof.
  split; [intros n; exists []; by rewrite app_nil_r|].
  intros n1 n2 n3 (m1 & Ho1 & H1) (m2 & Ho2 & H2). exists (m1 ++ m2).
  split; [by rewrite Ho2, Ho1, (assoc_L (++))|by apply Forall_app].
Qed.

Lemma mute_append_entries from req : steps_in (sends not_append) (handle_append_entries from req).
Proof.
  assert (forall A (m : M RaftNode A), steps_in silent m -> steps_in (sends not_append) m) as Hsilent.
  { intros A m. apply steps_in_mono. by intros s s' [_ Hs]. }
  assert (forall n n', outgoing n' = outgoing n -> sends not_append n n') as Hsame.
  { intros n n' Ho. exists []. by rewrite Ho, app_nil_r. }
  assert (forall A (m : M RaftLog A), steps_in (sends not_append) (on_log m)) as Hlog.
  { intros A m n. apply Hsame. unfold on_log, zoom. by destruct (m (log n)). }
  pose proof silent_apply. pose proof silent_append_response.
  unfold handle_append_entries, set_role, reset_heartbeat, update_commit_index, when.
  node_steps; by apply Hsame.
Qed.

(** What follows the entries in the handler. *)
Lemma silent_finish lc to t b : steps_in silent (update_commit_index lc ;;; drop_log ;;;
  apply_committed_entries ;;; send_append_entries_response to t b)%raft.
Proof. unfold update_commit_index, when. silent_steps. Qed.

Lemma same_votes_finish lc to t b : steps_in same_votes (update_commit_index lc ;;; drop_log ;;;
  apply_committed_entries ;;; send_append_entries_response to t b)%raft.
Proof.
  pose proof same_votes_guard. pose proof same_votes_apply.
  pose proof (same_votes_append_response to t b). pose proof (same_votes_update_commit lc).
  node_steps.
Qed.

(** How the entries of a node can change when it handles a request. *)
Definition took (es : list LogEntry) (req : AppendEntriesRequest) (t : N) (n' : RaftNode) : Prop :=
  exists es', log_inv (log n') es' /\
    (es' = es \/ t <= ae_term req /\ node_term n' = ae_term req /\
       matches es (N.to_nat (prev_log_index req)) (prev_log_term req) /\
       es' = follower_log es (N.to_nat (prev_log_index req)) (ae_entries req)).

Lemma took_silent es req t n n' : log_inv (log n) es -> silent n n' -> took es req t n'.
Proof. intros Hes [Hl _]. exists es. split; [by apply Hl|by left]. Qed.

Lemma append_entries_log n es from req : log_inv (log n) es -> Forall wf_entry (ae_entries req) ->
  consecutive (N.to_nat (prev_log_index req)) (ae_entries req) ->
  took es req (node_term n) (handle_append_entries from req n).2.
Proof.
  intros Hes Hwf Hc. destruct (log_guard n) eqn:Hg.
  { unfold handle_append_entries. rewrite scope_log_held by done. exists es. split; [done|by left]. }
  apply (keeps_scope_at (took es req (node_term n))); [done|exists es; split; [done|by left]|].
  set (ng := with_log_guard true n). rewrite bind_gets. change (node_term ng) with (node_term n).
  case_match eqn:Ht; [by apply (took_silent _ _ _ ng); [|apply silent_append_response]|].
  apply N.ltb_ge in Ht.
  destruct (adopt_term_ok ng es (ae_term req)) as (l1 & Hrun1 & Hinv1 & Hp1); [done..|].
  change (node_term ng) with (node_term n) in *. rewrite (bind_run _ _ _ _ _ Hrun1).
  unfold reset_heartbeat. rewrite !bind_modify, bind_gets. cbv beta.
  match goal with |- context [has_entry (log ?m)] => set (n1 := m) end. change (log n1) with l1.
  assert (log_current_term l1 = ae_term req) as Hterm1.
  { unfold log_current_term. rewrite Hp1. case_match eqn:Hlt; [done|]. apply N.ltb_ge in Hlt.
    by apply N.le_antisymm. }
  destruct ((0 <? prev_log_index req) && _) eqn:Hm.
  { rewrite bind_gets. by apply (took_silent _ _ _ n1); [|apply silent_append_response]. }
  rewrite <-(N2Nat.id (prev_log_index req)) in Hm.
  apply (matches_has_entry l1 es _ _ (inv_repr _ _ Hinv1)) in Hm.
  destruct (store_ok n1 es (N.to_nat (prev_log_index req)) (ae_entries req))
    as (l2 & Hrun2 & Hinv2 & Hp2); [done|done|by eapply matches_length|done|].
  rewrite (bind_run _ _ _ _ _ Hrun2).
  destruct (silent_finish (leader_commit req) from (node_term n) true (with_log l2 n1)) as [Hl _].
  destruct (same_votes_finish (leader_commit req) from (node_term n) true (with_log l2 n1)) as [[Hp _] _].
  eexists. split; [by apply Hl|right]. split_and!; [done| |done|done].
  transitivity (log_current_term (log (with_log l2 n1))).
  - unfold node_term, log_current_term. f_equal. symmetry. exact Hp.
  - unfold log_current_term. simpl. by rewrite Hp2.
Qed.

(** ** A round *)

Definition valid_round (es : list LogEntry) (ev : event) : Prop :=
  match ev with
  | Deliver env => forall req, message env = AppendEntries req -> Forall wf_entry (ae_entries req) /\
      consecutive (N.to_nat (prev_log_index req)) (ae_entries req)
  | Propose c _ => wf_command c /\ N.of_nat (length es) < u64_max
  | _ => True
  end.

(** The round took the entries of a request. *)
Definition accepts (n : RaftNode) (es : list LogEntry) (ev : event) (n' : RaftNode) (es' : list LogEntry) : Prop :=
  exists env req, ev = Deliver env /\ message env = AppendEntries req /\
    node_term n <= ae_term req /\ node_term n' = ae_term req /\
    matches es (N.to_nat (prev_log_index req)) (prev_log_term req) /\
    es' = follower_log es (N.to_nat (prev_log_index req)) (ae_entries req).

(** The round appended a client's command. *)
Definition extends (n : RaftNode) (es : list LogEntry) (ev : event) (n' : RaftNode) (es' : list LogEntry) : Prop :=
  exists c tx, ev = Propose c tx /\ role n = Leader /\ role n' = Leader /\
    node_term n' = node_term n /\ es' = spec_append es (node_term n) c.

Lemma writes_event ev : (forall c tx, ev <> Propose c tx) ->
  (forall env req, ev = Deliver env -> message env <> AppendEntries req) -> steps_in writes (run_event ev).
Proof.
  pose proof writes_election. intros Hpropose Hdeliver.
  destruct ev as [env|t| |c tx|i a|i|]; simpl.
  - unfold handle_message. destruct (message env) as [req|resp|req|resp|r|r] eqn:Hm.
    + by destruct (Hdeliver env req).
    + apply writes_of, silent_response.
    + apply writes_of, silent_request_vote.
    + apply writes_vote_response.
    + apply writes_of. silent_steps.
    + apply writes_of. silent_steps.
  - unfold election_tick, when. writes_steps.
  - unfold heartbeat_tick, when. writes_steps.
  - by destruct (Hpropose c tx).
  - apply writes_of. unfold add_peer, when. silent_steps.
  - apply writes_of. unfold remove_peer. silent_steps.
  - apply writes_of. unfold get_status. silent_steps.
Qed.

Lemma mute_heralds n n' : sends not_append n n' -> sends (heralds n') n n'.
Proof.
  intros (new & Ho & Hn). exists new. split; [done|]. eapply Forall_impl; [exact Hn|].
  intros env He req Hm. unfold not_append in He. by rewrite Hm in He.
Qed.

Lemma round_log n es ev : log_inv (log n) es -> valid_round es ev ->
  let n' := (run_event ev n).2 in sends (heralds n') n n' /\
  exists es', log_inv (log n') es' /\ (es' = es \/ accepts n es ev n' es' \/ extends n es ev n' es').
Proof.
  intros Hes Hev n'.
  assert (steps_in writes (run_event ev) -> sends (heralds n') n n' /\
    exists es', log_inv (log n') es' /\ (es' = es \/ accepts n es ev n' es' \/ extends n es ev n' es')) as Hw.
  { intros Hw. destruct (Hw n) as [Hl Hs]. split; [done|]. exists es. split; [by apply Hl|by left]. }
  destruct ev as [env|t| |c tx|i a|i|]; try by apply Hw, writes_event.
  - destruct (message env) as [req|resp|req|resp|r|r] eqn:Hm;
      try by apply Hw, writes_event; [|intros env' req' [= <-]; rewrite Hm].
    destruct (Hev req Hm) as [Hwf Hc]. subst n'. unfold run_event, handle_message. rewrite Hm.
    split; [by apply mute_heralds, mute_append_entries|].
    destruct (append_entries_log n es (from env) req Hes Hwf Hc) as (es' & Hes' & Hcase).
    exists es'. split; [done|]. destruct Hcase as [|(? & ? & ? & ?)]; [by left|right; left].
    by exists env, req.
  - destruct Hev as [Hc Hmax].
    destruct (propose_log n es c tx Hes Hc Hmax) as [[Hl Hs]|(Hr & Hl & Hs & Hr' & Ht)].
    + split; [done|]. exists es. split; [by apply Hl|by left].
    + split; [done|]. eexists. split; [done|right; right]. by exists c, tx.
Qed.
End copies.
