(* ===== verification/Matching.v ===== *)
(** * Log matching in a cluster

    In the runs of ClusterProps.v, with one leader per term, two logs that hold an entry of
    the same term at the same position are the same up to that position.  The invariant
    keeps the set [L] of the logs there have been: it is closed under prefixes, its members
    agree in this sense, every log and every request in flight is copied from it, and a
    leader holds every entry of its term. *)

From S2P Require Import Prelude Heapless Protocol Serde HashMap Log LogFacts StateMachine.
From S2P Require Import Config Env LogProps Node NodeFacts Sample Daemon Votes Rounds Follower.
From S2P Require Import Leader Members Cluster Scenarios ClusterProps Copies.
Local Open Scope N_scope.

(** ** Logs that agree *)

Definition agree (a b : list LogEntry) : Prop :=
  forall i e e', a !! i = Some e -> b !! i = Some e' -> term e = term e' -> take (S i) a = take (S i) b.

Lemma agree_refl a : agree a a.
Proof. by intros i e e'. Qed.

Lemma agree_sym a b : agree a b -> agree b a.
Proof. intros H i e e' He He' Ht. symmetry. by apply (H i e' e). Qed.

Lemma agree_take a b k : agree a b -> agree (take k a) b.
Proof.
  intros H i e e' [He Hi]%lookup_take_Some He' Ht. rewrite take_take, Nat.min_l by lia.
  by apply (H i e e').
Qed.

Lemma agree_drop a b p : agree a b -> agree (drop p a) (drop p b).
Proof.
  intros H i e e'. rewrite !lookup_drop. intros He He' Ht.
  rewrite !take_drop_commute, Nat.add_succ_r. f_equal. by eapply H.
Qed.

(** Over a log that agrees with the leader's, the new entries change nothing or make it a
    prefix of the leader's. *)
Lemma reconcile_choice k : forall rest ldr, agree rest ldr ->
  reconcile rest (take k ldr) = rest \/ reconcile rest (take k ldr) = take k ldr.
Proof.
  induction k as [|k IH]; intros rest ldr Ha; [by left|].
  destruct ldr as [|e ldr]; [by left|]. destruct rest as [|old rest]; [by right|]. simpl.
  case_match eqn:Ht; [|by right]. apply N.eqb_eq in Ht.
  pose proof (Ha 0%nat old e eq_refl eq_refl Ht) as [= ->].
  apply (agree_drop _ _ 1) in Ha. simpl in Ha. rewrite !drop_0 in Ha.
  destruct (IH rest ldr Ha) as [-> | ->]; [by left|by right].
Qed.

Lemma follower_log_choice es a req : agree es a -> copies a req ->
  matches es (N.to_nat (prev_log_index req)) (prev_log_term req) ->
  let es' := follower_log es (N.to_nat (prev_log_index req)) (ae_entries req) in
  es' = es \/ exists k, es' = take k a.
Proof.
  intros Ha [(k & Hk) Hprev] Hm es'.
  assert (prev_log_index req = N.of_nat (N.to_nat (prev_log_index req))) as Hidx by lia.
  set (p := N.to_nat (prev_log_index req)) in *. clearbody p.
  destruct (decide (p <= length a)%nat) as [Hp|Hp].
  - assert (take p es = take p a) as Htake.
    { destruct Hm as [-> |(e & He & Ht)]; [done|]. destruct p as [|q]; [done|].
      assert (is_Some (a !! q)) as [e' He'] by (apply lookup_lt_is_Some; lia).
      rewrite lookup1_S in He. apply (Ha q e e'); [done|done|]. rewrite Ht. apply Hprev.
      by rewrite Hidx, lookup1_S. }
    unfold es', follower_log. rewrite Hk, Htake.
    destruct (reconcile_choice k (drop p es) (drop p a)) as [-> | ->]; [by apply agree_drop| |].
    + left. by rewrite <-Htake, take_drop.
    + right. exists (p + k)%nat. apply take_take_drop.
  - left. unfold es', follower_log. rewrite Hk, (drop_ge a), take_nil by lia. simpl. apply take_drop.
Qed.

(** ** The history of logs *)

Section matching.
Context {E : Env} {EL : EnvLaws E} (cfgs : list Config) (con : connected cfgs).
Implicit Types (h : string -> list MessageEnvelope) (L : list LogEntry -> Prop).

Record history h L : Prop := {
  hi_prefix a k : L a -> L (take k a);
  hi_agree a b : L a -> L b -> agree a b;
  hi_numbered a : L a -> consecutive 0 a;
  hi_wf a : L a -> Forall wf_entry a;
  hi_bound a : L a -> N.of_nat (length a) <= u64_max;
  hi_created a e : L a -> e ∈ a -> exists name, elected cfgs h (term e) name;
}.

(** [es] holds every entry of term [t]. *)
Definition has_all L (t : N) (es : list LogEntry) : Prop :=
  forall a i e, L a -> a !! i = Some e -> term e = t -> take (S i) a = take (S i) es.

Record matched_node h L (name : string) (n : RaftNode) : Prop := {
  mn_log : exists es, log_inv (log n) es /\ L es /\ (role n = Leader -> has_all L (node_term n) es);
  mn_candidate a e : role n = Candidate -> L a -> e ∈ a -> term e = node_term n ->
    exists name', name' <> name /\ elected cfgs h (term e) name';
}.

Record matched h L (c : cluster) : Prop := {
  ma_history : history h L;
  ma_nodes name n : nodes c !! name = Some n -> matched_node h L name n;
  ma_flight env req : env ∈ in_flight c -> message env = AppendEntries req ->
    elected cfgs h (ae_term req) (from env) /\ exists a, L a /\ copies a req;
}.

Lemma history_grows h h' L : (forall v, h v `prefix_of` h' v) -> history h L -> history h' L.
Proof.
  intros Hh []. split; auto. intros a e Ha He. destruct (hi_created0 a e Ha He) as [name Hn].
  exists name. by eapply elected_grows.
Qed.

Lemma matched_node_grows h h' L name n : (forall v, h v `prefix_of` h' v) ->
  matched_node h L name n -> matched_node h' L name n.
Proof.
  intros Hh [Hl Hc]. split; [done|]. intros a e Hr Ha He Ht.
  destruct (Hc a e Hr Ha He Ht) as (x & ? & ?). exists x. split; [done|by eapply elected_grows].
Qed.

(** One node changes, and what it has sent since is in flight. *)
Lemma matched_update h L L' c name n n' fl : matched h L c -> sound cfgs h c ->
  nodes c !! name = Some n -> outgoing n `prefix_of` outgoing n' -> (forall a, L a -> L' a) ->
  let h' := extend name (outgoing n') h in
  history h' L' ->
  (forall name' m, name' <> name -> nodes c !! name' = Some m -> matched_node h' L' name' m) ->
  matched_node h' L' name n' ->
  (forall env req, env ∈ fl -> message env = AppendEntries req -> env ∈ in_flight c \/
    elected cfgs h' (ae_term req) (from env) /\ exists a, L' a /\ copies a req) ->
  matched h' L' (mkCluster (<[name := n']> (nodes c)) fl).
Proof.
  intros [_ Hn Hf] Hc Hname Hp HL h' Hhist Hothers Hn' Hfl.
  rewrite (sn_sent _ _ _ _ (so_nodes _ _ _ Hc _ _ Hname)) in Hp.
  split; [done| |]; simpl.
  - intros name' m. rewrite lookup_insert_Some. intros [[<- <-]|[Hne Hm]]; [done|by apply Hothers].
  - intros env req Henv Hm. destruct (Hfl env req Henv Hm) as [Hold|Hnew]; [|done].
    destruct (Hf env req Hold Hm) as (He & a & Ha & Hcopy).
    split; [eapply elected_grows; [by apply extend_grows|done]|exists a; auto].
Qed.

(** A proposal adds the leader's longer log. *)
Definition with_log_of L (es : list LogEntry) : list LogEntry -> Prop := fun a => L a \/ a = es.

Lemma extended_agree L es e a : L es -> L a -> (forall a b, L a -> L b -> agree a b) ->
  has_all L (term e) es -> agree (es ++ [e]) a.
Proof.
  intros Hes Ha Hag Hall i x y Hx Hy Ht. apply lookup_app_Some in Hx as [Hx|[Hi Hx]].
  - rewrite take_app_le by (apply lookup_lt_Some in Hx; lia). by eapply Hag.
  - apply list_lookup_singleton_Some in Hx as [Hi' <-].
    pose proof (Hall a i y Ha Hy (eq_sym Ht)) as Htake.
    apply (f_equal length) in Htake. rewrite !length_take in Htake.
    apply lookup_lt_Some in Hy. lia.
Qed.

Lemma history_extend h L es t c name : history h L -> L es -> has_all L t es ->
  elected cfgs h t name -> wf_command c -> N.of_nat (length es) < u64_max ->
  history h (with_log_of L (spec_append es t c)).
Proof.
  intros Hh Hes Hall He Hc Hmax. unfold spec_append. set (e := mkEntry _ t c).
  destruct Hh as [Hpre Hag Hnum Hwf Hb Hcr]. split.
  - intros a k [Ha| ->]; [by left; apply Hpre|]. destruct (decide (k <= length es)%nat).
    + left. rewrite take_app_le by done. by apply Hpre.
    + right. apply take_ge. rewrite length_app. simpl. lia.
  - intros a b [Ha| ->] [Hb'| ->]; [by apply Hag| | |apply agree_refl].
    + apply agree_sym. by apply (extended_agree L).
    + by apply (extended_agree L).
  - intros a [Ha| ->]; [by apply Hnum|]. intros k x Hx. apply lookup_app_Some in Hx as [Hx|[Hi Hx]].
    + by apply (Hnum es).
    + apply list_lookup_singleton_Some in Hx as [Hi' <-]. simpl. lia.
  - intros a [Ha| ->]; [by apply Hwf|]. apply Forall_app. split; [by apply Hwf|by apply Forall_singleton].
  - intros a [Ha| ->]; [by apply Hb|]. rewrite length_app. simpl. lia.
  - intros a x [Ha| ->] Hx; [by eapply Hcr|]. apply elem_of_app in Hx as [Hx|Hx]; [by eapply Hcr|].
    apply list_elem_of_singleton in Hx as ->. by exists name.
Qed.

Lemma has_all_extend L es t c : has_all L t es -> has_all (with_log_of L (spec_append es t c)) t (spec_append es t c).
Proof.
  intros Hall a i e [Ha| ->] He Ht; [|done]. pose proof (Hall a i e Ha He Ht) as Htake.
  pose proof (f_equal length Htake) as Hlen. rewrite !length_take in Hlen.
  apply lookup_lt_Some in He. unfold spec_append. by rewrite take_app_le by lia.
Qed.

Lemma has_all_other L es t c t' es' : L es -> t' <> t -> has_all L t' es' ->
  has_all (with_log_of L (spec_append es t c)) t' es'.
Proof.
  intros Hes Hne Hall a i e [Ha| ->] He Ht; [by eapply Hall|]. unfold spec_append in *.
  apply lookup_app_Some in He as [He|[Hi He]].
  - rewrite take_app_le by (apply lookup_lt_Some in He; lia). by eapply Hall.
  - apply list_lookup_singleton_Some in He as [_ <-]. by simpl in Ht.
Qed.

(** ** A round of a node *)

(** What the invariant gives of the event of a round. *)
Record matched_event h L (name : string) (n : RaftNode) (ev : event) : Prop := {
  me_propose c tx : ev = Propose c tx -> wf_command c /\ last_index (log n) < u64_max;
  me_from env : ev = Deliver env -> from env <> name;
  me_request env req : ev = Deliver env -> message env = AppendEntries req ->
    elected cfgs h (ae_term req) (from env) /\ exists a, L a /\ copies a req;
}.

Lemma matched_valid h L name n ev es : history h L -> log_inv (log n) es ->
  matched_event h L name n ev -> valid_round es ev.
Proof.
  intros Hh Hes [Hp _ Hr]. destruct ev as [env| | |c tx| | |]; simpl; try done.
  - intros req Hm. destruct (Hr env req eq_refl Hm) as (_ & a & Ha & [(k & ->) _]). split.
    + by apply Forall_take, Forall_drop, (hi_wf _ _ Hh).
    + by apply consecutive_take, consecutive_drop, (hi_numbered _ _ Hh).
  - rewrite <-(repr_last _ _ (inv_repr _ _ Hes)). by eapply Hp.
Qed.

Section round.
Context h L (c : cluster) (name : string) (n : RaftNode) (ev : event).
Context (Hsound : sound cfgs h c) (Hmatched : matched h L c) (Hname : nodes c !! name = Some n).
Context (Hfair : fair_round cfgs h name n ev) (Hevent : matched_event h L name n ev).
Let n' := (run_event ev n).2.
Let h' := extend name (outgoing n') h.

Lemma round_turn : outgoing n `prefix_of` outgoing n' /\ turns n ev n'.
Proof. apply (round_turns cfgs con h c name n ev Hsound Hname Hfair). Qed.

Lemma round_grows v : h v `prefix_of` h' v.
Proof.
  destruct round_turn as [Hp _].
  rewrite (sn_sent _ _ _ _ (so_nodes _ _ _ Hsound _ _ Hname)) in Hp. by apply extend_grows.
Qed.

Lemma round_sound : sound_node cfgs h' name n'.
Proof.
  pose proof (sound_round cfgs con h c name n ev Hsound Hname Hfair) as Hs.
  apply (so_nodes _ _ _ Hs). unfold node_event. rewrite Hname. simpl. by rewrite lookup_insert_eq.
Qed.

Lemma round_unique t x y : elected cfgs h' t x -> elected cfgs h' t y -> x = y.
Proof.
  pose proof (sound_round cfgs con h c name n ev Hsound Hname Hfair) as Hs.
  apply (elected_unique cfgs con h' t x y), (so_single _ _ _ Hs).
Qed.

(** The request of another leader of the same term is never met. *)
Lemma accepts_newer es es' : accepts n es ev n' es' -> role n = Leader -> node_term n' <> node_term n.
Proof.
  intros (env & req & Hev & Hm & _ & -> & _ & _) Hr Ht.
  destruct (me_request _ _ _ _ _ Hevent env req Hev Hm) as [He _].
  apply (me_from _ _ _ _ _ Hevent env Hev), (round_unique (node_term n)).
  - rewrite <-Ht. eapply elected_grows; [apply round_grows|done].
  - eapply elected_grows; [apply round_grows|].
    by apply (sn_elected _ _ _ _ (so_nodes _ _ _ Hsound _ _ Hname)).
Qed.

(** A node that has just won has no entry of its term to learn of. *)
Lemma won_has_all es : role n = Candidate -> role n' = Leader -> node_term n' = node_term n ->
  has_all L (node_term n') es.
Proof.
  intros Hr Hr' Ht a i e Ha He Hte. exfalso.
  destruct (mn_candidate _ _ _ _ (ma_nodes _ _ _ Hmatched _ _ Hname) a e) as (x & Hx & Hel);
    [done|done|by eapply list_elem_of_lookup_2|by rewrite Hte|].
  apply Hx, (round_unique (term e)); [by eapply elected_grows; [apply round_grows|]|].
  rewrite Hte. by apply (sn_elected _ _ _ _ round_sound).
Qed.

Lemma round_candidate a e : role n' = Candidate -> L a -> e ∈ a -> term e = node_term n' ->
  exists x, x <> name /\ elected cfgs h' (term e) x.
Proof.
  intros Hr' Ha He Ht.
  assert (role n = Candidate -> node_term n' = node_term n -> exists x, x <> name /\
    elected cfgs h' (term e) x) as Hold.
  { intros Hr Hsame. destruct (mn_candidate _ _ _ _ (ma_nodes _ _ _ Hmatched _ _ Hname) a e)
      as (x & Hx & Hel); [done..|congruence|].
    exists x. split; [done|]. eapply elected_grows; [apply round_grows|done]. }
  destruct round_turn as [_ [[|[Hr Hsame]]|[(t & _ & _ & Hnew)|
    (env & resp & _ & _ & Hr & Hsame)]]]; [congruence|by apply Hold; [congruence|]| |by apply Hold].
  destruct (hi_created _ _ (ma_history _ _ _ Hmatched) a e Ha He) as [x Hx].
  exists x. split; [|eapply elected_grows; [apply round_grows|done]]. intros ->.
  destruct (so_nodes _ _ _ Hsound _ _ Hname) as [_ Hv Hsent _ _].
  destruct Hx as (_ & Hb & _). rewrite <-Hsent in Hb.
  pose proof (vote_memory _ Hv (term e) name Hb) as Hrec.
  change (current_term (persistent_state (log n))) with (node_term n) in Hrec.
  lia.
Qed.

(** The requests the node has sent in the round. *)
Lemma round_sent L' es' env req : sends (heralds n') n n' -> log_inv (log n') es' -> L' es' ->
  env ∈ drop (length (outgoing n)) (outgoing n') -> message env = AppendEntries req ->
  elected cfgs h' (ae_term req) (from env) /\ exists a, L' a /\ copies a req.
Proof.
  intros (new & Ho & Hnew) Hes HL Henv Hm. rewrite Forall_forall in Hnew.
  assert (from env = name) as ->.
  { destruct round_sound as [(cfg & _ & <- & Hmem) _ _ _ _].
    pose proof (mem_sent _ _ _ _ _ Hmem) as Hall. rewrite Forall_forall in Hall.
    apply subseteq_drop in Henv. apply (gen_from _ _ _ (Hall env Henv)). }
  rewrite Ho, drop_app_length in Henv. destruct (Hnew env Henv req Hm) as (Hr & -> & Hc).
  split; [by apply (sn_elected _ _ _ _ round_sound)|]. exists es'. auto.
Qed.

(** The log of the node is one there was already. *)
Lemma matched_round_old es es' : log_inv (log n) es -> L es ->
  (role n = Leader -> has_all L (node_term n) es) -> log_inv (log n') es' -> L es' ->
  sends (heralds n') n n' -> es' = es \/ accepts n es ev n' es' -> matched h' L (node_event name ev c).
Proof.
  intros Hes HL Hall Hes' HL' Hsends Hcase. unfold node_event. rewrite Hname.
  destruct round_turn as [Hp Hturn].
  apply (matched_update h L L c name n n'); try done.
  - eapply history_grows; [apply round_grows|apply Hmatched].
  - intros name' m _ Hm. eapply matched_node_grows; [apply round_grows|by apply Hmatched].
  - split; [|apply round_candidate]. exists es'. split_and!; [done|done|]. intros Hr'.
    destruct Hturn as [[|[Hr Ht]]|[(t & _ & ? & _)|(env & resp & Hev & Hm & Hr & Ht)]]; [congruence| |congruence|].
    + destruct Hcase as [->|Hacc]; [rewrite Ht; apply Hall; congruence|].
      destruct (accepts_newer es es' Hacc); [congruence|done].
    + by apply won_has_all.
  - intros env req [|Henv]%elem_of_app Hm; [by left|right]. by eapply round_sent.
Qed.

Lemma matched_round_new es : log_inv (log n) es -> L es -> (role n = Leader -> has_all L (node_term n) es) ->
  sends (heralds n') n n' -> forall es', log_inv (log n') es' -> extends n es ev n' es' ->
  matched h' (with_log_of L es') (node_event name ev c).
Proof.
  intros Hes HL Hall Hsends es' Hes' (cmd & tx & Hev & Hr & Hr' & Ht & ->).
  unfold node_event. rewrite Hname. specialize (Hall Hr).
  destruct round_turn as [Hp _].
  assert (elected cfgs h' (node_term n) name) as Hel.
  { rewrite <-Ht. by apply (sn_elected _ _ _ _ round_sound). }
  destruct (me_propose _ _ _ _ _ Hevent cmd tx Hev) as [Hwf Hmax].
  rewrite (repr_last _ _ (inv_repr _ _ Hes)) in Hmax.
  apply (matched_update h L _ c name n n'); try done; [by left| | | |].
  - eapply history_extend; [|done..]. eapply history_grows; [apply round_grows|apply Hmatched].
  - intros name' m Hne Hm. destruct (ma_nodes _ _ _ Hmatched _ _ Hm) as [(esm & Hlm & HLm & Hlead) Hcand].
    split.
    + exists esm. split_and!; [done|by left|]. intros Hrm. apply has_all_other; [done| |by apply Hlead].
      intros Heq. apply Hne, (round_unique (node_term n)); [|done]. rewrite <-Heq.
      eapply elected_grows; [apply round_grows|].
      by apply (sn_elected _ _ _ _ (so_nodes _ _ _ Hsound _ _ Hm)).
    + intros a e Hrm [Ha| ->] He Hte.
      * destruct (Hcand a e Hrm Ha He Hte) as (x & Hx & Hex). exists x. split; [done|].
        eapply elected_grows; [apply round_grows|done].
      * apply elem_of_app in He as [He|He].
        { destruct (Hcand es e Hrm HL He Hte) as (x & Hx & Hex). exists x. split; [done|].
          eapply elected_grows; [apply round_grows|done]. }
        apply list_elem_of_singleton in He as ->. exists name. by split.
  - split; [|by intros a e Hc; rewrite Hr' in Hc].
    eexists. split_and!; [done|by right|]. intros _. rewrite Ht. by apply has_all_extend.
  - intros env req [|Henv]%elem_of_app Hm; [by left|right]. eapply round_sent; [done|done|by right|done|done].
Qed.

Lemma matched_round : exists L', matched h' L' (node_event name ev c).
Proof.
  destruct (ma_nodes _ _ _ Hmatched _ _ Hname) as [(es & Hes & HL & Hall) _].
  pose proof (ma_history _ _ _ Hmatched) as Hh.
  destruct (round_log n es ev Hes) as (Hsends & es' & Hes' & Hcase); [by eapply matched_valid|].
  destruct Hcase as [->|[Hacc|Hext]].
  - exists L. eapply matched_round_old; [exact Hes|done..|by left].
  - exists L. eapply matched_round_old; [exact Hes|done|done|exact Hes'| |done|by right].
    destruct Hacc as (env & req & Hev & Hm & _ & _ & Hmatch & ->).
    destruct (me_request _ _ _ _ _ Hevent env req Hev Hm) as (_ & a & Ha & Hcopy).
    destruct (follower_log_choice es a req) as [-> |[k ->]]; [by apply (hi_agree _ _ Hh)|done..|].
    by apply (hi_prefix _ _ Hh).
  - eexists. by eapply matched_round_new.
Qed.
End round.

(** ** The runs of the cluster *)

(** A node that is replaced by one with the same log, in the same term or as a follower. *)
Lemma matched_replace h L c name n n' : matched h L c -> nodes c !! name = Some n ->
  (forall es, log_inv (log n) es -> log_inv (log n') es) ->
  (role n' = Follower \/ role n' = role n /\ node_term n' = node_term n) ->
  matched h L (mkCluster (<[name := n']> (nodes c)) (in_flight c)).
Proof.
  intros [Hh Hn Hf] Hname Hlog Hr. split; simpl; [done| |done].
  intros name' m. rewrite lookup_insert_Some. intros [[<- <-]|[_ Hm]]; [|by apply Hn].
  destruct (Hn _ _ Hname) as [(es & Hes & HL & Hall) Hcand]. split.
  - exists es. split_and!; [by apply Hlog|done|]. by destruct Hr as [-> |[-> ->]].
  - intros a e. destruct Hr as [-> |[-> ->]]; [done|apply Hcand].
Qed.

Lemma matched_take_off h L c i : matched h L c -> matched h L (take_off i c).
Proof.
  intros [Hh Hn Hf]. split; [done|done|]. intros env req Henv. apply Hf. simpl in Henv.
  apply elem_of_app in Henv as [Hin|Hin]; [by apply subseteq_take in Hin|by apply subseteq_drop in Hin].
Qed.

(** Proposals are well-formed commands, and leave the log within [u64]. *)
Definition bounded (a : action) (c : cluster) : bool :=
  match a with
  | Act name (Propose command _) => bool_decide (wf_command command) &&
      match nodes c !! name with Some n => last_index (log n) <? u64_max | None => true end
  | _ => true
  end.

Definition fair_bounded (a : action) (c : cluster) : bool := fair a c && bounded a c.

Lemma matched_action h L c a : sound cfgs h c -> matched h L c -> fair_bounded a c = true ->
  exists h' L', sound cfgs h' (exec_action a c) /\ matched h' L' (exec_action a c).
Proof.
  intros Hc Hm [Hfair Hb]%andb_prop. destruct a as [name ev|i|i|name now|name io now].
  - simpl exec_action. destruct (local_event ev) eqn:Hl; [|by exists h, L].
    destruct (nodes c !! name) as [n|] eqn:Hname; [|exists h, L; unfold node_event; by rewrite Hname].
    pose proof (fair_act cfgs h c name n ev Hname Hl Hfair) as Hround.
    destruct (matched_round h L c name n ev) as [L' HL']; [done..| |].
    + split; [|by destruct ev..]. intros cmd tx ->. simpl in Hb. rewrite Hname in Hb.
      by apply andb_prop in Hb as [?%bool_decide_eq_true ?%N.ltb_lt].
    + eexists _, L'. split; [by apply sound_round|done].
  - simpl exec_action. destruct (in_flight c !! i) as [env|] eqn:Henv; [|by exists h, L].
    pose proof (sound_take_off cfgs _ _ i Hc) as Ht. pose proof (matched_take_off _ _ _ i Hm) as Hmt.
    destruct (nodes c !! to env) as [n|] eqn:Hto;
      [|exists h, L; unfold node_event; simpl; by rewrite Hto].
    pose proof (fair_receive cfgs con h c i env n Hc Henv Hto Hfair) as Hround.
    assert (env ∈ in_flight c) as Hin by by eapply list_elem_of_lookup_2.
    destruct (matched_round h L (take_off i c) (to env) n (Deliver env)) as [L' HL']; [done..| |].
    + split; [done| |].
      * intros env' [= <-]. pose proof (gen_to _ _ _ (proj2 (proj2 (so_flight _ _ _ Hc env Hin)))) as Hk.
        by destruct Hk as (_ & Hne & _).
      * intros env' req [= <-]. by apply (ma_flight _ _ _ Hm).
    + eexists _, L'. split; [by apply sound_round|done].
  - exists h, L. split; [by apply sound_take_off|by apply matched_take_off].
  - exists h, L. simpl. destruct (nodes c !! name) as [n|] eqn:Hname; [|done]. case_match; [|done].
    pose proof (sn_votes _ _ _ _ (so_nodes _ _ _ Hc _ _ Hname)) as Hv. split.
    + apply (sound_replace cfgs h c name n); try done; [by apply (same_votes_inv n)| |by right].
      by intros cfg [].
    + apply (matched_replace h L c name n); auto.
  - exists h, L. simpl in *. destruct io; [|done].
    destruct (nodes c !! name) as [n|] eqn:Hname; [|done].
    destruct (so_nodes _ _ _ Hc _ _ Hname) as [(cfg & Hcfg & Hid & Hmem) Hv _ _ _].
    destruct (mn_log _ _ _ _ (ma_nodes _ _ _ Hm _ _ Hname)) as (es & Hes & _).
    destruct (restart_log n es now Hes) as (n' & Hrun & Hes' & _). rewrite Hrun.
    destruct (restart_member _ _ _ _ _ Hmem Hrun) as (_ & Ho & Hr). split.
    + apply (sound_replace cfgs h c name n); try done; [by eapply restart_votes| |by left].
      intros cfg' Hm'. by apply (restart_member _ _ _ _ _ Hm' Hrun).
    + apply (matched_replace h L c name n); [done|done| |by left].
      intros es0 Hes0. by rewrite (log_inv_unique _ _ _ Hes0 Hes).
Qed.

Lemma matched_start : matched (fun _ => []) (fun a => a = []) (start_cluster cfgs).
Proof.
  split; [|intros name n Hn|by intros env req ?%not_elem_of_nil].
  - split.
    + intros a k ->. apply take_nil.
    + intros a b -> ->. apply agree_refl.
    + intros a ->. apply consecutive_nil.
    + by intros a ->.
    + by intros a ->.
    + by intros a e -> ?%not_elem_of_nil.
  - destruct (start_nodes cfgs name n Hn) as (cfg & _ & _ & Hnew).
    pose proof (RaftNode_new_fields _ _ _ _ Hnew) as (_ & _ & _ & Hr & _).
    destruct (fresh_ok cfg 0) as (n0 & Hn0 & Hok). rewrite Hnew in Hn0. simplify_eq.
    split; [|by rewrite Hr]. exists []. split_and!; [apply Hok|done|by rewrite Hr].
Qed.

Lemma bounded_run c : cluster_run fair_bounded cfgs c -> exists h L, sound cfgs h c /\ matched h L c.
Proof.
  induction 1 as [|a c _ (h & L & Hc & Hm) Hfair].
  - eexists _, _. split; [by apply sound_start|apply matched_start].
  - by eapply matched_action.
Qed.
End matching.

(** ** Properties *)

Definition entry_at (c : cluster) (name : string) (i : N) : option LogEntry :=
  nodes c !! name ≫= fun n => get (log n) i.

(** C7: Log Matching for the whole cluster, in the same runs: when the logs of two nodes hold
    entries of the same term at an index, they are identical up to that index. *)
Theorem logs_match {E : Env} {EL : EnvLaws E} cfgs c name1 name2 i e1 e2 : connected cfgs ->
  cluster_run fair_bounded cfgs c -> entry_at c name1 i = Some e1 -> entry_at c name2 i = Some e2 ->
  term e1 = term e2 -> forall j, j <= i -> entry_at c name1 j = entry_at c name2 j.
Proof.
  intros Hcon Hrun He1 He2 Ht j Hj. unfold entry_at, get in *.
  destruct (bounded_run cfgs Hcon c Hrun) as (h & L & _ & [Hh Hnodes _]).
  destruct (nodes c !! name1) as [n1|] eqn:Hn1; [|done].
  destruct (nodes c !! name2) as [n2|] eqn:Hn2; [|done]. simpl in *.
  destruct (Hnodes _ _ Hn1) as [(es1 & Hl1 & HL1 & _) _].
  destruct (Hnodes _ _ Hn2) as [(es2 & Hl2 & HL2 & _) _].
  rewrite (repr_entries _ _ (inv_repr _ _ Hl1)) in *. rewrite (repr_entries _ _ (inv_repr _ _ Hl2)) in *.
  unfold lookup1 in *. repeat case_decide; try done; try lia.
  pose proof (hi_agree _ _ _ Hh _ _ HL1 HL2 _ _ _ He1 He2 Ht) as Htake.
  apply (f_equal (lookup (N.to_nat j - 1)%nat)) in Htake. by rewrite !lookup_take_lt in Htake by lia.
Qed.

(** [node-01] is elected, appends two entries, and [node-02] takes them. *)
Definition copied_orders : list order :=
  Elect "node-01" 1000 ++ Canvass "node-01" "node-03" ++
  [Do (Act "node-01" (Propose (put "k" "one") 1)); Do (Act "node-01" (Propose (put "k" "two") 2));
   Pass "node-01" "node-02"; Pass "node-01" "node-02"; Pass "node-01" "node-02";
   Pass "node-01" "node-02"].

Definition copied_cluster : cluster :=
  @run_actions ref_env (actions_of copied_orders (@start_cluster ref_env three_configs))
    (@start_cluster ref_env three_configs).

Lemma logs_match_witness :
  entry_at copied_cluster "node-01" 2 = Some (mkEntry 2 1 (put "k" "two")) /\
  entry_at copied_cluster "node-02" 2 = Some (mkEntry 2 1 (put "k" "two")) /\
  forall j, j <= 2 -> entry_at copied_cluster "node-01" j = entry_at copied_cluster "node-02" j.
Proof.
  assert (entry_at copied_cluster "node-01" 2 = Some (mkEntry 2 1 (put "k" "two"))) as H1
    by (vm_compute; reflexivity).
  assert (entry_at copied_cluster "node-02" 2 = Some (mkEntry 2 1 (put "k" "two"))) as H2
    by (vm_compute; reflexivity).
  split; [exact H1|]. split; [exact H2|].
  apply (@logs_match ref_env _ three_configs copied_cluster "node-01" "node-02" 2
    (mkEntry 2 1 (put "k" "two")) (mkEntry 2 1 (put "k" "two")) three_connected); [|exact H1|exact H2|reflexivity].
  apply all_allowed_run; [apply run_start|vm_compute; reflexivity].
Defined.
