(* ===== verification/Effects.v ===== *)
(** * The rounds of a node as steps of the protocol

    The locks, the files, the store and the programs of Node.v are left behind: [effect]
    says what a round of a node in order does to what the other nodes depend on, its role,
    term, log, commit index and view of its peers, and which messages it sends.  There are
    eight kinds of step, and [round_effect] shows that every round is one of them, a round
    that deadlocks included. *)

From S2P Require Import Prelude Heapless Protocol Serde HashMap Log LogFacts StateMachine.
From S2P Require Import Config Env LogProps Node NodeFacts Sample Daemon Follower Leader.
From S2P Require Import Election Invariant Votes Copies.
Local Open Scope N_scope.

(** A node in order, whose log may be locked for ever by a refused request. *)
Definition in_order {E : Env} (n : RaftNode) (es : list LogEntry) : Prop :=
  node_ok (with_log_guard false n) es.

(** A message no property of the logs depends on. *)
Definition plain_message (env : MessageEnvelope) : Prop :=
  match message env with
  | AppendEntries _ | RequestVote _ => False
  | RequestVoteResp resp => vote_granted resp = false
  | _ => True
  end.

(** The leader found nothing more to commit, or the last entry it could commit. *)
Definition commits {E : Env} (n : RaftNode) (es : list LogEntry) (n' : RaftNode) : Prop :=
  (commit_index n' = commit_index n \/ commit_index n < commit_index n' /\ committable n' es (commit_index n')) /\
  forall i, commit_index n' < i -> ~ committable n' es i.

Inductive effect {E : Env} (n : RaftNode) (es : list LogEntry) (ev : event) (n' : RaftNode) :
    list LogEntry -> Prop :=
  (** Nothing, or a step down. *)
  | eff_still :
      role n' = role n /\ node_term n' = node_term n \/ role n' = Follower /\ node_term n <= node_term n' ->
      commit_index n' = commit_index n -> match_index n' = match_index n ->
      sends plain_message n n' -> effect n es ev n' es
  (** A follower, or a candidate, takes the entries of a request. *)
  | eff_accepted env req :
      ev = Deliver env -> message env = AppendEntries req -> acceptable n es req ->
      node_term n' = ae_term req -> role n' = (if node_term n <? ae_term req then Follower else role n) ->
      commit_index n' = follower_commit (commit_index n) (leader_commit req)
        (N.of_nat (length (follower_log es (N.to_nat (prev_log_index req)) (ae_entries req)))) ->
      match_index n' = match_index n -> sends plain_message n n' ->
      effect n es ev n' (follower_log es (N.to_nat (prev_log_index req)) (ae_entries req))
  (** A leader counts a successful acknowledgement. *)
  | eff_counted env resp :
      ev = Deliver env -> message env = AppendEntriesResp resp -> role n = Leader -> success resp = true ->
      aer_term resp <= node_term n -> role n' = Leader -> node_term n' = node_term n ->
      match_index n' = <[from env := aer_last_log_index resp]> (match_index n) ->
      commits n es n' -> outgoing n' = outgoing n -> effect n es ev n' es
  (** A vote is given. *)
  | eff_granted env req :
      ev = Deliver env -> message env = RequestVote req -> up_to_date req es ->
      node_term n <= rv_term req -> node_term n' = rv_term req ->
      role n' = (if node_term n <? rv_term req then Follower else role n) ->
      commit_index n' = commit_index n -> match_index n' = match_index n ->
      outgoing n' = outgoing n ++ [vote_response n (from env) (rv_term req) true] -> effect n es ev n' es
  (** A candidate becomes the leader. *)
  | eff_won :
      role n = Candidate -> role n' = Leader -> node_term n' = node_term n ->
      commit_index n' = commit_index n ->
      (forall q, is_Some (peers n !! q) -> match_index n' !! q = Some 0) ->
      (forall q, is_Some (match_index n' !! q) -> is_Some (peers n !! q) \/ is_Some (match_index n !! q)) ->
      outgoing n' = outgoing n ++ (heartbeat n' es <$> hash_keys (peers n)) -> effect n es ev n' es
  (** An election starts. *)
  | eff_stood timeout :
      ev = ElectionTick timeout -> role n' = Candidate -> node_term n' = u64_add (node_term n) 1 ->
      commit_index n' = commit_index n -> match_index n' = match_index n ->
      outgoing n' = outgoing n ++ (vote_request n es (u64_add (node_term n) 1) <$> hash_keys (peers n)) ->
      effect n es ev n' es
  (** A leader sends its log. *)
  | eff_heralded :
      role n = Leader -> role n' = Leader -> node_term n' = node_term n ->
      commit_index n' = commit_index n -> match_index n' = match_index n ->
      outgoing n' = outgoing n ++ (heartbeat n' es <$> hash_keys (peers n)) -> effect n es ev n' es
  (** A leader appends a command. *)
  | eff_proposed c tx :
      ev = Propose c tx -> role n = Leader -> role n' = Leader -> node_term n' = node_term n ->
      commit_index n' = commit_index n -> match_index n' = match_index n ->
      outgoing n' = outgoing n ++
        (heartbeat n' (spec_append es (node_term n) c) <$> hash_keys (peers n)) ->
      effect n es ev n' (spec_append es (node_term n) c).

(** What the rounds are assumed to meet. *)
Definition orderly {E : Env} (n : RaftNode) (es : list LogEntry) (ev : event) : Prop :=
  match ev with
  | Deliver env =>
      forall req, message env = AppendEntries req -> refused n es req \/ acceptable n es req
  | Propose c _ => wf_command c
  | AddPeer _ _ | RemovePeer _ => False
  | _ => True
  end.

Section effects.
Context {E : Env} {EL : EnvLaws E}.

Lemma in_order_of n es : node_ok n es -> in_order n es.
Proof. intros []. by split. Qed.

Lemma in_order_free n es : log_guard n = false -> in_order n es -> node_ok n es.
Proof. intros Hg []. by split. Qed.

(** ** A node whose log is locked for ever *)

Definition stuck (n n' : RaftNode) : Prop := log_guard n = true ->
  log_guard n' = true /\ log n' = log n /\ role n' = role n /\ commit_index n' = commit_index n /\
  match_index n' = match_index n /\
  state_machine n' = state_machine n /\ last_applied n' = last_applied n /\ outgoing n' = outgoing n.

#[export] Instance stuck_preorder : PreOrder stuck.
Proof.
  split; [by intros n|]. intros n1 n2 n3 H12 H23 Hg.
  destruct (H12 Hg) as (Hg2 & ? & ? & ? & ? & ? & ? & ?).
  destruct (H23 Hg2) as (? & ? & ? & ? & ? & ? & ? & ?). split_and!; congruence.
Qed.

Lemma stuck_scope {A} (body : M RaftNode A) : steps_in stuck (scope_log body).
Proof. intros n Hg. by rewrite scope_log_held. Qed.
Hint Resolve stuck_scope : raft.

Lemma stuck_heartbeats : steps_in stuck send_heartbeats.
Proof. unfold send_heartbeats. run_steps. Qed.
Hint Resolve stuck_heartbeats : raft.

Lemma stuck_event ev : match ev with AddPeer _ _ | RemovePeer _ => False | _ => True end ->
  steps_in stuck (run_event ev).
Proof.
  destruct ev as [[f t m]| | | | | |]; simpl; intros Hev; try done; try apply stuck_scope.
  - unfold handle_message. destruct m; simpl; first [apply stuck_scope | auto with raft].
  - unfold election_tick, start_election, when. run_steps.
  - unfold heartbeat_tick, when. run_steps.
  - unfold propose, respond. run_steps; done.
  - unfold get_status. run_steps.
Qed.

Lemma stuck_effect n es ev n' : log_guard n = true -> stuck n n' -> in_order n es ->
  effect n es ev n' es /\ in_order n' es.
Proof.
  intros Hg Hs [_ Hl Hsm Ha Hc Hb].
  destruct (Hs Hg) as (Hg' & Hl' & Hr & Hc' & Hm & Hsm' & Ha' & Ho). split.
  - apply eff_still; auto.
    + left. unfold node_term. by rewrite Hl'.
    + exists []. by rewrite Ho, app_nil_r.
  - unfold in_order. simpl in *. split; simpl; rewrite ?Hl', ?Hsm', ?Ha', ?Hc'; done.
Qed.

(** ** The leader's side of a successful acknowledgement *)

Definition same_lead (n n' : RaftNode) : Prop :=
  role n' = role n /\ match_index n' = match_index n /\ outgoing n' = outgoing n /\ peers n' = peers n.

#[export] Instance same_lead_preorder : PreOrder same_lead.
Proof.
  split; [done|]. intros n1 n2 n3 (? & ? & ? & ?) (? & ? & ? & ?). unfold same_lead.
  split_and!; congruence.
Qed.

Lemma same_lead_guard n b : same_lead n (with_log_guard b n).
Proof. done. Qed.
Hint Resolve same_lead_guard : raft.

Lemma same_lead_apply : steps_in same_lead apply_committed_entries.
Proof.
  assert (forall fuel commit, steps_in same_lead (apply_loop fuel commit)).
  { intros fuel commit. induction fuel; simpl; unfold apply_entry; node_steps; done. }
  unfold apply_committed_entries. node_steps.
Qed.
Hint Resolve same_lead_apply : raft.

Lemma same_lead_try_advance : steps_in same_lead try_advance_commit_index.
Proof.
  assert (forall t m ns, steps_in same_lead (advance_loop t m ns)).
  { intros t m ns. induction ns; simpl; unfold notify_pending_requests, notify_one, respond;
      node_steps; done. }
  unfold try_advance_commit_index. node_steps.
Qed.

(** ** Each round, for a node whose log is free *)

Definition has_effect (n : RaftNode) (es : list LogEntry) (ev : event) (n' : RaftNode) : Prop :=
  exists es', effect n es ev n' es' /\ in_order n' es'.

Lemma still_effect n es ev n' : node_ok n' es -> role n' = role n -> node_term n' = node_term n ->
  commit_index n' = commit_index n -> match_index n' = match_index n -> outgoing n' = outgoing n ->
  has_effect n es ev n'.
Proof.
  intros Hok Hr Ht Hc Hm Ho. exists es. split; [|by apply in_order_of].
  apply eff_still; auto. exists []. by rewrite Ho, app_nil_r.
Qed.

Lemma idle_effect n es ev : node_ok n es -> has_effect n es ev n.
Proof. intros Hok. by apply still_effect. Qed.

Lemma step_down_effect n es ev l t : node_ok n es -> log_inv l es ->
  persistent_state l = mkPersistent t None -> node_term n <= t ->
  has_effect n es ev (with_role Follower (with_log l n)).
Proof.
  intros Hok Hl Hp Ht. pose proof (ok_guard _ _ Hok) as Hg. exists es. split.
  - apply eff_still; try done; [right|exists []; by rewrite app_nil_r].
    split; [done|]. unfold node_term at 2, log_current_term. simpl. by rewrite Hp.
  - apply in_order_of. by apply (vote_node_ok n _ _ l).
Qed.

Lemma append_effect n es env req : node_ok n es -> message env = AppendEntries req ->
  refused n es req \/ acceptable n es req ->
  has_effect n es (Deliver env) (handle_append_entries (from env) req n).2.
Proof.
  intros Hok Hm [Href|Hacc].
  - destruct (refuse_ok n es (from env) req Hok Href) as (n' & -> & [_ Hok' Ht Hr Hc Hmi Ho]).
    exists es. split; [|done]. simpl. apply eff_still; auto; [|exists []; by rewrite Ho, app_nil_r].
    destruct (N.ltb_spec (node_term n) (ae_term req)); [right|left]; split; [done|lia|done|lia].
  - destruct (accept_ok n es (from env) req (N.to_nat (prev_log_index req)))
      as (n' & -> & [Hok' Ht Hc _ _ _ Hr Ho Hmi]); try apply Hacc; [done|lia|].
    eexists. split; [|by apply in_order_of]. simpl.
    eapply eff_accepted; [done..|]. eexists. split; [exact Ho|]. by apply Forall_singleton.
Qed.

Lemma committable_same n n' es i : log n' = log n -> peers n' = peers n -> match_index n' = match_index n ->
  committable n es i -> committable n' es i.
Proof. intros Hl Hp Hm. unfold committable. by rewrite Hl, Hp, Hm. Qed.

Lemma response_effect n es env resp : node_ok n es -> N.of_nat (length es) < u64_max ->
  message env = AppendEntriesResp resp ->
  has_effect n es (Deliver env) (handle_append_entries_response (from env) resp n).2.
Proof.
  intros Hok Hmax Hm. pose proof (ok_guard _ _ Hok) as Hg.
  assert (commit_index n < u64_max) as Hcm by (pose proof (ok_commit _ _ Hok); lia).
  destruct (decide (role n = Leader)) as [Hrole|Hrole].
  2: { unfold handle_append_entries_response. rewrite scope_log_free by done.
       rewrite bind_gets, decide_True by done. simpl. apply still_effect; try done.
       by apply (node_ok_same n). }
  destruct (N.ltb_spec (node_term n) (aer_term resp)) as [Ht|Ht].
  - destruct (newer_term_ok n es (from env) resp) as (l & -> & Hinv & Hp); [done..|].
    eapply step_down_effect; [done|exact Hinv|exact Hp|lia].
  - destruct (success resp) eqn:Hs.
    + destruct (acknowledgement_ok n es (from env) resp) as (n' & -> & Htry & Hok' & Hl & Hcase); [done..|].
      pose proof (same_lead_try_advance (acknowledged (from env) (aer_last_log_index resp) n)) as Hsame.
      rewrite Htry in Hsame.
      destruct Hsame as (Hr & Hmi & Ho & Hps). simpl in *. exists es. split; [|by apply in_order_of].
      assert (forall i, committable n' es i <->
        committable (acknowledged (from env) (aer_last_log_index resp) n) es i) as Hiff.
      { intros i. split; by apply committable_same. }
      eapply eff_counted; try done; [by rewrite Hr|unfold node_term; by rewrite Hl|].
      unfold commits. destruct Hcase as [[Hno ->]|(i & Hi & Hci & Hmx & -> & _)].
      * split; [by left|]. intros i Hi. by apply Hno.
      * split; [right; by rewrite Hiff|]. intros j Hj. rewrite Hiff. by apply Hmx.
    + unfold handle_append_entries_response. rewrite scope_log_free by done.
      rewrite bind_gets, decide_False by (simpl; naive_solver). rewrite bind_gets.
      change (node_term (with_log_guard true n)) with (node_term n).
      rewrite (proj2 (N.ltb_ge _ _)), Hs by done. apply still_effect; try done. by apply (node_ok_same n).
Qed.

Lemma vote_request_effect n es env req : node_ok n es -> message env = RequestVote req ->
  has_effect n es (Deliver env) (handle_request_vote (from env) req n).2.
Proof.
  intros Hok Hm.
  destruct (decide (up_to_date req es /\ free_to_vote req (persistent_state (log n)))) as [[Hup Hfree]|Hno].
  - destruct (vote_granted_ok n es (from env) req Hok Hup Hfree) as (n' & -> & [Hok' Ht _ _ Hr _ Hc Ho Hmi]).
    assert (node_term n <= rv_term req) as Hle.
    { unfold node_term, log_current_term. destruct Hfree as [|[]]; lia. }
    rewrite N.max_r in Ht, Ho by done. exists es. split; [|by apply in_order_of].
    by eapply eff_granted.
  - destruct (vote_refused_ok n es (from env) req Hok Hno) as (n' & -> & [Hok' Ht _ _ Hr _ Hc Ho Hmi]).
    exists es. split; [|by apply in_order_of]. apply eff_still; try done.
    + simpl. destruct (N.ltb_spec (node_term n) (rv_term req)); [right|left]; split; [done|lia|done|lia].
    + eexists. split; [exact Ho|]. by apply Forall_singleton.
Qed.

Lemma with_vote_same from n : role (with_vote from n) = role n /\ log (with_vote from n) = log n /\
  commit_index (with_vote from n) = commit_index n /\ match_index (with_vote from n) = match_index n /\
  peers (with_vote from n) = peers n /\ outgoing (with_vote from n) = outgoing n.
Proof. unfold with_vote. by case_decide. Qed.

Lemma won_effect n1 n es ev n' : role n = Candidate -> elected n1 es n' -> log n1 = log n ->
  commit_index n1 = commit_index n -> match_index n1 = match_index n -> peers n1 = peers n ->
  outgoing n1 = outgoing n -> has_effect n es ev n'.
Proof.
  intros Hrole [Hok' Hr _ Hl Hc Hx Ho Hk] Hl1 Hc1 Hm1 Hp1 Ho1.
  exists es. split; [|by apply in_order_of]. rewrite Hm1, Hp1, Ho1 in *.
  apply eff_won; try done; [unfold node_term; congruence|congruence|].
  intros q Hq. by apply Hx.
Qed.

Lemma vote_response_effect n es env resp : node_ok n es -> N.of_nat (length es) < u64_max ->
  has_effect n es (Deliver env) (handle_request_vote_response (from env) resp n).2.
Proof.
  intros Hok Hmax. pose proof (ok_guard _ _ Hok) as Hg.
  assert (forall body : M RaftNode unit, body (with_log_guard true n) = (Ok tt, with_log_guard true n) ->
    has_effect n es (Deliver env) (scope_log body n).2) as Hsame.
  { intros body Hrun. rewrite (scope_log_Ok _ _ _ _ Hg Hrun). apply still_effect; try done.
    by apply (node_ok_same n). }
  destruct (decide (role n = Candidate)) as [Hrole|Hrole].
  2: { apply Hsame. by rewrite bind_gets, decide_True. }
  destruct (N.ltb_spec (node_term n) (rvr_term resp)) as [Ht|Ht].
  - destruct (newer_vote_term_ok n es (from env) resp) as (l & -> & Hinv & Hp); [done..|].
    eapply step_down_effect; [done|exact Hinv|exact Hp|lia].
  - destruct (vote_granted resp) eqn:Hv.
    + destruct (vote_counted_ok n es (from env) resp) as [Hyes Hno]; [done..|].
      destruct (with_vote_same (from env) n) as (Hr1 & Hl1 & Hc1 & Hm1 & Hp1 & Ho1).
      destruct (decide (enough_votes (with_vote (from env) n))) as [He|He].
      * destruct (Hyes He) as (n' & -> & Hel). by eapply won_effect.
      * rewrite (Hno He). apply still_effect; try done; [by apply with_vote_ok|].
        unfold node_term. simpl. by rewrite Hl1.
    + apply Hsame. rewrite bind_gets, decide_False by (simpl; naive_solver). rewrite bind_gets.
      change (node_term (with_log_guard true n)) with (node_term n).
      by rewrite (proj2 (N.ltb_ge _ _)), Hv.
Qed.

Lemma election_effect n es timeout : node_ok n es -> N.of_nat (length es) < u64_max -> peers n <> ∅ ->
  has_effect n es (ElectionTick timeout) (election_tick timeout n).2.
Proof.
  intros Hok Hmax Hps. unfold election_tick. rewrite bind_gets. unfold when at 1.
  case_match; [|by apply idle_effect]. rewrite bind_gets. unfold when. case_match; [|by apply idle_effect].
  destruct (start_election_ok n es Hok Hmax) as (n1 & [Hok' Hr Hp _ _ Hc Ho Hm] & Hrun & _).
  rewrite (Hrun Hps). exists es. split; [|by apply in_order_of].
  eapply eff_stood; try done. simpl. unfold node_term at 1, log_current_term. by rewrite Hp.
Qed.

Lemma heartbeat_effect n es : node_ok n es -> has_effect n es HeartbeatTick (heartbeat_tick n).2.
Proof.
  intros Hok. unfold heartbeat_tick. rewrite bind_gets. unfold when. case_match eqn:Hr; [|by apply idle_effect].
  apply bool_decide_eq_true in Hr. rewrite (send_heartbeats_ok n es Hok Hr).
  exists es. split; [|apply in_order_of; by apply (node_ok_same n)]. by apply eff_heralded.
Qed.

Lemma propose_effect n es c tx : node_ok n es -> N.of_nat (length es) < u64_max -> wf_command c ->
  has_effect n es (Propose c tx) (propose c tx n).2.
Proof.
  intros Hok Hmax Hc. unfold propose. rewrite bind_gets. case_decide as Hrole.
  - rewrite bind_gets. apply still_effect; try done. by apply (node_ok_same n).
  - assert (role n = Leader) as Hlead by by destruct (role n).
    destruct (on_log_append n es c Hok Hc Hmax) as (l & Hrun & Hinv & Hp).
    rewrite (bind_run _ _ _ _ _ Hrun), bind_modify. set (n1 := with_pending_requests _ _).
    assert (node_ok n1 (spec_append es (node_term n) c)) as Hok1.
    { apply (node_ok_same (with_log l n)); try done. by apply node_ok_append. }
    rewrite (send_heartbeats_ok n1 _ Hok1 Hlead). eexists. split; simpl.
    + eapply eff_proposed; try done. simpl. unfold node_term, log_current_term. simpl. by rewrite Hp.
    + apply in_order_of. by apply (node_ok_same n1).
Qed.

Lemma event_effect n es ev : in_order n es -> N.of_nat (length es) < u64_max -> peers n <> ∅ ->
  orderly n es ev -> has_effect n es ev (run_event ev n).2.
Proof.
  intros Hin Hmax Hps Hev. destruct (log_guard n) eqn:Hg.
  { destruct (stuck_effect n es ev (run_event ev n).2) as [He Hi]; [done| |done|by exists es].
    apply stuck_event. by destruct ev. }
  pose proof (in_order_free n es Hg Hin) as Hok. destruct ev as [env|timeout| |c tx|id addr|id| ]; try done.
  - simpl. unfold handle_message. destruct (message env) as [req|resp|req|resp|r|r] eqn:Hm.
    + by apply append_effect, Hev.
    + by apply response_effect.
    + by apply vote_request_effect.
    + by apply vote_response_effect.
    + by apply idle_effect.
    + by apply idle_effect.
  - by apply election_effect.
  - by apply heartbeat_effect.
  - by apply propose_effect.
  - simpl. unfold get_status. unfold bind at 1. rewrite scope_log_free by done.
    by apply still_effect.
Qed.

(** ** Runs of a daemon *)

(** What the rounds of a run meet, as long as nobody holds the log: it has room for an entry, a
    command is within its capacities, and a request is refused or acceptable. *)
Definition steady (n : RaftNode) (ev : event) : Prop := log_guard n = false ->
  last_index (log n) < u64_max /\
  match ev with
  | Deliver env => forall req, message env = AppendEntries req ->
      refused n (log_entries (log n)) req \/ acceptable n (log_entries (log n)) req
  | Propose c _ => wf_command c
  | _ => True
  end.

(** A daemon started on an empty directory, whose file operations succeed. *)
Inductive daemon_run (cfg : Config) : RaftNode -> Prop :=
  | dr_start now n : RaftNode_new cfg (mkDir ∅ []) now = Ok n -> daemon_run cfg n
  | dr_round n ev : daemon_run cfg n -> steady n ev -> daemon_run cfg (run_event ev n).2
  | dr_time n now : daemon_run cfg n -> clock n <= now -> daemon_run cfg (with_clock now n)
  | dr_restart n n' now : daemon_run cfg n -> restart n [] now = Ok n' -> daemon_run cfg n'.

Lemma round_in_order n es ev : in_order n es -> steady n ev -> exists es', in_order (run_event ev n).2 es'.
Proof.
  intros Hin Hs. destruct (log_guard n) eqn:Hg.
  { exists es. destruct (frozen_event ev n Hg) as (_ & _ & Hl & Hc & Hsm & Ha).
    by apply (node_ok_same (with_log_guard false n)). }
  pose proof (in_order_free n es Hg Hin) as Hok. destruct (Hs Hg) as [Hroom Hev].
  rewrite (log_entries_repr _ es (ok_log _ _ Hok)) in Hev.
  rewrite (repr_last _ _ (inv_repr _ _ (ok_log _ _ Hok))) in Hroom.
  assert (admissible n es ev \/ exists env req, ev = Deliver env /\ message env = AppendEntries req /\ refused n es req)
    as [Hadm|(env & req & -> & Hm & Href)].
  { destruct ev as [env| | | | | |]; try by left. simpl in Hev |- *.
    destruct (message env) as [req| | | | |] eqn:Hm; try by left.
    destruct (Hev req eq_refl); [right; by exists env, req|by left]. }
  - destruct (round_keeps n es ev Hok Hroom Hadm) as (a & n' & es' & -> & Hok').
    exists es'. by apply in_order_of.
  - destruct (refuse_ok n es (from env) req Hok Href) as (n' & Hrun & Hafter). exists es.
    simpl. unfold handle_message. rewrite Hm, Hrun. apply (rf_ok _ _ _ _ Hafter).
Qed.

Lemma daemon_run_in_order cfg n : daemon_run cfg n -> exists es, in_order n es.
Proof.
  induction 1 as [now n Hn|n ev _ [es Hok] Hs|n now _ [es Hok] _|n n' now _ [es Hok] Hn].
  - destruct (fresh_ok cfg now) as (n' & Hn' & Hok). rewrite Hn in Hn'. simplify_eq.
    exists []. by apply in_order_of.
  - by apply (round_in_order n es).
  - exists es. by apply (node_ok_same (with_log_guard false n)).
  - destruct (restart_ok (with_log_guard false n) es now Hok) as (n2 & Hn2 & Hok2 & _).
    exists es. apply in_order_of. assert (restart (with_log_guard false n) [] now = restart n [] now) as Heq by done.
    rewrite Heq, Hn in Hn2. by simplify_eq.
Qed.
End effects.

(** ** Properties *)

(** C18: After any run of a daemon from an empty data directory whose file operations succeed,
    with rounds of every kind, membership changes, requests that are refused and lock the log
    for ever, the passing of time and restarts, the log, the files, the indices and the store
    fit together, whether the log is locked or not. While it is not, the log has room for an
    entry, a proposed command is within its capacities, and an [AppendEntries] is refused or
    [acceptable]: its entries are numbered on from the one before them and leave those that the
    node has committed as they are. *)
Theorem daemon_in_order {E : Env} {EL : EnvLaws E} cfg n : daemon_run cfg n ->
  node_ok (with_log_guard false n) (log_entries (log n)).
Proof.
  intros Hn. destruct (daemon_run_in_order cfg n Hn) as [es Hok].
  by rewrite (log_entries_repr (log n) es (ok_log _ _ Hok)).
Qed.

(** [node-02] accepts two entries and refuses an old request: its log stays locked, a request
    for the status waits, and a restart frees it. *)
Definition met_requests : list RaftNode :=
  let deliver req := @run_event ref_env (Deliver (mkEnvelope "node-01" "node-02" (AppendEntries req))) in
  let n1 := (deliver first_request (sample three "node-02")).2 in
  let n2 := (deliver (mkAppendEntries 0 "node-01" 0 0 [] 0) n1).2 in
  let n3 := (@run_event ref_env GetStatus n2).2 in
  let n4 := match @restart ref_env n3 [] 9 with Ok n => n | _ => n3 end in
  [sample three "node-02"; n1; n2; n3; n4].
Definition met (k : nat) : RaftNode := nth k met_requests (sample three "node-02").

Lemma daemon_in_order_witness : log_guard (met 3) = true /\ log_guard (met 4) = false /\
  @node_ok ref_env (with_log_guard false (met 3)) (ae_entries first_request) /\
  @node_ok ref_env (met 4) (ae_entries first_request).
Proof.
  assert (@daemon_run ref_env (member_config three "node-02") (met 3)) as H3.
  { apply (dr_round _ (met 2) GetStatus); [apply (dr_round _ (met 1)
      (Deliver (mkEnvelope "node-01" "node-02" (AppendEntries (mkAppendEntries 0 "node-01" 0 0 [] 0)))));
      [apply (dr_round _ (met 0) (Deliver (mkEnvelope "node-01" "node-02" (AppendEntries first_request))));
        [by apply (dr_start _ 0)|]|]|].
    - intros _. split; [by vm_compute|]. intros req [= <-]. right. split; try done.
      + by left.
      + concrete_entries.
      + concrete_entries.
    - intros _. split; [by vm_compute|]. intros req [= <-]. left. left. by vm_compute.
    - intros Hg. by vm_compute in Hg. }
  assert (@daemon_run ref_env (member_config three "node-02") (met 4)) as H4.
  { apply (dr_restart _ (met 3) (met 4) 9); [exact H3|by vm_compute]. }
  split; [by vm_compute|]. split; [by vm_compute|]. split.
  - assert (log_entries (log (met 3)) = ae_entries first_request) as <- by (vm_compute; reflexivity).
    apply (@daemon_in_order ref_env _ _ (met 3) H3).
  - assert (log_entries (log (met 4)) = ae_entries first_request) as <- by (vm_compute; reflexivity).
    apply (@in_order_free ref_env); [vm_compute; reflexivity|].
    apply (@daemon_in_order ref_env _ _ (met 4) H4).
Defined.

(** C9: In a daemon with peers, none of which is added or removed, and whose file operations
    succeed, every round, from the message or the timer to the last lock it releases, is one of
    the eight steps of the protocol, and leaves the node in order: locks, files, store and
    programs implement the step relation [effect] on the role, the term, the log, the commit
    index, the view of the peers and the messages sent. The log has room for an entry, a
    proposed command is within its capacities, and an [AppendEntries] is either refused or
    [acceptable]: its entries are numbered on from the one before them and leave those that the
    node has committed as they are. A round that deadlocks in a refused request, and a round of
    a node whose log stays locked, are among the steps. *)
Theorem rounds_are_steps {E : Env} {EL : EnvLaws E} n es ev : in_order n es ->
  N.of_nat (length es) < u64_max -> peers n <> ∅ -> orderly n es ev ->
  let n' := (run_event ev n).2 in exists es', effect n es ev n' es' /\ in_order n' es'.
Proof. apply event_effect. Qed.

(** A request that [node-02] refuses: its log stays locked, and the round is a step. *)
Lemma rounds_are_steps_witness :
  let n' := (@run_event ref_env (Deliver (mkEnvelope "node-01" "node-02" (AppendEntries second_request)))
    (sample three "node-02")).2 in
  log_guard n' = true /\ node_term n' = 2 /\
  exists es', @effect ref_env (sample three "node-02") []
    (Deliver (mkEnvelope "node-01" "node-02" (AppendEntries second_request))) n' es' /\ @in_order ref_env n' es'.
Proof.
  intros n'. split; [by vm_compute|]. split; [by vm_compute|].
  apply (@rounds_are_steps ref_env _ (sample three "node-02") []).
  - apply (@in_order_of ref_env), sample_ok.
  - by vm_compute.
  - intros Hps. apply (f_equal size) in Hps. by vm_compute in Hps.
  - intros req [= <-]. left. right. split; [done|]. intros [?|(e & He & _)]; done.
Defined.
