(* ===== verification/Reigns.v ===== *)
(** * Logs and the reigns they come from

    [R !! t] is the log of the leader of term [t], as long as it has grown.  A log is
    [grounded] in [R] when every one of its entries is in the reign of its term, after the
    entries that precede it there: the lists facts behind Log Matching, the vote on
    up-to-date logs and the replacement of a conflicting suffix. *)

From S2P Require Import Prelude Heapless Protocol Serde HashMap Log LogFacts StateMachine.
From S2P Require Import Config Env LogProps Node NodeFacts Follower Replication Election Matching.
Local Open Scope N_scope.

Notation reigns := (gmap N (list LogEntry)).

Definition reigns_grow (R R' : reigns) : Prop :=
  forall t r, R !! t = Some r -> exists r', R' !! t = Some r' /\ r `prefix_of` r'.

#[export] Instance reigns_grow_preorder : PreOrder reigns_grow.
Proof.
  split; [intros R t r Hr; by exists r|]. intros R1 R2 R3 H12 H23 t r Hr.
  destruct (H12 t r Hr) as (r2 & Hr2 & ?). destruct (H23 t r2 Hr2) as (r3 & ? & ?).
  exists r3. split; [done|by etransitivity].
Qed.

(** The terms do not decrease along a log. *)
Definition rising (a : list LogEntry) : Prop :=
  forall i j e e', (i <= j)%nat -> a !! i = Some e -> a !! j = Some e' -> term e <= term e'.

Record grounded {H : Heapless} (R : reigns) (t : N) (a : list LogEntry) : Prop := {
  gr_origin i e : a !! i = Some e -> exists r, R !! term e = Some r /\ take (S i) a `prefix_of` r;
  gr_rising : rising a;
  gr_terms : Forall (fun e => 0 < term e <= t) a;
  gr_numbered : consecutive 0 a;
  gr_wf : Forall wf_entry a;
  gr_bound : N.of_nat (length a) < u64_max;
}.

Lemma prefix_is_take {A} (a b : list A) : a `prefix_of` b -> a = take (length a) b.
Proof. intros [k ->]. by rewrite take_app_length. Qed.

Lemma prefix_take_same {A} (a b : list A) m : a `prefix_of` b -> (m <= length a)%nat -> take m a = take m b.
Proof. intros [k ->] Hm. by rewrite take_app_le. Qed.

Lemma prefix_comparable {A} (a b c : list A) : a `prefix_of` c -> b `prefix_of` c ->
  (length a <= length b)%nat -> a `prefix_of` b.
Proof.
  intros Ha Hb Hle. destruct (prefix_weak_total a b c Ha Hb) as [|Hba]; [done|].
  pose proof (prefix_length _ _ Hba). destruct Hba as [[|x k] ->]; [by rewrite app_nil_r|].
  rewrite length_app in Hle. simpl in Hle. lia.
Qed.

Section grounded.
Context {H : Heapless}.

Lemma grounded_nil R t : grounded R t [].
Proof. by split. Qed.

Lemma grounded_prefix R t a b : a `prefix_of` b -> grounded R t b -> grounded R t a.
Proof.
  intros Hp [Ho Hr Ht Hn Hw Hb]. pose proof (prefix_length _ _ Hp) as Hlen.
  assert (forall i e, a !! i = Some e -> b !! i = Some e) as Hin by (intros; by eapply prefix_lookup_Some).
  split.
  - intros i e He. destruct (Ho i e (Hin i e He)) as (r & Hr' & Hpr). exists r. split; [done|].
    etransitivity; [|exact Hpr]. rewrite (prefix_is_take _ _ Hp), take_take.
    apply lookup_lt_Some in He. by rewrite Nat.min_l by lia.
  - intros i j e e' Hij He He'. apply (Hr i j); auto.
  - rewrite (prefix_is_take _ _ Hp). by apply Forall_take.
  - rewrite (prefix_is_take _ _ Hp). by apply consecutive_take.
  - rewrite (prefix_is_take _ _ Hp). by apply Forall_take.
  - lia.
Qed.

Lemma grounded_grow R R' t t' a : reigns_grow R R' -> t <= t' -> grounded R t a -> grounded R' t' a.
Proof.
  intros HR Ht [Ho Hr Hte Hn Hw Hb]. split; try done.
  - intros i e He. destruct (Ho i e He) as (r & Hr' & Hp). destruct (HR _ _ Hr') as (r' & ? & ?).
    exists r'. split; [done|by etransitivity].
  - eapply Forall_impl; [exact Hte|]. intros e. simpl. lia.
Qed.

Lemma grounded_agree R t u a b : grounded R t a -> grounded R u b -> agree a b.
Proof.
  intros Ha Hb i e e' He He' Ht. destruct (gr_origin _ _ _ Ha i e He) as (r & Hr & Hpa).
  destruct (gr_origin _ _ _ Hb i e' He') as (r' & Hr' & Hpb). rewrite Ht, Hr' in Hr. simplify_eq.
  apply prefix_is_take in Hpa, Hpb. apply lookup_lt_Some in He, He'.
  rewrite length_take, Nat.min_l in Hpa, Hpb by lia. congruence.
Qed.

Lemma grounded_last R t a e : grounded R t a -> last a = Some e ->
  exists r, R !! term e = Some r /\ a `prefix_of` r.
Proof.
  intros Ha He. rewrite last_lookup in He. destruct (gr_origin _ _ _ Ha _ _ He) as (r & Hr & Hp).
  exists r. split; [done|]. apply lookup_lt_Some in He. by rewrite take_ge in Hp by lia.
Qed.

Lemma rising_last a e i x : rising a -> last a = Some e -> a !! i = Some x -> term x <= term e.
Proof.
  intros Hr He Hx. rewrite last_lookup in He. pose proof (lookup_lt_Some _ _ _ Hx).
  apply (Hr i (pred (length a))); [lia|done|done].
Qed.

(** An entry of the term after the last one of [a]. *)
Lemma grounded_snoc R t a c : grounded R t a -> R !! t = Some a -> 0 < t -> wf_command c ->
  N.of_nat (length a) + 1 < u64_max ->
  let a' := spec_append a t c in grounded (<[t := a']> R) t a'.
Proof.
  intros [Ho Hr Hte Hn Hw Hb] Ha Ht Hc Hmax a'. unfold a', spec_append.
  set (e := mkEntry _ t c).
  assert (forall i x, (a ++ [e]) !! i = Some x -> a !! i = Some x \/ i = length a /\ x = e) as Hcase.
  { intros i x Hx. apply lookup_app_Some in Hx as [Hx|[Hi Hx]]; [by left|right].
    apply list_lookup_singleton_Some in Hx as [Hi' <-]. split; [lia|done]. }
  split.
  - intros i x Hx. destruct (Hcase i x Hx) as [Hxa|[-> ->]].
    + rewrite take_app_le by (apply lookup_lt_Some in Hxa; lia).
      destruct (Ho i x Hxa) as (r & Hrx & Hp). destruct (decide (term x = t)) as [Heq|Hne].
      * rewrite Heq in *. rewrite lookup_insert_eq. exists (a ++ [e]). split; [done|].
        rewrite Hrx in Ha. simplify_eq.
        etransitivity; [exact Hp|by apply prefix_app_r].
      * rewrite lookup_insert_ne by done. by exists r.
    + exists (a ++ [e]). simpl. rewrite lookup_insert_eq. split; [done|].
      by rewrite take_ge by (rewrite length_app; simpl; lia).
  - intros i j x y Hij Hx Hy. rewrite Forall_lookup in Hte.
    destruct (Hcase i x Hx) as [Hxa|[-> ->]], (Hcase j y Hy) as [Hya|[-> ->]]; simpl.
    + by apply (Hr i j).
    + by apply (Hte i x).
    + apply lookup_lt_Some in Hya. lia.
    + done.
  - apply Forall_app. split; [done|]. apply Forall_singleton. simpl. lia.
  - intros i x Hx. destruct (Hcase i x Hx) as [Hxa|[-> ->]]; [by apply Hn|simpl; lia].
  - apply Forall_app. split; [done|]. by apply Forall_singleton.
  - rewrite length_app. simpl. lia.
Qed.

(** A vote for a log that is up to date is a vote for a log that holds [b], when every
    reign after that of its last entry does. *)
Lemma up_to_date_holds R t u es a b e req : grounded R t es -> grounded R u a ->
  b `prefix_of` es -> last b = Some e -> (exists r, R !! term e = Some r /\ b `prefix_of` r) ->
  (forall v r, term e < v -> R !! v = Some r -> b `prefix_of` r) ->
  N.of_nat (length a) = rv_last_log_index req ->
  default 0 (term <$> last a) = rv_last_log_term req -> up_to_date req es -> b `prefix_of` a.
Proof.
  intros Hes Ha Hb He Hin Hlater Hlen Hlast Hup.
  assert (exists x, last es = Some x /\ term e <= term x) as (x & Hx & Hex).
  { rewrite last_lookup in He. pose proof (prefix_lookup_Some _ _ _ _ He Hb) as Hes'.
    destruct (last es) as [x|] eqn:Hx.
    - exists x. split; [done|]. by eapply rising_last; [apply Hes|..].
    - apply last_None in Hx as ->. by rewrite lookup_nil in Hes'. }
  destruct (grounded_last _ _ _ _ Hes Hx) as (rx & Hrx & Hpx).
  unfold up_to_date in Hup. rewrite Hx, <-Hlast, <-Hlen in Hup. simpl in Hup.
  destruct (last a) as [y|] eqn:Hy; simpl in Hup.
  2: { rewrite last_None in Hy. subst. pose proof (gr_terms _ _ _ Hes) as Hte.
       rewrite Forall_forall in Hte. apply last_Some_elem_of in Hx. specialize (Hte x Hx). simpl in *. lia. }
  destruct (grounded_last _ _ _ _ Ha Hy) as (ry & Hry & Hpy).
  destruct Hup as [Hlt|[Heq Hle]].
  - pose proof (Hlater (term y) ry ltac:(lia) Hry) as Hbr.
    destruct (prefix_weak_total b a ry Hbr Hpy) as [|Hab]; [done|exfalso].
    rewrite last_lookup in Hy, He. pose proof (prefix_lookup_Some _ _ _ _ Hy Hab) as Hyb.
    pose proof (grounded_prefix _ _ _ _ Hb Hes) as [_ Hr _ _ _ _].
    pose proof (lookup_lt_Some _ _ _ Hyb).
    assert (term y <= term e) by (apply (Hr (pred (length a)) (pred (length b))); [lia|done|done]). lia.
  - rewrite Heq, Hrx in Hry. simplify_eq. etransitivity; [exact Hb|].
    apply (prefix_comparable _ _ ry); [done|done|lia].
Qed.
End grounded.

(** ** The entries a follower takes *)

Lemma reconcile_same (k : nat) ldr rest : ldr `prefix_of` rest -> reconcile rest (take k ldr) = rest.
Proof.
  revert k rest. induction ldr as [|e ldr IH]; intros k rest Hp; [by rewrite take_nil|].
  destruct k as [|k]; [done|]. destruct Hp as [k' ->]. simpl. rewrite N.eqb_refl. f_equal.
  apply IH. by eexists.
Qed.

Section follower.
Context (es a : list LogEntry) (p k : nat).
Context (Hp : (p <= length a)%nat) (Hprefix : take p es = take p a).
Let es' := follower_log es p (take k (drop p a)).

(** A common prefix of the old log and of the reign stays. *)
Lemma follower_log_keeps b : b `prefix_of` es -> a `prefix_of` b \/ b `prefix_of` a ->
  b `prefix_of` es'.
Proof.
  intros Hb [Hab|Hba].
  - unfold es', follower_log. rewrite reconcile_same; [by rewrite take_drop|].
    destruct Hab as [x ->], Hb as [y ->]. exists (x ++ y). by rewrite <-(assoc_L (++)), drop_app_le by done.
  - pose proof (follower_log_committed es a p k Hp Hprefix (length b)) as Hkeep.
    rewrite <-(prefix_is_take _ _ Hb), <-(prefix_is_take _ _ Hba) in Hkeep. specialize (Hkeep eq_refl).
    rewrite <-Hkeep. apply prefix_take.
Qed.

(** The entries up to the last one sent are those of the leader. *)
Lemma follower_log_sent m : (m <= p + length (take k (drop p a)))%nat -> take m es' = take m a.
Proof.
  intros Hm. pose proof (follower_log_matching es a p k Hp Hprefix) as Hmatch. cbv zeta in Hmatch.
  apply (f_equal (take m)) in Hmatch. by rewrite !take_take, !Nat.min_l in Hmatch by done.
Qed.
End follower.

Lemma follower_log_bounded es p new : (p <= length es)%nat ->
  (length (follower_log es p new) <= length es `max` (p + length new))%nat.
Proof.
  intros Hp. unfold follower_log. rewrite length_app, length_take.
  pose proof (reconcile_length_le (drop p es) new) as Hr. rewrite length_drop in Hr. lia.
Qed.

(** The request copies entries of [a], after the one at [prev_log_index]. *)
Record copied (a : list LogEntry) (req : AppendEntriesRequest) : Prop := {
  cpd_entries : exists k, ae_entries req = take k (drop (N.to_nat (prev_log_index req)) a);
  cpd_prev : prev_log_term req = default 0 (term <$> lookup1 a (prev_log_index req));
}.

Section source.
Context {H : Heapless} (R : reigns) (t u : N) (es a r : list LogEntry) (req : AppendEntriesRequest).
Context (Hes : grounded R t es) (Hr : grounded R u r) (Ha : a `prefix_of` r) (Hcopy : copied a req).
Context (Hmatch : matches es (N.to_nat (prev_log_index req)) (prev_log_term req)).
Let p := N.to_nat (prev_log_index req).

(** The entry that precedes the new ones is the leader's, and so is all before it. *)
Lemma source_prefix : (p <= length a)%nat /\ take p es = take p a.
Proof.
  destruct Hcopy as [_ Hprev]. pose proof (grounded_prefix _ _ _ _ Ha Hr) as Hga.
  destruct Hmatch as [Hz|(e & He & Ht)]; [unfold p; rewrite Hz; by split; [lia|]|].
  rewrite N2Nat.id in He. subst p. destruct (N.to_nat (prev_log_index req)) as [|q] eqn:Hq; [by split; [lia|]|].
  replace (prev_log_index req) with (N.of_nat (S q)) in He, Hprev by lia. rewrite lookup1_S in He, Hprev.
  destruct (a !! q) as [e'|] eqn:He'; simpl in Hprev.
  - split; [by apply lookup_lt_Some in He'|]. apply (grounded_agree R t u es a Hes Hga q e e'); congruence.
  - pose proof (gr_terms _ _ _ Hes) as Hte. rewrite Forall_lookup in Hte.
    specialize (Hte q e He). simpl in Hte. lia.
Qed.

Lemma source_keeps b : b `prefix_of` es -> b `prefix_of` r -> b `prefix_of` follower_log es p (ae_entries req).
Proof.
  intros Hb Hbr. destruct source_prefix as [Hp Htake]. destruct (cpd_entries _ _ Hcopy) as [k ->].
  apply follower_log_keeps; [done|done|done|]. by apply (prefix_weak_total a b r).
Qed.

Lemma source_sent m : (m <= p + length (ae_entries req))%nat ->
  take m (follower_log es p (ae_entries req)) = take m a.
Proof.
  destruct source_prefix as [Hp Htake]. destruct (cpd_entries _ _ Hcopy) as [k ->].
  by apply follower_log_sent.
Qed.

Lemma source_grounded : t <= u -> grounded R u (follower_log es p (ae_entries req)).
Proof.
  intros Htu. unfold p. pose proof (grounded_prefix _ _ _ _ Ha Hr) as Hga.
  destruct (follower_log_choice es a req) as [-> |[k ->]]; [by eapply grounded_agree| |done| | ].
  - destruct Hcopy as [[k Hk] Hprev]. split; [by exists k|]. intros e He. by rewrite Hprev, He.
  - by eapply grounded_grow.
  - eapply grounded_prefix; [apply prefix_take|done].
Qed.

Lemma source_entries : Forall wf_entry (ae_entries req) /\ consecutive p (ae_entries req).
Proof.
  pose proof (grounded_prefix _ _ _ _ Ha Hr) as [_ _ _ Hn Hw _].
  destruct (cpd_entries _ _ Hcopy) as [k ->]. split.
  - by apply Forall_take, Forall_drop.
  - by apply consecutive_take, consecutive_drop.
Qed.
End source.
