(* ===== verification/Safety.v ===== *)
(** * The invariant behind the safety of the cluster

    [safe h R B c] describes a reachable cluster [c] with the histories [h] of what the
    nodes have sent, the reigns [R] and the bids [B]: [B !! (t, x)] is the log with which
    [x] stood in term [t].  An entry is committed under a [chosen] log: one that two nodes
    hold, and that no vote they have given since, and no later reign, is without.  The
    cluster has two or three nodes, so that any two nodes that elect a leader and any two
    that hold a log have one in common. *)

From S2P Require Import Prelude Heapless Protocol Serde HashMap Log LogFacts StateMachine.
From S2P Require Import Config Env LogProps Node NodeFacts Sample Daemon Votes Rounds Follower.
From S2P Require Import Replication Election Leader Members Effects Cluster Scenarios ClusterProps Copies Matching Reigns.
Local Open Scope N_scope.

Notation bids := (gmap (N * string) (list LogEntry)).
Notation histories := (string -> list MessageEnvelope).

Section safety.
Context {E : Env} {EL : EnvLaws E} (cfgs : list Config) (con : connected cfgs).
Implicit Types (h : histories) (R : reigns) (B : bids) (c : cluster).

(** [v] holds [b] since term [t]: in its log, and in its votes of the later terms. *)
Record holder h B c (b : list LogEntry) (t : N) (v : string) : Prop := {
  ho_member : v ∈ names_of cfgs;
  ho_log n es : nodes c !! v = Some n -> log_inv (log n) es -> t <= node_term n /\ b `prefix_of` es;
  ho_votes u x : (u, x) ∈ ballots (h v) -> t < u -> exists a, B !! (u, x) = Some a /\ b `prefix_of` a;
}.

Record chosen h R B c (b : list LogEntry) (t : N) : Prop := {
  ch_last : exists e, last b = Some e /\ term e = t;
  ch_reign : exists r, R !! t = Some r /\ b `prefix_of` r;
  ch_later u r : t < u -> R !! u = Some r -> b `prefix_of` r;
  ch_holders : exists v1 v2, v1 <> v2 /\ holder h B c b t v1 /\ holder h B c b t v2;
}.

(** The entries [p] are committed by a leader of a term up to [t]. *)
Definition covered h R B c (t : N) (p : list LogEntry) : Prop :=
  p = [] \/ exists b u, chosen h R B c b u /\ u <= t /\ p `prefix_of` b.

Record safe_node h R B c (name : string) (n : RaftNode) (es : list LogEntry) : Prop := {
  sf_order : in_order n es;
  sf_ground : grounded R (node_term n) es;
  sf_leader : role n = Leader -> R !! node_term n = Some es;
  sf_candidate : role n = Candidate ->
    B !! (node_term n, name) = Some es /\ R !! node_term n = None \/
    exists x, x <> name /\ elected cfgs h (node_term n) x;
  sf_commit : covered h R B c (node_term n) (take (N.to_nat (commit_index n)) es);
  sf_match : role n = Leader -> forall p m, match_index n !! p = Some m ->
    m <= N.of_nat (length es) /\
    forall i e, i <= m -> lookup1 es i = Some e -> term e = node_term n -> i <= commit_index n;
  sf_keys p : is_Some (match_index n !! p) -> p ∈ names_of cfgs /\ p <> name;
}.

(** A request in flight. *)
Record request_ok h R B c (env : MessageEnvelope) (req : AppendEntriesRequest) : Prop := {
  rq_elected : elected cfgs h (ae_term req) (from env);
  rq_source : exists r a, R !! ae_term req = Some r /\ a `prefix_of` r /\ copied a req /\
    covered h R B c (ae_term req) (take (N.to_nat (leader_commit req)) a);
}.

Definition canvass_ok B (req : RequestVoteRequest) : Prop :=
  exists a, B !! (rv_term req, candidate_id req) = Some a /\
    N.of_nat (length a) = rv_last_log_index req /\
    default 0 (term <$> last a) = rv_last_log_term req.

Record safe h R B c : Prop := {
  sa_reign t r : R !! t = Some r -> 0 < t /\ grounded R t r /\ exists x, elected cfgs h t x;
  sa_bid t x a : B !! (t, x) = Some a -> 0 < t /\ grounded R t a /\ (t, x) ∈ ballots (h x);
  sa_nodes name n : nodes c !! name = Some n -> exists es, safe_node h R B c name n es;
  sa_request env req : env ∈ in_flight c -> message env = AppendEntries req -> request_ok h R B c env req;
  sa_canvass env req : env ∈ in_flight c -> message env = RequestVote req -> canvass_ok B req;
}.

(** ** Two quorums meet *)

Lemma quorums_meet h t x v1 v2 : elected cfgs h t x -> v1 <> v2 -> v1 ∈ names_of cfgs ->
  v2 ∈ names_of cfgs -> (t, x) ∈ ballots (h v1) \/ (t, x) ∈ ballots (h v2).
Proof.
  intros (Hx & Hbx & w & Hw & Hwx & Hbw) Hne H1 H2.
  destruct (decide (v1 = x)) as [->|]; [by left|]. destruct (decide (v2 = x)) as [->|]; [by right|].
  destruct (decide (v1 = w)) as [->|]; [by left|]. destruct (decide (v2 = w)) as [->|]; [by right|].
  exfalso. assert ([x; w; v1; v2] ⊆+ names_of cfgs) as Hsub%submseteq_length.
  { apply NoDup_submseteq; [by repeat (constructor; [set_solver|]); constructor|set_solver]. }
  pose proof (con_few _ con) as Hfew. simpl in Hsub. lia.
Qed.

(** What is chosen is in the bid of every leader of a later term. *)
Lemma chosen_elected h R B c b t u x : chosen h R B c b t -> t < u -> elected cfgs h u x ->
  exists a, B !! (u, x) = Some a /\ b `prefix_of` a.
Proof.
  intros [_ _ _ (v1 & v2 & Hne & H1 & H2)] Hu Hx.
  destruct (quorums_meet h u x v1 v2) as [Hb|Hb]; try done.
  - apply (ho_member _ _ _ _ _ _ H1).
  - apply (ho_member _ _ _ _ _ _ H2).
  - by apply (ho_votes _ _ _ _ _ _ H1).
  - by apply (ho_votes _ _ _ _ _ _ H2).
Qed.

Lemma chosen_reign h R B c b t u r : chosen h R B c b t -> t <= u -> R !! u = Some r -> b `prefix_of` r.
Proof.
  intros Hch Hu Hr. destruct (decide (t = u)) as [->|].
  - destruct (ch_reign _ _ _ _ _ _ Hch) as (r' & Hr' & Hp). congruence.
  - eapply ch_later; [exact Hch| |exact Hr]. lia.
Qed.

Lemma covered_reign h R B c t p u r : covered h R B c t p -> t <= u -> R !! u = Some r -> p `prefix_of` r.
Proof.
  intros [->|(b & v & Hch & Hv & Hp)] Hu Hr; [apply prefix_nil|].
  etransitivity; [exact Hp|]. eapply chosen_reign; [exact Hch| |exact Hr]. lia.
Qed.

Lemma covered_mono h R B c t u p q : t <= u -> q `prefix_of` p -> covered h R B c t p -> covered h R B c u q.
Proof.
  intros Hu Hq [->|(b & v & Hch & Hv & Hp)].
  { left. by apply prefix_nil_inv. }
  right.
  exists b, v. split_and!; [done|lia|by transitivity p].
Qed.

(** Two covered prefixes are comparable. *)
Lemma covered_comparable h R B c t u p q : covered h R B c t p -> covered h R B c u q ->
  p `prefix_of` q \/ q `prefix_of` p.
Proof.
  intros [->|(b & v & Hch & Hv & Hp)]; [left; apply prefix_nil|].
  intros [->|(b' & v' & Hch' & Hv' & Hq)]; [right; apply prefix_nil|].
  assert (exists r, b `prefix_of` r /\ b' `prefix_of` r) as (r & Hb & Hb').
  { destruct (decide (v <= v')) as [Hle|Hle].
    - destruct (ch_reign _ _ _ _ _ _ Hch') as (r & Hr & Hb'). exists r. split; [|done].
      by eapply chosen_reign.
    - destruct (ch_reign _ _ _ _ _ _ Hch) as (r & Hr & Hb). exists r. split; [done|].
      eapply chosen_reign; [done| |done]. lia. }
  apply (prefix_weak_total p q r); [by transitivity b|by transitivity b'].
Qed.

(** The cluster moves on, and what was chosen remains so. *)
Definition safe_step h R B c h' R' B' c' : Prop :=
  safe h' R' B' c' /\ (forall b t, chosen h R B c b t -> chosen h' R' B' c' b t) /\ reigns_grow R R'.

(** A message less in flight. *)
Lemma chosen_nodes h R B c c2 b t : nodes c2 = nodes c -> chosen h R B c b t -> chosen h R B c2 b t.
Proof.
  intros Heq [He Hr Hl (v1 & v2 & Hne & H1 & H2)]. split; try done. exists v1, v2.
  split_and!; [done|destruct H1|destruct H2]; (split; [done|by rewrite Heq|done]).
Qed.

Lemma covered_nodes h R B c c2 t p : nodes c2 = nodes c -> covered h R B c t p -> covered h R B c2 t p.
Proof.
  intros Heq [->|(b & u & Hch & ?)]; [by left|right]. exists b, u. split; [by eapply chosen_nodes, Hch|done].
Qed.

Lemma request_nodes h R B c c2 env req : nodes c2 = nodes c -> request_ok h R B c env req ->
  request_ok h R B c2 env req.
Proof.
  intros Heq [He (r & a & ? & ? & ? & Hc)]. split; [done|]. exists r, a.
  split_and!; try done. by eapply (covered_nodes _ _ _ c).
Qed.

Lemma safe_take_off h R B c i : safe h R B c -> safe h R B (take_off i c).
Proof.
  intros [Hr Hb Hn Hf Hv].
  assert (forall env, env ∈ in_flight (take_off i c) -> env ∈ in_flight c) as Hsub.
  { intros env. simpl. intros [Hin|Hin]%elem_of_app;
      [by apply subseteq_take in Hin|by apply subseteq_drop in Hin]. }
  split; try done.
  - intros name n Hname. destruct (Hn name n Hname) as [es []]. exists es.
    split; try done. by eapply (covered_nodes _ _ _ c).
  - intros env req Henv Hm. apply (request_nodes _ _ _ c); [done|]. by apply Hf; [apply Hsub|].
  - intros env req Henv. by apply Hv, Hsub.
Qed.

Lemma step_covered h R B c h' R' B' c' t p : safe_step h R B c h' R' B' c' ->
  covered h R B c t p -> covered h' R' B' c' t p.
Proof. intros (_ & Hch & _) [->|(b & u & Hb & ?)]; [by left|right]. exists b, u. split; [by apply Hch|done]. Qed.

Lemma step_trans h1 R1 B1 c1 h2 R2 B2 c2 h3 R3 B3 c3 : safe_step h1 R1 B1 c1 h2 R2 B2 c2 ->
  safe_step h2 R2 B2 c2 h3 R3 B3 c3 -> safe_step h1 R1 B1 c1 h3 R3 B3 c3.
Proof.
  intros (_ & H12 & G12) (Hs & H23 & G23). split_and!; [done| |by etransitivity].
  intros b t Hb. by apply H23, H12.
Qed.

Lemma step_idle h R B c : safe h R B c -> safe_step h R B c h R B c.
Proof. intros Hs. by split_and!. Qed.

(** The delivery of a message begins with its removal. *)
Lemma step_take_off h R B c i h' R' B' c' : safe_step h R B (take_off i c) h' R' B' c' ->
  safe_step h R B c h' R' B' c'.
Proof.
  intros (Hs & Hch & Hg). split_and!; [done| |done]. intros b t Hb. apply Hch. by eapply (chosen_nodes _ _ _ c).
Qed.

(** ** One node changes *)

Section update.
Context h R B c (name : string) (n : RaftNode) (es : list LogEntry).
Context (Hsound : sound cfgs h c) (Hsafe : safe h R B c).
Context (Hname : nodes c !! name = Some n) (Hnode : safe_node h R B c name n es).
Context (h' : histories) (R' : reigns) (B' : bids) (n' : RaftNode) (es' : list LogEntry).
Context (fl : list MessageEnvelope).
Let c' := mkCluster (<[name := n']> (nodes c)) fl.

(** What the change does to the log, the votes, the reigns and the bids. *)
Record progress : Prop := {
  pg_history v : h v `prefix_of` h' v;
  pg_others v : v <> name -> h' v = h v;
  pg_bids k a : B !! k = Some a -> B' !! k = Some a;
  pg_log : log_inv (log n') es';
  pg_term : node_term n <= node_term n';
  pg_keeps b t : chosen h R B c b t -> t <= node_term n -> b `prefix_of` es -> b `prefix_of` es';
  pg_votes u x : (u, x) ∈ ballots (h' name) -> (u, x) ∈ ballots (h name) \/
    forall b t, chosen h R B c b t -> t <= node_term n -> b `prefix_of` es -> t < u ->
      exists a, B' !! (u, x) = Some a /\ b `prefix_of` a;
  pg_reigns : reigns_grow R R';
  pg_crowned u r : R' !! u = Some r -> R !! u = Some r \/
    role n' = Leader /\ u = node_term n' /\ r = es' /\ 0 < u /\
    forall b t, chosen h R B c b t -> t < u -> b `prefix_of` es';
}.

Context (Hp : progress).

Lemma progress_holder b t v : chosen h R B c b t -> holder h B c b t v -> holder h' B' c' b t v.
Proof.
  intros Hch [Hv Hl Hb]. destruct (decide (v = name)) as [->|Hne].
  - destruct (Hl n es Hname) as [Ht Hes]; [apply (ok_log _ _ (sf_order _ _ _ _ _ _ _ Hnode))|].
    split; [done| |].
    + intros m es0. simpl. rewrite lookup_insert_eq. intros [= <-] Hes0.
      rewrite (log_inv_unique _ _ _ Hes0 (pg_log Hp)). pose proof (pg_term Hp).
      split; [lia|by eapply pg_keeps].
    + intros u x Hin Hu. destruct (pg_votes Hp u x Hin) as [Hold|Hnew]; [|by eapply Hnew].
      destruct (Hb u x Hold Hu) as (a & Ha & Hba). exists a. split; [by apply (pg_bids Hp)|done].
  - split; [done| |].
    + intros m es0. simpl. rewrite lookup_insert_ne by done. apply Hl.
    + intros u x. rewrite (pg_others Hp v Hne). intros Hin Hu.
      destruct (Hb u x Hin Hu) as (a & Ha & Hba). exists a. split; [by apply (pg_bids Hp)|done].
Qed.

Lemma progress_chosen b t : chosen h R B c b t -> chosen h' R' B' c' b t.
Proof.
  intros Hch. pose proof Hch as [He (r & Hr & Hbr) Hlater (v1 & v2 & Hne & H1 & H2)]. split; [done| | |].
  - destruct (pg_reigns Hp t r Hr) as (r' & Hr' & Hrr). exists r'. split; [done|by transitivity r].
  - intros u r' Hu Hr'. destruct (pg_crowned Hp u r' Hr') as [Hold|(_ & _ & -> & _ & Hnew)].
    + by eapply Hlater.
    + by eapply Hnew.
  - exists v1, v2. split_and!; [done|by apply progress_holder..].
Qed.

Lemma progress_covered t p : covered h R B c t p -> covered h' R' B' c' t p.
Proof.
  intros [->|(b & u & Hch & ?)]; [by left|right]. exists b, u. split; [by apply progress_chosen|done].
Qed.

Lemma progress_elected t x : elected cfgs h t x -> elected cfgs h' t x.
Proof. apply elected_grows, (pg_history Hp). Qed.

Context (Hsound' : sound cfgs h' c') (Hnode' : safe_node h' R' B' c' name n' es').
Context (Hbids : forall t x a, B' !! (t, x) = Some a -> B !! (t, x) = Some a \/
  0 < t /\ grounded R' t a /\ (t, x) ∈ ballots (h' x)).
Context (Hflight : forall env, env ∈ fl -> env ∈ in_flight c \/
  (forall req, message env = AppendEntries req -> request_ok h' R' B' c' env req) /\
  (forall req, message env = RequestVote req -> canvass_ok B' req)).

Lemma update_crowned : role n' = Leader -> elected cfgs h' (node_term n') name.
Proof.
  apply (sn_elected cfgs h' name n'), (so_nodes cfgs h' c' Hsound'). simpl. by rewrite lookup_insert_eq.
Qed.

(** The other nodes do not notice. *)
Lemma update_other name' m : name' <> name -> nodes c !! name' = Some m ->
  exists esm, safe_node h' R' B' c' name' m esm.
Proof.
  intros Hne Hm. destruct (sa_nodes _ _ _ _ Hsafe name' m Hm) as (esm & [Ho Hg Hl Hc Hcm Hmt Hk]).
  exists esm. split; try done.
  - eapply grounded_grow; [apply (pg_reigns Hp)|done|exact Hg].
  - intros Hr. pose proof (Hl Hr) as Hes. destruct (pg_reigns Hp _ _ Hes) as (r' & Hr' & _).
    destruct (pg_crowned Hp _ _ Hr') as [Hold|(Hlead & Ht & _)]; [congruence|].
    exfalso. apply Hne, (elected_unique cfgs con h' (node_term m)); [apply (so_single _ _ _ Hsound')| |].
    + apply progress_elected. by apply (sn_elected _ _ _ _ (so_nodes _ _ _ Hsound _ _ Hm)).
    + rewrite Ht. by apply update_crowned.
  - intros Hr. destruct (Hc Hr) as [[Hb Hn]|(x & Hx & Hex)].
    + destruct (R' !! node_term m) as [r|] eqn:Hr'; [|left; split; [by apply (pg_bids Hp)|done]].
      destruct (pg_crowned Hp _ _ Hr') as [Hold|(Hlead & Ht & _)]; [congruence|].
      right. exists name. split; [done|]. rewrite Ht. by apply update_crowned.
    + right. exists x. split; [done|by apply progress_elected].
  - by apply progress_covered.
Qed.

Lemma safe_update : safe_step h R B c h' R' B' c'.
Proof.
  split; [|split; [by apply progress_chosen|apply (pg_reigns Hp)]]. split.
  - intros t r Hr. destruct (pg_crowned Hp t r Hr) as [Hold|(Hlead & -> & -> & Ht & _)].
    + destruct (sa_reign _ _ _ _ Hsafe t r Hold) as (Ht & Hg & x & Hx). split_and!; [done| |].
      * eapply grounded_grow; [apply (pg_reigns Hp)|done|done].
      * exists x. by apply progress_elected.
    + split_and!; [done|apply (sf_ground _ _ _ _ _ _ _ Hnode')|]. exists name. by apply update_crowned.
  - intros t x a Ha. destruct (Hbids t x a Ha) as [Hold|]; [|done].
    destruct (sa_bid _ _ _ _ Hsafe t x a Hold) as (Ht & Hg & Hin). split_and!; [done| |].
    + eapply grounded_grow; [apply (pg_reigns Hp)|done|done].
    + eapply ballots_prefix; [apply (pg_history Hp)|done].
  - intros name' m. simpl. rewrite lookup_insert_Some. intros [[<- <-]|[Hne Hm]]; [by exists es'|].
    by apply (update_other name').
  - intros env req Henv Hm. destruct (Hflight env Henv) as [Hold|[Hnew _]]; [|by apply Hnew].
    destruct (sa_request _ _ _ _ Hsafe env req Hold Hm) as [He (r & a & Hr & Ha & Hcp & Hcov)].
    destruct (pg_reigns Hp _ _ Hr) as (r' & Hr' & Hrr).
    split; [by apply progress_elected|]. exists r', a.
    split_and!; [done|by transitivity r|done|by apply progress_covered].
  - intros env req Henv Hm. destruct (Hflight env Henv) as [Hold|[_ Hnew]]; [|by apply Hnew].
    destruct (sa_canvass _ _ _ _ Hsafe env req Hold Hm) as (a & Ha & ?).
    exists a. split; [by apply (pg_bids Hp)|done].
Qed.
End update.

(** Time passes, or the node is restarted. *)
Lemma safe_replace h R B c name n es n' (c' := mkCluster (<[name := n']> (nodes c)) (in_flight c)) :
  sound cfgs h c -> safe h R B c -> nodes c !! name = Some n -> safe_node h R B c name n es ->
  sound cfgs h c' -> in_order n' es -> node_term n' = node_term n ->
  role n' = role n /\ commit_index n' = commit_index n /\ match_index n' = match_index n \/
    role n' = Follower /\ commit_index n' = 0 /\ match_index n' = ∅ -> safe_step h R B c h R B c'.
Proof.
  intros Hs Hsafe Hname Hn Hs' Ho Ht Hcase.
  assert (progress h R B c name n es h R B n' es) as Hp.
  { split; try done; [apply (ok_log _ _ Ho)|by rewrite Ht|by intros; left|by intros; left]. }
  apply (safe_update h R B c name n es Hs Hsafe Hname Hn h R B n' es (in_flight c) Hp Hs'); [|by intros; left|by intros; left].
  pose proof Hn as [_ Hg Hl Hc Hcov Hm Hk]. split; try done; rewrite ?Ht.
  - done.
  - by destruct Hcase as [(-> & _)|(-> & _)].
  - by destruct Hcase as [(-> & _)|(-> & _)].
  - destruct Hcase as [(_ & -> & _)|(_ & -> & _)]; [by eapply progress_covered|by left].
  - destruct Hcase as [(-> & -> & ->)|(-> & _)]; done.
  - intros p. destruct Hcase as [(_ & _ & ->)|(_ & _ & ->)]; [by apply Hk|by intros []].
Qed.
End safety.
