(* ===== verification/SafeRounds.v ===== *)
(** * The rounds keep the invariant of Safety.v

    One lemma for each of the eight effects of Effects.v: what a leader sends is its reign,
    what a follower takes keeps what is chosen, a vote goes to a log that holds it, and an
    entry that a leader counts twice is chosen. *)

From S2P Require Import Prelude Heapless Protocol Serde HashMap Log LogFacts StateMachine.
From S2P Require Import Config Env LogProps Node NodeFacts Sample Daemon Votes Rounds Follower.
From S2P Require Import Replication Election Invariant Leader Members Effects Cluster Scenarios ClusterProps Copies Matching Reigns Safety.
Local Open Scope N_scope.

Section rounds.
Context {E : Env} {EL : EnvLaws E} (cfgs : list Config) (con : connected cfgs).
Context (h : histories) (R : reigns) (B : bids) (c : cluster).
Context (name : string) (n : RaftNode) (es : list LogEntry) (ev : event).
Context (Hsound : sound cfgs h c) (Hsafe : safe cfgs h R B c).
Context (Hname : nodes c !! name = Some n) (Hnode : safe_node cfgs h R B c name n es).
Context (Hfair : fair_round cfgs h name n ev).
Let n' := (run_event ev n).2.
Let h' := extend name (outgoing n') h.
Let c' := node_event name ev c.

Lemma round_sound' : sound cfgs h' c'.
Proof. by apply (sound_round cfgs con h c name n ev). Qed.

Lemma round_cluster : c' = mkCluster (<[name := n']> (nodes c))
  (in_flight c ++ drop (length (outgoing n)) (outgoing n')).
Proof. unfold c', node_event. by rewrite Hname. Qed.

Lemma round_sent_before : outgoing n = h name.
Proof. apply (sn_sent _ _ _ _ (so_nodes _ _ _ Hsound _ _ Hname)). Qed.

Lemma round_after : sound_node cfgs h' name n'.
Proof. apply (so_nodes _ _ _ round_sound'). rewrite round_cluster. apply lookup_insert_eq. Qed.

Lemma round_from env : env ∈ outgoing n' -> from env = name.
Proof.
  destruct round_after as [(cfg & _ & <- & Hm) _ _ _ _]. pose proof (mem_sent _ _ _ _ _ Hm) as Hall.
  rewrite Forall_forall in Hall. intros Henv. apply (gen_from _ _ _ (Hall env Henv)).
Qed.

Lemma round_leads : role n' = Leader -> elected cfgs h' (node_term n') name.
Proof. apply (sn_elected _ _ _ _ round_after). Qed.

Section sends.
Context (new : list MessageEnvelope) (Hout : outgoing n' = outgoing n ++ new).

Lemma round_history v : h v `prefix_of` h' v.
Proof. apply extend_grows. rewrite <-round_sent_before, Hout. by apply prefix_app_r. Qed.

(** The parts of [progress] that concern the messages. *)
Lemma round_progress R' B' es' : log_inv (log n') es' -> node_term n <= node_term n' ->
  (forall b t, chosen cfgs h R B c b t -> t <= node_term n -> b `prefix_of` es -> b `prefix_of` es') ->
  (forall u x, (u, x) ∈ ballots new -> forall b t, chosen cfgs h R B c b t -> t <= node_term n ->
    b `prefix_of` es -> t < u -> exists a, B' !! (u, x) = Some a /\ b `prefix_of` a) ->
  (forall k a, B !! k = Some a -> B' !! k = Some a) -> reigns_grow R R' ->
  (forall u r, R' !! u = Some r -> R !! u = Some r \/ role n' = Leader /\ u = node_term n' /\ r = es' /\
    0 < u /\ forall b t, chosen cfgs h R B c b t -> t < u -> b `prefix_of` es') ->
  progress cfgs h R B c name n es h' R' B' n' es'.
Proof.
  intros Hlog Ht Hkeeps Hvotes HB HR Hcrown. split; try done.
  - apply round_history.
  - intros v Hv. unfold h', extend. by rewrite decide_False.
  - intros u x Hin. unfold h', extend in Hin. rewrite decide_True, Hout in Hin by done.
    unfold ballots in Hin. rewrite omap_app in Hin. apply elem_of_app in Hin as [Hin|Hin].
    + left. by rewrite <-round_sent_before.
    + right. intros b t. by apply Hvotes.
Qed.

Lemma round_safe R' B' es' : progress cfgs h R B c name n es h' R' B' n' es' ->
  safe_node cfgs h' R' B' c' name n' es' ->
  (forall t x a, B' !! (t, x) = Some a -> B !! (t, x) = Some a \/
    0 < t /\ grounded R' t a /\ (t, x) ∈ ballots (h' x)) ->
  (forall env, env ∈ new -> from env = name ->
    (forall req, message env = AppendEntries req -> request_ok cfgs h' R' B' c' env req) /\
    (forall req, message env = RequestVote req -> canvass_ok B' req)) ->
  safe_step cfgs h R B c h' R' B' c'.
Proof.
  intros Hp Hn' Hb Hf. pose proof round_sound' as Hs'. rewrite round_cluster in *.
  rewrite Hout, drop_app_length in *.
  apply (safe_update cfgs con h R B c name n es Hsound Hsafe Hname Hnode h' R' B' n' es'); try done.
  intros env [|Henv]%elem_of_app; [by left|right]. apply Hf; [done|].
  apply round_from. rewrite Hout. apply elem_of_app. by right.
Qed.

(** A round that leaves the reigns, the bids and the log. *)
Lemma quiet_progress : log_inv (log n') es -> node_term n <= node_term n' -> ballots new = [] ->
  progress cfgs h R B c name n es h' R B n' es.
Proof.
  intros Hl Ht Hb. apply round_progress; try done; [|by intros ? ?; left].
  rewrite Hb. by intros u x ?%not_elem_of_nil.
Qed.
End sends.

(** ** The messages sent *)

Lemma no_ballots new : Forall (fun env => ballot_of env = None) new -> ballots new = [].
Proof.
  rewrite Forall_forall. intros Hnew. apply elem_of_nil_inv. intros b Hb.
  apply list_elem_of_omap in Hb as (env & Henv & He). by rewrite Hnew in He.
Qed.

Lemma plain_ballots new : Forall plain_message new -> ballots new = [].
Proof.
  intros Hnew. apply no_ballots. eapply Forall_impl; [exact Hnew|]. intros env Henv.
  unfold ballot_of, plain_message in *. destruct (message env); try done. by rewrite Henv.
Qed.

Lemma plain_flight R' B' env : plain_message env ->
  (forall req, message env = AppendEntries req -> request_ok cfgs h' R' B' c' env req) /\
  (forall req, message env = RequestVote req -> canvass_ok B' req).
Proof. unfold plain_message. destruct (message env); try done; by split; intros. Qed.

Lemma heartbeat_ballots (ps : list string) es' : ballots (heartbeat n' es' <$> ps) = [].
Proof. apply no_ballots, Forall_fmap, Forall_forall. done. Qed.

Lemma heartbeat_flight R' B' es' (ps : list string) env : role n' = Leader -> R' !! node_term n' = Some es' ->
  covered cfgs h' R' B' c' (node_term n') (take (N.to_nat (commit_index n')) es') ->
  env ∈ heartbeat n' es' <$> ps -> from env = name ->
  (forall req, message env = AppendEntries req -> request_ok cfgs h' R' B' c' env req) /\
  (forall req, message env = RequestVote req -> canvass_ok B' req).
Proof.
  intros Hr HR Hcov (p & -> & _)%list_elem_of_fmap Hfrom. split; [|done].
  intros req [= <-]. split.
  - rewrite Hfrom. by apply round_leads.
  - exists es', es'. split_and!; [done|done| |done]. split; [by eexists|done].
Qed.

(** ** Steps that leave the log, the reigns and the bids *)

Lemma still_safe new : outgoing n' = outgoing n ++ new -> Forall plain_message new -> in_order n' es ->
  role n' = role n /\ node_term n' = node_term n \/ role n' = Follower /\ node_term n <= node_term n' ->
  commit_index n' = commit_index n -> match_index n' = match_index n -> safe_step cfgs h R B c h' R B c'.
Proof.
  intros Hout Hnew Hin Hturn Hc Hm.
  assert (node_term n <= node_term n') as Ht by (destruct Hturn as [[_ ->]|[_ ?]]; lia).
  pose proof (quiet_progress new Hout (ok_log _ _ Hin) Ht (plain_ballots _ Hnew)) as Hp.
  apply (round_safe new Hout R B es); [done| |by intros; left|].
  2: { intros env Henv _. apply plain_flight. rewrite Forall_forall in Hnew. by apply Hnew. }
  destruct Hnode as [_ Hg Hl Hca Hcov Hma Hk]. split; try done.
  - by eapply grounded_grow; [|exact Ht|].
  - destruct Hturn as [[-> ->]|[Hr _]]; [done|congruence].
  - destruct Hturn as [[-> ->]|[Hr _]]; [|congruence]. intros Hr. destruct (Hca Hr) as [|(x & Hx & He)]; [by left|].
    right. exists x. split; [done|by eapply progress_elected].
  - rewrite Hc. rewrite round_cluster. apply (covered_mono cfgs _ _ _ _ (node_term n) _ (take (N.to_nat (commit_index n)) es)); [done|done|].
    by eapply progress_covered.
  - destruct Hturn as [[-> ->]|[Hr _]]; [by rewrite Hc, Hm|congruence].
  - by rewrite Hm.
Qed.

Lemma heralded_safe : in_order n' es -> role n = Leader -> role n' = Leader -> node_term n' = node_term n ->
  commit_index n' = commit_index n -> match_index n' = match_index n ->
  outgoing n' = outgoing n ++ (heartbeat n' es <$> hash_keys (peers n)) -> safe_step cfgs h R B c h' R B c'.
Proof.
  intros Hin Hr Hr' Ht Hc Hm Hout.
  pose proof (quiet_progress _ Hout (ok_log _ _ Hin) ltac:(lia) (heartbeat_ballots _ _)) as Hp.
  destruct Hnode as [_ Hg Hl Hca Hcov Hma Hk].
  assert (covered cfgs h' R B c' (node_term n') (take (N.to_nat (commit_index n')) es)) as Hcov'.
  { rewrite Ht, Hc, round_cluster. by eapply progress_covered. }
  apply (round_safe _ Hout R B es); [done| |by intros; left|].
  - split; rewrite ?Ht, ?Hc, ?Hm; try done; [by intros; apply Hl|by rewrite Hr'|by rewrite <-Ht, <-Hc|by intros _; apply Hma].
  - intros env Henv Hfrom. eapply heartbeat_flight; [done| |exact Hcov'|done|done].
    rewrite Ht. by apply Hl.
Qed.

(** ** A vote *)

Lemma granted_safe env req : ev = Deliver env -> message env = RequestVote req -> canvass_ok B req ->
  up_to_date req es -> in_order n' es -> node_term n <= rv_term req -> node_term n' = rv_term req ->
  role n' = (if node_term n <? rv_term req then Follower else role n) ->
  commit_index n' = commit_index n -> match_index n' = match_index n ->
  outgoing n' = outgoing n ++ [vote_response n (from env) (rv_term req) true] -> safe_step cfgs h R B c h' R B c'.
Proof.
  intros Hev Hm (a & Ha & Hlen & Hlast) Hup Hin Ht Ht' Hr Hc Hmi Hout.
  assert (to (vote_response n (from env) (rv_term req) true) = candidate_id req) as Hto.
  { pose proof (fr_honest _ _ _ _ _ Hfair) as Hh. rewrite Hev in Hh. simpl in Hh. rewrite Hm in Hh.
    destruct Hh as [Heq Hfit]. simpl. rewrite Heq. by apply string_from_fits. }
  destruct (sa_bid _ _ _ _ _ Hsafe _ _ _ Ha) as (_ & Hga & _). destruct Hnode as [_ Hg Hl Hca Hcov Hma Hk].
  assert (progress cfgs h R B c name n es h' R B n' es) as Hp.
  { apply (round_progress _ Hout); try done; [apply (ok_log _ _ Hin)|lia| |by intros ? ?; left].
    intros u x Hux b t Hch Htn Hb Htu. apply list_elem_of_omap in Hux as (m & ->%list_elem_of_singleton & Hux).
    change (Some (rv_term req, to (vote_response n (from env) (rv_term req) true)) = Some (u, x)) in Hux.
    rewrite Hto in Hux. injection Hux as <- <-. exists a. split; [done|].
    destruct (ch_last _ _ _ _ _ _ _ Hch) as (e & He & <-).
    by apply (up_to_date_holds R (node_term n) (rv_term req) es a b e req);
      try done; [by apply (ch_reign _ _ _ _ _ _ _ Hch)|apply (ch_later _ _ _ _ _ _ _ Hch)]. }
  apply (round_safe _ Hout R B es); [done| |by intros; left|].
  2: { intros env' ->%list_elem_of_singleton _. by split. }
  assert (role n' = Follower \/ role n' = role n /\ node_term n' = node_term n) as Hturn.
  { destruct (N.ltb_spec (node_term n) (rv_term req)); [by left|right]. split; [done|lia]. }
  split; try done.
  - eapply grounded_grow; [done| |exact Hg]. lia.
  - destruct Hturn as [Hf|[-> ->]]; [congruence|done].
  - destruct Hturn as [Hf|[-> ->]]; [congruence|]. intros Hr'.
    destruct (Hca Hr') as [|(x & Hx & He)]; [by left|].
    right. exists x. split; [done|by eapply progress_elected].
  - rewrite Hc, round_cluster.
    apply (covered_mono cfgs _ _ _ _ (node_term n) _ (take (N.to_nat (commit_index n)) es)); [lia|done|].
    by eapply progress_covered.
  - destruct Hturn as [Hf|[-> ->]]; [congruence|by rewrite Hc, Hmi].
  - by rewrite Hmi.
Qed.

(** ** An election *)

Lemma round_self : exists cfg, cfg ∈ cfgs /\ s_node_id (server cfg) = name /\ node_id n = name /\
  peers n = peers_of cfg.
Proof.
  destruct (so_nodes _ _ _ Hsound _ _ Hname) as [(cfg & Hcfg & Heq & Hm) _ _ _ _].
  exists cfg. split_and!; [done|done|rewrite <-Heq; apply Hm|apply Hm].
Qed.

Lemma round_id : string_from ID_CAPACITY (node_id n) = name.
Proof.
  destruct round_self as (cfg & Hcfg & <- & -> & _). by apply string_from_fits, (config_fits cfgs con).
Qed.

(** The node has not voted in a term to come. *)
Lemma votes_past v m u x : sound cfgs h c -> nodes c !! v = Some m -> (u, x) ∈ ballots (h v) -> u <= node_term m.
Proof.
  intros Hs Hm Hin. destruct (so_nodes _ _ _ Hs _ _ Hm) as [_ Hv Ho _ _].
  rewrite <-Ho in Hin. pose proof (vote_memory _ Hv u x Hin) as Hrec.
  change (current_term (persistent_state (log m))) with (node_term m) in Hrec. lia.
Qed.

Lemma stood_safe : node_term n < u64_max -> in_order n' es -> role n' = Candidate ->
  node_term n' = u64_add (node_term n) 1 -> commit_index n' = commit_index n -> match_index n' = match_index n ->
  outgoing n' = outgoing n ++ (vote_request n es (u64_add (node_term n) 1) <$> hash_keys (peers n)) ->
  exists B', safe_step cfgs h R B c h' R B' c'.
Proof.
  intros Hmax Hin Hr Ht Hc Hmi Hout. rewrite u64_add_small in Ht, Hout by lia.
  set (t := node_term n + 1) in *. destruct Hnode as [_ Hg Hl Hca Hcov Hma Hk].
  assert ((t, name) ∉ ballots (h name)) as Hfresh.
  { intros Hold. pose proof (votes_past name n t name Hsound Hname Hold). lia. }
  set (B' := <[(t, name) := es]> B). exists B'.
  assert (forall k a, B !! k = Some a -> B' !! k = Some a) as HB.
  { intros [u x] a Ha. unfold B'. rewrite lookup_insert_ne; [done|]. intros [= <- <-].
    by apply Hfresh, (sa_bid _ _ _ _ _ Hsafe t name a). }
  assert (progress cfgs h R B c name n es h' R B' n' es) as Hp.
  { apply (round_progress _ Hout); try done; [apply (ok_log _ _ Hin)|lia| |by intros ? ?; left].
    intros u x Hux b t' _ _ Hb _. apply list_elem_of_omap in Hux as (m & (q & -> & _)%list_elem_of_fmap & Hux).
    change (Some (t, string_from ID_CAPACITY (node_id n)) = Some (u, x)) in Hux.
    rewrite round_id in Hux. injection Hux as <- <-. exists es. unfold B'. by rewrite lookup_insert_eq. }
  apply (round_safe _ Hout R B' es); [done| | |].
  - split; try done.
    + eapply grounded_grow; [done| |exact Hg]. lia.
    + congruence.
    + intros _. rewrite Ht. unfold B'. rewrite lookup_insert_eq.
      destruct (R !! t) as [r|] eqn:Hrt; [right|by left].
      destruct (sa_reign _ _ _ _ _ Hsafe t r Hrt) as (_ & _ & x & Hx). exists x. split.
      * intros ->. by apply Hfresh, Hx.
      * by eapply progress_elected.
    + rewrite Hc, round_cluster.
      apply (covered_mono cfgs _ _ _ _ (node_term n) _ (take (N.to_nat (commit_index n)) es)); [lia|done|].
      by eapply progress_covered.
    + congruence.
    + by rewrite Hmi.
  - intros u x a. unfold B'. rewrite lookup_insert_Some. intros [[[= <- <-] <-]|[_ Ha]]; [right|by left].
    split_and!; [unfold t; lia| |rewrite <-Ht; by apply (sn_stands _ _ _ _ round_after)].
    eapply grounded_grow; [done| |exact Hg]. unfold t. lia.
  - intros env (q & -> & _)%list_elem_of_fmap _. split; [done|]. intros req [= <-].
    exists es. simpl. rewrite round_id. unfold B'. by rewrite lookup_insert_eq.
Qed.

Lemma round_elected_before new u x : outgoing n' = outgoing n ++ new -> ballots new = [] ->
  elected cfgs h' u x -> elected cfgs h u x.
Proof.
  intros Hout Hnew. assert (forall v, ballots (h' v) = ballots (h v)) as Hb.
  { intros v. unfold h', extend. case_decide as Hv; [|done]. rewrite Hv, Hout, <-round_sent_before.
    unfold ballots in *. by rewrite omap_app, Hnew, app_nil_r. }
  intros (Hx & Hbx & w & Hw & Hwx & Hbw). rewrite Hb in Hbx, Hbw. split_and!; [done|done|by exists w].
Qed.

Lemma won_safe : in_order n' es -> role n = Candidate -> role n' = Leader -> node_term n' = node_term n ->
  commit_index n' = commit_index n ->
  (forall q, is_Some (peers n !! q) -> match_index n' !! q = Some 0) ->
  (forall q, is_Some (match_index n' !! q) -> is_Some (peers n !! q) \/ is_Some (match_index n !! q)) ->
  outgoing n' = outgoing n ++ (heartbeat n' es <$> hash_keys (peers n)) ->
  exists R', safe_step cfgs h R B c h' R' B c'.
Proof.
  intros Hin Hr Hr' Ht Hc Hzero Hkeys Hout. destruct Hnode as [_ Hg Hl Hca Hcov Hma Hk].
  pose proof (round_leads Hr') as Hel. rewrite Ht in Hel.
  pose proof (round_elected_before _ _ _ Hout (heartbeat_ballots _ _) Hel) as Hel0.
  destruct (Hca Hr) as [[HB HR]|(x & Hx & Hex)].
  2: { exfalso. apply Hx, (elected_unique cfgs con h (node_term n)); [apply (so_single _ _ _ Hsound)|done|done]. }
  set (R' := <[node_term n := es]> R). exists R'.
  assert (reigns_grow R R') as HRR.
  { intros u r Hu. exists r. split; [|done]. unfold R'. rewrite lookup_insert_ne; [done|]. congruence. }
  destruct (sa_bid _ _ _ _ _ Hsafe _ _ _ HB) as (Hpos & _ & _).
  assert (progress cfgs h R B c name n es h' R' B n' es) as Hp.
  { apply (round_progress _ Hout); try done; [apply (ok_log _ _ Hin)|lia| |].
    - rewrite heartbeat_ballots. by intros u x ?%not_elem_of_nil.
    - intros u r. unfold R'. rewrite lookup_insert_Some. intros [[<- <-]|[_ Hu]]; [right|by left].
      split_and!; try done. intros b t Hch Htu.
      destruct (chosen_elected cfgs con h R B c b t (node_term n) name) as (a & Ha & Hb); [done..|].
      congruence. }
  assert (covered cfgs h' R' B c' (node_term n') (take (N.to_nat (commit_index n')) es)) as Hcov'.
  { rewrite Ht, Hc, round_cluster. by eapply progress_covered. }
  assert (R' !! node_term n' = Some es) as HR' by (unfold R'; by rewrite Ht, lookup_insert_eq).
  assert (forall q, is_Some (match_index n' !! q) -> q ∈ names_of cfgs /\ q <> name) as Hkeys'.
  { intros q Hq. destruct (Hkeys q Hq) as [Hpq|]; [|by apply Hk].
    destruct round_self as (cfg & Hcfg & <- & _ & Hps). rewrite Hps in Hpq.
    by apply (config_peers_spec cfgs con). }
  apply (round_safe _ Hout R' B es); [done| |by intros; left|].
  - split; try done.
    + rewrite Ht. by eapply grounded_grow.
    + congruence.
    + intros _ q m Hq. destruct (Hkeys' q) as [Hqn Hqne]; [by eexists|].
      rewrite Hzero in Hq.
      2: { destruct round_self as (cfg & Hcfg & <- & _ & ->). by apply (config_peers_spec cfgs con). }
      injection Hq as <-. split; [lia|]. intros i e Hi He.
      apply mk_is_Some, lookup1_Some in He. lia.
  - intros env Henv Hfrom. by eapply heartbeat_flight.
Qed.

(** ** A request *)

(** No more is committed than what was compared: see [follower_commit]. *)
Definition settled (req : AppendEntriesRequest) : Prop :=
  leader_commit req <= prev_log_index req + N.of_nat (length (ae_entries req)) \/
  N.of_nat (length es) <= prev_log_index req + N.of_nat (length (ae_entries req)).

Section request.
Context (env : MessageEnvelope) (req : AppendEntriesRequest) (Hev : ev = Deliver env).
Context (Hmsg : message env = AppendEntries req) (Hreq : request_ok cfgs h R B c env req).
Let p := N.to_nat (prev_log_index req).
Let es' := follower_log es p (ae_entries req).

Lemma request_orderly : refused n es req \/ acceptable n es req.
Proof.
  destruct Hreq as [_ (r & a & Hr & Ha & Hcp & _)]. destruct Hnode as [[_ _ _ _ Hci _] Hg _ _ Hcov _ _].
  destruct (N.lt_ge_cases (ae_term req) (node_term n)) as [|Ht]; [by left; left|].
  destruct (decide (matches es p (prev_log_term req))) as [Hm|Hm]; [right|by left; right].
  destruct (sa_reign _ _ _ _ _ Hsafe _ _ Hr) as (_ & Hgr & _).
  destruct (source_entries R (ae_term req) a r req Hgr Ha Hcp) as [Hwf Hc].
  pose proof (source_grounded R (node_term n) (ae_term req) es a r req Hg Hgr Ha Hcp Hm Ht) as Hges.
  split; try done.
  - pose proof (gr_bound _ _ _ Hges). lia.
  - pose proof (source_keeps R (node_term n) (ae_term req) es a r req Hg Hgr Ha Hcp Hm
      (take (N.to_nat (commit_index n)) es) (prefix_take _ _)
      (covered_reign cfgs _ _ _ _ _ _ _ _ Hcov Ht Hr)) as Hk%prefix_is_take.
    simpl in Hci. rewrite length_take, Nat.min_l in Hk by lia. by symmetry.
Qed.

Lemma accepted_safe new : settled req -> acceptable n es req -> in_order n' es' ->
  node_term n' = ae_term req -> role n' = (if node_term n <? ae_term req then Follower else role n) ->
  commit_index n' = follower_commit (commit_index n) (leader_commit req) (N.of_nat (length es')) ->
  match_index n' = match_index n -> outgoing n' = outgoing n ++ new -> Forall plain_message new ->
  safe_step cfgs h R B c h' R B c'.
Proof.
  intros Hset [Ht Hm _ _ _ Hcom] Hin Ht' Hr Hc Hmi Hout Hnew.
  change (log_current_term (log n)) with (node_term n) in Ht.
  destruct Hreq as [Hel (r & a & HR & Ha & Hcp & Hlc)]. destruct Hnode as [Ho Hg Hl Hca Hcov Hma Hk].
  destruct (sa_reign _ _ _ _ _ Hsafe _ _ HR) as (_ & Hgr & _).
  pose proof (source_keeps R (node_term n) (ae_term req) es a r req Hg Hgr Ha Hcp Hm) as Hkeeps.
  fold p es' in Hkeeps.
  assert (from env <> name) as Hfrom.
  { pose proof (fr_known _ _ _ _ _ Hfair) as Hk'. rewrite Hev in Hk'. by destruct Hk' as (_ & ? & _). }
  assert (progress cfgs h R B c name n es h' R B n' es') as Hp.
  { apply (round_progress _ Hout); try done; [apply (ok_log _ _ Hin)|lia| | |by intros ? ?; left].
    - intros b t Hch Htn Hb. apply Hkeeps; [done|]. eapply chosen_reign; [exact Hch| |exact HR]. lia.
    - rewrite (plain_ballots _ Hnew). by intros u x ?%not_elem_of_nil. }
  apply (round_safe _ Hout R B es'); [done| |by intros; left|].
  2: { intros env' Henv' _. apply plain_flight. rewrite Forall_forall in Hnew. by apply Hnew. }
  assert (role n' <> Leader) as Hnl.
  { intros Hlead. rewrite Hlead in Hr. destruct (N.ltb_spec (node_term n) (ae_term req)) as [|Hge]; [done|].
    apply Hfrom, (elected_unique cfgs con h (ae_term req)); [apply (so_single _ _ _ Hsound)|done|].
    replace (ae_term req) with (node_term n) by lia.
    by apply (sn_elected _ _ _ _ (so_nodes _ _ _ Hsound _ _ Hname)). }
  split; try done.
  - rewrite Ht'. by eapply source_grounded.
  - intros _. right. exists (from env). split; [done|]. rewrite Ht'. by eapply progress_elected.
  - rewrite Ht', round_cluster, Hc. unfold follower_commit.
    destruct (N.ltb_spec (commit_index n) (leader_commit req)) as [Hlt|Hge].
    + assert (N.min (leader_commit req) (N.of_nat (length es')) <=
        prev_log_index req + N.of_nat (length (ae_entries req))) as Hle.
      { destruct Hset as [|Hset]; [lia|].
        pose proof (follower_log_bounded es p (ae_entries req) (matches_length _ _ _ Hm)). fold es' in H.
        unfold p in H. lia. }
      unfold es' at 2. rewrite (source_sent R (node_term n) (ae_term req) es a r req Hg Hgr Ha Hcp Hm) by lia.
      apply (covered_mono cfgs _ _ _ _ (ae_term req) _ (take (N.to_nat (leader_commit req)) a));
        [done| |by eapply progress_covered].
      rewrite <-(Nat.min_l (N.to_nat (N.min _ _)) (N.to_nat (leader_commit req))) by lia.
      rewrite <-take_take. apply prefix_take.
    + fold p es' in Hcom. rewrite Hcom. apply (covered_mono cfgs _ _ _ _ (node_term n) _ (take (N.to_nat (commit_index n)) es));
        [done|done|by eapply progress_covered].
  - by rewrite Hmi.
Qed.
End request.

(** ** A proposal *)

Lemma spec_append_old t cmd i : i <= N.of_nat (length es) -> lookup1 (spec_append es t cmd) i = lookup1 es i.
Proof.
  intros Hi. unfold lookup1, spec_append. case_decide; [done|]. apply lookup_app_l. lia.
Qed.

Lemma proposed_safe cmd (es' := spec_append es (node_term n) cmd) : wf_command cmd ->
  N.of_nat (length es) + 1 < u64_max -> in_order n' es' -> role n = Leader -> role n' = Leader ->
  node_term n' = node_term n -> commit_index n' = commit_index n -> match_index n' = match_index n ->
  outgoing n' = outgoing n ++ (heartbeat n' es' <$> hash_keys (peers n)) ->
  exists R', safe_step cfgs h R B c h' R' B c'.
Proof.
  intros Hwf Hmax Hin Hr Hr' Ht Hc Hmi Hout. destruct Hnode as [[_ _ _ _ Hci _] Hg Hl Hca Hcov Hma Hk].
  simpl in Hci. pose proof (Hl Hr) as HR. destruct (sa_reign _ _ _ _ _ Hsafe _ _ HR) as (Hpos & _ & _).
  assert (es `prefix_of` es') as Hes by by apply prefix_app_r.
  set (R' := <[node_term n := es']> R). exists R'.
  assert (reigns_grow R R') as HRR.
  { intros u r Hu. unfold R'. destruct (decide (u = node_term n)) as [->|].
    - rewrite lookup_insert_eq. exists es'. split; [done|]. congruence.
    - rewrite lookup_insert_ne by done. by exists r. }
  assert (progress cfgs h R B c name n es h' R' B n' es') as Hp.
  { apply (round_progress _ Hout); try done; [apply (ok_log _ _ Hin)|lia| | |].
    - intros b t _ _ Hb. by transitivity es.
    - rewrite heartbeat_ballots. by intros u x ?%not_elem_of_nil.
    - intros u r. unfold R'. rewrite lookup_insert_Some. intros [[<- <-]|[_ Hu]]; [right|by left].
      split_and!; try done. intros b t Hch Htu. transitivity es; [|done].
      eapply chosen_reign; [exact Hch| |exact HR]. lia. }
  assert (covered cfgs h' R' B c' (node_term n') (take (N.to_nat (commit_index n')) es')) as Hcov'.
  { rewrite Ht, Hc, round_cluster. unfold es', spec_append. rewrite take_app_le by lia.
    by eapply progress_covered. }
  apply (round_safe _ Hout R' B es'); [done| |by intros; left|].
  - split; try done.
    + rewrite Ht. by apply grounded_snoc.
    + intros _. unfold R'. by rewrite Ht, lookup_insert_eq.
    + congruence.
    + intros _ q m. rewrite Hmi, Ht, Hc. intros Hq. destruct (Hma Hr q m Hq) as [Hm Hcm]. split.
      * pose proof (prefix_length _ _ Hes). lia.
      * intros i e Hi. unfold es'. rewrite spec_append_old by lia. by apply Hcm.
    + by rewrite Hmi.
  - intros env Henv Hfrom. eapply heartbeat_flight; try done. unfold R'. by rewrite Ht, lookup_insert_eq.
Qed.

(** ** An acknowledgement *)

(** The sender is in the leader's term, and its log is the leader's up to the index. *)
Definition honest_ack (env : MessageEnvelope) (resp : AppendEntriesResponse) : Prop :=
  exists f esf, nodes c !! from env = Some f /\ log_inv (log f) esf /\ node_term f = node_term n /\
    aer_last_log_index resp <= N.of_nat (length es) /\
    take (N.to_nat (aer_last_log_index resp)) esf = take (N.to_nat (aer_last_log_index resp)) es.

Lemma peers_few : (1 <= size (peers n') <= 2)%nat.
Proof.
  destruct round_after as [(cfg & Hcfg & Hid & Hm) _ _ _ _]. rewrite (mem_peers _ _ _ _ _ Hm).
  by apply (config_few cfgs con).
Qed.

Section ack.
Context (env : MessageEnvelope) (resp : AppendEntriesResponse) (Hev : ev = Deliver env).
Context (Hack : honest_ack env resp) (Hin : in_order n' es) (Hlead : role n = Leader) (Hlead' : role n' = Leader).
Context (Hterm : node_term n' = node_term n) (Hout : outgoing n' = outgoing n).
Context (Hmatch : match_index n' = <[from env := aer_last_log_index resp]> (match_index n)).

Lemma ack_from : from env <> name /\ from env ∈ names_of cfgs.
Proof. pose proof (fr_known _ _ _ _ _ Hfair) as Hk. rewrite Hev in Hk. by destruct Hk as (? & ? & _). Qed.

Lemma ack_ballots v : ballots (h' v) = ballots (h v).
Proof. unfold h', extend. case_decide as Hv; [|done]. by rewrite Hv, Hout, round_sent_before. Qed.

(** An entry of the term that the leader can commit is one the sender acknowledges. *)
Lemma ack_counts i : commit_index n < i -> committable n' es i ->
  (exists e, lookup1 es i = Some e /\ term e = node_term n) /\ i <= aer_last_log_index resp.
Proof.
  intros Hi [(e & He & Hte) Hcount]. change (log_current_term (log n')) with (node_term n') in Hte.
  rewrite Hterm in Hte. split; [by exists e|].
  destruct (decide (filter (fun p : string * N => i <= p.2) (match_index n') = ∅)) as [Hnone|Hsome].
  - rewrite Hnone, map_size_empty in Hcount. pose proof peers_few. lia.
  - apply map_choose in Hsome as (p & m & [Hm Him]%map_lookup_filter_Some). simpl in Him.
    rewrite Hmatch in Hm. apply lookup_insert_Some in Hm as [[_ <-]|[_ Hm]]; [done|].
    destruct (sf_match _ _ _ _ _ _ _ _ Hnode Hlead p m Hm) as [_ Hold].
    specialize (Hold i e Him He (eq_sym Hte)). lia.
Qed.

(** Every entry of the term that the sender acknowledges can be committed. *)
Lemma ack_committable i e : lookup1 es i = Some e -> term e = node_term n ->
  i <= aer_last_log_index resp -> committable n' es i.
Proof.
  intros He Hte Hi. split.
  - exists e. split; [done|]. change (log_current_term (log n')) with (node_term n'). congruence.
  - assert (filter (fun p : string * N => i <= p.2) (match_index n') <> ∅) as Hne%map_size_non_empty_iff.
    { intros Hempty. apply (lookup_empty_Some (A := N) (from env) (aer_last_log_index resp)).
      rewrite <-Hempty. apply map_lookup_filter_Some. by rewrite Hmatch, lookup_insert_eq. }
    pose proof peers_few. lia.
Qed.

(** The leader and the sender hold what the leader commits. *)
Lemma ack_chosen i : commit_index n < i -> committable n' es i ->
  chosen cfgs h' R B c' (take (N.to_nat i) es) (node_term n).
Proof.
  intros Hi Hcom. destruct (ack_counts i Hi Hcom) as [(e & He & Hte) Him].
  destruct Hack as (f & esf & Hf & Hlf & Htf & Hm & Htake). destruct ack_from as [Hne Hfrom].
  pose proof (sf_leader _ _ _ _ _ _ _ _ Hnode Hlead) as HR.
  assert (i = N.of_nat (S (N.to_nat i - 1))) as Hidx by lia.
  assert (take (N.to_nat i) es `prefix_of` esf) as Hpf.
  { apply (f_equal (take (N.to_nat i))) in Htake. rewrite !take_take, !Nat.min_l in Htake by lia.
    rewrite <-Htake. apply prefix_take. }
  assert (forall v m u x, nodes c !! v = Some m -> node_term m = node_term n -> (u, x) ∈ ballots (h' v) ->
    ~ node_term n < u) as Hpast.
  { intros v m u x Hm' Ht'. rewrite ack_ballots. intros Hin'%(votes_past v m u x Hsound Hm'). lia. }
  assert (name ∈ names_of cfgs) as Hself.
  { destruct round_self as (cfg & Hcfg & <- & _). by apply config_name. }
  split.
  - exists e. split; [|done]. rewrite Hidx, lookup1_S in He. rewrite last_lookup.
    pose proof (lookup_lt_Some _ _ _ He). rewrite length_take, Nat.min_l by lia.
    rewrite lookup_take_lt by lia. rewrite <-He. f_equal. lia.
  - exists es. split; [done|apply prefix_take].
  - intros u r Hu Hr. exfalso. destruct (sa_reign _ _ _ _ _ Hsafe u r Hr) as (_ & _ & x & Hx).
    destruct (quorums_meet cfgs con h u x name (from env)) as [Hb|Hb]; try done;
      rewrite <-ack_ballots in Hb; [by eapply (Hpast name)|by eapply (Hpast (from env))].
  - exists name, (from env). split_and!; [done|split; [done| |]|split; [done| |]].
    + intros m es0. rewrite round_cluster. simpl. rewrite lookup_insert_eq. intros [= <-] Hes0.
      rewrite (log_inv_unique _ _ _ Hes0 (ok_log _ _ Hin)), Hterm. split; [done|apply prefix_take].
    + intros u x Hb Hu. exfalso. by eapply (Hpast name).
    + intros m es0. rewrite round_cluster. simpl. rewrite lookup_insert_ne, Hf by done. intros [= <-] Hes0.
      rewrite (log_inv_unique _ _ _ Hes0 Hlf), Htf. by split.
    + intros u x Hb Hu. exfalso. by eapply (Hpast (from env)).
Qed.

Lemma counted_safe : commits n es n' -> safe_step cfgs h R B c h' R B c'.
Proof.
  intros [Hc Hmax]. assert (outgoing n' = outgoing n ++ []) as Hout' by by rewrite app_nil_r.
  pose proof (quiet_progress [] Hout' (ok_log _ _ Hin) ltac:(lia) eq_refl) as Hp.
  apply (round_safe [] Hout' R B es); [done| |by intros; left|by intros ? ?%not_elem_of_nil].
  pose proof Hnode as [_ Hg Hl Hca Hcov Hma Hk].
  split; rewrite ?Hterm; try done.
  - by intros _; apply Hl.
  - congruence.
  - destruct Hc as [->|[Hi Hcom]].
    + rewrite round_cluster. by eapply progress_covered.
    + right. exists (take (N.to_nat (commit_index n')) es), (node_term n). split_and!; [|done|done].
      by apply ack_chosen.
  - intros _ p m. rewrite Hmatch. intros [[_ <-]|[_ Hm]]%lookup_insert_Some.
    + destruct Hack as (_ & _ & _ & _ & _ & Hle & _). split; [done|]. intros i e Hi He Hte.
      apply N.nlt_ge. intros Hlt. by apply (Hmax i Hlt), (ack_committable i e).
    + destruct (Hma Hlead p m Hm) as [Hle Hcm]. split; [done|]. intros i e Hi He Hte.
      specialize (Hcm i e Hi He Hte). destruct Hc as [->|[? _]]; lia.
  - intros p. rewrite Hmatch, lookup_insert_is_Some. intros [<-|[_ Hs]]; [|by apply Hk].
    destruct ack_from. done.
Qed.
End ack.

(** ** Any round *)

(** What the invariant, and the conditions of a run, give of the event. *)
Record safe_event : Prop := {
  se_propose cmd tx : ev = Propose cmd tx -> wf_command cmd /\ N.of_nat (length es) + 1 < u64_max;
  se_request env req : ev = Deliver env -> message env = AppendEntries req ->
    request_ok cfgs h R B c env req /\ settled req;
  se_canvass env req : ev = Deliver env -> message env = RequestVote req -> canvass_ok B req;
  se_ack env resp : ev = Deliver env -> message env = AppendEntriesResp resp -> role n = Leader ->
    success resp = true -> aer_term resp <= node_term n -> honest_ack env resp;
}.

Lemma round_orderly : safe_event -> orderly n es ev.
Proof.
  intros [Hp Hr _ _]. pose proof (fr_known _ _ _ _ _ Hfair) as Hin.
  destruct ev as [env| | |cmd tx| | |]; try done; simpl.
  - intros req Hm. destruct (Hr env req eq_refl Hm) as [Hreq _]. by apply (request_orderly env).
  - by apply (Hp cmd tx).
Qed.

Lemma safe_round : safe_event -> exists R' B', safe_step cfgs h R B c h' R' B' c'.
Proof.
  intros Hse. destruct (event_effect n es ev) as (es' & Heff & Hin).
  - apply (sf_order _ _ _ _ _ _ _ _ Hnode).
  - apply (gr_bound _ _ _ (sf_ground _ _ _ _ _ _ _ _ Hnode)).
  - destruct round_self as (cfg & Hcfg & _ & _ & ->). by apply (config_peers cfgs con).
  - by apply round_orderly.
  - fold n' in Heff, Hin. destruct Hse as [Hprop Hreq Hcan Hack].
    destruct Heff as [Hturn Hc Hm (new & Hout & Hnew)
      |env req Hev Hmsg Hacc Ht Hr Hc Hm (new & Hout & Hnew)
      |env resp Hev Hmsg Hr Hs Hterm Hr' Ht Hm Hcom Hout
      |env req Hev Hmsg Hup Hle Ht Hr Hc Hm Hout
      |Hr Hr' Ht Hc Hz Hk Hout|timeout Hev Hr Ht Hc Hm Hout|Hr Hr' Ht Hc Hm Hout|cmd tx Hev Hr Hr' Ht Hc Hm Hout].
    + exists R, B. by eapply still_safe.
    + exists R, B. destruct (Hreq env req Hev Hmsg). by eapply accepted_safe.
    + exists R, B. by eapply (counted_safe env resp); eauto.
    + exists R, B. by eapply (granted_safe env req); eauto.
    + destruct won_safe as [R' HR']; try done. by exists R', B.
    + destruct stood_safe as [B' HB']; try done; [|by exists R, B'].
      pose proof (fr_honest _ _ _ _ _ Hfair) as Hh. by rewrite Hev in Hh.
    + exists R, B. by eapply heralded_safe.
    + destruct (Hprop cmd tx Hev). destruct (proposed_safe cmd) as [R' HR']; try done. by exists R', B.
Qed.
End rounds.
