(* ===== verification/SafetyProps.v ===== *)
(** * The safety of the cluster

    The runs in which what a leader counts is true and what a follower commits was compared,
    two faults of the code being set aside: in them, what one node commits no other node
    commits otherwise, and every later leader has it. *)

From S2P Require Import Prelude Heapless Protocol Serde HashMap Log LogFacts StateMachine.
From S2P Require Import Config Env LogProps Node NodeFacts Sample Daemon Votes Rounds Follower.
From S2P Require Import Replication Election Invariant Leader Members Effects Cluster Scenarios ClusterProps Copies Matching Reigns Safety SafeRounds.
Local Open Scope N_scope.

(** ** The runs *)

(** A successful acknowledgement that a leader would count comes from a node in its term whose
    log is the leader's up to the index it carries: see [acknowledged_write_lost]. *)
Definition true_ack (c : cluster) (env : MessageEnvelope) : bool :=
  match message env, nodes c !! to env with
  | AppendEntriesResp resp, Some n =>
      if bool_decide (role n = Leader) && success resp && (aer_term resp <=? node_term n) then
        match nodes c !! from env with
        | Some f =>
            if (node_term f =? node_term n) && (aer_last_log_index resp <=? last_index (log n)) then
              let m := N.to_nat (aer_last_log_index resp) in
              bool_decide (take m (log_entries (log f)) = take m (log_entries (log n)))
            else false
        | None => false
        end
      else true
  | _, _ => true
  end.

(** A request carries every entry up to the leader's commit index that it follows, or the
    log of the follower does not go on after its entries. *)
Definition uncut (c : cluster) (env : MessageEnvelope) : bool :=
  match message env, nodes c !! to env with
  | AppendEntries req, Some n =>
      let last := prev_log_index req + N.of_nat (length (ae_entries req)) in
      (leader_commit req <=? last) || (last_index (log n) <=? last)
  | _, _ => true
  end.

Definition faithful (a : action) (c : cluster) : bool :=
  fair a c &&
  match a with
  | Act name (Propose command _) => bool_decide (wf_command command) &&
      match nodes c !! name with Some n => last_index (log n) + 1 <? u64_max | None => true end
  | Receive i => match in_flight c !! i with Some env => true_ack c env && uncut c env | None => true end
  | _ => true
  end.

Section runs.
Context {E : Env} {EL : EnvLaws E} (cfgs : list Config) (con : connected cfgs).

Lemma order_last n es : in_order n es -> last_index (log n) = N.of_nat (length es).
Proof. intros Ho. apply (repr_last _ _ (inv_repr _ _ (ok_log _ _ Ho))). Qed.

Lemma act_event h R B c name n es ev : nodes c !! name = Some n -> safe_node cfgs h R B c name n es ->
  local_event ev = true -> faithful (Act name ev) c = true -> safe_event cfgs h R B c n es ev.
Proof.
  intros Hname Hn Hl [_ Hb]%andb_prop. split; [|by destruct ev..]. intros cmd tx ->.
  simpl in Hb. rewrite Hname in Hb. apply andb_prop in Hb as [?%bool_decide_eq_true Hb%N.ltb_lt].
  by rewrite (order_last _ _ (sf_order _ _ _ _ _ _ _ _ Hn)) in Hb.
Qed.

Lemma receive_ack h R B c env n es resp : safe cfgs h R B c -> nodes c !! to env = Some n ->
  in_order n es -> true_ack c env = true ->
  message env = AppendEntriesResp resp -> role n = Leader -> success resp = true ->
  aer_term resp <= node_term n -> honest_ack c n es env resp.
Proof.
  intros Hsafe Hto Ho Hack Hm Hr Hs Ht. unfold true_ack in Hack.
  rewrite Hm, Hto, (bool_decide_true _ Hr), Hs, (proj2 (N.leb_le _ _) Ht) in Hack. simpl in Hack.
  destruct (nodes c !! from env) as [f|] eqn:Hf; [|done].
  destruct (sa_nodes _ _ _ _ _ Hsafe _ _ Hf) as (esf & Hsf).
  pose proof (ok_log _ _ (sf_order _ _ _ _ _ _ _ _ Hsf)) as Hlf.
  destruct (_ && _) eqn:Hb; [|done]. apply andb_prop in Hb as [Htf%N.eqb_eq Hle%N.leb_le].
  apply bool_decide_eq_true in Hack.
  rewrite (log_entries_repr (log f) esf Hlf), (log_entries_repr (log n) es (ok_log _ _ Ho)) in Hack.
  exists f, esf. split_and!; try done. by rewrite <-(order_last _ _ Ho).
Qed.

Lemma receive_event h R B c i env n es : safe cfgs h R B c -> in_flight c !! i = Some env ->
  nodes c !! to env = Some n -> safe_node cfgs h R B (take_off i c) (to env) n es ->
  faithful (Receive i) c = true -> safe_event cfgs h R B (take_off i c) n es (Deliver env).
Proof.
  intros Hsafe Henv Hto Hn [_ Hb]%andb_prop. rewrite Henv in Hb. apply andb_prop in Hb as [Hack Hcut].
  assert (env ∈ in_flight c) as Hin by by eapply list_elem_of_lookup_2.
  pose proof (sf_order _ _ _ _ _ _ _ _ Hn) as Ho. split; [done|..].
  - intros env' req [= <-] Hm. split.
    + apply (request_nodes cfgs h R B c); [done|]. by apply (sa_request _ _ _ _ _ Hsafe).
    + unfold uncut in Hcut. rewrite Hm, Hto, (order_last _ _ Ho) in Hcut.
      apply orb_true_iff in Hcut as [?%N.leb_le|?%N.leb_le]; [by left|by right].
  - intros env' req [= <-] Hm. by eapply (sa_canvass _ _ _ _ _ Hsafe).
  - intros env' resp [= <-] Hm Hr Hs Ht. by apply (receive_ack h R B c env n es resp).
Qed.

Lemma restart_view n n' now : restart n [] now = Ok n' -> match_index n' = ∅ /\ commit_index n' = 0.
Proof. unfold restart, RaftNode_new. destruct (RaftLog_new _ _); by intros [= <-]. Qed.

Lemma safe_action h R B c a : sound cfgs h c -> safe cfgs h R B c -> faithful a c = true ->
  exists h' R' B', sound cfgs h' (exec_action a c) /\ safe_step cfgs h R B c h' R' B' (exec_action a c).
Proof.
  intros Hc Hs Hfaith. pose proof Hfaith as [Hfair _]%andb_prop. pose proof (step_idle cfgs _ _ _ _ Hs) as Hidle.
  destruct a as [name ev|i|i|name now|name io now].
  - simpl exec_action. destruct (local_event ev) eqn:Hl; [|by exists h, R, B].
    destruct (nodes c !! name) as [n|] eqn:Hname; [|exists h, R, B; unfold node_event; by rewrite Hname].
    pose proof (fair_act cfgs h c name n ev Hname Hl Hfair) as Hround.
    destruct (sa_nodes _ _ _ _ _ Hs _ _ Hname) as [es Hn].
    destruct (safe_round cfgs con h R B c name n es ev) as (R' & B' & ?); try done; [by eapply act_event|].
    eexists _, R', B'. split; [by apply sound_round|done].
  - simpl exec_action. destruct (in_flight c !! i) as [env|] eqn:Henv; [|by exists h, R, B].
    pose proof (sound_take_off cfgs _ _ i Hc) as Ht. pose proof (safe_take_off cfgs _ _ _ _ i Hs) as Hst.
    destruct (nodes c !! to env) as [n|] eqn:Hto.
    2: { exists h, R, B. unfold node_event. simpl. rewrite Hto. split; [done|].
         by apply (step_take_off cfgs _ _ _ _ i), step_idle. }
    pose proof (fair_receive cfgs con h c i env n Hc Henv Hto Hfair) as Hround.
    destruct (sa_nodes _ _ _ _ _ Hst _ _ Hto) as [es Hn].
    destruct (safe_round cfgs con h R B (take_off i c) (to env) n es (Deliver env)) as (R' & B' & ?);
      try done; [by eapply receive_event|].
    eexists _, R', B'. split; [by apply sound_round|by apply (step_take_off cfgs _ _ _ _ i)].
  - exists h, R, B. split; [by apply sound_take_off|].
    by apply (step_take_off cfgs _ _ _ _ i), step_idle, safe_take_off.
  - exists h, R, B. simpl. destruct (nodes c !! name) as [n|] eqn:Hname; [|done]. case_match; [|done].
    destruct (sa_nodes _ _ _ _ _ Hs _ _ Hname) as [es Hn]. 
    pose proof (sn_votes _ _ _ _ (so_nodes _ _ _ Hc _ _ Hname)) as Hv.
    assert (sound cfgs h (mkCluster (<[name := with_clock now n]> (nodes c)) (in_flight c))) as Hc'.
    { apply (sound_replace cfgs h c name n); try done; [by apply (same_votes_inv n)| |by right].
      by intros cfg []. }
    split; [done|]. apply (safe_replace cfgs con h R B c name n es); try done; [|by left].
    pose proof (sf_order _ _ _ _ _ _ _ _ Hn) as Ho. by apply (node_ok_same (with_log_guard false n)).
  - simpl in *. destruct io; [|done]. exists h, R, B.
    destruct (nodes c !! name) as [n|] eqn:Hname; [|done].
    destruct (so_nodes _ _ _ Hc _ _ Hname) as [(cfg & Hcfg & Hid & Hmem) Hv _ _ _].
    destruct (sa_nodes _ _ _ _ _ Hs _ _ Hname) as [es Hn].
    destruct (restart_ok (with_log_guard false n) es now (sf_order _ _ _ _ _ _ _ _ Hn))
      as (n' & Hrun & Hok & Hp & Hr & _).
    change (restart (with_log_guard false n) [] now) with (restart n [] now) in Hrun. rewrite Hrun.
    destruct (restart_member _ _ _ _ _ Hmem Hrun) as (_ & Ho & _).
    destruct (restart_view _ _ _ Hrun) as [Hm Hci].
    assert (sound cfgs h (mkCluster (<[name := n']> (nodes c)) (in_flight c))) as Hc'.
    { apply (sound_replace cfgs h c name n); try done; [by eapply restart_votes| |by left].
      intros cfg' Hm'. by apply (restart_member _ _ _ _ _ Hm' Hrun). }
    split; [done|]. apply (safe_replace cfgs con h R B c name n es); try done; [by apply in_order_of| |by right].
    unfold node_term, log_current_term. by rewrite Hp.
Qed.

Lemma safe_start : safe cfgs (fun _ => []) ∅ ∅ (start_cluster cfgs).
Proof.
  split; try done.
  - intros name n Hn. destruct (start_nodes cfgs name n Hn) as (cfg & _ & _ & Hnew).
    destruct (fresh_ok cfg 0) as (n0 & Hn0 & Hok). rewrite Hnew in Hn0. simplify_eq.
    pose proof (RaftNode_new_fields _ _ _ _ Hnew) as (_ & _ & _ & Hr & _).
    unfold RaftNode_new in Hnew. destruct (RaftLog_new _ _); simplify_eq.
    exists []. split; try done; [by left|by intros p []].
  - by intros env req ?%not_elem_of_nil.
  - by intros env req ?%not_elem_of_nil.
Qed.

Lemma faithful_run c : cluster_run faithful cfgs c -> exists h R B, sound cfgs h c /\ safe cfgs h R B c.
Proof.
  induction 1 as [|a c _ (h & R & B & Hc & Hs) Hf].
  - exists (fun _ => []), ∅, ∅. split; [by apply sound_start|apply safe_start].
  - destruct (safe_action h R B c a Hc Hs Hf) as (h' & R' & B' & ? & ? & _). by exists h', R', B'.
Qed.

(** What a cluster can become. *)
Definition faithful_step : cluster -> cluster -> Prop := cluster_step faithful.

Lemma faithful_later h R B c c2 : sound cfgs h c -> safe cfgs h R B c -> rtc faithful_step c c2 ->
  exists h2 R2 B2, safe_step cfgs h R B c h2 R2 B2 c2.
Proof.
  intros Hc Hs Hrtc. revert h R B Hc Hs. induction Hrtc as [c|c c1 c2 (a & Ha & ->) _ IH]; intros h R B Hc Hs.
  - exists h, R, B. by apply step_idle.
  - destruct (safe_action h R B c a Hc Hs Ha) as (h1 & R1 & B1 & Hc1 & Hstep).
    destruct (IH h1 R1 B1 Hc1 (proj1 Hstep)) as (h2 & R2 & B2 & Hstep2).
    exists h2, R2, B2. by eapply step_trans.
Qed.

Lemma faithful_actions acts c : all_allowed faithful acts c = true -> rtc faithful_step c (run_actions acts c).
Proof. apply all_allowed_steps. Qed.

(** The entries a node knows to be committed. *)
Definition committed (c : cluster) (name : string) : list LogEntry :=
  match nodes c !! name with
  | Some n => take (N.to_nat (commit_index n)) (log_entries (log n))
  | None => []
  end.

Lemma safe_log h R B c name n : safe cfgs h R B c -> nodes c !! name = Some n ->
  safe_node cfgs h R B c name n (log_entries (log n)).
Proof.
  intros Hs Hn. destruct (sa_nodes _ _ _ _ _ Hs _ _ Hn) as [es Hes].
  by rewrite (log_entries_repr (log n) es (ok_log _ _ (sf_order _ _ _ _ _ _ _ _ Hes))).
Qed.

Lemma safe_committed h R B c name : safe cfgs h R B c ->
  exists t, covered cfgs h R B c t (committed c name) /\
    forall n, nodes c !! name = Some n -> t = node_term n.
Proof.
  intros Hs. unfold committed. destruct (nodes c !! name) as [n|] eqn:Hn.
  - exists (node_term n). split; [apply (sf_commit _ _ _ _ _ _ _ _ (safe_log h R B c name n Hs Hn))|].
    by intros ? [= <-].
  - exists 0. split; [by left|done].
Qed.

Lemma faithful_runs c c2 : cluster_run faithful cfgs c -> rtc faithful_step c c2 ->
  exists h R B h2 R2 B2, safe cfgs h R B c /\ safe_step cfgs h R B c h2 R2 B2 c2.
Proof.
  intros Hrun Hlater. destruct (faithful_run c Hrun) as (h & R & B & Hc & Hs).
  destruct (faithful_later h R B c c2 Hc Hs Hlater) as (h2 & R2 & B2 & Hstep).
  by exists h, R, B, h2, R2, B2.
Qed.

Lemma committed_comparable h R B c h2 R2 B2 c2 name1 name2 : safe cfgs h R B c ->
  safe_step cfgs h R B c h2 R2 B2 c2 ->
  committed c name1 `prefix_of` committed c2 name2 \/ committed c2 name2 `prefix_of` committed c name1.
Proof.
  intros Hs Hstep. destruct (safe_committed h R B c name1 Hs) as (t1 & H1 & _).
  destruct (safe_committed h2 R2 B2 c2 name2 (proj1 Hstep)) as (t2 & H2 & _).
  eapply covered_comparable; [|exact H2]. by eapply step_covered.
Qed.

(** The store of a node is the result of the first entries it has committed. *)
Lemma safe_store h R B c name n : safe cfgs h R B c -> nodes c !! name = Some n ->
  let m := N.to_nat (last_applied n) in
  (m <= length (committed c name))%nat /\
  data (state_machine n) = exec (command <$> take m (committed c name)).
Proof.
  intros Hs Hn m. destruct (sf_order _ _ _ _ _ _ _ _ (safe_log h R B c name n Hs Hn)) as [_ _ [Hd _] Ha Hc _].
  simpl in *. unfold committed. rewrite Hn. split; [rewrite length_take; lia|].
  rewrite take_take, Nat.min_l by lia. done.
Qed.
End runs.

(** ** Properties *)

(** C1: State machine safety of the whole cluster, over time: what one node knows to be
    committed now and what any node knows to be committed then, or later, in a continuation of
    the run, restarts included, are the same entries as far as both go. The runs are those of
    two or three fully connected nodes with fixed peers whose file operations succeed, with
    lost, delayed and reordered messages, in which no granted vote of an earlier term reaches a
    candidate, every acknowledgement a leader counts comes from a node that is then in the term
    of the leader and whose log is that of the leader up to the index acknowledged, and a
    request whose commit index is beyond its entries reaches no follower whose log goes on after
    them; commands are within their capacities, and neither terms nor logs come to the largest
    [u64]. *)
Theorem committed_agree {E : Env} {EL : EnvLaws E} cfgs c c2 name1 name2 : connected cfgs ->
  cluster_run faithful cfgs c -> rtc faithful_step c c2 ->
  committed c name1 `prefix_of` committed c2 name2 \/ committed c2 name2 `prefix_of` committed c name1.
Proof.
  intros Hcon Hrun Hlater.
  destruct (faithful_runs cfgs Hcon c c2 Hrun Hlater) as (h & R & B & h2 & R2 & B2 & Hs & Hstep).
  by eapply committed_comparable.
Qed.

(** [node-01] commits two entries with [node-02], which learns of it. *)
Definition committed_orders : list order := copied_orders ++
  replicate 4 (Pass "node-02" "node-01") ++
  [Do (Act "node-01" HeartbeatTick); Pass "node-01" "node-02"; Pass "node-02" "node-01"].

(** Both are restarted, and [node-02] is elected by [node-03], whose log is empty. *)
Definition succession_orders : list order :=
  [Do (Crash "node-01" [] 2000); Do (Crash "node-02" [] 2000)] ++
  Elect "node-02" 3000 ++ Canvass "node-02" "node-03".

Definition after (os : list order) (c : cluster) : cluster := @run_actions ref_env (actions_of os c) c.

Definition committed_cluster : cluster := after committed_orders (@start_cluster ref_env three_configs).
Definition succession_cluster : cluster := after succession_orders committed_cluster.

Lemma committed_cluster_run : @cluster_run ref_env faithful three_configs committed_cluster.
Proof. apply all_allowed_run; [apply run_start|vm_compute; reflexivity]. Qed.

Lemma succession_later : rtc (@faithful_step ref_env) committed_cluster succession_cluster.
Proof. apply (@faithful_actions ref_env). vm_compute. reflexivity. Qed.

Definition two_entries : list LogEntry := [mkEntry 1 1 (put "k" "one"); mkEntry 2 1 (put "k" "two")].

Lemma committed_agree_witness :
  committed committed_cluster "node-01" = two_entries /\
  committed committed_cluster "node-02" = two_entries /\
  (committed committed_cluster "node-01" `prefix_of` committed committed_cluster "node-02" \/
   committed committed_cluster "node-02" `prefix_of` committed committed_cluster "node-01").
Proof.
  split; [vm_compute; reflexivity|]. split; [vm_compute; reflexivity|].
  apply (@committed_agree ref_env _ three_configs committed_cluster committed_cluster "node-01" "node-02" three_connected).
  - exact committed_cluster_run.
  - apply rtc_refl.
Defined.

(** C2: Leader completeness, in the same runs: what a node knows to be committed is in the log
    of every leader of the same or a later term, now or later, even after every node has been
    restarted and has forgotten its commit index. *)
Theorem leader_complete {E : Env} {EL : EnvLaws E} cfgs c c2 name ldr n l : connected cfgs ->
  cluster_run faithful cfgs c -> rtc faithful_step c c2 -> nodes c !! name = Some n ->
  nodes c2 !! ldr = Some l -> role l = Leader -> node_term n <= node_term l ->
  committed c name `prefix_of` log_entries (log l).
Proof.
  intros Hcon Hrun Hlater Hn Hl Hrole Ht.
  destruct (faithful_runs cfgs Hcon c c2 Hrun Hlater) as (h & R & B & h2 & R2 & B2 & Hs & Hstep).
  destruct (safe_committed cfgs h R B c name Hs) as (t & Hcov & Heq). rewrite (Heq n Hn) in Hcov.
  eapply covered_reign; [by eapply step_covered|exact Ht|].
  by apply (sf_leader _ _ _ _ _ _ _ _ (safe_log cfgs h2 R2 B2 c2 ldr l (proj1 Hstep) Hl)).
Qed.

(** The node of the name, which is there. *)
Definition node_of (c : cluster) (name : string) : RaftNode :=
  default (sample three name) (nodes c !! name).

Lemma leader_complete_witness :
  role (node_of succession_cluster "node-02") = Leader /\
  commit_index (node_of succession_cluster "node-02") = 0 /\
  committed committed_cluster "node-01" = two_entries /\
  committed committed_cluster "node-01" `prefix_of` log_entries (log (node_of succession_cluster "node-02")).
Proof.
  assert (role (node_of succession_cluster "node-02") = Leader) as Hr by (vm_compute; reflexivity).
  split; [exact Hr|]. split; [vm_compute; reflexivity|]. split; [vm_compute; reflexivity|].
  apply (@leader_complete ref_env _ three_configs committed_cluster succession_cluster "node-01" "node-02"
    (node_of committed_cluster "node-01")); [exact three_connected| | | | |exact Hr|].
  - exact committed_cluster_run.
  - exact succession_later.
  - vm_compute. reflexivity.
  - vm_compute. reflexivity.
  - vm_compute. discriminate.
Defined.

(** In the same runs, two nodes that have applied the same number of entries, at the same time
    or not, have the same store. *)
Theorem stores_agree {E : Env} {EL : EnvLaws E} cfgs c c2 name1 name2 n1 n2 : connected cfgs ->
  cluster_run faithful cfgs c -> rtc faithful_step c c2 -> nodes c !! name1 = Some n1 ->
  nodes c2 !! name2 = Some n2 -> last_applied n1 = last_applied n2 ->
  data (state_machine n1) = data (state_machine n2).
Proof.
  intros Hcon Hrun Hlater H1 H2 Heq.
  destruct (faithful_runs cfgs Hcon c c2 Hrun Hlater) as (h & R & B & h2 & R2 & B2 & Hs & Hstep).
  destruct (safe_store cfgs h R B c name1 n1 Hs H1) as [Hm1 ->].
  destruct (safe_store cfgs h2 R2 B2 c2 name2 n2 (proj1 Hstep) H2) as [Hm2 ->]. rewrite Heq in *. do 2 f_equal.
  destruct (committed_comparable cfgs h R B c h2 R2 B2 c2 name1 name2 Hs Hstep); [|symmetry];
    by apply prefix_take_same.
Qed.

Lemma stores_agree_witness :
  last_applied (node_of committed_cluster "node-01") = 2 /\
  last_applied (node_of committed_cluster "node-02") = 2 /\
  data (state_machine (node_of committed_cluster "node-01")) =
    data (state_machine (node_of committed_cluster "node-02")).
Proof.
  split; [vm_compute; reflexivity|]. split; [vm_compute; reflexivity|].
  apply (@stores_agree ref_env _ three_configs committed_cluster committed_cluster "node-01" "node-02");
    [exact three_connected|exact committed_cluster_run|apply rtc_refl|vm_compute; reflexivity..].
Defined.
