(* ===== verification/Faults.v ===== *)
(** * What the conditions of the runs leave out

    The runs of ClusterProps.v and SafetyProps.v are those of [fair] and [faithful] actions.
    Here each theorem is a run of such actions but for one, which is named with the message it
    delivers: a vote of an earlier term, an acknowledgement of entries that were not compared,
    a request that ends before the commit index it carries.  No peer is added or removed, no
    file operation fails, and the messages between two nodes arrive in the order they were sent. *)

From Stdlib Require Import Init.Byte.
From S2P Require Import Prelude Heapless Protocol Serde HashMap Log StateMachine Config Env.
From S2P Require Import Node Daemon Sample Members Cluster Scenarios ClusterProps SafetyProps.
Local Open Scope N_scope.
#[local] Existing Instance ref_env.

Definition entry_of (c : cluster) (name : string) (i : N) : option LogEntry :=
  n ← nodes c !! name; entries (log n) !! i.

(** The actions of a schedule from a fresh cluster of three, and the state they lead to. *)
Definition actions_three (os : list order) : list action := actions_of os (fresh three).
Definition cluster_three (os : list order) : cluster := run_orders os (fresh three).

Lemma cluster_three_actions os : run_actions (actions_three os) (fresh three) = cluster_three os.
Proof. symmetry. apply run_orders_actions. Qed.

(** ** Elections *)

(** The answer of [node-03] to the vote request of [node-02] in term 1. *)
Definition delayed_vote : MessageEnvelope :=
  mkEnvelope "node-03" "node-02" (RequestVoteResp (mkRequestVoteResponse 1 true "node-03")).

(** C26: The term of a vote response is not compared with the current one unless it is higher:
    after a run of [fair] actions, a granted vote of term 1 is still in flight to a node that is
    a candidate in term 2, which another node leads, and the delivery of this vote makes it a
    second leader of term 2, in a cluster of three. *)
Theorem stale_vote_two_leaders : exists acts i,
  let c := run_actions acts (fresh three) in
  let c' := exec_action (Receive i) c in
  all_allowed fair acts (fresh three) = true /\
  in_flight c !! i = Some delayed_vote /\ stale_vote c delayed_vote = true /\
  leads c "node-01" 2 = true /\ leads c "node-02" 2 = false /\
  leads c' "node-01" 2 = true /\ leads c' "node-02" 2 = true.
Proof.
  exists (actions_three stale_vote_orders), (oldest "node-03" "node-02" (cluster_three stale_vote_orders)).
  rewrite cluster_three_actions. split_and!; by vm_compute.
Qed.

(** ** Acknowledgements *)

(** The first heartbeat of [node-02] in term 2, without entries, and the answer of [node-01]. *)
Definition bare_heartbeat : MessageEnvelope :=
  mkEnvelope "node-02" "node-01" (AppendEntries (mkAppendEntries 2 "node-02" 0 0 [] 0)).
Definition whole_log_answer : MessageEnvelope :=
  mkEnvelope "node-01" "node-02" (AppendEntriesResp (mkAppendEntriesResponse 2 true 1 "node-01")).

(** C27: A follower acknowledges its whole log, not the part that was compared: in a run of
    [faithful] actions but for one, a heartbeat without entries is answered with the index of an
    entry of the follower that the leader does not have; when this answer is delivered, the
    leader counts it for its own entry at that index and answers [Success] to the client, though
    no other node holds the entry, and another node is elected without it. *)
Theorem acknowledged_write_lost : exists acts i j acts',
  let c0 := run_actions acts (fresh three) in
  let c1 := exec_action (Receive i) c0 in
  let c2 := exec_action (Act "node-02" (Propose (put "k" "new") 2)) c1 in
  let c3 := exec_action (Receive j) c2 in
  let c4 := run_actions acts' c3 in
  all_allowed faithful (acts ++ [Receive i; Act "node-02" (Propose (put "k" "new") 2)]) (fresh three) = true /\
  fair (Receive j) c2 = true /\ all_allowed faithful acts' c3 = true /\
  in_flight c0 !! i = Some bare_heartbeat /\
  entry_of c0 "node-01" 1 = Some (mkEntry 1 1 (put "k" "old")) /\
  in_flight c1 = in_flight (take_off i c0) ++ [whole_log_answer] /\
  in_flight c2 !! j = Some whole_log_answer /\
  told c2 "node-02" 2 (Success 1) = false /\ told c3 "node-02" 2 (Success 1) = true /\
  holders c4 1 (put "k" "new") = ["node-02"] /\ leads c4 "node-01" 3 = true.
Proof.
  set (os := replaced_leader_orders). set (c0 := cluster_three os). set (i := oldest "node-02" "node-01" c0).
  set (c2 := exec_action (Act "node-02" (Propose (put "k" "new") 2)) (exec_action (Receive i) c0)).
  set (j := oldest "node-01" "node-02" c2).
  exists (actions_three os), i, j, (actions_of failed_leader_orders (exec_action (Receive j) c2)).
  rewrite cluster_three_actions. subst j c2 i c0 os. split_and!; by vm_compute.
Qed.

(** ** Commit indices *)

(** The request at position [i]. *)
Definition carried (c : cluster) (i : nat) : AppendEntriesRequest :=
  match message <$> in_flight c !! i with
  | Some (AppendEntries req) => req
  | _ => mkAppendEntries 0 "" 0 0 [] 0
  end.

(** C28: A follower commits up to the last entry of its own log, compared or not: in a run of
    [fair] actions, a request with the first 64 entries and the commit index 65 reaches a
    follower that has applied nothing, and the follower applies its own entry 65, where the
    leader has committed another one and answered its client. *)
Theorem uncompared_entry_applied : exists acts i req,
  let c := run_actions acts (fresh three) in
  let c' := exec_action (Receive i) c in
  all_allowed fair (acts ++ [Receive i]) (fresh three) = true /\
  in_flight c !! i = Some (mkEnvelope "node-01" "node-02" (AppendEntries req)) /\
  prev_log_index req = 0 /\ length (ae_entries req) = 64%nat /\ leader_commit req = 65 /\
  leads c "node-01" 4 = true /\ told c "node-01" 2 (Success 65) = true /\
  entry_of c "node-01" 65 = Some (mkEntry 65 4 (put "k" "one")) /\
  entry_of c "node-02" 65 = Some (mkEntry 65 2 (put "k" "two")) /\
  applied_state c "node-02" = Some (0, ∅) /\
  applied_state c' "node-01" = Some (65, {["k" := String.list_byte_of_string "one"]}) /\
  applied_state c' "node-02" = Some (65, {["k" := String.list_byte_of_string "two"]}).
Proof.
  set (c := cluster_three uncompared_orders). set (i := oldest "node-01" "node-02" c).
  exists (actions_three uncompared_orders), i, (carried c i).
  assert (in_flight c !! i = Some (mkEnvelope "node-01" "node-02" (AppendEntries (carried c i)))) as Hi by by vm_compute.
  rewrite cluster_three_actions. fold c. split_and!; try exact Hi; subst i c; by vm_compute.
Qed.
