(* ===== verification/Durable.v ===== *)
(** * What a client is told of its request

    A request that a leader has taken is answered with success by that leader alone, at the
    index its entry got, and only once this index is committed: [round_answers] says so of one
    round, and [told] keeps it along the runs of SafetyProps.v, so that a success answered in
    the term of the proposal stands for an entry that no later leader is without. *)

From S2P Require Import Prelude Heapless Protocol Serde HashMap Log LogFacts StateMachine.
From S2P Require Import Config Env LogProps Node NodeFacts Sample Daemon Histories Votes Rounds Follower.
From S2P Require Import Replication Election Invariant Leader Members Effects Cluster Scenarios ClusterProps Copies Matching Reigns Safety SafeRounds SafetyProps.
Local Open Scope N_scope.

(** ** One round *)

(** Nothing was answered to [tx], and it does not wait at another index than before. *)
Definition mute (tx : N) (n n' : RaftNode) : Prop :=
  (forall j, (tx, Success j) ∈ replies n' -> (tx, Success j) ∈ replies n) /\
  (forall j, pending_requests n' !! j = Some tx -> pending_requests n !! j = Some tx).

#[export] Instance unanswered_preorder tx : PreOrder (mute tx).
Proof. split; [done|]. intros n1 n2 n3 [] []. split; auto. Qed.

Section answers.
Context {E : Env} {EL : EnvLaws E} (tx : N).

Ltac mute_steps := node_steps; try (intros ?; reflexivity); try reflexivity; unfold mute; try done.

Lemma mute_guard n b : mute tx n (with_log_guard b n).
Proof. done. Qed.
Hint Resolve mute_guard : raft.

Lemma mute_on_log {A} (m : M RaftLog A) : steps_in (mute tx) (on_log m).
Proof. intros n. unfold on_log, zoom. by destruct (m (log n)). Qed.
Hint Resolve mute_on_log : raft.

Lemma mute_heartbeats : steps_in (mute tx) send_heartbeats.
Proof. unfold send_heartbeats, heartbeat_to, send. mute_steps. Qed.
Hint Resolve mute_heartbeats : raft.

Lemma mute_become_leader : steps_in (mute tx) become_leader.
Proof. unfold become_leader, set_role, init_peer. mute_steps. Qed.
Hint Resolve mute_become_leader : raft.

Lemma mute_apply : steps_in (mute tx) apply_committed_entries.
Proof.
  assert (forall fuel commit, steps_in (mute tx) (apply_loop fuel commit)) as Hl.
  { intros fuel commit. induction fuel; simpl; unfold apply_entry; mute_steps. }
  unfold apply_committed_entries. node_steps.
Qed.
Hint Resolve mute_apply : raft.

Lemma mute_append_response to t b : steps_in (mute tx) (send_append_entries_response to t b).
Proof. unfold send_append_entries_response, send. mute_steps. Qed.
Hint Resolve mute_append_response : raft.

Lemma mute_message env : (forall resp, message env <> AppendEntriesResp resp) ->
  steps_in (mute tx) (handle_message env).
Proof.
  intros Hno. unfold handle_message. destruct (message env) as [| ?| | | |].
  - unfold handle_append_entries, update_commit_index, reset_heartbeat, set_role, when. mute_steps.
  - by destruct (Hno resp).
  - unfold handle_request_vote, send_request_vote_response, send, reset_heartbeat, set_role, when.
    mute_steps.
  - unfold handle_request_vote_response, set_role, when. mute_steps.
    match goal with |- context [decide (?x ∈ ?l)] => by destruct (decide (x ∈ l)) end.
  - apply steps_in_ret. apply _.
  - apply steps_in_ret. apply _.
Qed.

(** An acknowledgement is the one message that makes a node answer. *)
Lemma mute_event ev : (forall env resp, ev = Deliver env -> message env <> AppendEntriesResp resp) ->
  (forall cmd, ev <> Propose cmd tx) -> steps_in (mute tx) (run_event ev).
Proof.
  intros Hack Hprop. destruct ev as [env|timeout| |cmd tx'|id addr|id| ]; simpl.
  - apply mute_message. intros resp. by apply Hack.
  - unfold election_tick, start_election, send, set_role, reset_heartbeat, when. mute_steps.
  - unfold heartbeat_tick, when. node_steps.
  - assert (tx' <> tx) as Hne by (intros ->; by apply (Hprop cmd)).
    unfold propose, respond. mute_steps; simpl; split; try done.
    + intros j [?|?%list_elem_of_singleton]%elem_of_app; [done|congruence].
    + intros j [[_ ?]|[_ ?]]%lookup_insert_Some; [congruence|done].
  - unfold add_peer, when. mute_steps.
  - unfold remove_peer. mute_steps.
  - unfold get_status. node_steps.
Qed.
(** What a round answers to [tx] is the index of its entry, and the entry is committed. *)
Definition answers_only (n n' : RaftNode) : Prop :=
  (forall j, (tx, Success j) ∈ replies n' -> (tx, Success j) ∈ replies n \/
    role n' = Leader /\ pending_requests n !! j = Some tx /\ j <= commit_index n') /\
  (forall j, pending_requests n' !! j = Some tx -> pending_requests n !! j = Some tx).

Lemma mute_answers n n' : mute tx n n' -> answers_only n n'.
Proof. intros []. split; [|done]. intros j Hj. left. auto. Qed.

Lemma answered_only i n n' : role n' = Leader -> commit_index n' = i -> answered i n n' -> answers_only n n'.
Proof.
  intros Hr Hc (Hp & ks & _ & Hks & Hans). split.
  - intros j. rewrite Hans. intros [?|Hj]%elem_of_app; [by left|right].
    apply list_elem_of_omap in Hj as (k & Hk & Heq). apply Hks in Hk as [_ Hle].
    destruct (pending_requests n !! k) as [tx'|] eqn:Htx; [|done]. simplify_eq/=. done.
  - intros j. rewrite Hp. by intros [? _]%map_lookup_filter_Some.
Qed.

Lemma response_answers n es from resp : in_order n es -> N.of_nat (length es) < u64_max ->
  answers_only n (handle_append_entries_response from resp n).2.
Proof.
  intros Hin Hmax. destruct (log_guard n) eqn:Hg.
  { apply mute_answers. unfold handle_append_entries_response. by rewrite scope_log_held. }
  pose proof (in_order_free n es Hg Hin) as Hok.
  assert (commit_index n < u64_max) as Hcm by (pose proof (ok_commit _ _ Hok); lia).
  destruct (decide (role n = Leader)) as [Hrole|Hrole].
  2: { apply mute_answers. unfold handle_append_entries_response.
       by rewrite scope_log_free, bind_gets, decide_True by done. }
  destruct (N.ltb_spec (node_term n) (aer_term resp)) as [Ht|Ht].
  { destruct (newer_term_ok n es from resp) as (l & -> & _); [done..|]. by apply mute_answers. }
  destruct (success resp) eqn:Hs.
  - destruct (acknowledgement_ok n es from resp) as (n' & -> & Htry & _ & _ & Hcase); [done..|].
    pose proof (same_lead_try_advance (acknowledged from (aer_last_log_index resp) n)) as Hsame.
    rewrite Htry in Hsame. destruct Hsame as (Hr & _).
    destruct Hcase as [[_ ->]|(i & _ & _ & _ & Hc & _ & Hans)]; [by apply mute_answers|].
    simpl in *. eapply answered_only in Hans; [exact Hans|by rewrite Hr|done].
  - apply mute_answers. unfold handle_append_entries_response. rewrite scope_log_free by done.
    rewrite bind_gets, decide_False by (simpl; naive_solver). rewrite bind_gets.
    change (node_term (with_log_guard true n)) with (node_term n).
    by rewrite (proj2 (N.ltb_ge _ _)), Hs.
Qed.

Lemma round_answers n es ev : in_order n es -> N.of_nat (length es) < u64_max ->
  (forall cmd, ev <> Propose cmd tx) -> answers_only n (run_event ev n).2.
Proof.
  intros Hin Hmax Hprop. destruct ev as [[f t [|resp| | | |]]| | | | | |];
    [..|by apply mute_answers, mute_event].
  all: try (apply mute_answers, mute_event; [by intros ? ? [= <-]|done]).
  by apply (response_answers n es).
Qed.
End answers.

(** ** Along a run *)

Section told.
Context {E : Env} {EL : EnvLaws E} (cfgs : list Config) (con : connected cfgs).
Context (tx : N) (name : string) (t i : N) (e : LogEntry).

(** The schedules in which the request [tx] is not submitted again. *)
Definition unrepeated (a : action) (c : cluster) : bool :=
  faithful a c && match a with Act _ (Propose _ tx') => negb (tx' =? tx) | _ => true end.

(** The leader's log of term [t] has the entry [e] at the index [i]. *)
Definition reigned (R : reigns) : Prop := exists r, R !! t = Some r /\ lookup1 r i = Some e.

(** What the node [name] tells of the request, which it took in term [t]. *)
Record told (h : histories) (R : reigns) (B : bids) (c : cluster) : Prop := {
  to_waits n j : nodes c !! name = Some n -> pending_requests n !! j = Some tx -> j = i /\ reigned R;
  to_term n : nodes c !! name = Some n -> t <= node_term n;
  to_answer n j : nodes c !! name = Some n -> node_term n = t -> (tx, Success j) ∈ replies n ->
    j = i /\ exists p, covered cfgs h R B c t p /\ lookup1 p i = Some e;
}.

Lemma lookup1_prefix l k j x : l `prefix_of` k -> lookup1 l j = Some x -> lookup1 k j = Some x.
Proof. unfold lookup1. case_decide; [done|]. intros Hp Hl. by apply (prefix_lookup_Some l). Qed.

Lemma lookup1_take l (m j : N) x : j <= m -> lookup1 l j = Some x -> lookup1 (take (N.to_nat m) l) j = Some x.
Proof. unfold lookup1. case_decide; [done|]. intros ?. by rewrite lookup_take_lt by lia. Qed.

Lemma node_event_lookup nm ev c n' : nodes (node_event nm ev c) !! name = Some n' ->
  exists n, nodes c !! name = Some n /\ (n' = n \/ nm = name /\ n' = (run_event ev n).2).
Proof.
  unfold node_event. destruct (nodes c !! nm) as [n|] eqn:Hn; [|by exists n'; auto]. simpl.
  rewrite lookup_insert_Some. intros [[<- <-]|[_ ?]]; [by exists n; auto|by exists n'; auto].
Qed.

(** The node [name] after an action: as it was, as far as its answers go, or after a round. *)
Lemma action_node h R B c a n' : safe cfgs h R B c -> faithful a c = true ->
  nodes (exec_action a c) !! name = Some n' -> exists n, nodes c !! name = Some n /\
    (mute tx n n' /\ node_term n' = node_term n /\ replies n' = replies n \/
     exists ev, n' = (run_event ev n).2 /\ (forall cmd tx', ev = Propose cmd tx' -> a = Act name ev) /\
       forall timeout, ev = ElectionTick timeout -> node_term n < u64_max).
Proof.
  intros Hs [Hfair _]%andb_prop Hn'. set (goal := exists n, _).
  assert (forall n, nodes c !! name = Some n -> n' = n -> goal) as Hsame.
  { intros n Hn ->. exists n. split; [done|by left]. }
  destruct a as [nm ev|k|k|nm now|nm io now]; simpl in *.
  - destruct (local_event ev); [|by eapply Hsame].
    destruct (node_event_lookup nm ev c n' Hn') as (n & Hn & [->|[-> ->]]); [by eapply Hsame|].
    exists n. split; [done|right]. exists ev. split_and!; [done..|]. intros timeout ->.
    rewrite Hn in Hfair. by apply N.ltb_lt.
  - destruct (in_flight c !! k) as [env|]; [|by eapply Hsame].
    destruct (node_event_lookup _ _ (take_off k c) n' Hn') as (n & Hn & [->|[_ ->]]); [by eapply Hsame|].
    exists n. split; [done|right]. by exists (Deliver env).
  - by eapply Hsame.
  - destruct (nodes c !! nm) as [n|] eqn:Hn; [|by eapply Hsame]. case_match; [|by eapply Hsame].
    simpl in Hn'. apply lookup_insert_Some in Hn' as [[-> <-]|[_ ?]]; [|by eapply Hsame].
    exists n. split; [done|by left].
  - destruct io; [|done]. destruct (nodes c !! nm) as [n|] eqn:Hn; [|by eapply Hsame].
    destruct (sa_nodes _ _ _ _ _ Hs _ _ Hn) as [es Hsn].
    destruct (restart_ok (with_log_guard false n) es now (sf_order _ _ _ _ _ _ _ _ Hsn))
      as (n2 & Hrun & _ & Hp & _).
    change (restart (with_log_guard false n) [] now) with (restart n [] now) in Hrun. rewrite Hrun in Hn'. simpl in Hn'.
    apply lookup_insert_Some in Hn' as [[-> <-]|[_ ?]]; [|by eapply Hsame].
    exists n. split; [done|left]. unfold restart, RaftNode_new in Hrun. destruct (RaftLog_new _ _); simplify_eq.
    split_and!; [by split|by unfold node_term, log_current_term; rewrite Hp|done].
Qed.

Lemma reigned_grow (R R' : reigns) : reigns_grow R R' -> reigned R -> reigned R'.
Proof.
  intros Hg (r & Hr & He). destruct (Hg _ _ Hr) as (r' & Hr' & Hp).
  exists r'. split; [done|by eapply lookup1_prefix].
Qed.

(** The answer of a leader of term [t] to a request that waits at [i]. *)
Lemma leader_covers h R B c n es j : safe_node cfgs h R B c name n es -> role n = Leader -> node_term n = t ->
  reigned R -> j = i -> j <= commit_index n ->
  exists p, covered cfgs h R B c t p /\ lookup1 p i = Some e.
Proof.
  intros Hn Hr <- (r & HR & He) -> Hj. eexists. split; [apply (sf_commit _ _ _ _ _ _ _ _ Hn)|].
  apply lookup1_take; [done|]. pose proof (sf_leader _ _ _ _ _ _ _ _ Hn Hr). congruence.
Qed.

(** Answers are never taken back. *)
Lemma replies_later c c' n' : cluster_run faithful cfgs c -> rtc faithful_step c c' ->
  nodes c' !! name = Some n' -> exists n, nodes c !! name = Some n /\ replies n `prefix_of` replies n'.
Proof.
  intros Hrun Hrtc. revert Hrun. induction Hrtc as [c|c c1 c2 (a & Ha & ->) _ IH]; intros Hrun Hn'; [by exists n'|].
  destruct (IH (run_step _ _ a c Hrun Ha) Hn') as (n1 & Hn1 & Hp1).
  destruct (faithful_run cfgs con c Hrun) as (h & R & B & _ & Hs).
  destruct (action_node h R B c a n1 Hs Ha Hn1) as (n & Hn & Hcase). exists n. split; [done|].
  etransitivity; [|exact Hp1]. destruct Hcase as [(_ & _ & ->)|(ev & -> & _)]; [done|apply histories_grow_event].
Qed.

(** No action but a proposal of [tx] answers it otherwise than [answers_only] says. *)
Lemma action_answers h R B c a n' : safe cfgs h R B c -> unrepeated a c = true ->
  nodes (exec_action a c) !! name = Some n' -> exists n, nodes c !! name = Some n /\
    node_term n <= node_term n' /\ answers_only tx n n'.
Proof.
  intros Hs [Ha Hnew]%andb_prop Hn'. destruct (action_node h R B c a n' Hs Ha Hn') as (n & Hn & Hcase).
  exists n. split; [done|]. destruct Hcase as [(Hm & -> & _)|(ev & -> & Hprop & Hmax)].
  - split; [done|by apply mute_answers].
  - split; [by apply event_term|]. destruct (sa_nodes _ _ _ _ _ Hs _ _ Hn) as [es Hsn].
    apply (round_answers tx n es); [apply (sf_order _ _ _ _ _ _ _ _ Hsn)| |].
    + apply (gr_bound _ _ _ (sf_ground _ _ _ _ _ _ _ _ Hsn)).
    + intros cmd Heq. rewrite (Hprop _ _ Heq), Heq in Hnew. by rewrite N.eqb_refl in Hnew.
Qed.

Lemma told_action h R B c a : sound cfgs h c -> safe cfgs h R B c -> unrepeated a c = true -> told h R B c ->
  exists h' R' B', sound cfgs h' (exec_action a c) /\
    safe_step cfgs h R B c h' R' B' (exec_action a c) /\ told h' R' B' (exec_action a c).
Proof.
  intros Hc Hs Ha [Hw Ht Hans]. pose proof (fun n' => action_answers h R B c a n' Hs Ha) as Hmove.
  destruct (safe_action cfgs con h R B c a Hc Hs) as (h' & R' & B' & Hc' & Hstep);
    [by apply andb_prop in Ha as []|].
  exists h', R', B'. split_and!; [done..|]. pose proof Hstep as (Hs' & _ & Hg).
  split.
  - intros n' j Hn' Hj. destruct (Hmove n' Hn') as (n & Hn & _ & _ & Hp).
    destruct (Hw n j Hn (Hp j Hj)) as [-> HR]. split; [done|by eapply reigned_grow].
  - intros n' Hn'. destruct (Hmove n' Hn') as (n & Hn & ? & _). specialize (Ht n Hn). lia.
  - intros n' j Hn' Htn Hj. destruct (Hmove n' Hn') as (n & Hn & Hle & Hr & _). specialize (Ht n Hn).
    destruct (Hr j Hj) as [Hold|(Hlead & Hp & Hcj)].
    + destruct (Hans n j Hn ltac:(lia) Hold) as (-> & p & Hcov & He).
      split; [done|]. exists p. split; [by eapply step_covered|done].
    + destruct (Hw n j Hn Hp) as [-> HR]. split; [done|].
      destruct (sa_nodes _ _ _ _ _ Hs' _ _ Hn') as [es' Hsn'].
      eapply leader_covers; try done. by eapply reigned_grow.
Qed.

Lemma told_later h R B c c2 : sound cfgs h c -> safe cfgs h R B c -> told h R B c ->
  rtc (cluster_step unrepeated) c c2 ->
  exists h2 R2 B2, sound cfgs h2 c2 /\ safe cfgs h2 R2 B2 c2 /\ told h2 R2 B2 c2.
Proof.
  intros Hc Hs Ht Hrtc. revert h R B Hc Hs Ht.
  induction Hrtc as [c|c c1 c2 (a & Ha & ->) _ IH]; intros h R B Hc Hs Ht; [by exists h, R, B|].
  destruct (told_action h R B c a Hc Hs Ha Ht) as (h1 & R1 & B1 & Hc1 & (Hs1 & _) & Ht1).
  by apply (IH h1 R1 B1).
Qed.
End told.

Section proposal.
Context {E : Env} {EL : EnvLaws E} (cfgs : list Config) (con : connected cfgs).

(** Nothing waits for [tx] and nothing was answered to it. *)
Definition fresh_request (tx : N) (n : RaftNode) : Prop :=
  (forall j, pending_requests n !! j <> Some tx) /\ forall j, (tx, Success j) ∉ replies n.

Lemma is_fresh_request tx n : forallb (fun p => negb (p.2 =? tx)) (map_to_list (pending_requests n)) &&
  forallb (fun p => negb (p.1 =? tx)) (replies n) = true -> fresh_request tx n.
Proof.
  intros [Hp Hr]%andb_prop. rewrite forallb_forall in Hp, Hr. split; intros j Hj.
  - apply elem_of_map_to_list, list_elem_of_In, Hp in Hj. simpl in Hj. by rewrite N.eqb_refl in Hj.
  - apply list_elem_of_In, Hr in Hj. simpl in Hj. by rewrite N.eqb_refl in Hj.
Qed.

Lemma proposal_told h R B c name n cmd tx : sound cfgs h c -> safe cfgs h R B c ->
  nodes c !! name = Some n -> role n = Leader -> fresh_request tx n ->
  faithful (Act name (Propose cmd tx)) c = true ->
  let c1 := exec_action (Act name (Propose cmd tx)) c in
  let i := last_index (log n) + 1 in
  exists h1 R1 B1, sound cfgs h1 c1 /\ safe cfgs h1 R1 B1 c1 /\
    told cfgs tx name (node_term n) i (mkEntry i (node_term n) cmd) h1 R1 B1 c1.
Proof.
  intros Hc Hs Hn Hr [Hfp Hfr] Hf c1 i.
  destruct (safe_action cfgs con h R B c _ Hc Hs Hf) as (h1 & R1 & B1 & Hc1 & Hs1 & _).
  fold c1 in Hc1, Hs1. exists h1, R1, B1. split_and!; [done..|].
  destruct (sa_nodes _ _ _ _ _ Hs _ _ Hn) as [es Hsn].
  pose proof (sf_order _ _ _ _ _ _ _ _ Hsn) as Ho. pose proof (order_last n es Ho) as Hlast.
  assert (nodes c1 !! name = Some (propose cmd tx n).2) as Hn1.
  { unfold c1. simpl. unfold node_event. rewrite Hn. simpl. apply lookup_insert_eq. }
  apply andb_prop in Hf as [_ Hf]. rewrite Hn in Hf. apply andb_prop in Hf as [Hwf%bool_decide_eq_true Hmax%N.ltb_lt].
  destruct (log_guard n) eqn:Hg.
  - assert ((propose cmd tx n).2 = n) as Heq.
    { unfold propose. rewrite bind_gets, decide_False by naive_solver.
      by rewrite (bind_run_blocked _ _ _ _ (scope_log_held _ _ Hg)). }
    rewrite Heq in Hn1. split; intros ?; rewrite Hn1; [intros ? [= <-] ?; by edestruct Hfp|by intros [= <-]|].
    intros j [= <-] _ ?. by edestruct Hfr.
  - pose proof (in_order_free n es Hg Ho) as Hok.
    destruct (propose_ok n es cmd tx Hok Hr Hwf ltac:(lia)) as (n' & Hrun & Hok' & Ht & Hp & _ & Hre & _ & Hrole & _).
    rewrite Hrun in Hn1. simpl in Hn1.
    rewrite Hr in Hrole. destruct (sa_nodes _ _ _ _ _ Hs1 _ _ Hn1) as [es1 Hsn1].
    rewrite (log_inv_unique _ _ _ (ok_log _ _ (sf_order _ _ _ _ _ _ _ _ Hsn1)) (ok_log _ _ Hok')) in Hsn1.
    split; intros n2; [intros j| |intros j]; rewrite Hn1; intros [= <-].
    + rewrite Hp. intros [[<- _]|[_ Hj]]%lookup_insert_Some; [|by edestruct Hfp].
      split; [unfold i; lia|]. eexists. split; [rewrite <-Ht; by apply (sf_leader _ _ _ _ _ _ _ _ Hsn1)|].
      unfold i. rewrite Hlast. replace (N.of_nat (length es) + 1) with (N.of_nat (S (length es))) by lia.
      by rewrite lookup1_S, lookup_app_r, Nat.sub_diag by lia.
    + lia.
    + rewrite Hre. intros _ Hj. by edestruct Hfr.
Qed.
End proposal.

(** ** Properties *)

(** C4: A write that a leader has acknowledged is never lost, in the runs of [committed_agree]:
    when a leader takes a request and the success of the request has been answered by the time
    its term changes, at whatever index and after whatever restarts of the other nodes, every
    leader of the same or a later term, at any later time, has at this index the command of the
    request, with the term in which it was proposed. *)
Theorem acknowledged_write_survives {E : Env} {EL : EnvLaws E} cfgs c c2 c3 name n n2 ldr l cmd tx i :
  connected cfgs -> cluster_run faithful cfgs c -> nodes c !! name = Some n -> role n = Leader ->
  fresh_request tx n -> faithful (Act name (Propose cmd tx)) c = true ->
  rtc (cluster_step (unrepeated tx)) (exec_action (Act name (Propose cmd tx)) c) c2 ->
  nodes c2 !! name = Some n2 -> (tx, Success i) ∈ replies n2 -> node_term n2 = node_term n ->
  rtc faithful_step c2 c3 -> nodes c3 !! ldr = Some l -> role l = Leader -> node_term n <= node_term l ->
  lookup1 (log_entries (log l)) i = Some (mkEntry i (node_term n) cmd).
Proof.
  intros Hcon Hrun Hn Hr Hfresh Hf H12 Hn2 Hi Ht H23 Hl Hlead Hle.
  destruct (faithful_run cfgs Hcon c Hrun) as (h & R & B & Hc & Hs).
  destruct (proposal_told cfgs Hcon h R B c name n cmd tx) as (h1 & R1 & B1 & Hc1 & Hs1 & Ht1); [done..|].
  destruct (told_later cfgs Hcon tx name _ _ _ h1 R1 B1 _ c2 Hc1 Hs1 Ht1 H12) as (h2 & R2 & B2 & Hc2 & Hs2 & Ht2).
  destruct (to_answer _ _ _ _ _ _ _ _ _ _ Ht2 n2 i Hn2 Ht Hi) as (-> & p & Hcov & He).
  destruct (faithful_later cfgs Hcon h2 R2 B2 c2 c3 Hc2 Hs2 H23) as (h3 & R3 & B3 & Hstep).
  eapply lookup1_prefix; [|exact He]. eapply covered_reign; [by eapply step_covered|exact Hle|].
  by apply (sf_leader _ _ _ _ _ _ _ _ (safe_log cfgs h3 R3 B3 c3 ldr l (proj1 Hstep) Hl)).
Qed.

(** [node-01] is elected, appends a first entry, and takes the request 2. *)
Definition before_request : cluster := after (take 5 copied_orders) (@start_cluster ref_env three_configs).
Definition with_request : cluster :=
  @exec_action ref_env (Act "node-01" (Propose (put "k" "two") 2)) before_request.
Definition request_answered : cluster := after (drop 6 committed_orders) with_request.
Definition request_inherited : cluster := after succession_orders request_answered.

Lemma acknowledged_write_survives_witness :
  replies (node_of request_answered "node-01") = [(1, Success 1); (2, Success 2)] /\
  node_term (node_of request_inherited "node-02") = 2 /\
  lookup1 (log_entries (log (node_of request_inherited "node-02"))) 2 =
    Some (mkEntry 2 (node_term (node_of before_request "node-01")) (put "k" "two")).
Proof.
  assert (replies (node_of request_answered "node-01") = [(1, Success 1); (2, Success 2)]) as Hre
    by (vm_compute; reflexivity).
  split; [exact Hre|]. split; [vm_compute; reflexivity|].
  apply (@acknowledged_write_survives ref_env _ three_configs before_request request_answered request_inherited
    "node-01" (node_of before_request "node-01") (node_of request_answered "node-01") "node-02"
    (node_of request_inherited "node-02") (put "k" "two") 2 2 three_connected).
  - apply all_allowed_run; [apply run_start|vm_compute; reflexivity].
  - vm_compute. reflexivity.
  - vm_compute. reflexivity.
  - apply is_fresh_request. vm_compute. reflexivity.
  - vm_compute. reflexivity.
  - apply (@all_allowed_steps ref_env). vm_compute. reflexivity.
  - vm_compute. reflexivity.
  - rewrite Hre. right. left.
  - vm_compute. reflexivity.
  - apply (@all_allowed_steps ref_env). vm_compute. reflexivity.
  - vm_compute. reflexivity.
  - vm_compute. reflexivity.
  - vm_compute. discriminate.
Defined.
