(* ===== verification/Progress.v ===== *)
(** * The cluster can always serve a request again

    [can P c] says that a faithful run leads from [c] to a cluster of [P].  Two nodes whose
    logs are the same need no more than a restart each: one of them can then be elected by
    the other, append a new request, replicate it, commit it and answer it.  The steps are
    lemmas [can_rest], [can_lead] (an election of three messages) and [can_replicate]. *)

From S2P Require Import Prelude Heapless Protocol Serde HashMap Log LogFacts StateMachine.
From S2P Require Import Config Env LogProps Node NodeFacts Sample Daemon Votes Rounds Follower.
From S2P Require Import Replication Election Invariant Leader Members Effects Cluster Scenarios ClusterProps Copies Matching Reigns Safety SafeRounds SafetyProps.
Local Open Scope N_scope.

Section progress.
Context {E : Env} {EL : EnvLaws E} (cfgs : list Config) (con : connected cfgs).
Implicit Types (c : cluster) (n : RaftNode) (es : list LogEntry).

(** ** A node of a faithful run *)

Record citizen (name : string) n : Prop := {
  ci_id : node_id n = name;
  ci_name : string_from ID_CAPACITY name = name;
  ci_few : (size (peers n) <= 2)%nat;
  ci_peers p : is_Some (peers n !! p) <-> p ∈ names_of cfgs /\ p <> name;
  ci_member : name ∈ names_of cfgs;
}.

Lemma citizen_of c name n : cluster_run faithful cfgs c -> nodes c !! name = Some n -> citizen name n.
Proof.
  intros Hrun Hn. destruct (faithful_run cfgs con c Hrun) as (h & R & B & Hc & _).
  destruct (so_nodes _ _ _ Hc _ _ Hn) as [(cfg & Hcfg & <- & Hm) _ _ _ _].
  split; rewrite ?(mem_peers _ _ _ _ _ Hm).
  - apply Hm.
  - by apply string_from_fits, (config_fits cfgs con).
  - by apply (config_few cfgs con).
  - intros p. by apply config_peers_spec.
  - by apply config_name.
Qed.

Lemma order_of c name n : cluster_run faithful cfgs c -> nodes c !! name = Some n ->
  in_order n (log_entries (log n)) /\ N.of_nat (length (log_entries (log n))) < u64_max.
Proof.
  intros Hrun Hn. destruct (faithful_run cfgs con c Hrun) as (h & R & B & _ & Hs).
  pose proof (safe_log cfgs h R B c name n Hs Hn) as Hsn.
  split; [apply (sf_order _ _ _ _ _ _ _ _ Hsn)|apply (gr_bound _ _ _ (sf_ground _ _ _ _ _ _ _ _ Hsn))].
Qed.

(** ** Faithful steps *)

(** The cluster [c] can be brought to one of [P] by a faithful run. *)
Definition can (P : cluster -> Prop) c : Prop := exists c', rtc faithful_step c c' /\ P c'.

Lemma can_now (P : cluster -> Prop) c : P c -> can P c.
Proof. intros HP. by exists c. Qed.

Lemma can_step (P : cluster -> Prop) a c : faithful a c = true -> can P (exec_action a c) -> can P c.
Proof. intros Ha (c' & Hr & HP). exists c'. split; [|done]. eapply rtc_l; [by exists a|done]. Qed.

Lemma can_bind (P Q : cluster -> Prop) c : cluster_run faithful cfgs c -> can P c ->
  (forall c', cluster_run faithful cfgs c' -> P c' -> can Q c') -> can Q c.
Proof.
  intros Hrun (c' & Hr & HP) HQ. destruct (HQ c') as (c2 & Hr2 & HQ2); [|done|].
  - by eapply cluster_run_later.
  - exists c2. split; [by etransitivity|done].
Qed.

(** A round of a node that ends well. *)
Lemma node_event_run name ev c n o n' new : nodes c !! name = Some n -> run_event ev n = (o, n') ->
  outgoing n' = outgoing n ++ new ->
  node_event name ev c = mkCluster (<[name := n']> (nodes c)) (in_flight c ++ new).
Proof. intros Hn Hrun Ho. unfold node_event. rewrite Hn, Hrun. simpl. by rewrite Ho, drop_app_length. Qed.

Lemma can_act (P : cluster -> Prop) name ev c n o n' new : local_event ev = true -> nodes c !! name = Some n ->
  faithful (Act name ev) c = true -> run_event ev n = (o, n') -> outgoing n' = outgoing n ++ new ->
  P (mkCluster (<[name := n']> (nodes c)) (in_flight c ++ new)) -> can P c.
Proof.
  intros Hl Hn Hf Hrun Ho HP. eapply can_step; [exact Hf|]. apply can_now. simpl.
  by rewrite Hl, (node_event_run _ _ _ _ _ _ _ Hn Hrun Ho).
Qed.

Lemma can_receive (P : cluster -> Prop) env c n o n' new : env ∈ in_flight c -> nodes c !! to env = Some n ->
  (forall i, in_flight c !! i = Some env -> faithful (Receive i) c = true) ->
  run_event (Deliver env) n = (o, n') -> outgoing n' = outgoing n ++ new ->
  (forall fl, P (mkCluster (<[to env := n']> (nodes c)) (fl ++ new))) -> can P c.
Proof.
  intros Henv Hn Hf Hrun Ho HP. apply list_elem_of_lookup_1 in Henv as [i Hi].
  eapply can_step; [by apply (Hf i)|]. apply can_now. simpl. rewrite Hi.
  by rewrite (node_event_run _ _ (take_off i c) _ _ _ _ Hn Hrun Ho).
Qed.

(** ** Restarts *)

Record rested n es (n' : RaftNode) : Prop := {
  re_ok : node_ok n' es;
  re_state : persistent_state (log n') = persistent_state (log n);
  re_role : role n' = Follower;
  re_timer : last_heartbeat n' = clock n';
}.

Lemma can_restart c name n now : cluster_run faithful cfgs c -> nodes c !! name = Some n ->
  can (fun c' => exists n', rested n (log_entries (log n)) n' /\ clock n' = now /\
    c' = mkCluster (<[name := n']> (nodes c)) (in_flight c)) c.
Proof.
  intros Hrun Hn. destruct (order_of c name n Hrun Hn) as [Ho _].
  destruct (restart_ok (with_log_guard false n) _ now Ho) as (n' & Hres & Hok & Hp & Hr & _).
  change (restart (with_log_guard false n) [] now) with (restart n [] now) in Hres.
  apply (can_step _ (Crash name [] now)); [done|]. apply can_now. simpl. rewrite Hn, Hres.
  exists n'. unfold restart, RaftNode_new in Hres. destruct (RaftLog_new _ _); simplify_eq. by split_and!.
Qed.

(** ** An election *)

Section two.
Context (x v : string) (Hne : x <> v).

(** Two nodes of a cluster, [x] and [v], with the log [es]. *)
Record twins c nx nv (es : list LogEntry) : Prop := {
  tw_run : cluster_run faithful cfgs c;
  tw_x : nodes c !! x = Some nx;
  tw_v : nodes c !! v = Some nv;
  tw_xok : node_ok nx es;
  tw_vok : node_ok nv es;
}.

Lemma twins_peer c nx nv es : twins c nx nv es -> v ∈ hash_keys (peers nx).
Proof.
  intros []. apply elem_of_hash_keys, (ci_peers x); [by eapply citizen_of|].
  split; [by eapply ci_member, citizen_of|done].
Qed.

Lemma twins_fit c nx nv es : twins c nx nv es -> string_from ID_CAPACITY x = x /\ string_from ID_CAPACITY v = v /\
  node_id nx = x /\ node_id nv = v /\ (size (peers nx) <= 2)%nat /\ N.of_nat (length es) < u64_max.
Proof.
  intros [Hrun Hx Hv Hxo _]. destruct (citizen_of c x nx Hrun Hx) as [? ? ? _ _].
  destruct (citizen_of c v nv Hrun Hv) as [? ? _ _ _]. destruct (order_of c x nx Hrun Hx) as [_ Hb].
  rewrite (log_entries_repr _ es (ok_log _ _ Hxo)) in Hb. by split_and!.
Qed.

(** [x] asks for votes in the next term. *)
Lemma can_stand c nx nv es : twins c nx nv es -> role nx = Follower -> node_term nx < u64_max ->
  last_heartbeat nx = clock nx ->
  can (fun c' => exists nx', nodes c' !! x = Some nx' /\ nodes c' !! v = Some nv /\ node_ok nx' es /\
    role nx' = Candidate /\ node_term nx' = node_term nx + 1 /\ votes_received nx' = [x] /\
    vote_request nx es (node_term nx + 1) v ∈ in_flight c') c.
Proof.
  intros Ht Hr Hmax Htimer. destruct (twins_fit _ _ _ _ Ht) as (Hfx & Hfv & Hidx & _ & _ & Hlen).
  pose proof (twins_peer _ _ _ _ Ht) as Hpeer. destruct Ht as [Hrun Hx Hv Hxok _].
  set (timeout := election_timeout_max_ms (timing (config nx))).
  set (now := clock nx + timeout). set (n1 := with_clock now nx).
  assert (node_ok n1 es) as Hok1 by by apply (node_ok_same nx).
  set (c1 := mkCluster (<[x := n1]> (nodes c)) (in_flight c)).
  assert (exec_action (Elapse x now) c = c1) as Hc1.
  { simpl. rewrite Hx. by rewrite (proj2 (N.leb_le _ _)) by (unfold now; lia). }
  eapply (can_step _ (Elapse x now)); [done|]. rewrite Hc1.
  destruct (start_election_ok n1 es Hok1 Hlen) as (n2 & Hcand & Hstart & _).
  assert (peers n1 <> ∅) as Hps.
  { intros Hp. change (peers n1) with (peers nx) in Hp. rewrite Hp in Hpeer.
    apply elem_of_hash_keys in Hpeer as [? ?]. done. }
  specialize (Hstart Hps).
  assert (run_event (ElectionTick timeout) n1 = (Ok tt, n2)) as Htick.
  { simpl. unfold election_tick. rewrite bind_gets. change (role n1) with (role nx). rewrite Hr.
    unfold when at 1. rewrite bool_decide_true by auto. rewrite bind_gets. unfold time_since_heartbeat.
    change (clock n1 - last_heartbeat n1) with (now - last_heartbeat nx). rewrite Htimer.
    unfold when. by rewrite (proj2 (N.leb_le _ _)) by (unfold now; lia). }
  assert (nodes c1 !! x = Some n1) as Hx1 by apply lookup_insert_eq.
  eapply (can_act _ x (ElectionTick timeout) c1 n1); try done.
  - unfold faithful. simpl. rewrite lookup_insert_eq. change (node_term n1) with (node_term nx).
    by rewrite (proj2 (N.ltb_lt _ _)).
  - apply (ca_sent _ _ _ Hcand).
  - exists n2. simpl. rewrite lookup_insert_eq, !lookup_insert_ne by done. destruct Hcand as [? ? Hp Hvotes _ _ _ _].
    split_and!; try done; [|by rewrite <-Hidx|].
    + unfold node_term at 1, log_current_term. rewrite Hp. simpl. apply u64_add_small.
      change (node_term n1) with (node_term nx). lia.
    + change (node_term n1) with (node_term nx). rewrite u64_add_small by lia.
      apply elem_of_app. right. by apply (list_elem_of_fmap_2 (vote_request n1 es (node_term nx + 1))).
Qed.

(** [v] gives its vote. *)
Lemma can_vote_for c nx nv es req : nodes c !! x = Some nx -> nodes c !! v = Some nv -> node_ok nv es ->
  cluster_run faithful cfgs c ->
  node_term nv < rv_term req -> up_to_date req es -> candidate_id req = x ->
  mkEnvelope x v (RequestVote req) ∈ in_flight c ->
  can (fun c' => exists nv', nodes c' !! x = Some nx /\ nodes c' !! v = Some nv' /\ node_ok nv' es /\
    node_term nv' = rv_term req /\
    mkEnvelope v x (RequestVoteResp (mkRequestVoteResponse (rv_term req) true v)) ∈ in_flight c') c.
Proof.
  intros Hx Hv Hok Hrun Ht Hup Hid Hin.
  destruct (citizen_of c x nx Hrun Hx) as [_ Hfx _ _ _]. destruct (citizen_of c v nv Hrun Hv) as [Hidv Hfv _ _ _].
  destruct (vote_granted_ok nv es x req Hok Hup) as (nv' & Hrunv & [Hok' Ht' _ _ _ _ _ Ho _]); [by left|].
  rewrite N.max_r in Ht', Ho by lia.
  eapply (can_receive _ _ c nv); [exact Hin|exact Hv| |exact Hrunv|exact Ho|].
  - intros i Hi. unfold faithful, fair, stale_vote, true_ack, uncut. by rewrite !Hi.
  - intros fl. exists nv'. simpl. rewrite lookup_insert_eq, lookup_insert_ne by done. split_and!; try done.
    apply elem_of_app. right. apply list_elem_of_singleton.
    unfold vote_response, MessageEnvelope_new. by rewrite Hidv, Hfv, Hfx.
Qed.

(** [x] counts it, and leads. *)
Lemma can_win c nx nv es t : nodes c !! x = Some nx -> nodes c !! v = Some nv -> node_ok nx es ->
  cluster_run faithful cfgs c -> role nx = Candidate -> node_term nx = t -> votes_received nx = [x] ->
  mkEnvelope v x (RequestVoteResp (mkRequestVoteResponse t true v)) ∈ in_flight c ->
  can (fun c' => exists nx', nodes c' !! x = Some nx' /\ nodes c' !! v = Some nv /\ node_ok nx' es /\
    role nx' = Leader /\ node_term nx' = t /\ next_of nx' v = N.of_nat (length es) + 1) c.
Proof.
  intros Hx Hv Hok Hrun Hr Ht Hvotes Hin. destruct (citizen_of c x nx Hrun Hx) as [Hid _ Hfew Hps _].
  destruct (order_of c x nx Hrun Hx) as [_ Hb]. rewrite (log_entries_repr _ es (ok_log _ _ Hok)) in Hb.
  set (resp := mkRequestVoteResponse t true v) in *.
  destruct (vote_counted_ok nx es v resp) as [Hyes _]; [done|done|simpl; lia|done|done|].
  assert (with_vote v nx = with_votes_received [x; v] nx) as Hwv.
  { unfold with_vote. rewrite Hvotes, decide_False; [done|]. by intros ->%list_elem_of_singleton. }
  destruct Hyes as (nx' & Hrunx & [Hok' Hr' _ Hl _ Hnext Ho _]).
  { unfold enough_votes. rewrite Hwv. simpl. lia. }
  rewrite Hwv in Hl, Hnext, Ho. simpl in Hl, Hnext, Ho.
  eapply (can_receive _ _ c nx); [exact Hin|exact Hx| |exact Hrunx|exact Ho|].
  - intros i Hi. unfold faithful, fair, stale_vote, true_ack, uncut. rewrite !Hi. simpl. rewrite Hx, Ht, N.ltb_irrefl.
    by rewrite andb_false_r.
  - intros fl. exists nx'. simpl. rewrite lookup_insert_eq, lookup_insert_ne by done. split_and!; try done.
    + unfold node_term. by rewrite Hl.
    + unfold next_of. destruct (Hnext v) as [-> _]; [|by apply u64_add_small; lia].
      apply Hps. split; [|done]. by eapply ci_member, citizen_of.
Qed.

(** ** A request *)

(** [x] takes a request and sends it on. *)
Lemma can_propose c nx nv es cmd tx : nodes c !! x = Some nx -> nodes c !! v = Some nv -> node_ok nx es ->
  cluster_run faithful cfgs c -> role nx = Leader -> wf_command cmd -> N.of_nat (length es) + 1 < u64_max ->
  let es' := es ++ [mkEntry (N.of_nat (length es) + 1) (node_term nx) cmd] in
  can (fun c' => exists nx', nodes c' !! x = Some nx' /\ nodes c' !! v = Some nv /\ node_ok nx' es' /\
    role nx' = Leader /\ node_term nx' = node_term nx /\ next_of nx' v = next_of nx v /\
    commit_index nx' = commit_index nx /\ pending_requests nx' !! (N.of_nat (length es) + 1) = Some tx /\ heartbeat nx' es' v ∈ in_flight c') c.
Proof.
  intros Hx Hv Hok Hrun Hr Hwf Hmax es'. destruct (citizen_of c x nx Hrun Hx) as [_ _ _ Hps _].
  destruct (propose_ok nx es cmd tx Hok Hr Hwf) as (nx' & Hrunx & Hok' & Ht & Hp & Hc & _ & Ho & Hr' & Hni); [lia|].
  fold es' in Hok', Ho.
  eapply (can_act _ x (Propose cmd tx) c nx); [done|exact Hx| |exact Hrunx|exact Ho|].
  - unfold faithful, fair. rewrite Hx. simpl. rewrite bool_decide_true by done. simpl. apply N.ltb_lt.
    by rewrite (order_last nx es (in_order_of nx es Hok)).
  - exists nx'. simpl. rewrite lookup_insert_eq, lookup_insert_ne by done. split_and!; try done.
    + congruence.
    + unfold next_of. by rewrite Hni.
    + by rewrite Hp, lookup_insert_eq.
    + apply elem_of_app. right. apply list_elem_of_fmap_2, elem_of_hash_keys, Hps.
      split; [by eapply ci_member, citizen_of|done].
Qed.

(** The new entry is put after the others. *)
Lemma follower_log_new es (e : LogEntry) : follower_log es (length es) [e] = es ++ [e].
Proof. unfold follower_log. by rewrite firstn_all, drop_all. Qed.

(** [v] appends the entry that [x] sends. *)
Lemma can_copy c nx nv es e : nodes c !! x = Some nx -> nodes c !! v = Some nv ->
  cluster_run faithful cfgs c -> node_ok nx (es ++ [e]) -> node_ok nv es -> node_term nv = node_term nx ->
  next_of nx v = N.of_nat (length es) + 1 -> heartbeat nx (es ++ [e]) v ∈ in_flight c ->
  can (fun c' => exists nv', nodes c' !! x = Some nx /\ nodes c' !! v = Some nv' /\ node_ok nv' (es ++ [e]) /\
    node_term nv' = node_term nx /\
    mkEnvelope v x (AppendEntriesResp (mkAppendEntriesResponse (node_term nx) true (N.of_nat (length es) + 1) v))
      ∈ in_flight c') c.
Proof.
  intros Hx Hv Hrun Hxok Hvok Ht Hnext Hin.
  destruct (citizen_of c x nx Hrun Hx) as [Hidx Hfx _ _ _]. destruct (citizen_of c v nv Hrun Hv) as [Hidv Hfv _ _ _].
  destruct Hxok as [_ [Hrepr Hwf _ _] _ _ _ Hb]. pose proof (order_last nv es (in_order_of nv es Hvok)) as Hlast.
  unfold heartbeat in Hin. rewrite Hnext, Hidx in Hin. unfold MessageEnvelope_new in Hin. rewrite Hfx, Hfv in Hin.
  replace (N.of_nat (length es) + 1 - 1) with (N.of_nat (length es)) in Hin by lia.
  rewrite Nat2N.id, drop_app_length in Hin. change (take MAX_ENTRIES [e]) with [e] in Hin.
  set (req := mkAppendEntries _ _ _ _ _ _) in Hin.
  pose proof (follower_log_new es e) as Hnew. pose proof (ok_commit _ _ Hvok) as Hcv.
  destruct (accept_ok nv es x req (length es)) as (nv' & Hrunv & [Hok' Ht' _ _ _ _ _ Ho _]);
    simpl; try done; rewrite ?Hnew; try done.
  - lia.
  - apply (prefix_matches es (es ++ [e])); [rewrite length_app; lia|]. by rewrite take_app_length, firstn_all.
  - by apply Forall_app in Hwf as [_ ?].
  - intros [|k] e' He'; [|done]. injection He' as <-.
    rewrite (repr_index _ _ Hrepr (length es) e) by by apply list_lookup_middle. f_equal. lia.
  - apply take_app_le. lia.
  - simpl in *. rewrite Hnew in *. unfold MessageEnvelope_new in Ho. rewrite Hidv, Hfx, Hfv, Ht in Ho.
    rewrite length_app, Nat2N.inj_add in Ho.
    eapply (can_receive _ _ c nv); [exact Hin|exact Hv| |exact Hrunv|exact Ho|].
    + intros i Hi. unfold faithful, fair, stale_vote, true_ack, uncut. rewrite !Hi. simpl. rewrite Hv, Hlast.
      apply orb_true_iff. right. apply N.leb_le. lia.
    + intros fl. exists nv'. simpl. rewrite lookup_insert_eq, lookup_insert_ne by done. split_and!; try done.
      apply elem_of_app. right. by apply list_elem_of_singleton.
Qed.

(** [x] counts the acknowledgement, commits and answers. *)
Lemma can_commit c nx nv es tx : nodes c !! x = Some nx -> nodes c !! v = Some nv ->
  cluster_run faithful cfgs c -> node_ok nx es -> node_ok nv es -> role nx = Leader -> node_term nv = node_term nx ->
  (exists e, last es = Some e /\ term e = node_term nx) -> commit_index nx < N.of_nat (length es) ->
  pending_requests nx !! N.of_nat (length es) = Some tx ->
  mkEnvelope v x (AppendEntriesResp (mkAppendEntriesResponse (node_term nx) true (N.of_nat (length es)) v))
    ∈ in_flight c ->
  can (fun c' => exists nx', nodes c' !! x = Some nx' /\ node_ok nx' es /\ role nx' = Leader /\
    node_term nx' = node_term nx /\ commit_index nx' = N.of_nat (length es) /\
    last_applied nx' = N.of_nat (length es) /\ (tx, Success (N.of_nat (length es))) ∈ replies nx') c.
Proof.
  intros Hx Hv Hrun Hxok Hvok Hr Ht (e & He & Hte) Hc Hp Hin.
  destruct (citizen_of c x nx Hrun Hx) as [_ _ Hfew _ _]. set (resp := mkAppendEntriesResponse _ _ _ _) in Hin.
  destruct (order_of c x nx Hrun Hx) as [_ Hb]. pose proof (log_entries_repr _ es (ok_log _ _ Hxok)) as Hex.
  rewrite Hex in Hb.
  destruct (acknowledgement_ok nx es v resp) as (nx' & Hrunx & Htry & Hok' & Hl & Hcase); [done..|simpl; lia|lia|].
  set (n1 := acknowledged v (aer_last_log_index resp) nx) in *.
  pose proof (same_lead_try_advance n1) as Hsame. rewrite Htry in Hsame. simpl in Hsame. destruct Hsame as (Hr' & _ & Ho & _).
  assert (committable n1 es (N.of_nat (length es))) as Hcom.
  { split.
    - exists e. split; [|done]. rewrite last_lookup in He. destruct es as [|e0 es0]; [done|].
      change (length (e0 :: es0)) with (S (length es0)) in *. by rewrite lookup1_S.
    - change (peers n1) with (peers nx).
      assert (filter (fun p => N.of_nat (length es) <= p.2) (match_index n1) <> ∅) as Hf%map_size_non_empty_iff.
      { intros Hf. eapply (lookup_empty_Some v (N.of_nat (length es))). rewrite <-Hf. apply map_lookup_filter_Some.
        split; [apply lookup_insert_eq|done]. }
      lia. }
  destruct Hcase as [[Hno _]|(i & Hi & [(ei & Hei & _) _] & Hmx & Hci & Hai & _ & ks & _ & Hks & Hre)].
  { by destruct (Hno (N.of_nat (length es)) Hc). }
  assert (i = N.of_nat (length es)) as ->.
  { apply mk_is_Some, lookup1_Some in Hei. destruct (decide (i < N.of_nat (length es))); [|lia].
    by destruct (Hmx (N.of_nat (length es))). }
  assert (outgoing nx' = outgoing nx ++ []) as Ho' by by rewrite app_nil_r.
  eapply (can_receive _ _ c nx); [exact Hin|exact Hx| |exact Hrunx|exact Ho'|].
  - intros k Hk. unfold faithful, fair, stale_vote, true_ack, uncut. rewrite !Hk. simpl. rewrite Hx, Hv. simpl.
    rewrite (bool_decide_true _ Hr), Ht, N.eqb_refl, N.leb_refl. simpl.
    rewrite (order_last nx es (in_order_of nx es Hxok)), N.leb_refl, Hex.
    by rewrite (log_entries_repr _ es (ok_log _ _ Hvok)), bool_decide_true.
  - intros fl. exists nx'. simpl. rewrite lookup_insert_eq. split_and!; try done; [by rewrite Hr'|unfold node_term; by rewrite Hl|].
    rewrite Hre. apply elem_of_app. right. apply list_elem_of_omap. exists (N.of_nat (length es)).
    change (pending_requests n1) with (pending_requests nx). rewrite Hks, Hp. split; [|done]. split; [done|lia].
Qed.
(** ** From any state of a run *)

(** Both are restarted. *)
Lemma can_rest c nx nv es : cluster_run faithful cfgs c -> nodes c !! x = Some nx -> nodes c !! v = Some nv ->
  log_entries (log nx) = es -> log_entries (log nv) = es ->
  can (fun c' => exists nx' nv', twins c' nx' nv' es /\ rested nx es nx' /\ rested nv es nv') c.
Proof.
  intros Hrun Hx Hv Hex Hev. apply (can_bind _ _ c Hrun (can_restart c x nx (clock nx) Hrun Hx)).
  intros c1 Hrun1 (nx1 & Hre1 & _ & Hc1). rewrite Hex in Hre1.
  assert (nodes c1 !! v = Some nv) as Hv1 by (rewrite Hc1; simpl; by rewrite lookup_insert_ne).
  apply (can_bind _ _ c1 Hrun1 (can_restart c1 v nv (clock nv) Hrun1 Hv1)).
  intros c2 Hrun2 (nv2 & Hre2 & _ & Hc2). rewrite Hev in Hre2. apply can_now. exists nx1, nv2.
  split_and!; [split|done..]; [done| | |by destruct Hre1|by destruct Hre2]; rewrite Hc2, ?Hc1; simpl.
  - rewrite lookup_insert_ne by done. apply lookup_insert_eq.
  - apply lookup_insert_eq.
Qed.

Lemma rested_term n es n' : rested n es n' -> node_term n' = node_term n.
Proof. intros []. unfold node_term, log_current_term. by f_equal. Qed.

(** [x] is elected with the vote of [v]. *)
Lemma can_lead c nx nv es : twins c nx nv es -> role nx = Follower -> node_term nx < u64_max ->
  last_heartbeat nx = clock nx -> node_term nv <= node_term nx ->
  can (fun c' => exists nx' nv', twins c' nx' nv' es /\ role nx' = Leader /\
    node_term nx' = node_term nx + 1 /\ node_term nv' = node_term nx + 1 /\
    next_of nx' v = N.of_nat (length es) + 1) c.
Proof.
  intros Htw Hr Hmax Htm Ht. pose proof (tw_run _ _ _ _ Htw) as Hrun.
  apply (can_bind _ _ c Hrun (can_stand c nx nv es Htw Hr Hmax Htm)).
  intros c3 Hrun3 (nx3 & Hx3 & Hv3 & Hok3 & Hr3 & Ht3 & Hvotes3 & Hin3).
  destruct (twins_fit _ _ _ _ Htw) as (Hfx & Hfv & Hidx & _).
  unfold vote_request, MessageEnvelope_new in Hin3. rewrite Hidx, Hfx, Hfv in Hin3.
  eapply (can_bind _ _ c3 Hrun3).
  { refine (can_vote_for c3 nx3 nv es _ Hx3 Hv3 (tw_vok _ _ _ _ Htw) Hrun3 _ _ _ Hin3); [simpl; lia|by right|done]. }
  simpl. intros c4 Hrun4 (nv4 & Hx4 & Hv4 & Hok4 & Ht4 & Hin4).
  apply (can_bind _ _ c4 Hrun4 (can_win c4 nx3 nv4 es _ Hx4 Hv4 Hok3 Hrun4 Hr3 Ht3 Hvotes3 Hin4)).
  intros c5 Hrun5 (nx5 & Hx5 & Hv5 & Hok5 & Hr5 & Ht5 & Hnext5).
  apply can_now. by exists nx5, nv4.
Qed.

(** [x], which leads, takes a request, replicates it and answers. *)
Lemma can_replicate c nx nv es cmd tx : twins c nx nv es -> role nx = Leader -> node_term nv = node_term nx ->
  next_of nx v = N.of_nat (length es) + 1 -> wf_command cmd -> N.of_nat (length es) + 1 < u64_max ->
  let es' := es ++ [mkEntry (N.of_nat (length es) + 1) (node_term nx) cmd] in
  can (fun c' => exists nx', nodes c' !! x = Some nx' /\ node_ok nx' es' /\ role nx' = Leader /\
    node_term nx' = node_term nx /\ commit_index nx' = N.of_nat (length es') /\
    last_applied nx' = N.of_nat (length es') /\ (tx, Success (N.of_nat (length es'))) ∈ replies nx') c.
Proof.
  intros [Hrun Hx Hv Hxok Hvok] Hr Ht Hnext Hwf Hlen es'.
  apply (can_bind _ _ c Hrun (can_propose c nx nv es cmd tx Hx Hv Hxok Hrun Hr Hwf Hlen)).
  intros c6 Hrun6 (nx6 & Hx6 & Hv6 & Hok6 & Hr6 & Ht6 & Hnext6 & Hc6 & Hp6 & Hin6).
  fold es' in Hok6, Hin6. rewrite <-Ht6.
  eapply (can_bind _ _ c6 Hrun6); [apply (can_copy c6 nx6 nv es); try done; congruence|].
  simpl. intros c7 Hrun7 (nv7 & Hx7 & Hv7 & Hok7 & Ht7 & Hin7).
  assert (N.of_nat (length es') = N.of_nat (length es) + 1) as Hl by (unfold es'; rewrite length_app; simpl; lia).
  eapply (can_commit c7 nx6 nv7); rewrite ?Hl; try done.
  - eexists. split; [by apply last_snoc|]. by rewrite Ht6.
  - pose proof (ok_commit _ _ Hxok). lia.
Qed.
End two.
End progress.

(** ** Properties *)

(** C8: From any state of the runs of [committed_agree], deadlocks included, in which two nodes
    have the same log, the cluster can serve again within such a run: the one with the higher
    term is restarted and elected, appends the command of a new request after its log, commits
    all of it with the help of the other, has the store that results, and answers with the index
    of the entry. *)
Theorem request_can_be_served {E : Env} {EL : EnvLaws E} cfgs c x v nx nv cmd tx : connected cfgs ->
  cluster_run faithful cfgs c -> x <> v -> nodes c !! x = Some nx -> nodes c !! v = Some nv ->
  log_entries (log nv) = log_entries (log nx) -> node_term nv <= node_term nx -> node_term nx < u64_max ->
  N.of_nat (length (log_entries (log nx))) + 1 < u64_max -> wf_command cmd ->
  let i := N.of_nat (length (log_entries (log nx))) + 1 in
  let es := log_entries (log nx) ++ [mkEntry i (node_term nx + 1) cmd] in
  exists c' nx', rtc faithful_step c c' /\ nodes c' !! x = Some nx' /\ role nx' = Leader /\
    node_term nx' = node_term nx + 1 /\ committed c' x = es /\
    data (state_machine nx') = exec (command <$> es) /\ (tx, Success i) ∈ replies nx'.
Proof.
  intros Hcon Hrun Hne Hx Hv Hlog Ht Hmax Hlen Hwf i es.
  assert (can (fun c' => exists nx', nodes c' !! x = Some nx' /\ node_ok nx' es /\ role nx' = Leader /\
    node_term nx' = node_term nx + 1 /\ commit_index nx' = N.of_nat (length es) /\
    last_applied nx' = N.of_nat (length es) /\ (tx, Success (N.of_nat (length es))) ∈ replies nx') c) as Hcan.
  { apply (can_bind cfgs _ _ c Hrun (can_rest cfgs Hcon x v Hne c nx nv _ Hrun Hx Hv eq_refl Hlog)).
    intros c1 Hrun1 (nx1 & nv1 & Htw & Hrx & Hrv).
    pose proof (rested_term _ _ _ Hrx) as Htx. pose proof (rested_term _ _ _ Hrv) as Htv.
    destruct Hrx as [_ _ Hr Htm]. apply (can_bind cfgs _ _ c1 Hrun1
      (can_lead cfgs Hcon x v Hne c1 nx1 nv1 _ Htw Hr ltac:(lia) Htm ltac:(lia))).
    intros c2 Hrun2 (nx2 & nv2 & Htw2 & Hr2 & Ht2 & Htv2 & Hnext2).
    assert (node_term nx2 = node_term nx + 1) as Ht2' by lia. unfold es. rewrite <-Ht2'.
    apply (can_replicate cfgs Hcon x v Hne c2 nx2 nv2); try done. lia. }
  assert (i = N.of_nat (length es)) as Hi by (unfold es; rewrite length_app; simpl; lia). rewrite Hi.
  destruct Hcan as (c' & Hrtc & nx' & Hx' & Hok & Hr & Ht' & Hc & Ha & Hre). exists c', nx'.
  split_and!; try done.
  - unfold committed. rewrite Hx', Hc, Nat2N.id, (log_entries_repr _ es (ok_log _ _ Hok)). by rewrite firstn_all.
  - destruct (ok_store _ _ Hok) as [-> _]. by rewrite Ha, Nat2N.id, firstn_all.
Qed.

(** After both nodes of the majority have been restarted and have forgotten what they had
    committed, [node-02] can serve. *)
Lemma request_can_be_served_witness : exists c' nx',
  rtc (@faithful_step ref_env) committed_cluster c' /\ nodes c' !! "node-02" = Some nx' /\ role nx' = Leader /\
  committed c' "node-02" = two_entries ++ [mkEntry 3 2 (put "k" "three")] /\ (9, Success 3) ∈ replies nx'.
Proof.
  assert (log_entries (log (node_of committed_cluster "node-02")) = two_entries) as Hl by (vm_compute; reflexivity).
  assert (node_term (node_of committed_cluster "node-02") = 1) as Ht by (vm_compute; reflexivity).
  destruct (@request_can_be_served ref_env _ three_configs committed_cluster "node-02" "node-01"
    (node_of committed_cluster "node-02") (node_of committed_cluster "node-01") (put "k" "three") 9 three_connected)
    as (c' & nx' & Hrtc & Hx & Hr & _ & Hc & _ & Hre).
  - exact committed_cluster_run.
  - discriminate.
  - vm_compute. reflexivity.
  - vm_compute. reflexivity.
  - vm_compute. reflexivity.
  - vm_compute. discriminate.
  - vm_compute. reflexivity.
  - vm_compute. reflexivity.
  - apply (bool_decide_unpack _). vm_compute. exact I.
  - exists c', nx'. rewrite Hl, Ht in Hc. rewrite Hl in Hre. by split_and!.
Defined.
