(* ===== verification/WireProps.v ===== *)
(** * Safety on the wire

    The runs of the daemons with their sockets are runs of the cluster, so what holds of
    every run of the cluster holds when the messages are bytes that arrive in pieces. *)

From Stdlib Require Import Init.Byte.
From S2P Require Import Prelude Heapless Protocol Serde HashMap Log LogFacts StateMachine Config Env.
From S2P Require Import Node Network NetworkProps Sample Daemon Cluster Scenarios ClusterProps Safety SafetyProps.
From S2P Require Import Wire WireFacts WireSim.
Local Open Scope N_scope.

(** ** The conditions of the runs are local *)

Lemma fair_local : judged_locally fair.
Proof.
  intros a a' c c' [Hn Ha]. unfold fair, stale_vote.
  destruct a, a'; try done; try congruence; simplify_eq; rewrite ?Hn, ?Ha; done.
Qed.

Lemma faithful_local : judged_locally faithful.
Proof.
  intros a a' c c' Hsight. unfold faithful. rewrite (fair_local a a' c c' Hsight). f_equal.
  destruct Hsight as [Hn Ha]. unfold true_ack, uncut.
  destruct a, a'; try done; try congruence; simplify_eq; rewrite ?Hn, ?Ha; done.
Qed.

(** ** A schedule that carries every message at once *)

Section schedule.
Context {E : Env} {JM : JsonBytes MessageEnvelope} (route : string -> option string).

(** The next message of the daemon, written in one piece and read in two. *)
Definition carry (name : string) (w : wire) : list wire_action :=
  match wire_nodes w !! name, endpoints w !! name with
  | Some n, Some e =>
      match next_message n e with
      | Some env =>
          match connections (manager (pump env [] e)) !! to env with
          | Some s => [Pump name []; Accept name s; Read name s 3; Read name s 20000; Serve name s]
          | None => [Pump name []]
          end
      | None => []
      end
  | _, _ => []
  end.

(** Rounds, and messages that are carried. *)
Inductive wire_order := Now (a : wire_action) | Carry (name : string).

Fixpoint wire_actions (os : list wire_order) (w : wire) : list wire_action :=
  match os with
  | [] => []
  | o :: os' =>
      let acts := match o with Now a => [a] | Carry name => carry name w end in
      acts ++ wire_actions os' (run_wire route acts w)
  end.

(** Are the actions all allowed? *)
Fixpoint all_wire_allowed (allowed : action -> cluster -> bool) (acts : list wire_action) (w : wire) : bool :=
  match acts with
  | [] => true
  | a :: acts' => wire_allowed allowed a w && all_wire_allowed allowed acts' (exec_wire route a w)
  end.

Lemma all_wire_allowed_run allowed acts w : all_wire_allowed allowed acts w = true ->
  rtc (wire_step route allowed) w (run_wire route acts w).
Proof.
  revert w. induction acts as [|a acts IH]; intros w Ha; [done|]. simpl in Ha.
  apply andb_prop in Ha as [Hf Ha]. eapply rtc_l; [by exists a|by apply IH].
Qed.
End schedule.

(** The addresses of the sample configurations. *)
Definition host_of (addr : string) : option string :=
  snd <$> list_find (fun p => String.append p ":5555" = addr) three.

(** ** A run *)

Definition flush : list wire_order := concat (replicate 4 (Carry <$> three)).

(** [node-01] is elected and commits two entries with the others. *)
Definition commit_orders : list wire_order :=
  ((fun name => Now (Bind name true)) <$> three) ++
  [Now (Tick "node-01" 1000); Now (Round "node-01" (ElectionTick 150))] ++ flush ++
  [Now (Round "node-01" (Propose (put "k" "one") 7)); Now (Round "node-01" (Propose (put "k" "two") 8));
   Now (Round "node-01" HeartbeatTick)] ++ flush.

(** The others learn of it. *)
Definition learn_orders : list wire_order := Now (Round "node-01" HeartbeatTick) :: flush.

Definition wire_start : wire := @start_wire ref_env three_configs.

Definition acts_of (os : list wire_order) (w : wire) : list wire_action :=
  @wire_actions ref_env ref_json_bytes host_of os w.

Definition wire_after (os : list wire_order) (w : wire) : wire :=
  @run_wire ref_env ref_json_bytes host_of (acts_of os w) w.

Definition wire_committed : wire := wire_after commit_orders wire_start.
Definition wire_learned : wire := wire_after learn_orders wire_committed.

Definition ref_step (w w' : wire) : Prop := @wire_step ref_env ref_json_bytes host_of faithful w w'.

Lemma wire_committed_reached : rtc ref_step wire_start wire_committed.
Proof. apply (@all_wire_allowed_run ref_env ref_json_bytes). vm_compute. reflexivity. Qed.

Lemma wire_learned_reached : rtc ref_step wire_committed wire_learned.
Proof. apply (@all_wire_allowed_run ref_env ref_json_bytes). vm_compute. reflexivity. Qed.

(** The address of every peer of the sample leads to that peer. *)
Lemma three_addressed : Forall (addressed host_of) three_configs.
Proof.
  apply Forall_forall. intros cfg Hcfg. apply Forall_forall. intros p Hp name.
  assert (forallb (fun cfg => forallb (fun p => bool_decide (host_of (pc_address p) = Some (pc_id p)))
    (cfg_peers cfg)) three_configs = true) as Hall by (vm_compute; reflexivity).
  rewrite forallb_forall in Hall. apply list_elem_of_In in Hcfg. specialize (Hall _ Hcfg).
  rewrite forallb_forall in Hall. apply list_elem_of_In in Hp. specialize (Hall _ Hp).
  apply bool_decide_eq_true in Hall. rewrite Hall. by intros [= ->].
Qed.

(** ** Properties *)

(** C11: The daemons on the wire implement the cluster: whatever the pieces, the failures and
    the restarts, every run of the processes with their channels, connection pools, streams and
    receiving tasks is a run of the abstract cluster, in which a message is delivered whole, at
    most once, to the node it names, or lost. Any condition on rounds that looks only at the
    nodes and the message delivered carries over, and so does every theorem on runs of the
    cluster. *)
Theorem wire_refines_cluster {E : Env} {EL : EnvLaws E} {JM : JsonBytes MessageEnvelope}
    {JL : JsonBytesLaws MessageEnvelope JM} route allowed cfgs w w2 :
  judged_locally allowed -> Forall (addressed route) cfgs ->
  rtc (wire_step route allowed) (start_wire cfgs) w -> rtc (wire_step route allowed) w w2 ->
  exists c c2, cluster_run allowed cfgs c /\ rtc (cluster_step allowed) c c2 /\
    nodes c = wire_nodes w /\ nodes c2 = wire_nodes w2.
Proof.
  intros Hlocal Haddr Hrun Hlater.
  destruct (wire_simulated_run route allowed Hlocal _ _ _ Hrun (start_simulates route cfgs Haddr))
    as (c & Hc & Hsim).
  destruct (wire_simulated_run route allowed Hlocal _ _ _ Hlater Hsim) as (c2 & Hc2 & Hsim2).
  exists c, c2. split_and!; [by apply cluster_run_steps|done|apply Hsim|apply Hsim2].
Qed.

Lemma wire_refines_cluster_witness : exists c c2, @cluster_run ref_env faithful three_configs c /\
  rtc (@cluster_step ref_env faithful) c c2 /\ nodes c = wire_nodes wire_committed /\
  nodes c2 = wire_nodes wire_learned.
Proof.
  apply (@wire_refines_cluster ref_env _ ref_json_bytes _ host_of).
  - exact faithful_local.
  - exact three_addressed.
  - exact wire_committed_reached.
  - exact wire_learned_reached.
Defined.

(** What a daemon on the wire knows to be committed. *)
Definition known_committed (w : wire) (name : string) : list LogEntry :=
  committed (mkCluster (wire_nodes w) []) name.

Lemma committed_nodes c w name : nodes c = wire_nodes w -> committed c name = known_committed w name.
Proof. unfold known_committed, committed. by intros ->. Qed.

(** C5: State machine safety down to the bytes: in the runs of the daemons with their network
    tasks, listeners and TCP streams, where messages are frames that arrive in pieces of any
    size, connections break, writes stop halfway and processes end and start again, what one
    node knows to be committed and what any node knows then or later are the same entries as far
    as both go. The conditions on the rounds are those of [committed_agree]; an address must
    lead to no other daemon than the peer it is configured for. *)
Theorem wire_committed_agree {E : Env} {EL : EnvLaws E} {JM : JsonBytes MessageEnvelope}
    {JL : JsonBytesLaws MessageEnvelope JM} route cfgs w w2 name1 name2 :
  connected cfgs -> Forall (addressed route) cfgs ->
  rtc (wire_step route faithful) (start_wire cfgs) w -> rtc (wire_step route faithful) w w2 ->
  known_committed w name1 `prefix_of` known_committed w2 name2 \/
  known_committed w2 name2 `prefix_of` known_committed w name1.
Proof.
  intros Hcon Haddr Hrun Hlater.
  destruct (wire_simulated_run route faithful faithful_local _ _ _ Hrun (start_simulates route cfgs Haddr))
    as (c & Hc & Hsim).
  destruct (wire_simulated_run route faithful faithful_local _ _ _ Hlater Hsim) as (c2 & Hc2 & Hsim2).
  rewrite <-(committed_nodes c w), <-(committed_nodes c2 w2) by (apply Hsim || apply Hsim2).
  destruct (faithful_runs cfgs Hcon c c2) as (h & R & B & h2 & R2 & B2 & Hs & Hstep);
    [by apply cluster_run_steps|done|]. by eapply committed_comparable.
Qed.

Lemma wire_committed_agree_witness :
  known_committed wire_committed "node-01" = two_entries /\
  known_committed wire_committed "node-02" = [] /\
  known_committed wire_learned "node-02" = two_entries /\
  (known_committed wire_committed "node-01" `prefix_of` known_committed wire_learned "node-02" \/
   known_committed wire_learned "node-02" `prefix_of` known_committed wire_committed "node-01").
Proof.
  split; [vm_compute; reflexivity|]. split; [vm_compute; reflexivity|].
  split; [vm_compute; reflexivity|].
  apply (@wire_committed_agree ref_env _ ref_json_bytes _ host_of three_configs).
  - exact three_connected.
  - exact three_addressed.
  - exact wire_committed_reached.
  - exact wire_learned_reached.
Defined.

(** A process that starts has a configuration that was read without error, is a follower that
    has sent nothing, and its node and its network manager know the same peers, those of the
    configuration, under the same addresses, as far as they fit in the node. *)
Theorem boot_registers_peers {E : Env} parse_toml content d now fate n nm :
  boot parse_toml content d now fate = Ok (n, nm) -> exists cfg,
  load parse_toml content = Ok cfg /\ config n = cfg /\ node_id n = s_node_id (server cfg) /\
  role n = Follower /\ outgoing n = [] /\ connections nm = ∅ /\
  (forall p, is_Some (peers n !! p) <-> p ∈ pc_id <$> cfg_peers cfg) /\
  peers n = map_imap (fun p addr => Some (PeerInfo_new p addr)) (peer_addresses nm).
Proof.
  unfold boot. destruct (load parse_toml content) as [cfg| | | |]; try done.
  destruct (RaftNode_new cfg d now) eqn:Hnew; try done. intros [= -> <-].
  apply RaftNode_new_fields in Hnew as (Hc & Hi & Hp & Hr & Ho & _). exists cfg.
  split_and!; [done..|apply (main_network_fields cfg (NetworkManager_new fate))| |].
  - intros p. rewrite Hp. apply peers_of_dom.
  - rewrite Hp. unfold peers_of, main_network, peer_registrations.
    induction (cfg_peers cfg) as [|peer l IH] using rev_ind; [done|].
    rewrite fmap_app, !foldl_app. simpl. rewrite IH. symmetry. by apply map_imap_insert_Some.
Qed.

(** The file of [node-01], with its two peers. *)
Definition sample_toml : ConfigToml :=
  mkConfigToml (Some (mkServerToml (Some "node-01") (Some "0.0.0.0:5555") (Some "/tmp/raft/node-01") None))
    None (Some [mkPeerConfig "node-02" "node-02:5555"; mkPeerConfig "node-03" "node-03:5555"]) None.

Definition boot_sample : outcome (RaftNode * NetworkManager) :=
  @boot ref_env (fun _ => Some sample_toml) (Some "[server]") (mkDir ∅ []) 0 [].

Lemma boot_registers_peers_witness : exists n nm, boot_sample = Ok (n, nm) /\
  peer_addresses nm !! "node-03" = Some "node-03:5555" /\
  peers n = map_imap (fun p addr => Some (@PeerInfo_new ref_heapless p addr)) (peer_addresses nm).
Proof.
  destruct boot_sample as [[n nm]| | | |] eqn:Hboot; [|exfalso; vm_compute in Hboot; discriminate..].
  destruct (@boot_registers_peers ref_env (fun _ => Some sample_toml) (Some "[server]") (mkDir ∅ []) 0 [] n nm Hboot)
    as (cfg & _ & _ & _ & _ & _ & _ & _ & Heq).
  exists n, nm. split; [reflexivity|]. split; [|exact Heq].
  vm_compute in Hboot. injection Hboot as <- <-. vm_compute. reflexivity.
Defined.
