(* ===== verification/Server.v ===== *)
(** * The daemons and their clients: [raft/src/ipc.rs] on the wire

    The IPC servers of a cluster of daemons.  [IpcServer::run] makes the socket
    ([OpenSocket]; when that fails the server ends, and the process with it) and accepts
    connections for ever ([Connect]); each is read by a task of its own, a
    [handle_ipc_connection] of Ipc.v taken apart where other tasks come between: a line is read
    and its request begun ([Request]), and a proposal waits until its reply is there or five
    seconds are over ([Wake]).  [begin_request] and [finish_request] are the halves of
    [process_request], see [process_request_halves] of ServerFacts.v.  Everything else the
    daemons do is a step of Wire.v ([Daemon]).

    A connection is named by its daemon and a number, a reply channel by a number that
    [next_channel] counts. *)

From Stdlib Require Import Init.Byte.
From S2P Require Import Prelude Heapless Protocol Serde HashMap Log StateMachine Config Env.
From S2P Require Import Node Network Daemon Ipc Sample Cluster Wire.
Local Open Scope N_scope.

(** Whose reply is awaited: that of a [Propose] or that of a [Send]. *)
Inductive asked := AskedKey | AskedMessage.

(** The task of a connection reads, awaits the reply of a channel until a deadline, or writes no more. *)
Inductive client_task := ReadingLine | Awaiting (kind : asked) (tx : N) (deadline : N) | Gone.

Record service := mkService {
  sv_wire : wire;
  sockets : gset string;
  tasks : gmap (string * N) client_task;
  said : gmap (string * N) (list string);
  next_channel : N }.

Inductive service_action :=
  | OpenSocket (name : string) (created bound : bool)
  | Connect (name : string) (id : N) (ok : bool)
  | Request (name : string) (id : N) (text : string) (now : N) (writable : bool)
  | Wake (name : string) (id : N) (writable : bool)
  | EndOfInput (name : string) (id : N)
  | Daemon (a : wire_action).

(** [Duration::from_secs(5)] *)
Definition REPLY_TIMEOUT : N := 5000.

Section server.
Context {E : Env} {JM : JsonBytes MessageEnvelope} (route : string -> option string).
Context {Value : Type} {JV : JsonValue Value} {JA : JsonApi Value} {IF : IpcFormat Value}.

(** ** The halves of [process_request] *)

Definition ask (failed : string) (kind : asked) (command : Command) (tx : N) :
    M RaftNode (IpcResponse Value + asked) := (
  outcome <- attempt (propose command tx) ;;
  match outcome with
  | inr e => ret (inl (mkResponse false (String.append failed (error_text e)) None))
  | inl _ => ret (inr kind)
  end)%raft.

Definition begin_request (tx now : N) (request : IpcRequest) : M RaftNode (IpcResponse Value + asked) := (
  match request with
  | ProposeKey key value => ask "Propose failed: " AskedKey (command_of key value) tx
  | Send message =>
      me <- gets node_id ;;
      ask "Send failed: " AskedMessage (message_command me now message) tx
  | _ => response <- process_request tx now [] request ;; ret (inl response)
  end)%raft.

Definition respond_to (kind : asked) (r : recv_result) : IpcResponse Value :=
  match kind with AskedKey => propose_response r | AskedMessage => send_response r end.

(** ** The steps *)

Definition set_wire (w : wire) (sv : service) : service :=
  mkService w (sockets sv) (tasks sv) (said sv) (next_channel sv).

Definition set_task (key : string * N) (t : client_task) (sv : service) : service :=
  mkService (sv_wire sv) (sockets sv) (<[key := t]> (tasks sv)) (said sv) (next_channel sv).

(** What was written to the connection. *)
Definition lines_of (key : string * N) (sv : service) : list string := default [] (said sv !! key).

(** The text of an answer. *)
Definition response_line (response : IpcResponse Value) : option string :=
  (fun text => String.append text (String newline "")) <$> render_response response.

(** The response is written and the next line is read, or the task ends. *)
Definition answer (key : string * N) (response : IpcResponse Value) (writable : bool) (sv : service) : service :=
  match response_line response with
  | Some line =>
      if writable then
        mkService (sv_wire sv) (sockets sv) (<[key := ReadingLine]> (tasks sv))
          (<[key := lines_of key sv ++ [line]]> (said sv)) (next_channel sv)
      else set_task key Gone sv
  | None => set_task key Gone sv
  end.

(** The request of a line: it is answered at once, or its reply is awaited. *)
Definition serve_request (key : string * N) (request : IpcRequest) (now : N) (writable : bool)
    (n : RaftNode) (sv : service) : service :=
  let tx := next_channel sv in
  let '(o, n') := begin_request tx now request n in
  let sv1 := mkService (set_node key.1 n' (sv_wire sv)) (sockets sv) (tasks sv) (said sv) (tx + 1) in
  match o with
  | Ok (inl response) => answer key response writable sv1
  | Ok (inr kind) => set_task key (Awaiting kind tx (clock n + REPLY_TIMEOUT)) sv1
  | _ => set_task key Gone sv1
  end.

(** Is the wait over? *)
Definition wakes (tx deadline : N) (n : RaftNode) : bool :=
  match recv_reply tx n with TimedOut => deadline <=? clock n | _ => true end.

(** The rounds of the tasks of [main]; those of the clients are requests. *)
Definition own_round (a : wire_action) : bool :=
  match a with
  | Round _ (ElectionTick _) | Round _ HeartbeatTick => true
  | Round _ _ => false
  | _ => true
  end.

(** A process that has ended, or is started again, has no socket and no tasks. *)
Definition settle (a : wire_action) (sv : service) : service :=
  let left name := negb (alive name (sv_wire sv)) ||
    match a with Reboot name' _ _ => bool_decide (name' = name) | _ => false end in
  mkService (sv_wire sv) (filter (fun name => left name = false) (sockets sv))
    (map_imap (fun key t => Some (if left key.1 then Gone else t)) (tasks sv)) (said sv) (next_channel sv).

Definition exec_service (a : service_action) (sv : service) : service :=
  match a with
  | OpenSocket name created bound =>
      if alive name (sv_wire sv) && negb (bool_decide (name ∈ sockets sv)) then
        if created && bound then
          mkService (sv_wire sv) ({[name]} ∪ sockets sv) (tasks sv) (said sv) (next_channel sv)
        else
          settle (Shutdown name) (set_wire (exec_wire route (Shutdown name) (sv_wire sv)) sv)
      else sv
  | Connect name id ok =>
      match tasks sv !! (name, id) with
      | None => if bool_decide (name ∈ sockets sv) && ok then set_task (name, id) ReadingLine sv else sv
      | Some _ => sv
      end
  | Request name id text now writable =>
      match tasks sv !! (name, id), wire_nodes (sv_wire sv) !! name with
      | Some ReadingLine, Some n =>
          match parse_request text with
          | inr e => answer (name, id) (mkResponse false (String.append "Invalid request: " e) None) writable sv
          | inl request => serve_request (name, id) request now writable n sv
          end
      | _, _ => sv
      end
  | Wake name id writable =>
      match tasks sv !! (name, id), wire_nodes (sv_wire sv) !! name with
      | Some (Awaiting kind tx deadline), Some n =>
          if wakes tx deadline n then
            answer (name, id) (respond_to kind (recv_reply tx n)) writable sv
          else sv
      | _, _ => sv
      end
  | EndOfInput name id =>
      match tasks sv !! (name, id) with
      | Some ReadingLine => set_task (name, id) Gone sv
      | _ => sv
      end
  | Daemon a =>
      if own_round a then settle a (set_wire (exec_wire route a (sv_wire sv)) sv) else sv
  end.

(** Every process is started, and nobody is connected. *)
Definition start_service (cfgs : list Config) : service := mkService (start_wire cfgs) ∅ ∅ ∅ 0.

Definition run_service (acts : list service_action) (sv : service) : service :=
  foldl (fun sv a => exec_service a sv) sv acts.

(** ** What a run may assume *)

(** The round of the node that a request amounts to. *)
Definition event_of (tx now : N) (n : RaftNode) (request : IpcRequest) : option event :=
  match request with
  | Join id address => Some (AddPeer id address)
  | Leave id => Some (RemovePeer id)
  | Status | Messages _ _ => Some GetStatus
  | ProposeKey key value => Some (Propose (command_of key value) tx)
  | Get _ => None
  | Send message => Some (Propose (message_command (node_id n) now message) tx)
  end.

Definition service_allowed (allowed : action -> cluster -> bool) (a : service_action) (sv : service) : bool :=
  match a with
  | Daemon a => if own_round a then wire_allowed allowed a (sv_wire sv) else true
  | Request name id text now _ =>
      match tasks sv !! (name, id), wire_nodes (sv_wire sv) !! name, parse_request text with
      | Some ReadingLine, Some n, inl request =>
          match event_of (next_channel sv) now n request with
          | Some ev => allowed (Act name ev) (mkCluster (wire_nodes (sv_wire sv)) [])
          | None => true
          end
      | _, _, _ => true
      end
  | _ => true
  end.

Definition service_step (allowed : action -> cluster -> bool) (sv sv' : service) : Prop :=
  exists a, service_allowed allowed a sv = true /\ sv' = exec_service a sv.
End server.
