(* ===== verification/ServerFacts.v ===== *)
(** * A service is a cluster with clients

    [process_request_halves]: the two halves of Server.v are the handler of Ipc.v.  Every step
    of a service is a step of the wire, and so an action of the cluster or none
    ([service_simulated_run]); a channel is used for one proposal ([service_unrepeated]), and
    what is written to a connection is never taken back ([said_grows]). *)

From Stdlib Require Import Init.Byte.
From stdpp Require Import pretty.
From S2P Require Import Prelude Heapless Protocol Serde HashMap Log LogFacts StateMachine Config Env.
From S2P Require Import Node NodeFacts Network NetworkProps Sample Daemon Histories Ipc Invariant Effects Cluster ClusterProps Safety SafetyProps Durable.
From S2P Require Import Wire WireFacts WireSim WireProps Server.
Local Open Scope N_scope.

Section facts.
Context {E : Env} {EL : EnvLaws E}.
Context {Value : Type} {JV : JsonValue Value} {JA : JsonApi Value} {IF : IpcFormat Value}.

(** ** The halves of a request *)

Lemma attempt_snd {S A} (m : M S A) s : (attempt m s).2 = (m s).2.
Proof. unfold attempt. by destruct (m s) as [[] ?]. Qed.

Lemma ask_snd failed kind command tx n : (ask failed kind command tx n).2 = (propose command tx n).2.
Proof.
  unfold ask, bind at 1. rewrite <-(attempt_snd (propose command tx)).
  by destruct (attempt _ n) as [[[|]| | | |] ?].
Qed.

(** What is left of a request that was begun, after the rounds [meanwhile]. *)
Definition finish (tx : N) (meanwhile : list event) (x : IpcResponse Value + asked) :
    M RaftNode (IpcResponse Value) := (
  match x with
  | inl response => ret response
  | inr kind => modify (run_events meanwhile) ;;; r <- gets (recv_reply tx) ;; ret (respond_to kind r)
  end)%raft.

Lemma ask_and_finish failed kind command tx meanwhile n :
  propose_and_wait failed (respond_to kind) command tx meanwhile n =
  bind (ask failed kind command tx) (finish tx meanwhile) n.
Proof.
  unfold propose_and_wait, ask, bind. by destruct (attempt (propose command tx) n) as [[[|]| | | |] ?].
Qed.

(** A request begun, whatever the others do, and finished is the handler of Ipc.v. *)
Lemma process_request_halves tx now meanwhile request n :
  process_request tx now meanwhile request n = bind (begin_request tx now request) (finish tx meanwhile) n.
Proof.
  assert (forall m : M RaftNode (IpcResponse Value),
    m n = bind (bind m (fun r => ret (inl r))) (finish tx meanwhile) n) as Hnow.
  { intros m. unfold bind. by destruct (m n) as [[] ?]. }
  destruct request; try apply Hnow; simpl.
  - apply (ask_and_finish _ AskedKey).
  - rewrite bind_assoc, !bind_gets. apply (ask_and_finish _ AskedMessage).
Qed.

Lemma bind_pure {A B} (m : M RaftNode A) (k : A -> M RaftNode B) n :
  (forall a s, (k a s).2 = s) -> (bind m k n).2 = (m n).2.
Proof. intros Hk. unfold bind. destruct (m n) as [[] ?]; simpl; rewrite ?Hk; done. Qed.

Lemma begin_request_event tx now request n : (begin_request tx now request n).2 =
  match event_of tx now n request with Some ev => (run_event ev n).2 | None => n end.
Proof.
  destruct request; cbn [begin_request event_of process_request run_event]; [..|by rewrite bind_gets, ask_snd|].
  - by rewrite !bind_pure by (intros; by rewrite ?bind_pure).
  - by rewrite !bind_pure by (intros; by rewrite ?bind_pure).
  - by rewrite !bind_pure by (intros; by rewrite ?bind_pure).
  - by rewrite ask_snd.
  - by rewrite bind_pure, bind_gets.
  - rewrite bind_pure, bind_gets by done. by rewrite !bind_pure by done.
Qed.

(** ** A service is a cluster *)

Context {JM : JsonBytes MessageEnvelope} {JL : JsonBytesLaws MessageEnvelope JM}.
Context (route : string -> option string).

Lemma answer_wire key response writable sv : sv_wire (answer key response writable sv) = sv_wire sv.
Proof. unfold answer. by repeat case_match. Qed.

Lemma serve_request_wire key request now writable n sv :
  sv_wire (serve_request key request now writable n sv) =
  set_node key.1 (begin_request (next_channel sv) now request n).2 (sv_wire sv).
Proof.
  unfold serve_request. destruct (begin_request _ now request n) as [[[|]| | | |] ?]; try done.
  by rewrite answer_wire.
Qed.

(** The cluster after the round of a request. *)
Definition after_request (name : string) (tx now : N) (n : RaftNode) (request : IpcRequest) (c : cluster) : cluster :=
  match event_of tx now n request with Some ev => exec_action (Act name ev) c | None => c end.

Lemma set_node_id name n w : wire_nodes w !! name = Some n -> set_node name n w = w.
Proof. intros Hn. unfold set_node. rewrite insert_id by done. by destruct w. Qed.

Lemma request_simulated w c name tx now n request : simulates route w c -> wire_nodes w !! name = Some n ->
  simulates route (set_node name (begin_request tx now request n).2 w) (after_request name tx now n request c).
Proof.
  intros Hsim Hn. rewrite begin_request_event. unfold after_request. destruct (event_of tx now n request) as [ev|] eqn:Hev.
  - simpl. assert (local_event ev = true) as -> by (by destruct request; simplify_eq/=).
    destruct Hsim as [Hnodes (F & Hsub & Hw)]. by eapply simulates_round.
  - by rewrite set_node_id.
Qed.

Context (allowed : action -> cluster -> bool) (local : judged_locally allowed).

Lemma service_simulated a sv c : simulates route (sv_wire sv) c -> service_allowed allowed a sv = true ->
  exists c', rtc (cluster_step allowed) c c' /\ simulates route (sv_wire (exec_service route a sv)) c'.
Proof.
  intros Hsim Hallowed. assert (exists c', rtc (cluster_step allowed) c c' /\ simulates route (sv_wire sv) c') as Hstay
    by by exists c.
  destruct a as [name created bound|name id ok|name id text now writable|name id writable|name id|a]; simpl in *.
  - case_match; [|done]. case_match; [done|]. by apply (wire_simulated route allowed local (Shutdown name)).
  - by repeat case_match.
  - destruct (tasks sv !! (name, id)) as [[]|]; try done. destruct (wire_nodes (sv_wire sv) !! name) as [n|] eqn:Hn; [|done].
    destruct (parse_request text) as [request|e]; [|by rewrite answer_wire]. rewrite serve_request_wire.
    exists (after_request name (next_channel sv) now n request c). split; [|by apply request_simulated].
    unfold after_request. destruct (event_of _ now n request) as [ev|]; [|done]. apply rtc_once. exists (Act name ev).
    split; [|done]. rewrite <-Hallowed. apply local. by destruct Hsim as [Hnodes _].
  - repeat case_match; rewrite ?answer_wire; done.
  - by repeat case_match.
  - case_match; [|done]. by apply (wire_simulated route allowed local a).
Qed.

Lemma service_simulated_run sv sv' c : rtc (service_step route allowed) sv sv' -> simulates route (sv_wire sv) c ->
  exists c', rtc (cluster_step allowed) c c' /\ simulates route (sv_wire sv') c'.
Proof.
  intros Hrun. revert c. induction Hrun as [sv|sv sv1 sv2 (a & Ha & ->) _ IH]; intros c Hsim; [by exists c|].
  destruct (service_simulated a sv c Hsim Ha) as (c1 & Hstep & Hsim1).
  destruct (IH c1 Hsim1) as (c2 & Hsteps & Hsim2). exists c2. split; [by etransitivity|done].
Qed.
End facts.

Section runs.
Context {E : Env} {EL : EnvLaws E}.
Context {Value : Type} {JV : JsonValue Value} {JA : JsonApi Value} {IF : IpcFormat Value}.
Context {JM : JsonBytes MessageEnvelope} {JL : JsonBytesLaws MessageEnvelope JM}.
Context (route : string -> option string).
(** ** The channels of the proposals *)

Lemma answer_channel key response writable sv : next_channel (answer key response writable sv) = next_channel sv.
Proof. unfold answer. by repeat case_match. Qed.

Lemma serve_request_channel key request now writable n sv :
  next_channel (serve_request key request now writable n sv) = next_channel sv + 1.
Proof.
  unfold serve_request. destruct (begin_request _ now request n) as [[[|]| | | |] ?]; try done.
  by rewrite answer_channel.
Qed.

Lemma next_channel_grows a sv : next_channel sv <= next_channel (exec_service route a sv).
Proof.
  destruct a; simpl; repeat case_match; simpl; try done; rewrite ?answer_channel, ?serve_request_channel; lia.
Qed.

Lemma unrepeated_local tx : judged_locally (unrepeated tx).
Proof.
  intros a a' c c' Hsight. unfold unrepeated. rewrite (faithful_local a a' c c' Hsight). f_equal.
  destruct Hsight as [_ Ha]. by destruct a, a'; simplify_eq/=.
Qed.

(** A channel that is used already, or not yet, is not used by the step. *)
Lemma service_unrepeated tx a sv : service_allowed faithful a sv = true ->
  tx < next_channel sv \/ next_channel (exec_service route a sv) <= tx -> service_allowed (unrepeated tx) a sv = true.
Proof.
  intros Ha Htx. destruct a as [name created bound|name id ok|name id text now writable|name id writable|name id|a];
    simpl in *; try done.
  - destruct (tasks sv !! (name, id)) as [[]|]; try done. destruct (wire_nodes (sv_wire sv) !! name) as [n|]; [|done].
    destruct (parse_request text) as [request|e]; [|done]. rewrite serve_request_channel in Htx.
    destruct request; cbn [event_of] in *; try done; unfold unrepeated; rewrite Ha.
    all: try done; apply negb_true_iff, N.eqb_neq; lia.
  - destruct (own_round a) eqn:Hown; [|done]. unfold wire_allowed in *. apply andb_prop in Ha as [-> Ha]. simpl.
    destruct (view a (sv_wire sv)) as [[a' c]|] eqn:Hview; [|done]. unfold unrepeated. rewrite Ha. simpl.
    destruct a as [| |name ev| |name s|name s k|name s| | |]; simpl in Hview; simplify_eq; try done; [by destruct ev|].
    destruct (accepted _ !! _) as [[? ? buffer|]|]; [|done..]. destruct (cut_frame buffer); [done..|].
    destruct (from_slice _); by simplify_eq/=.
Qed.

End runs.

Section mirrors.
Context {E : Env} {EL : EnvLaws E}.
Context {Value : Type} {JV : JsonValue Value} {JA : JsonApi Value} {IF : IpcFormat Value}.
Context {JM : JsonBytes MessageEnvelope} {JL : JsonBytesLaws MessageEnvelope JM}.
Context (route : string -> option string).

(** ** A service and its cluster *)

Context (cfgs : list Config) (con : connected cfgs).

(** No node has anything to do with a channel that is not made yet. *)
Record running (sv : service) (c : cluster) : Prop := {
  ru_run : cluster_run faithful cfgs c;
  ru_sim : simulates route (sv_wire sv) c;
  ru_fresh tx name n : next_channel sv <= tx -> wire_nodes (sv_wire sv) !! name = Some n -> fresh_request tx n;
}.

Lemma simulates_nodes w c : simulates route w c -> nodes c = wire_nodes w.
Proof. by intros []. Qed.

Lemma fresh_later tx c c' : cluster_run faithful cfgs c -> rtc (cluster_step (unrepeated tx)) c c' ->
  (forall name n, nodes c !! name = Some n -> fresh_request tx n) ->
  forall name n, nodes c' !! name = Some n -> fresh_request tx n.
Proof.
  intros Hrun Hrtc. revert Hrun. induction Hrtc as [c|c c1 c2 (a & Ha & ->) _ IH]; intros Hrun Hf; [done|].
  destruct (faithful_run cfgs con c Hrun) as (h & R & B & _ & Hs).
  apply IH; [apply run_step; [done|by apply andb_prop in Ha as []]|]. intros name n' Hn'.
  destruct (action_answers cfgs tx name h R B c a n' Hs Ha Hn') as (n & Hn & _ & Hr & Hp).
  destruct (Hf name n Hn) as [Hfp Hfr]. split; intros j Hj; [by apply (Hfp j), Hp|].
  destruct (Hr j Hj) as [Hold|(_ & Hold & _)]; [by apply (Hfr j)|by apply (Hfp j)].
Qed.

Lemma running_step a sv c : running sv c -> service_allowed faithful a sv = true ->
  exists c', rtc faithful_step c c' /\ running (exec_service route a sv) c'.
Proof.
  intros [Hrun Hsim Hf] Ha. destruct (service_simulated route faithful faithful_local a sv c Hsim Ha) as (c' & Hr & Hsim').
  exists c'. split; [done|]. split; [by eapply cluster_run_later|done|]. intros tx name n Htx Hn.
  destruct (service_simulated route (unrepeated tx) (unrepeated_local tx) a sv c Hsim) as (c2 & Hr2 & Hsim2).
  { apply (service_unrepeated route); [done|by right]. }
  apply simulates_nodes in Hsim2 as Hnodes. rewrite <-Hnodes in Hn.
  refine (fresh_later tx c c2 Hrun Hr2 _ name n Hn). intros name' n'. rewrite (simulates_nodes _ _ Hsim).
  apply Hf. pose proof (next_channel_grows route a sv). lia.
Qed.

Lemma running_later sv sv' c : running sv c -> rtc (service_step route faithful) sv sv' ->
  exists c', rtc faithful_step c c' /\ running sv' c'.
Proof.
  intros Hru Hrtc. revert c Hru. induction Hrtc as [sv|sv sv1 sv2 (a & Ha & ->) _ IH]; intros c Hru; [by exists c|].
  destruct (running_step a sv c Hru Ha) as (c1 & Hr1 & Hru1). destruct (IH c1 Hru1) as (c2 & Hr2 & Hru2).
  exists c2. split; [by etransitivity|done].
Qed.

Lemma running_start : Forall (addressed route) cfgs -> running (start_service cfgs) (start_cluster cfgs).
Proof.
  intros Haddr. split; [apply run_start|by apply start_simulates|].
  intros tx name n _ (cfg & _ & _ & Hnew)%start_nodes. unfold RaftNode_new in Hnew.
  destruct (RaftLog_new _ _); simplify_eq. split; intros j; [done|by apply not_elem_of_nil].
Qed.

(** ** What was written *)

Lemma lines_task key t sv key' : lines_of key (set_task key' t sv) = lines_of key sv.
Proof. done. Qed.

Lemma said_answer key key' response writable sv :
  lines_of key sv `prefix_of` lines_of key (answer key' response writable sv).
Proof.
  unfold answer. destruct (response_line response) as [line|]; [|done]. destruct writable; [|done].
  unfold lines_of. simpl. destruct (decide (key' = key)) as [->|]; [|by rewrite lookup_insert_ne].
  rewrite lookup_insert_eq. simpl. by apply prefix_app_r.
Qed.

Lemma said_serve key key' request now writable n sv :
  lines_of key sv `prefix_of` lines_of key (serve_request key' request now writable n sv).
Proof.
  unfold serve_request. destruct (begin_request _ now request n) as [[[response|]| | | |] n']; try done.
  set (sv1 := mkService _ _ _ _ _). apply (said_answer key key' response writable sv1).
Qed.

Lemma said_grows key a sv : lines_of key sv `prefix_of` lines_of key (exec_service route a sv).
Proof.
  destruct a; simpl; repeat case_match; try done; first [apply said_answer|apply said_serve].
Qed.

(** ** A request that waits *)

Lemma settle_task key a sv t : tasks sv !! key = Some t ->
  tasks (settle a sv) !! key = Some t \/ tasks (settle a sv) !! key = Some Gone.
Proof. intros Ht. unfold settle. simpl. rewrite map_lookup_imap, Ht. simpl. case_match; auto. Qed.

Lemma set_task_other key key' t sv : key' <> key -> tasks (set_task key' t sv) !! key = tasks sv !! key.
Proof. intros. simpl. by rewrite lookup_insert_ne. Qed.

Lemma answer_task key key' response writable sv : key' <> key ->
  tasks (answer key' response writable sv) !! key = tasks sv !! key /\
  lines_of key (answer key' response writable sv) = lines_of key sv.
Proof.
  intros Hne. unfold answer, lines_of. by repeat case_match; simpl; rewrite ?lookup_insert_ne.
Qed.

Lemma serve_request_task key key' request now writable n sv : key' <> key ->
  tasks (serve_request key' request now writable n sv) !! key = tasks sv !! key /\
  lines_of key (serve_request key' request now writable n sv) = lines_of key sv.
Proof.
  intros Hne. unfold serve_request. destruct (begin_request _ now request n) as [[[response|]| | | |] m].
  { set (sv1 := mkService _ _ _ _ _). apply (answer_task key key' response writable sv1 Hne). }
  all: simpl; by rewrite lookup_insert_ne.
Qed.

(** A task that does not read is left alone, or ends, or is the one that wakes. *)
Lemma task_step key a sv t : tasks sv !! key = Some t -> t <> ReadingLine ->
  let sv' := exec_service route a sv in
  (tasks sv' !! key = Some t \/ tasks sv' !! key = Some Gone) /\ lines_of key sv' = lines_of key sv \/
  exists kind tx deadline n writable, t = Awaiting kind tx deadline /\
    wire_nodes (sv_wire sv) !! key.1 = Some n /\ wakes tx deadline n = true /\
    sv' = answer key (respond_to kind (recv_reply tx n)) writable sv.
Proof.
  intros Ht Hread. destruct a as [name created bound|name id ok|name id text now writable|name id writable|name id|a]; simpl.
  - left. case_match; [|by auto]. case_match; [by auto|]. split; [|done]. by apply settle_task.
  - left. destruct (decide ((name, id) = key)) as [<-|Hne]; [rewrite Ht; by auto|].
    repeat case_match; simpl; rewrite ?lookup_insert_ne by done; by auto.
  - left. destruct (decide ((name, id) = key)) as [<-|Hne]; [rewrite Ht; by destruct t; auto|].
    destruct (tasks sv !! (name, id)) as [[]|]; [|by auto..]. destruct (wire_nodes _ !! name) as [n|]; [|by auto].
    destruct (parse_request text) as [request|e].
    + destruct (serve_request_task key (name, id) request now writable n sv Hne) as [-> ->]. auto.
    + destruct (answer_task key (name, id) (mkResponse false (String.append "Invalid request: " e) None) writable sv Hne)
        as [-> ->]. auto.
  - destruct (decide ((name, id) = key)) as [<-|Hne].
    + rewrite Ht. destruct t as [|kind tx deadline|]; [done| |by auto]. simpl.
      destruct (wire_nodes _ !! name) as [n|]; [|by auto]. destruct (wakes tx deadline n) eqn:Hw; [|by auto].
      right. by exists kind, tx, deadline, n, writable.
    + left. destruct (tasks sv !! (name, id)) as [[]|]; [by auto| |by auto..].
      destruct (wire_nodes _ !! name) as [n|]; [|by auto]. case_match; [|by auto].
      destruct (answer_task key (name, id) (respond_to kind (recv_reply tx n)) writable sv Hne) as [-> ->]. auto.
  - left. destruct (decide ((name, id) = key)) as [<-|Hne]; [rewrite Ht; by destruct t; auto|].
    repeat case_match; simpl; rewrite ?lookup_insert_ne by done; by auto.
  - left. case_match; [|by auto]. split; [|done]. by apply settle_task.
Qed.
End mirrors.
