(* ===== verification/ServerProps.v ===== *)
(** * What a client of the cluster can rely on

    A write that is answered with success on a socket, by the leader that took it and in its
    term, is never lost: from the bytes of the client through the log of the leader, the bytes
    on the network and the acknowledgement of a follower, to the leaders to come.  [heard] says
    what a connection was told, [told] of Durable.v what the cluster knows of it. *)

From Stdlib Require Import Init.Byte.
From stdpp Require Import pretty.
From S2P Require Import Prelude Heapless Protocol Serde HashMap Log LogFacts StateMachine Config Env.
From S2P Require Import Node NodeFacts Network NetworkProps Sample Daemon Ipc Cli Json Invariant Effects Cluster Scenarios ClusterProps.
From S2P Require Import Safety SafetyProps Durable Wire WireFacts WireSim WireProps Server ServerFacts.
Local Open Scope N_scope.

Section told.
Context {E : Env} {EL : EnvLaws E}.
Context {Value : Type} {JV : JsonValue Value} {JA : JsonApi Value} {IF : IpcFormat Value}.
Context {JM : JsonBytes MessageEnvelope} {JL : JsonBytesLaws MessageEnvelope JM}.
Context (route : string -> option string) (cfgs : list Config) (con : connected cfgs).
Context (key : string * N) (tx : N) (old : list string).

(** The answer to a request: a success is that of the channel [tx]. *)
Record reply_of (response : IpcResponse Value) (sv : service) : Prop := {
  ro_plain : plain_data (ipc_data response);
  ro_success : ipc_success response = true -> exists i, response = propose_response (Reply (Success i)) /\
    forall n, wire_nodes (sv_wire sv) !! key.1 = Some n -> (tx, Success i) ∈ replies n;
}.

(** The request waits, or its connection is gone, or the first line after the [old] ones is its answer. *)
Definition heard (sv : service) : Prop :=
  (exists deadline, tasks sv !! key = Some (Awaiting AskedKey tx deadline)) /\ lines_of key sv = old \/
  tasks sv !! key = Some Gone /\ lines_of key sv = old \/
  exists response line rest, lines_of key sv = old ++ line :: rest /\ response_line response = Some line /\
    reply_of response sv.

Lemma answer_heard response writable sv : lines_of key sv = old -> reply_of response sv ->
  heard (answer key response writable sv).
Proof.
  intros Hold Hr. unfold answer. destruct (response_line response) as [line|] eqn:Hline; [destruct writable|].
  - right; right. exists response, line, []. split_and!; [|done|by destruct Hr]. unfold lines_of at 1. simpl.
    by rewrite lookup_insert_eq, Hold.
  - right; left. split; [apply lookup_insert_eq|done].
  - right; left. split; [apply lookup_insert_eq|done].
Qed.

Lemma refusal_reply msg sv : reply_of (mkResponse false msg None) sv.
Proof. by split; [apply plain_none|]. Qed.

Lemma key_reply n sv : wire_nodes (sv_wire sv) !! key.1 = Some n -> reply_of (propose_response (recv_reply tx n)) sv.
Proof.
  intros Hn. destruct (recv_reply tx n) as [[i|leader|reason]| |] eqn:Hr.
  - split; [apply plain_none|]. intros _. exists i. split; [done|]. intros n' Hn'. simplify_eq.
    unfold recv_reply in Hr. destruct (list_find _ (replies n)) as [[k [tx' r]]|] eqn:Hf; [|by case_decide].
    apply list_find_Some in Hf as (Hk & Htx & _). simpl in *. simplify_eq. by eapply list_elem_of_lookup_2.
  - split; [|done]. destruct leader as [l|]; simpl; [|apply plain_none]. apply plain_obj; simpl.
    + apply NoDup_singleton.
    + apply Forall_singleton, leaf_str.
  - apply refusal_reply.
  - apply refusal_reply.
  - apply refusal_reply.
Qed.

(** A request is begun. *)
Lemma heard_begin k value now writable n sv : lines_of key sv = old -> next_channel sv = tx ->
  heard (serve_request key (ProposeKey k value) now writable n sv).
Proof.
  intros Hold Htx. unfold serve_request. cbn [begin_request]. unfold ask, bind. rewrite Htx.
  destruct (attempt _ n) as [[[|e]| | | |] m]; simpl.
  - left. split; [eexists; apply lookup_insert_eq|done].
  - set (sv1 := mkService _ _ _ _ _). by apply (answer_heard _ writable sv1), refusal_reply.
  - right; left. split; [apply lookup_insert_eq|done].
  - right; left. split; [apply lookup_insert_eq|done].
  - right; left. split; [apply lookup_insert_eq|done].
  - right; left. split; [apply lookup_insert_eq|done].
Qed.

Lemma heard_step a sv c : running route cfgs sv c -> service_allowed faithful a sv = true -> heard sv ->
  heard (exec_service route a sv).
Proof.
  intros Hru Ha Hh. destruct Hh as [[[deadline Ht] Hold]|[[Ht Hold]|(response & line & rest & Hold & Hline & [Hplain Hs])]].
  - destruct (task_step route key a sv _ Ht) as [[[Ht'|Ht'] Hl]|(kind & tx' & d & n & writable & Heq & Hn & _ & ->)]; [done|..].
    + left. split; [by exists deadline|congruence].
    + right; left. split; [done|congruence].
    + simplify_eq. apply answer_heard; [done|]. by apply key_reply.
  - destruct (task_step route key a sv _ Ht) as [[[Ht'|Ht'] Hl]|(? & ? & ? & ? & ? & ? & _)]; [done|..|done];
      right; left; split; [done|congruence|done|congruence].
  - right; right. destruct (said_grows route key a sv) as [more Hmore].
    exists response, line, (rest ++ more). split_and!; [|done|].
    + by rewrite Hmore, Hold, <-(assoc_L (++)).
    + split; [done|]. intros Hok. destruct (Hs Hok) as (i & -> & Hi). exists i. split; [done|]. intros n' Hn'.
      destruct (running_step route cfgs con a sv c Hru Ha) as (c' & Hr & Hru').
      rewrite <-(simulates_nodes route _ _ (ru_sim _ _ _ _ Hru')) in Hn'.
      destruct (replies_later cfgs con tx key.1 c c' n' (ru_run _ _ _ _ Hru) Hr Hn') as (n & Hn & Hp).
      rewrite (simulates_nodes route _ _ (ru_sim _ _ _ _ Hru)) in Hn.
      specialize (Hi n Hn). destruct Hp as [l ->]. apply elem_of_app. by left.
Qed.

(** Along a run, with the history of the cluster. *)
Lemma heard_later t i e h R B sv sv' c : running route cfgs sv c -> tx < next_channel sv -> heard sv ->
  sound cfgs h c -> safe cfgs h R B c -> told cfgs tx key.1 t i e h R B c ->
  rtc (service_step route faithful) sv sv' ->
  exists h' R' B' c', simulates route (sv_wire sv') c' /\ heard sv' /\ sound cfgs h' c' /\ safe cfgs h' R' B' c' /\
    told cfgs tx key.1 t i e h' R' B' c'.
Proof.
  intros Hru Htx Hh Hc Hs Ht Hrtc. revert h R B c Hru Htx Hh Hc Hs Ht.
  induction Hrtc as [sv|sv sv1 sv2 (a & Ha & ->) _ IH]; intros h R B c Hru Htx Hh Hc Hs Ht.
  { exists h, R, B, c. split_and!; try done. apply Hru. }
  destruct (service_simulated route (unrepeated tx) (unrepeated_local tx) a sv c (ru_sim _ _ _ _ Hru))
    as (c1 & Hr1 & Hsim1); [by apply (service_unrepeated route); [|left]|].
  destruct (told_later cfgs con tx key.1 t i e h R B c c1 Hc Hs Ht Hr1) as (h1 & R1 & B1 & Hc1 & Hs1 & Ht1).
  destruct (running_step route cfgs con a sv c Hru Ha) as (c2 & _ & [_ Hsim2 Hf2]).
  apply (IH h1 R1 B1 c1); try done.
  - split; [|done|done]. eapply cluster_run_later; [apply (ru_run _ _ _ _ Hru)|].
    revert Hr1. apply rtc_subrel. intros x y (b & Hb & ->). exists b. split; [|done]. by apply andb_prop in Hb as [].
  - pose proof (next_channel_grows route a sv). lia.
  - by eapply heard_step.
Qed.
End told.

(** ** The line of a write *)

Section write.
Context {E : Env} {EL : EnvLaws E}.
Context {Value : Type} {JV : JsonValue Value} {JA : JsonApi Value} {IF : IpcFormat Value}.
Context {JM : JsonBytes MessageEnvelope} {JL : JsonBytesLaws MessageEnvelope JM}.
Context (route : string -> option string) (cfgs : list Config) (con : connected cfgs).

Lemma write_begun sv c name id text key value now writable n : running route cfgs sv c ->
  tasks sv !! (name, id) = Some ReadingLine -> wire_nodes (sv_wire sv) !! name = Some n -> role n = Leader ->
  parse_request text = inl (ProposeKey key value) ->
  let a := Request name id text now writable in service_allowed faithful a sv = true ->
  let sv1 := exec_service route a sv in let tx := next_channel sv in let i := last_index (log n) + 1 in
  tx < next_channel sv1 /\ heard (name, id) tx (lines_of (name, id) sv) sv1 /\
  exists c1 h1 R1 B1, running route cfgs sv1 c1 /\ sound cfgs h1 c1 /\ safe cfgs h1 R1 B1 c1 /\
    told cfgs tx name (node_term n) i (mkEntry i (node_term n) (command_of key value)) h1 R1 B1 c1.
Proof.
  intros Hru Htask Hn Hr Hparse a Ha sv1 tx i. pose proof Hru as [Hcrun Hsim Hfresh].
  pose proof (simulates_nodes route _ _ Hsim) as Hnodes. set (cmd := command_of key value).
  assert (sv1 = serve_request (name, id) (ProposeKey key value) now writable n sv) as Hexec.
  { unfold sv1. simpl. by rewrite Htask, Hn, Hparse. }
  assert (faithful (Act name (Propose cmd tx)) c = true) as Hf.
  { pose proof Ha as Hf. simpl in Hf. rewrite Htask, Hn, Hparse in Hf. rewrite <-Hf. by apply faithful_local. }
  split; [rewrite Hexec, serve_request_channel; lia|]. split; [rewrite Hexec; by apply heard_begin|].
  destruct (faithful_run cfgs con c Hcrun) as (h & R & B & Hc & Hs).
  destruct (proposal_told cfgs con h R B c name n cmd tx) as (h1 & R1 & B1 & Hc1 & Hs1 & Ht1);
    [done|done|by rewrite Hnodes|done|apply (Hfresh tx name); [apply N.le_refl|done]|done|].
  pose proof (request_simulated route _ c name tx now n (ProposeKey key value) Hsim Hn) as Hsim1.
  destruct (running_step route cfgs con a sv c Hru Ha) as (c1 & _ & [_ _ Hfresh1]).
  eexists _, h1, R1, B1. split_and!; [|exact Hc1|exact Hs1|exact Ht1].
  split; [by apply run_step|rewrite Hexec, serve_request_wire; exact Hsim1|exact Hfresh1].
Qed.

(** The success that a client reads is that of its channel. *)
Lemma success_read {CF : CliFormat Value} {IW : IpcWire Value JA IF CF} key tx old sv line rest response :
  heard key tx old sv -> lines_of key sv = old ++ line :: rest -> parse_response line = Some response ->
  ipc_success response = true -> exists i, response = propose_response (Reply (Success i)) /\
    forall n, wire_nodes (sv_wire sv) !! key.1 = Some n -> (tx, Success i) ∈ replies n.
Proof.
  intros Hh Hlines Hresp Hok.
  destruct Hh as [[_ Hno]|[[_ Hno]|(response' & line' & rest' & Heq & Hline & [Hplain Hsucc])]].
  1-2: rewrite Hlines in Hno; apply (f_equal length) in Hno; rewrite length_app in Hno; simpl in Hno; lia.
  rewrite Hlines in Heq. apply app_inv_head in Heq as [= <- _]. unfold response_line in Hline.
  destruct (response_crosses response' Hplain) as (txt & Htxt & _ & Hback). rewrite Htxt in Hline.
  simpl in Hline. injection Hline as <-. rewrite Hback in Hresp. injection Hresp as <-. by apply Hsucc.
Qed.
End write.

(** ** A run with a client *)

Section schedule.
Context {E : Env} {JM : JsonBytes MessageEnvelope} (route : string -> option string).
Context {Value : Type} {JV : JsonValue Value} {JA : JsonApi Value} {IF : IpcFormat Value}.

(** Actions of clients and servers, and schedules of the wire. *)
Inductive service_order := Client (a : service_action) | Net (os : list wire_order).

Fixpoint service_actions (os : list service_order) (sv : service) : list service_action :=
  match os with
  | [] => []
  | o :: os' =>
      let acts := match o with
                  | Client a => [a]
                  | Net ws => Daemon <$> wire_actions route ws (sv_wire sv)
                  end in
      acts ++ service_actions os' (run_service route acts sv)
  end.

Fixpoint all_service_allowed (allowed : action -> cluster -> bool) (acts : list service_action) (sv : service) : bool :=
  match acts with
  | [] => true
  | a :: acts' => service_allowed allowed a sv && all_service_allowed allowed acts' (exec_service route a sv)
  end.

Lemma all_service_allowed_run allowed acts sv : all_service_allowed allowed acts sv = true ->
  rtc (service_step route allowed) sv (run_service route acts sv).
Proof.
  revert sv. induction acts as [|a acts IH]; intros sv Ha; [done|]. simpl in Ha.
  apply andb_prop in Ha as [Hf Ha]. eapply rtc_l; [by exists a|by apply IH].
Qed.
End schedule.

Notation json_service_step := (@service_step ref_env ref_json_bytes host_of json tree_value tree_api tree_format faithful).

Definition service_after (os : list service_order) (sv : service) : service :=
  @run_service ref_env ref_json_bytes host_of json tree_value tree_api tree_format
    (@service_actions ref_env ref_json_bytes host_of json tree_value tree_api tree_format os sv) sv.

(** The line of a request. *)
Definition request_text (request : IpcRequest) : string :=
  String.append (default "" (@render_request json tree_cli_format request)) (String newline "").

(** [node-01] is elected, and a client connects. *)
Definition open_orders : list service_order :=
  [Net ((fun name => Now (Bind name true)) <$> three); Client (OpenSocket "node-01" true true);
   Net (Now (Tick "node-01" 1000) :: Now (Round "node-01" (ElectionTick 150)) :: flush);
   Client (Connect "node-01" 0 true)].

Notation write_request := (Request "node-01" 0 (request_text (ProposeKey "k" (Some "one"))) 0 true).

(** The request is replicated and answered. *)
Definition answer_orders : list service_order := [Net flush; Client (Wake "node-01" 0 true)].

(** Both nodes of the majority are restarted, and [node-02] is elected by [node-03]. *)
Definition failover_orders : list service_order :=
  [Net ([Now (Reboot "node-01" [] 2000); Now (Reboot "node-02" [] 2000); Now (Bind "node-02" true);
         Now (Tick "node-02" 3000); Now (Round "node-02" (ElectionTick 150))] ++ flush)].

Definition service_opened : service := service_after open_orders (@start_service ref_env three_configs).
Notation service_asked :=
  (@exec_service ref_env ref_json_bytes host_of json tree_value tree_api tree_format write_request service_opened).
Definition service_answered : service := service_after answer_orders service_asked.
Definition service_failed_over : service := service_after failover_orders service_answered.

Lemma service_reached os sv : @all_service_allowed ref_env ref_json_bytes host_of json tree_value tree_api tree_format
    faithful (@service_actions ref_env ref_json_bytes host_of json tree_value tree_api tree_format os sv) sv = true ->
  rtc json_service_step sv (service_after os sv).
Proof. apply all_service_allowed_run. Qed.

Lemma service_opened_reached : rtc json_service_step (@start_service ref_env three_configs) service_opened.
Proof. apply service_reached. vm_compute. reflexivity. Qed.

Lemma service_answered_reached : rtc json_service_step service_asked service_answered.
Proof. apply service_reached. vm_compute. reflexivity. Qed.

Lemma service_failed_over_reached : rtc json_service_step service_answered service_failed_over.
Proof. apply service_reached. vm_compute. reflexivity. Qed.

Definition wire_node (sv : service) (name : string) : RaftNode :=
  default (sample three name) (wire_nodes (sv_wire sv) !! name).

(** ** Properties *)

(** C3: What a client is told is true, from its socket to the disk of any later leader: on the
    wire, with clients on the sockets of the daemons, when a client sends a put or a delete to a
    leader and the first line it reads after that is a success, this line names an index at
    which every leader of the same or a later term, at any later time, has the command of the
    client, provided the leader had not changed its term by the time of the answer. The
    conditions on the rounds are those of [committed_agree]; everything a client does to a node
    goes through its socket, and its reply channels are the ones the server makes. *)
Theorem client_write_survives {E : Env} {EL : EnvLaws E} {JM : JsonBytes MessageEnvelope}
    {JL : JsonBytesLaws MessageEnvelope JM} {Value} {JV : JsonValue Value} {JA : JsonApi Value}
    {IF : IpcFormat Value} {CF : CliFormat Value} {IW : IpcWire Value JA IF CF}
    route cfgs sv sv2 sv3 name id text key value now writable n n2 line rest response ldr l :
  connected cfgs -> Forall (addressed route) cfgs ->
  rtc (service_step route faithful) (start_service cfgs) sv ->
  tasks sv !! (name, id) = Some ReadingLine -> wire_nodes (sv_wire sv) !! name = Some n -> role n = Leader ->
  parse_request text = inl (ProposeKey key value) ->
  let a := Request name id text now writable in service_allowed faithful a sv = true ->
  rtc (service_step route faithful) (exec_service route a sv) sv2 ->
  lines_of (name, id) sv2 = lines_of (name, id) sv ++ line :: rest ->
  parse_response line = Some response -> ipc_success response = true ->
  wire_nodes (sv_wire sv2) !! name = Some n2 -> node_term n2 = node_term n ->
  rtc (service_step route faithful) sv2 sv3 -> wire_nodes (sv_wire sv3) !! ldr = Some l -> role l = Leader ->
  node_term n <= node_term l ->
  exists i, ipc_message response = String.append "Committed at index " (pretty i) /\
    lookup1 (log_entries (log l)) i = Some (mkEntry i (node_term n) (command_of key value)).
Proof.
  intros Hcon Haddr Hrun Htask Hn Hr Hparse a Ha H12 Hlines Hresp Hok Hn2 Ht H23 Hl Hlead Hle.
  destruct (running_later route cfgs Hcon _ sv _ (running_start route cfgs Haddr) Hrun) as (c & _ & Hru).
  destruct (write_begun route cfgs Hcon sv c name id text key value now writable n Hru Htask Hn Hr Hparse Ha)
    as (Htx & Hh1 & c1 & h1 & R1 & B1 & Hru1 & Hc1 & Hs1 & Ht1).
  destruct (heard_later route cfgs Hcon (name, id) _ _ _ _ _ h1 R1 B1 _ sv2 c1 Hru1 Htx Hh1 Hc1 Hs1 Ht1 H12)
    as (h2 & R2 & B2 & c2 & Hsim2 & Hh & Hc2 & Hs2 & Ht2).
  destruct (success_read (name, id) _ _ sv2 line rest response Hh Hlines Hresp Hok) as (i & -> & Hi).
  specialize (Hi n2 Hn2). exists i. split; [done|].
  rewrite <-(simulates_nodes route _ _ Hsim2) in Hn2.
  destruct (to_answer _ _ _ _ _ _ _ _ _ _ Ht2 n2 i Hn2 Ht Hi) as (-> & p & Hcov & He).
  destruct (service_simulated_run route faithful faithful_local sv2 sv3 c2 H23 Hsim2) as (c3 & Hr3 & Hsim3).
  rewrite <-(simulates_nodes route _ _ Hsim3) in Hl.
  destruct (faithful_later cfgs Hcon h2 R2 B2 c2 c3 Hc2 Hs2 Hr3) as (h3 & R3 & B3 & Hstep).
  eapply lookup1_prefix; [|exact He]. eapply covered_reign; [by eapply step_covered|exact Hle|].
  by apply (sf_leader _ _ _ _ _ _ _ _ (safe_log cfgs h3 R3 B3 c3 ldr l (proj1 Hstep) Hl)).
Qed.

(** What the client is told. *)
Definition told_line : string := default "" (head (lines_of ("node-01", 0) service_answered)).

(** The client of [node-01] reads that its write is committed at index 1; [node-02] has the entry
    when it leads in term 2. *)
Lemma client_write_survives_witness : exists i response,
  lines_of ("node-01", 0) service_answered = [told_line] /\
  @parse_response json tree_cli_format told_line = Some response /\
  ipc_message response = String.append "Committed at index " (pretty i) /\
  node_term (wire_node service_failed_over "node-02") = 2 /\
  lookup1 (log_entries (log (wire_node service_failed_over "node-02"))) i = Some (mkEntry i 1 (put "k" "one")).
Proof.
  set (response := @mkResponse json true "Committed at index 1" None).
  assert (node_term (wire_node service_opened "node-01") = 1) as Ht by (vm_compute; reflexivity).
  assert (lines_of ("node-01", 0) service_answered = [told_line]) as Hlines by (vm_compute; reflexivity).
  assert (@parse_response json tree_cli_format told_line = Some response) as Hresp by (vm_compute; reflexivity).
  destruct (@client_write_survives ref_env _ ref_json_bytes _ json tree_value tree_api tree_format tree_cli_format
    tree_wire host_of three_configs service_opened service_answered service_failed_over "node-01" 0
    (request_text (ProposeKey "k" (Some "one"))) "k" (Some "one") 0 true (wire_node service_opened "node-01")
    (wire_node service_answered "node-01") told_line [] response "node-02" (wire_node service_failed_over "node-02"))
    as (i & Hmsg & Hl).
  - exact three_connected.
  - exact three_addressed.
  - exact service_opened_reached.
  - vm_compute. reflexivity.
  - vm_compute. reflexivity.
  - vm_compute. reflexivity.
  - vm_compute. reflexivity.
  - vm_compute. reflexivity.
  - exact service_answered_reached.
  - vm_compute. reflexivity.
  - exact Hresp.
  - reflexivity.
  - vm_compute. reflexivity.
  - vm_compute. reflexivity.
  - exact service_failed_over_reached.
  - vm_compute. reflexivity.
  - vm_compute. reflexivity.
  - rewrite Ht. vm_compute. discriminate.
  - exists i, response. rewrite Ht in Hl. split_and!; [done|done|done|vm_compute; reflexivity|exact Hl].
Defined.
