(* ===== verification/Ebpf.v ===== *)
(** * The packet classifier: [raft-ebpf/src/main.rs] and [raft-common/src/maps.rs]

    The program attached to the ingress hook counts the packets, recognises those of the
    Raft port, keeps per-peer metadata and emits an event for each.  The headers come from
    a crate and the maps from the kernel: [Kernel] has what the program uses of them, and
    [KernelLaws] what their documentation says. *)

From S2P Require Import Prelude Protocol.
Local Open Scope N_scope.

(** ** [maps.rs] *)

Record PeerMetadata := mkPeerMetadata { last_seen_ns : N; packet_count : N; last_seq : N; pm_padding : N }.

Record RaftPacketEvent := mkPacketEvent {
  src_ip : N;
  dst_ip : N;
  src_port : N;
  dst_port : N;
  timestamp_ns : N;
  seq : N;
  ack : N;
  flags : N;
  msg_type : N;
  ev_padding : list N }.

Record EbpfStats := mkEbpfStats { packets_total : N; raft_packets : N; errors : N }.

Definition PeerMetadata_default : PeerMetadata := mkPeerMetadata 0 0 0 0.
Definition RaftPacketEvent_default : RaftPacketEvent := mkPacketEvent 0 0 0 0 0 0 0 0 0 (replicate 6 0).
Definition EbpfStats_default : EbpfStats := mkEbpfStats 0 0 0.

(** ** The headers and the maps *)

Record EthHdr := mkEthHdr { ether_type : N }.
Record Ipv4Hdr := mkIpv4Hdr { version_ihl : N; proto : N; src_addr : N; dst_addr : N }.
Record TcpHdr := mkTcpHdr { source : N; dest : N; tcp_seq : N; ack_seq : N; data_offset_reserved_flags : N }.

(** A packet is its bytes; [ctx.load] of a header at an offset fails beyond the end.  The
    fields of a header are as they are in memory, on a little-endian machine. *)
Class Kernel := {
  packet : Type;
  load_eth : packet -> nat -> option EthHdr;
  load_ipv4 : packet -> nat -> option Ipv4Hdr;
  load_tcp : packet -> nat -> option TcpHdr;
  EthHdr_LEN : nat;
  EtherType_Ipv4 : N;
  IpProto_Tcp : N;
  TC_ACT_PIPE : Z;
  (** [HashMap::insert] on a map of the given size: is it [Ok], and the map after. *)
  map_insert : forall {A : Type}, nat -> N -> A -> gmap N A -> bool * gmap N A;
  (** Is there room in the ring buffer after these events? *)
  ring_reserve : list RaftPacketEvent -> bool;
}.

Class KernelLaws (K : Kernel) : Prop := {
  insert_room A max k (v : A) m : (size m < max)%nat \/ is_Some (m !! k) ->
    map_insert max k v m = (true, <[k := v]> m);
  insert_full A max k (v : A) m : (max <= size m)%nat -> m !! k = None ->
    map_insert max k v m = (false, m);
}.

Record maps := mkMaps {
  PEER_STATE : gmap N PeerMetadata;
  RAFT_EVENTS : list RaftPacketEvent;
  STATS : gmap N N }.

Definition maps_start : maps := mkMaps ∅ [] ∅.

Definition PEER_STATE_max : nat := 16.
Definition STATS_max : nat := 8.

Definition STAT_PACKETS_TOTAL : N := 0.
Definition STAT_RAFT_PACKETS : N := 1.
Definition STAT_ERRORS : N := 2.

(** [u16::from_be] and [u32::from_be] swap the bytes on a little-endian machine. *)
Definition u16_from_be (x : N) : N := N.lor (N.shiftr x 8) (N.shiftl (N.land x 255) 8).
Definition u32_from_be (x : N) : N :=
  N.lor (N.lor (N.shiftr x 24) (N.shiftl (N.land (N.shiftr x 16) 255) 8))
    (N.lor (N.shiftl (N.land (N.shiftr x 8) 255) 16) (N.shiftl (N.land x 255) 24)).

Section classifier.
Context {K : Kernel}.

Definition set_stats v (s : maps) : maps := mkMaps (PEER_STATE s) (RAFT_EVENTS s) v.
Definition set_peers v (s : maps) : maps := mkMaps v (RAFT_EVENTS s) (STATS s).
Definition set_events v (s : maps) : maps := mkMaps (PEER_STATE s) v (STATS s).

Definition increment_stat (key : N) : M maps unit := (
  ptr <- gets (fun s => STATS s !! key) ;;
  match ptr with
  | Some count => modify (fun s => set_stats (<[key := u64_add count 1]> (STATS s)) s)
  | None => modify (fun s => set_stats (map_insert STATS_max key 1 (STATS s)).2 s)
  end)%raft.

Definition track_peer (ip now seq : N) : M maps unit := (
  existing <- gets (fun s => PEER_STATE s !! ip) ;;
  match existing with
  | Some meta => modify (fun s => set_peers
      (<[ip := mkPeerMetadata now (u64_add (packet_count meta) 1) seq (pm_padding meta)]> (PEER_STATE s)) s)
  | None => modify (fun s => set_peers
      (map_insert PEER_STATE_max ip (mkPeerMetadata now 1 seq 0) (PEER_STATE s)).2 s)
  end)%raft.

Definition emit_event (event : RaftPacketEvent) : M maps unit := (
  events <- gets RAFT_EVENTS ;;
  when (ring_reserve events) (modify (set_events (events ++ [event]))))%raft.

(** The errors of [ctx.load] are mapped to the unit. *)
Definition load {A} (o : option A) : M maps A := from_result (Bail "") o.

Definition tcp_flags (tcp : TcpHdr) : N :=
  N.land (N.shiftr (data_offset_reserved_flags tcp) 8) 63.

(** [now] is [bpf_ktime_get_ns()]. *)
Definition try_classify_raft (ctx : packet) (now : N) : M maps Z := (
  increment_stat STAT_PACKETS_TOTAL ;;;
  eth_hdr <- load (load_eth ctx 0) ;;
  if negb (ether_type eth_hdr =? EtherType_Ipv4) then ret TC_ACT_PIPE
  else
    ipv4_hdr <- load (load_ipv4 ctx EthHdr_LEN) ;;
    if negb (proto ipv4_hdr =? IpProto_Tcp) then ret TC_ACT_PIPE
    else
      let ipv4_hdr_len := (N.to_nat (N.land (version_ihl ipv4_hdr) 15) * 4)%nat in
      tcp_hdr <- load (load_tcp ctx (EthHdr_LEN + ipv4_hdr_len)) ;;
      let src_port := u16_from_be (source tcp_hdr) in
      let dst_port := u16_from_be (dest tcp_hdr) in
      if negb (dst_port =? RAFT_PORT) && negb (src_port =? RAFT_PORT) then ret TC_ACT_PIPE
      else
        increment_stat STAT_RAFT_PACKETS ;;;
        let src_ip := u32_from_be (src_addr ipv4_hdr) in
        let dst_ip := u32_from_be (dst_addr ipv4_hdr) in
        let seq := u32_from_be (tcp_seq tcp_hdr) in
        let ack := u32_from_be (ack_seq tcp_hdr) in
        track_peer src_ip now seq ;;;
        emit_event (mkPacketEvent src_ip dst_ip src_port dst_port now seq ack (tcp_flags tcp_hdr) 0
          (replicate 6 0)) ;;;
        ret TC_ACT_PIPE)%raft.

Definition classify_raft (ctx : packet) (now : N) : M maps Z := (
  r <- attempt (try_classify_raft ctx now) ;;
  match r with
  | inl act => ret act
  | inr _ => increment_stat STAT_ERRORS ;;; ret TC_ACT_PIPE
  end)%raft.
End classifier.
