(* ===== verification/EbpfProps.v ===== *)
(** * Properties of the packet classifier *)

From S2P Require Import Prelude Protocol Ebpf.
Local Open Scope N_scope.

Section classifier.
Context {K : Kernel} {KL : KernelLaws K}.

(** What a packet is to the classifier. *)
Inductive kind := Other | Malformed | Raft (ip : Ipv4Hdr) (tcp : TcpHdr).

Definition is_raft_port (tcp : TcpHdr) : bool :=
  (u16_from_be (dest tcp) =? RAFT_PORT) || (u16_from_be (source tcp) =? RAFT_PORT).

Definition kind_of (ctx : packet) : kind :=
  match load_eth ctx 0 with
  | None => Malformed
  | Some eth =>
      if negb (ether_type eth =? EtherType_Ipv4) then Other
      else match load_ipv4 ctx EthHdr_LEN with
        | None => Malformed
        | Some ip =>
            if negb (proto ip =? IpProto_Tcp) then Other
            else match load_tcp ctx (EthHdr_LEN + N.to_nat (N.land (version_ihl ip) 15) * 4) with
              | None => Malformed
              | Some tcp => if is_raft_port tcp then Raft ip tcp else Other
              end
        end
  end.

(** ** The effects *)

Definition counter (k : N) (s : maps) : N := default 0 (STATS s !! k).

Definition bump (k : N) (s : maps) : maps := set_stats (<[k := u64_add (counter k s) 1]> (STATS s)) s.

Definition tracked (ip now seq : N) (s : maps) : maps :=
  match PEER_STATE s !! ip with
  | Some meta => set_peers
      (<[ip := mkPeerMetadata now (u64_add (packet_count meta) 1) seq (pm_padding meta)]> (PEER_STATE s)) s
  | None => if (size (PEER_STATE s) <? PEER_STATE_max)%nat
            then set_peers (<[ip := mkPeerMetadata now 1 seq 0]> (PEER_STATE s)) s else s
  end.

Definition event_of (ip : Ipv4Hdr) (tcp : TcpHdr) (now : N) : RaftPacketEvent :=
  mkPacketEvent (u32_from_be (src_addr ip)) (u32_from_be (dst_addr ip)) (u16_from_be (source tcp))
    (u16_from_be (dest tcp)) now (u32_from_be (tcp_seq tcp)) (u32_from_be (ack_seq tcp))
    (tcp_flags tcp) 0 (replicate 6 0).

Definition emitted (event : RaftPacketEvent) (s : maps) : maps :=
  if ring_reserve (RAFT_EVENTS s) then set_events (RAFT_EVENTS s ++ [event]) s else s.

Definition classified (k : kind) (now : N) (s : maps) : maps :=
  let s := bump STAT_PACKETS_TOTAL s in
  match k with
  | Other => s
  | Malformed => bump STAT_ERRORS s
  | Raft ip tcp => emitted (event_of ip tcp now)
      (tracked (u32_from_be (src_addr ip)) now (u32_from_be (tcp_seq tcp)) (bump STAT_RAFT_PACKETS s))
  end.

(** The statistics hold no more than the three counters. *)
Definition stats_ok (s : maps) : Prop := dom (STATS s) ⊆ ({[0; 1; 2]} : gset N).

Lemma stats_size s : stats_ok s -> (size (STATS s) < STATS_max)%nat.
Proof.
  intros Hs%subseteq_size. rewrite size_dom in Hs. unfold STATS_max.
  assert (size ({[0; 1; 2]} : gset N) = 3%nat) as Heq by by vm_compute. lia.
Qed.

Lemma increment_stat_ok k s : stats_ok s -> increment_stat k s = (Ok tt, bump k s).
Proof.
  intros Hs. unfold increment_stat, bump, counter. rewrite bind_gets.
  destruct (STATS s !! k) as [c|] eqn:Hk; [done|].
  unfold modify. rewrite insert_room by (left; by apply stats_size). simpl.
  by rewrite u64_add_small by (vm_compute; discriminate).
Qed.

Lemma bump_ok k s : k <= 2 -> stats_ok s -> stats_ok (bump k s).
Proof.
  intros Hk Hs. unfold stats_ok, bump. simpl. rewrite dom_insert_L.
  assert (k = 0 \/ k = 1 \/ k = 2) as [->|[->| ->]] by lia; set_solver.
Qed.

Lemma track_peer_ok ip now seq s : track_peer ip now seq s = (Ok tt, tracked ip now seq s).
Proof.
  unfold track_peer, tracked. rewrite bind_gets.
  destruct (PEER_STATE s !! ip) as [meta|] eqn:Hip; [done|]. unfold modify.
  destruct (Nat.ltb_spec (size (PEER_STATE s)) PEER_STATE_max).
  - by rewrite insert_room by by left.
  - rewrite insert_full by done. by destruct s.
Qed.

Lemma emit_event_ok event s : emit_event event s = (Ok tt, emitted event s).
Proof. unfold emit_event, emitted, when. rewrite bind_gets. by destruct (ring_reserve _). Qed.

Lemma try_classify_ok ctx now s : stats_ok s -> try_classify_raft ctx now s =
  match kind_of ctx with
  | Malformed => (Err (Bail ""), bump STAT_PACKETS_TOTAL s)
  | k => (Ok TC_ACT_PIPE, classified k now s)
  end.
Proof.
  intros Hs. pose proof (bump_ok 0 s ltac:(lia) Hs) as Hs1.
  unfold try_classify_raft, kind_of, load.
  rewrite (bind_run _ _ _ _ _ (increment_stat_ok STAT_PACKETS_TOTAL s Hs)).
  destruct (load_eth ctx 0) as [eth|]; [|done]. rewrite bind_from_Some.
  destruct (ether_type eth =? _); [|done]. cbn [negb].
  destruct (load_ipv4 ctx _) as [ip|]; [|done]. rewrite bind_from_Some.
  destruct (proto ip =? _); [|done]. cbn [negb]. cbv zeta.
  destruct (load_tcp ctx _) as [tcp|]; [|done]. rewrite bind_from_Some.
  unfold is_raft_port. rewrite <-negb_orb. destruct (_ || _); [|done]. cbn [negb].
  rewrite (bind_run _ _ _ _ _ (increment_stat_ok STAT_RAFT_PACKETS _ Hs1)).
  rewrite (bind_run _ _ _ _ _ (track_peer_ok _ _ _ _)).
  by rewrite (bind_run _ _ _ _ _ (emit_event_ok _ _)).
Qed.

Lemma classify_ok ctx now s : stats_ok s ->
  classify_raft ctx now s = (Ok TC_ACT_PIPE, classified (kind_of ctx) now s).
Proof.
  intros Hs. pose proof (bump_ok 0 s ltac:(lia) Hs) as Hs1.
  unfold classify_raft, attempt, bind at 1. rewrite try_classify_ok by done.
  destruct (kind_of ctx); [done| |done].
  by rewrite (bind_run _ _ _ _ _ (increment_stat_ok STAT_ERRORS _ Hs1)).
Qed.

(** ** A sequence of packets *)

(** The packets with their times, and the maps after them. *)
Definition run_packets (ps : list (packet * N)) (s : maps) : maps :=
  foldl (fun s p => (classify_raft p.1 p.2 s).2) s ps.

Definition raft_from (ip : N) (p : packet * N) : bool :=
  match kind_of p.1 with Raft h _ => u32_from_be (src_addr h) =? ip | _ => false end.

Definition is_raft (p : packet * N) : bool := match kind_of p.1 with Raft _ _ => true | _ => false end.
Definition is_malformed (p : packet * N) : bool := match kind_of p.1 with Malformed => true | _ => false end.

Definition how_many (f : packet * N -> bool) (ps : list (packet * N)) : N :=
  N.of_nat (length (filter f ps)).

(** What the maps say of the packets seen so far. *)
Record counted (ps : list (packet * N)) (s : maps) : Prop := {
  ct_stats : stats_ok s;
  ct_total : counter STAT_PACKETS_TOTAL s = N.of_nat (length ps);
  ct_raft : counter STAT_RAFT_PACKETS s = how_many is_raft ps;
  ct_errors : counter STAT_ERRORS s = how_many is_malformed ps;
  ct_size : (size (PEER_STATE s) <= PEER_STATE_max)%nat;
  ct_peers : forall ip meta, PEER_STATE s !! ip = Some meta -> packet_count meta = how_many (raft_from ip) ps;
  ct_unseen : forall ip, PEER_STATE s !! ip = None -> how_many (raft_from ip) ps = 0 \/
    size (PEER_STATE s) = PEER_STATE_max;
}.

Lemma how_many_snoc f ps p : how_many f (ps ++ [p]) = how_many f ps + (if f p then 1 else 0).
Proof.
  unfold how_many. rewrite filter_app, length_app, filter_cons, filter_nil.
  destruct (f p); simpl; lia.
Qed.

Lemma how_many_le f ps : how_many f ps <= N.of_nat (length ps).
Proof.
  unfold how_many. pose proof (length_filter f ps). lia.
Qed.

Lemma counter_bump k k' s : (k = k' -> counter k s < u64_max) ->
  counter k (bump k' s) = counter k s + (if decide (k = k') then 1 else 0).
Proof.
  intros Hk. unfold counter, bump, set_stats. simpl. case_decide as Heq.
  - subst. specialize (Hk eq_refl). rewrite lookup_insert_eq. simpl. unfold counter in *.
    by rewrite u64_add_small by lia.
  - rewrite lookup_insert_ne by done. lia.
Qed.

(** Counters do not change with the other maps. *)
Lemma tracked_stats ip now seq s : STATS (tracked ip now seq s) = STATS s.
Proof. unfold tracked. by repeat case_match. Qed.

Lemma emitted_stats ev s : STATS (emitted ev s) = STATS s /\ PEER_STATE (emitted ev s) = PEER_STATE s.
Proof. unfold emitted. by case_match. Qed.

Lemma classified_stats k now s : STATS (classified k now s) =
  STATS (match k with
    | Other => bump STAT_PACKETS_TOTAL s
    | Malformed => bump STAT_ERRORS (bump STAT_PACKETS_TOTAL s)
    | Raft _ _ => bump STAT_RAFT_PACKETS (bump STAT_PACKETS_TOTAL s) end).
Proof.
  unfold classified. destruct k as [| |ip tcp]; [done..|].
  by rewrite (proj1 (emitted_stats _ _)), tracked_stats.
Qed.

Lemma classified_counter k now s c : counter c s < u64_max -> counter c (classified k now s) =
  counter c s + match k with
    | Other => if decide (c = STAT_PACKETS_TOTAL) then 1 else 0
    | Malformed => if decide (c = STAT_PACKETS_TOTAL \/ c = STAT_ERRORS) then 1 else 0
    | Raft _ _ => if decide (c = STAT_PACKETS_TOTAL \/ c = STAT_RAFT_PACKETS) then 1 else 0
    end.
Proof.
  intros Hc. unfold counter at 1. rewrite classified_stats.
  assert (forall k', k' <> 0 -> counter c (bump k' (bump 0 s)) =
    counter c s + (if decide (c = 0 \/ c = k') then 1 else 0)) as Htwo.
  { intros k' Hk'. destruct (decide (c = 0)) as [->|H0].
    - rewrite !counter_bump by done. rewrite decide_True, decide_False, decide_True by (done || by left). lia.
    - assert (counter c (bump 0 s) = counter c s) as Heq.
      { rewrite counter_bump by done. rewrite decide_False by done. lia. }
      rewrite counter_bump by by rewrite Heq. rewrite Heq. f_equal.
      repeat case_decide; naive_solver. }
  destruct k as [| |ip tcp].
  - by apply counter_bump.
  - by apply Htwo.
  - by apply Htwo.
Qed.

(** How much a packet adds to each counter. *)
Lemma classified_counters ctx now s : counter STAT_PACKETS_TOTAL s < u64_max ->
  counter STAT_RAFT_PACKETS s < u64_max -> counter STAT_ERRORS s < u64_max ->
  let s' := classified (kind_of ctx) now s in
  counter STAT_PACKETS_TOTAL s' = counter STAT_PACKETS_TOTAL s + 1 /\
  counter STAT_RAFT_PACKETS s' = counter STAT_RAFT_PACKETS s + (if is_raft (ctx, now) then 1 else 0) /\
  counter STAT_ERRORS s' = counter STAT_ERRORS s + (if is_malformed (ctx, now) then 1 else 0).
Proof.
  intros H0 H1 H2 s'. unfold s'. rewrite !classified_counter by done.
  unfold is_raft, is_malformed. cbn [fst]. by destruct (kind_of ctx).
Qed.

Lemma tracked_same ip now seq s s' : PEER_STATE s = PEER_STATE s' ->
  PEER_STATE (tracked ip now seq s) = PEER_STATE (tracked ip now seq s').
Proof.
  intros Heq. unfold tracked, set_peers. rewrite Heq.
  destruct (PEER_STATE s' !! ip); [done|]. by destruct (_ <? _)%nat.
Qed.

Lemma classified_peers k now s : PEER_STATE (classified k now s) =
  match k with
  | Raft ip tcp => PEER_STATE (tracked (u32_from_be (src_addr ip)) now (u32_from_be (tcp_seq tcp)) s)
  | _ => PEER_STATE s
  end.
Proof.
  destruct k as [| |ip tcp]; [done..|]. unfold classified. rewrite (proj2 (emitted_stats _ _)).
  by apply tracked_same.
Qed.

Lemma classified_stats_ok k now s : stats_ok s -> stats_ok (classified k now s).
Proof.
  intros Hs. unfold stats_ok. rewrite classified_stats.
  destruct k; repeat (apply bump_ok; [vm_compute; discriminate|]); done.
Qed.

Lemma tracked_peers ps ip now seq s : counted ps s -> N.of_nat (length ps) < u64_max ->
  let s' := tracked ip now seq s in
  (size (PEER_STATE s') <= PEER_STATE_max)%nat /\
  (forall ip' meta, PEER_STATE s' !! ip' = Some meta ->
    packet_count meta = how_many (raft_from ip') ps + (if decide (ip = ip') then 1 else 0)) /\
  (forall ip', PEER_STATE s' !! ip' = None ->
    how_many (raft_from ip') ps + (if decide (ip = ip') then 1 else 0) = 0 \/
    size (PEER_STATE s') = PEER_STATE_max).
Proof.
  intros [_ _ _ _ Hsz Hp Hu] Hlen. unfold tracked.
  destruct (PEER_STATE s !! ip) as [m|] eqn:Hip; [|destruct (Nat.ltb_spec (size (PEER_STATE s)) PEER_STATE_max)];
    simpl.
  - rewrite map_size_insert, Hip. split_and!; [done|intros ip' meta|intros ip'].
    + intros [[<- <-]|[Hne Hm]]%lookup_insert_Some; simpl.
      * pose proof (how_many_le (raft_from ip) ps). rewrite (Hp _ _ Hip), decide_True by done.
        by rewrite u64_add_small by lia.
      * rewrite decide_False by done. rewrite (Hp _ _ Hm). lia.
    + intros [Hn Hne]%lookup_insert_None. rewrite decide_False by done.
      destruct (Hu _ Hn); [left; lia|by right].
  - rewrite map_size_insert, Hip. split_and!; [lia|intros ip' meta|intros ip'].
    + intros [[<- <-]|[Hne Hm]]%lookup_insert_Some; simpl.
      * rewrite decide_True by done. destruct (Hu _ Hip); lia.
      * rewrite decide_False by done. rewrite (Hp _ _ Hm). lia.
    + intros [Hn Hne]%lookup_insert_None. rewrite decide_False by done.
      destruct (Hu _ Hn); [left; lia|lia].
  - split_and!; [done|intros ip' meta Hm|intros ip' _; right; lia].
    rewrite decide_False by (intros ->; congruence). rewrite (Hp _ _ Hm). lia.
Qed.

Lemma counted_step ps s p : counted ps s -> N.of_nat (length ps) < u64_max ->
  counted (ps ++ [p]) (classify_raft p.1 p.2 s).2.
Proof.
  intros Hct Hlen. destruct p as [ctx now]. rewrite classify_ok by apply Hct. simpl.
  pose proof Hct as [Hs Htot Hraft Herr Hsz Hp Hu].
  pose proof (how_many_le is_raft ps). pose proof (how_many_le is_malformed ps).
  assert (forall f, how_many f (ps ++ [(ctx, now)]) = how_many f ps + (if f (ctx, now) then 1 else 0)) as Hsnoc.
  { intros f. apply how_many_snoc. }
  destruct (classified_counters ctx now s) as (Ht & Hr & He); [lia..|].
  split; [by apply classified_stats_ok| | | | | |].
  - rewrite Ht, Htot, length_app. simpl. lia.
  - by rewrite Hr, Hraft, Hsnoc.
  - by rewrite He, Herr, Hsnoc.
  - rewrite classified_peers. destruct (kind_of ctx) as [| |ip tcp]; [exact Hsz..|].
    apply (tracked_peers ps _ _ _ _ Hct Hlen).
  - intros ip' meta. rewrite Hsnoc, classified_peers. unfold raft_from at 2. cbn [fst].
    destruct (kind_of ctx) as [| |ip tcp]; [intros Hm; rewrite (Hp _ _ Hm); lia..|].
    intros Hm. apply (tracked_peers ps _ _ _ _ Hct Hlen) in Hm. rewrite Hm. f_equal.
    destruct (decide _), (N.eqb_spec (u32_from_be (src_addr ip)) ip'); congruence.
  - intros ip'. rewrite Hsnoc, classified_peers. unfold raft_from at 2. cbn [fst].
    destruct (kind_of ctx) as [| |ip tcp];
      [intros Hn; destruct (Hu _ Hn) as [Hz|Hz]; [left; lia|right; exact Hz]..|].
    intros Hm. apply (tracked_peers ps _ _ _ _ Hct Hlen) in Hm as [Hm|Hm]; [left|right; exact Hm].
    etransitivity; [|exact Hm]. f_equal. destruct (decide _), (N.eqb_spec (u32_from_be (src_addr ip)) ip'); congruence.
Qed.

Lemma counted_run ps : N.of_nat (length ps) <= u64_max -> counted ps (run_packets ps maps_start).
Proof.
  induction ps as [|p ps IH] using rev_ind; intros Hlen.
  - split; try done; [vm_compute; lia|intros ip _; by left].
  - rewrite length_app in Hlen. simpl in Hlen. unfold run_packets. rewrite foldl_app. simpl.
    apply counted_step; [apply IH; lia|lia].
Qed.
End classifier.

(** ** An instance, for evaluating the model: the layout of the headers on the wire *)

Definition le16 (p : list N) (o : nat) : N := p !!! o + p !!! S o * 256.
Definition le32 (p : list N) (o : nat) : N := le16 p o + le16 p (2 + o) * 65536.

Definition within {A} (p : list N) (o len : nat) (a : A) : option A :=
  if (o + len <=? length p)%nat then Some a else None.

Definition ref_kernel : Kernel := {|
  packet := list N;
  load_eth p o := within p o 14 (mkEthHdr (le16 p (o + 12)));
  load_ipv4 p o := within p o 20 (mkIpv4Hdr (p !!! o) (p !!! (o + 9)%nat) (le32 p (o + 12)) (le32 p (o + 16)));
  load_tcp p o := within p o 20 (mkTcpHdr (le16 p o) (le16 p (o + 2)) (le32 p (o + 4)) (le32 p (o + 8))
    (le16 p (o + 12)));
  EthHdr_LEN := 14;
  EtherType_Ipv4 := 8;
  IpProto_Tcp := 6;
  TC_ACT_PIPE := 3;
  map_insert A max k v m :=
    if decide ((size m < max)%nat \/ is_Some (m !! k)) then (true, <[k := v]> m) else (false, m);
  ring_reserve events := (length events <? 5)%nat;
|}.

#[global] Instance ref_kernel_laws : KernelLaws ref_kernel.
Proof.
  split; intros A max k v m H; simpl.
  - by rewrite decide_True.
  - intros Hk. rewrite decide_False; [done|]. rewrite Hk. intros [|[]]; [lia|done].
Qed.

(** A segment from 10.0.0.[host] with the given ports, its sequence number 7. *)
Definition segment (host sport dport : N) : list N :=
  replicate 12 0 ++ [8; 0] ++ [69; 0; 0; 40; 0; 0; 0; 0; 64; 6; 0; 0; 10; 0; 0; host; 10; 0; 0; 1] ++
  [sport / 256; sport mod 256; dport / 256; dport mod 256; 0; 0; 0; 7; 0; 0; 0; 9; 80; 24; 0; 0; 0; 0; 0; 0].

(** ** Properties *)

(** The classifier passes every packet on, malformed or not, and its whole effect on the maps is
    determined by the kind of the packet. *)
Theorem classifier_never_drops {K : Kernel} {KL : KernelLaws K} ctx now s : stats_ok s ->
  classify_raft ctx now s = (Ok TC_ACT_PIPE, classified (kind_of ctx) now s).
Proof. apply classify_ok. Qed.

Lemma classifier_never_drops_witness :
  @classify_raft ref_kernel (segment 2 40000 5555) 100 maps_start = (Ok 3%Z,
    mkMaps {[0x0A000002 := mkPeerMetadata 100 1 7 0]}
      [mkPacketEvent 0x0A000002 0x0A000001 40000 5555 100 7 9 24 0 (replicate 6 0)] {[0 := 1; 1 := 1]}) /\
  @classify_raft ref_kernel [1; 2; 3] 100 maps_start = (Ok 3%Z, mkMaps ∅ [] {[0 := 1; 2 := 1]}).
Proof.
  assert (stats_ok maps_start) as Hs by by vm_compute.
  split; rewrite (@classifier_never_drops ref_kernel _ _ _ _ Hs); vm_compute; reflexivity.
Defined.

(** C40: After any sequence of packets the counters are the number of packets, of packets of the
    Raft port and of malformed packets, and the count kept for a peer is the number of its
    packets; a peer is missing only when it sent none or the table is full. *)
Theorem counters_exact {K : Kernel} {KL : KernelLaws K} ps : N.of_nat (length ps) <= u64_max ->
  let s := run_packets ps maps_start in
  counter STAT_PACKETS_TOTAL s = N.of_nat (length ps) /\
  counter STAT_RAFT_PACKETS s = how_many is_raft ps /\
  counter STAT_ERRORS s = how_many is_malformed ps /\
  (size (PEER_STATE s) <= PEER_STATE_max)%nat /\
  (forall ip meta, PEER_STATE s !! ip = Some meta -> packet_count meta = how_many (raft_from ip) ps) /\
  (forall ip, PEER_STATE s !! ip = None ->
    how_many (raft_from ip) ps = 0 \/ size (PEER_STATE s) = PEER_STATE_max).
Proof. intros Hlen. by destruct (counted_run ps Hlen). Qed.

Lemma counters_exact_witness :
  let ps := [(segment 2 40000 5555, 1); (segment 3 5555 80, 2); ([0], 3); (segment 2 5555 9, 4);
             (segment 4 80 81, 5)] in
  let s := @run_packets ref_kernel ps maps_start in
  counter STAT_PACKETS_TOTAL s = 5 /\ counter STAT_RAFT_PACKETS s = 3 /\ counter STAT_ERRORS s = 1 /\
  packet_count <$> PEER_STATE s !! 0x0A000002 = Some 2.
Proof.
  intros ps s. destruct (@counters_exact ref_kernel _ ps) as (H0 & H1 & H2 & _ & Hp & _); [vm_compute; discriminate|].
  fold s in H0, H1, H2, Hp. rewrite H0, H1, H2.
  split; [vm_compute; reflexivity|]. split; [vm_compute; reflexivity|]. split; [vm_compute; reflexivity|].
  destruct (PEER_STATE s !! 0x0A000002) as [meta|] eqn:Hm; [|vm_compute in Hm; discriminate Hm].
  simpl. f_equal. rewrite (Hp _ _ Hm). vm_compute. reflexivity.
Defined.
