(* ===== verification/Loader.v ===== *)
(** * The loader of the classifier: [raft/src/ebpf.rs]

    [EbpfManager] loads the object file, attaches its program to an interface and reads the
    maps the program fills.  What the aya crate makes of a file is the class [Aya]; the
    kernel is the state: the maps, the interfaces the program is attached to, and the fate
    of the system calls to come.  The daemon of [main.rs] never builds the manager. *)

From stdpp Require Import pretty.
From S2P Require Import Prelude Protocol Ebpf.
Local Open Scope N_scope.

(** [raft_common::map_names] *)
Definition map_names_PEER_STATE : string := "PEER_STATE".
Definition map_names_RAFT_EVENTS : string := "RAFT_EVENTS".
Definition map_names_STATS : string := "STATS".

(** Objects: what [Ebpf::load] makes of the bytes of a file; the program of a name, and
    whether it is a [SchedClassifier]; the map of a name, and whether [try_from] accepts it. *)
Class Aya := {
  object : Type;
  Ebpf_load : list Byte.byte -> option object;
  program_mut : object -> string -> option bool;
  object_map : object -> string -> option bool;
}.

Record kernel := mkKernel { k_maps : maps; k_qdiscs : gset string; k_attached : list string; k_calls : list bool }.

(** [Ipv4Addr]: four bytes. *)
Record Ipv4Addr := mkIp { octet1 : N; octet2 : N; octet3 : N; octet4 : N }.

(** [u32::from(ip)] and [Ipv4Addr::from(u32)] *)
Definition u32_from_ip (ip : Ipv4Addr) : N :=
  octet1 ip * 2 ^ 24 + octet2 ip * 2 ^ 16 + octet3 ip * 2 ^ 8 + octet4 ip.
Definition ip_from_u32 (x : N) : Ipv4Addr :=
  mkIp (x / 2 ^ 24 mod 256) (x / 2 ^ 16 mod 256) (x / 2 ^ 8 mod 256) (x mod 256).

Definition ip_to_string (ip : N) : string :=
  let a := ip_from_u32 ip in
  String.append (pretty (octet1 a)) (String.append "." (String.append (pretty (octet2 a))
    (String.append "." (String.append (pretty (octet3 a)) (String.append "." (pretty (octet4 a))))))).

Section loader.
Context {K : Kernel} {A : Aya}.

Record EbpfManager := mkManager { bpf : object; em_interface : string }.

(** A system call: it fails when its fate says so. *)
Definition syscall : M kernel bool := fun k =>
  match k_calls k with
  | [] => (Ok true, k)
  | r :: rs => (Ok r, mkKernel (k_maps k) (k_qdiscs k) (k_attached k) rs)
  end.

Definition set_k_maps (s : maps) (k : kernel) : kernel :=
  mkKernel s (k_qdiscs k) (k_attached k) (k_calls k).

(** [tc::qdisc_add_clsact(interface)]; its result is dropped. *)
Definition qdisc_add_clsact (interface : string) : M kernel unit := (
  ok <- syscall ;;
  when ok (modify (fun k => mkKernel (k_maps k) ({[interface]} ∪ k_qdiscs k) (k_attached k) (k_calls k))))%raft.

(** [program.load()?] and [program.attach(interface, TcAttachType::Ingress)?]; there is
    nothing to attach to on an interface without the qdisc. *)
Definition program_load : M kernel unit := (
  ok <- syscall ;;
  if (ok : bool) then ret tt else fail IoError)%raft.

Definition program_attach (interface : string) : M kernel unit := (
  ok <- syscall ;;
  has_qdisc <- gets (fun k => bool_decide (interface ∈ k_qdiscs k)) ;;
  if ok && has_qdisc
  then modify (fun k => mkKernel (k_maps k) (k_qdiscs k) (k_attached k ++ [interface]) (k_calls k))
  else fail IoError)%raft.

Definition load_from_bytes (bytes : list Byte.byte) (interface : string) : M kernel EbpfManager := (
  bpf <- from_result IoError (Ebpf_load bytes) ;;
  modify (set_k_maps maps_start) ;;;
  qdisc_add_clsact interface ;;;
  match program_mut bpf "classify_raft" with
  | None => fail (Bail "Program 'classify_raft' not found in eBPF binary")
  | Some false => fail IoError
  | Some true =>
      program_load ;;;
      program_attach interface ;;;
      ret (mkManager bpf interface)
  end)%raft.

(** [content]: what reading the file comes to. *)
Definition load_from_file (content : option (list Byte.byte)) (interface : string) : M kernel EbpfManager := (
  bytes <- from_result IoError content ;;
  load_from_bytes bytes interface)%raft.

(** A map of the object, of the type the caller gives it. *)
Definition typed_map (bpf : object) (name missing : string) : M kernel unit :=
  match object_map bpf name with
  | None => fail (Bail missing)
  | Some false => fail IoError
  | Some true => ret tt
  end.

Definition get_peer_state (m : EbpfManager) (ip : Ipv4Addr) : M kernel (option PeerMetadata) := (
  typed_map (bpf m) map_names_PEER_STATE "Map not found" ;;;
  gets (fun k => PEER_STATE (k_maps k) !! u32_from_ip ip))%raft.

(** One turn of the loop of the spawned task: it sleeps. *)
Definition reader_turn : M kernel unit := (ret tt)%raft.

(** The task, as the program of its turns. *)
Definition start_event_reader (m : EbpfManager) : M kernel (M kernel unit) := (
  typed_map (bpf m) map_names_RAFT_EVENTS "Ring buffer not found" ;;;
  ret reader_turn)%raft.

(** ** The machine around it *)

(** A packet comes in at an interface: the program runs if it is attached there. *)
Definition packet_in (interface : string) (ctx : packet) (now : N) : M kernel unit := (
  attached <- gets (fun k => bool_decide (interface ∈ k_attached k)) ;;
  when attached (modify (fun k => set_k_maps (classify_raft ctx now (k_maps k)).2 k)))%raft.

Inductive kernel_event := PacketIn (interface : string) (ctx : packet) (now : N) | ReaderTurn.

Definition run_kernel (evs : list kernel_event) (k : kernel) : kernel :=
  foldl (fun k ev => match ev with
    | PacketIn interface ctx now => (packet_in interface ctx now k).2
    | ReaderTurn => (reader_turn k).2
    end) k evs.
End loader.
