(* ===== verification/LoaderProps.v ===== *)
(** * Properties of the loader

    A manager that was built is attached, and what it reads of a peer is what the classifier
    counted; nobody takes the events out of the ring buffer. *)

From S2P Require Import Prelude Protocol Ebpf EbpfProps Loader.
Local Open Scope N_scope.

(** ** Addresses *)

Definition octets (ip : Ipv4Addr) : Prop :=
  octet1 ip < 256 /\ octet2 ip < 256 /\ octet3 ip < 256 /\ octet4 ip < 256.

(** The field of a header that holds the address, as a little-endian machine reads it. *)
Definition wire_addr (ip : Ipv4Addr) : N :=
  octet1 ip + octet2 ip * 2 ^ 8 + octet3 ip * 2 ^ 16 + octet4 ip * 2 ^ 24.

Lemma lor_shiftl x y k : x < 2 ^ k -> N.lor x (N.shiftl y k) = x + y * 2 ^ k.
Proof.
  intros Hx. rewrite <-N.lxor_lor, <-N.add_nocarry_lxor; [by rewrite N.shiftl_mul_pow2| |];
    apply N.bits_inj_0; intros i; rewrite N.land_spec;
    (destruct (N.lt_ge_cases i k);
      [rewrite N.shiftl_spec_low by done; apply andb_false_r
      |rewrite <-(N.mod_small x (2 ^ k)), N.mod_pow2_bits_high by done; done]).
Qed.

Lemma byte_of x k : N.land (N.shiftr x k) 255 = (x / 2 ^ k) mod 256.
Proof. change 255 with (N.ones 8). by rewrite N.land_ones, N.shiftr_div_pow2. Qed.

Lemma wire_addr_host ip : octets ip -> u32_from_be (wire_addr ip) = u32_from_ip ip.
Proof.
  destruct ip as [a b c d]. unfold octets, wire_addr, u32_from_ip, u32_from_be. simpl octet1. simpl octet2.
  simpl octet3. simpl octet4. intros (Ha & Hb & Hc & Hd).
  set (x := a + b * 2 ^ 8 + c * 2 ^ 16 + d * 2 ^ 24).
  assert (N.shiftr x 24 = d) as ->.
  { rewrite N.shiftr_div_pow2. symmetry. apply (N.div_unique _ _ _ (a + b * 2 ^ 8 + c * 2 ^ 16)); subst x; simpl; lia. }
  assert ((x / 2 ^ 16) mod 256 = c) as Hxc.
  { rewrite <-(N.div_unique x (2 ^ 16) (c + d * 256) (a + b * 2 ^ 8)) by (subst x; simpl; lia).
    symmetry. apply (N.mod_unique _ _ d); lia. }
  assert ((x / 2 ^ 8) mod 256 = b) as Hxb.
  { rewrite <-(N.div_unique x (2 ^ 8) (b + (c + d * 256) * 256) a) by (subst x; simpl; lia).
    symmetry. apply (N.mod_unique _ _ (c + d * 256)); lia. }
  assert (N.land x 255 = a) as ->.
  { change 255 with (N.ones 8). rewrite N.land_ones. symmetry.
    apply (N.mod_unique _ _ (b + (c + d * 256) * 256)); subst x; simpl; lia. }
  rewrite !byte_of, Hxc, Hxb.
  assert (N.lor (N.shiftl b 16) (N.shiftl a 24) = N.shiftl (b + a * 2 ^ 8) 16) as ->.
  { change 24 with (8 + 16). rewrite <-N.shiftl_shiftl, <-N.shiftl_lor. f_equal. by apply lor_shiftl. }
  rewrite (lor_shiftl d c 8) by (simpl; lia). rewrite (lor_shiftl (d + c * 2 ^ 8)) by (simpl; lia). lia.
Qed.

Lemma ip_roundtrip ip : octets ip -> ip_from_u32 (u32_from_ip ip) = ip.
Proof.
  destruct ip as [a b c d]. unfold octets, u32_from_ip, ip_from_u32. simpl octet1. simpl octet2.
  simpl octet3. simpl octet4. intros (Ha & Hb & Hc & Hd).
  set (x := a * 2 ^ 24 + b * 2 ^ 16 + c * 2 ^ 8 + d). f_equal.
  - rewrite <-(N.div_unique x (2 ^ 24) a (b * 2 ^ 16 + c * 2 ^ 8 + d)) by (subst x; simpl; lia).
    by apply N.mod_small.
  - rewrite <-(N.div_unique x (2 ^ 16) (b + a * 256) (c * 2 ^ 8 + d)) by (subst x; simpl; lia).
    symmetry. apply (N.mod_unique _ _ a); lia.
  - rewrite <-(N.div_unique x (2 ^ 8) (c + (b + a * 256) * 256) d) by (subst x; simpl; lia).
    symmetry. apply (N.mod_unique _ _ (b + a * 256)); lia.
  - symmetry. apply (N.mod_unique _ _ (c + (b + a * 256) * 256)); subst x; simpl; lia.
Qed.

(** ** The life of a manager *)

Section loader.
Context {K : Kernel} {KL : KernelLaws K} {A : Aya}.

(** The packets of the interface. *)
Definition seen_at (interface : string) (evs : list kernel_event) : list (packet * N) :=
  omap (fun ev => match ev with
    | PacketIn i ctx now => if decide (i = interface) then Some (ctx, now) else None
    | ReaderTurn => None
    end) evs.

Lemma syscall_fields k : exists o k', syscall k = (Ok o, k') /\ k_maps k' = k_maps k /\
  k_attached k' = k_attached k.
Proof. unfold syscall. destruct (k_calls k); by eexists _, _. Qed.

Lemma tracked_events ip now seq s : RAFT_EVENTS (tracked ip now seq s) = RAFT_EVENTS s.
Proof. unfold tracked. by repeat case_match. Qed.

(** How a load ends. *)
Lemma load_result bytes interface k : exists o k', load_from_bytes bytes interface k = (o, k') /\
  match o with
  | Ok m => em_interface m = interface /\ Ebpf_load bytes = Some (bpf m) /\
      program_mut (bpf m) "classify_raft" = Some true /\
      k_maps k' = maps_start /\ k_attached k' = k_attached k ++ [interface]
  | Err e => k_attached k' = k_attached k
  | _ => False
  end.
Proof.
  unfold load_from_bytes. destruct (Ebpf_load bytes) as [obj|] eqn:Hobj; [|by eexists _, _].
  rewrite bind_from_Some, bind_modify. unfold qdisc_add_clsact, when.
  destruct (syscall_fields (set_k_maps maps_start k)) as (o1 & k1 & H1 & Hm1 & Ha1).
  rewrite !bind_assoc. unfold bind at 1. rewrite H1.
  set (k2 := if o1 then mkKernel (k_maps k1) ({[interface]} ∪ k_qdiscs k1) (k_attached k1) (k_calls k1) else k1).
  match goal with |- context [bind (if o1 then _ else _) ?f k1] =>
    assert (bind (if o1 then modify _ else ret tt) f k1 = f tt k2) as -> by by destruct o1 end.
  assert (k_maps k2 = maps_start /\ k_attached k2 = k_attached k) as [Hm2 Ha2] by (subst k2; by destruct o1).
  destruct (program_mut obj "classify_raft") as [[]|] eqn:Hp; [|by eexists _, _..].
  unfold program_load. destruct (syscall_fields k2) as (o3 & k3 & H3 & Hm3 & Ha3).
  rewrite bind_assoc. unfold bind at 1. rewrite H3. destruct o3; [|eexists _, _; split; [done|congruence]].
  rewrite bind_ret. unfold program_attach. destruct (syscall_fields k3) as (o4 & k4 & H4 & Hm4 & Ha4).
  rewrite !bind_assoc. unfold bind at 1. rewrite H4, bind_assoc, bind_gets.
  destruct (o4 && _); [rewrite bind_modify|eexists _, _; split; [done|congruence]].
  eexists _, _. split; [done|]. simpl. split_and!; [done..|congruence|congruence].
Qed.

Lemma run_kernel_maps interface evs k : k_attached k = [interface] ->
  k_attached (run_kernel evs k) = [interface] /\
  k_maps (run_kernel evs k) = run_packets (seen_at interface evs) (k_maps k).
Proof.
  revert k. induction evs as [|ev evs IH]; intros k Hk; [done|].
  unfold run_kernel, seen_at in *. simpl. destruct ev as [i ctx now|]; [|by apply IH].
  unfold packet_in. rewrite bind_gets, Hk. unfold when.
  destruct (decide (i = interface)) as [->|Hne].
  - rewrite bool_decide_true by left. simpl. by apply IH.
  - rewrite bool_decide_false by (by intros ?%list_elem_of_singleton). by apply IH.
Qed.

(** ** Properties *)

(** What the manager reads of an address after it has loaded the classifier is the number of
    packets of the Raft port that the address has sent through the interface since then; it
    reads nothing only when there were none or the table is full. *)
Theorem peer_state_counted bytes interface k m k1 evs ip : k_attached k = [] ->
  load_from_bytes bytes interface k = (Ok m, k1) ->
  object_map (bpf m) map_names_PEER_STATE = Some true ->
  N.of_nat (length (seen_at interface evs)) <= u64_max -> exists answer,
  get_peer_state m ip (run_kernel evs k1) = (Ok answer, run_kernel evs k1) /\
  let sent := how_many (raft_from (u32_from_ip ip)) (seen_at interface evs) in
  match answer with
  | Some meta => packet_count meta = sent
  | None => sent = 0 \/ size (PEER_STATE (k_maps (run_kernel evs k1))) = PEER_STATE_max
  end.
Proof.
  intros Hk Hload Hmap Hlen. destruct (load_result bytes interface k) as (o & k' & Hrun & Ho).
  rewrite Hload in Hrun. injection Hrun as <- <-. destruct Ho as (_ & _ & _ & Hm & Ha). rewrite Hk in Ha.
  destruct (run_kernel_maps interface evs k1 Ha) as [_ Hmaps].
  unfold get_peer_state, typed_map. rewrite Hmap, bind_ret. eexists. split; [done|].
  rewrite Hmaps, Hm. destruct (counted_run (seen_at interface evs) Hlen) as [_ _ _ _ _ Hp Hu].
  destruct (PEER_STATE _ !! _) eqn:Hip; [by eapply Hp|by apply Hu].
Qed.

(** The task that [start_event_reader] spawns takes nothing out of the ring buffer: once it is
    full, every later event is lost. *)
Theorem full_ring_stays_full interface m k turn k1 evs : k_attached k = [interface] -> stats_ok (k_maps k) ->
  start_event_reader m k = (Ok turn, k1) -> ring_reserve (RAFT_EVENTS (k_maps k)) = false ->
  RAFT_EVENTS (k_maps (run_kernel evs k1)) = RAFT_EVENTS (k_maps k).
Proof.
  intros Hk Hs Hstart Hfull.
  assert (k1 = k) as ->.
  { unfold start_event_reader, typed_map in Hstart. destruct (object_map _ _) as [[]|]; by injection Hstart. }
  destruct (run_kernel_maps interface evs k Hk) as [_ ->].
  generalize (seen_at interface evs) as ps. intros ps. revert Hs Hfull. generalize (k_maps k) as s.
  induction ps as [|[ctx now] ps IH]; intros s Hs Hfull; [done|]. unfold run_packets in *. simpl.
  rewrite classify_ok by done. simpl.
  assert (RAFT_EVENTS (classified (kind_of ctx) now s) = RAFT_EVENTS s) as Heq.
  { unfold classified. destruct (kind_of ctx) as [| |ip tcp]; [done..|]. unfold emitted.
    assert (forall ip now seq k1 k2, RAFT_EVENTS (tracked ip now seq (bump k1 (bump k2 s))) = RAFT_EVENTS s)
      as Htr by (intros; by rewrite tracked_events).
    by rewrite Htr, Hfull, Htr. }
  rewrite IH; [done|by apply classified_stats_ok|by rewrite Heq].
Qed.
End loader.

(** An object that has the program and the maps of the classifier. *)
Definition ref_aya : Aya := {|
  object := unit;
  Ebpf_load _ := Some tt;
  program_mut _ name := if decide (name = "classify_raft"%string) then Some true else None;
  object_map _ name := Some true;
|}.

Definition fresh_kernel : kernel := mkKernel maps_start ∅ [] [].

Definition seven_packets : list (@kernel_event ref_kernel) :=
  (fun t => @PacketIn ref_kernel "eth0" (segment 2 40000 5555) t) <$> [1; 2; 3; 4; 5; 6; 7].

Definition loaded : kernel := (@load_from_bytes ref_aya [] "eth0" fresh_kernel).2.

Lemma peer_state_counted_witness : exists meta,
  (@get_peer_state ref_aya (@mkManager ref_aya tt "eth0") (mkIp 10 0 0 2)
    (@run_kernel ref_kernel (@PacketIn ref_kernel "lo" (segment 2 40000 5555) 0 :: seven_packets) loaded)).1 =
    Ok (Some meta) /\ packet_count meta = 7.
Proof.
  destruct (@peer_state_counted ref_kernel _ ref_aya [] "eth0" fresh_kernel (@mkManager ref_aya tt "eth0") loaded
    (@PacketIn ref_kernel "lo" (segment 2 40000 5555) 0 :: seven_packets) (mkIp 10 0 0 2)) as (answer & Hrun & Hc).
  - reflexivity.
  - vm_compute. reflexivity.
  - reflexivity.
  - vm_compute. discriminate.
  - destruct answer as [meta|].
    + exists meta. split; [rewrite Hrun; reflexivity|]. simpl in Hc. rewrite Hc. vm_compute. reflexivity.
    + apply (f_equal fst) in Hrun. vm_compute in Hrun. discriminate Hrun.
Defined.

(** The ring of five is full after five packets: the other two are lost, reader or not. *)
Lemma full_ring_stays_full_witness :
  let k := @run_kernel ref_kernel (take 5 seven_packets) loaded in
  RAFT_EVENTS (k_maps (@run_kernel ref_kernel (ReaderTurn :: drop 5 seven_packets) k)) = RAFT_EVENTS (k_maps k) /\
  length (RAFT_EVENTS (k_maps k)) = 5%nat.
Proof.
  intros k. split; [|vm_compute; reflexivity].
  apply (@full_ring_stays_full ref_kernel _ ref_aya "eth0" (@mkManager ref_aya tt "eth0") k (reader_turn) k).
  - vm_compute. reflexivity.
  - apply (bool_decide_unpack (stats_ok (k_maps k))). vm_compute. exact I.
  - reflexivity.
  - vm_compute. reflexivity.
Defined.
