(* ===== verification/SharedState.v ===== *)
(** * The types no code uses: [raft-common/src/state.rs] and [NodeCommand] of [node.rs]

    [VolatileState], [LeaderState] and [ClusterConfig] are declared beside the types the
    daemon uses, and [NodeCommand] in [node.rs]; only unit tests build them.  The maps of
    [LeaderState] come from the crate [heapless]: a map is the list of its pairs in the order
    of their insertion, and [IndexMapLaws] is what the crate documents of it. *)

From stdpp Require Import countable.
From S2P Require Import Prelude Heapless Protocol Serde HashMap Log StateMachine Config Env.
From S2P Require Import Node.
Local Open Scope N_scope.

(** ** [heapless::FnvIndexMap] *)

Class IndexMap := {
  (** [insert] in a map of the given capacity: is it [Ok], and the map after. *)
  index_insert : forall {A : Type}, nat -> string -> A -> list (string * A) -> bool * list (string * A);
  (** [get] *)
  index_get : forall {A : Type}, string -> list (string * A) -> option A;
}.

Class IndexMapLaws (I : IndexMap) : Prop := {
  index_get_find A k (m : list (string * A)) : NoDup m.*1 ->
    index_get k m = (list_to_map m : gmap string A) !! k;
  index_insert_new A cap k (v : A) m : k ∉ m.*1 -> (length m < cap)%nat ->
    index_insert cap k v m = (true, m ++ [(k, v)]);
  index_insert_full A cap k (v : A) m : k ∉ m.*1 -> (cap <= length m)%nat ->
    index_insert cap k v m = (false, m);
  index_insert_old A cap k (v : A) m : k ∈ m.*1 ->
    index_insert cap k v m = (true, (fun p => if decide (p.1 = k) then (k, v) else p) <$> m);
}.

(** ** The types *)

(** The capacity of the maps and of the list of peers. *)
Definition PEERS_CAPACITY : nat := 16.

Record VolatileState := mkVolatile { vs_commit_index : N; vs_last_applied : N }.

Definition VolatileState_default : VolatileState := mkVolatile 0 0.

Record LeaderState := mkLeaderState {
  ls_next_index : list (string * N);
  ls_match_index : list (string * N) }.

Definition LeaderState_default : LeaderState := mkLeaderState [] [].

Record ClusterConfig := mkClusterConfig { cc_peers : list PeerInfo }.

Definition ClusterConfig_default : ClusterConfig := mkClusterConfig [].

(** The senders of the replies are named, as in Node.v. *)
Inductive NodeCommand :=
  | HandleMessage (envelope : MessageEnvelope)
  | ProposeCommand (command : Command) (response_tx : N)
  | ElectionTimeout
  | Heartbeat
  | AddPeerCommand (id address : string)
  | RemovePeerCommand (id : string)
  | GetStatusCommand (response_tx : N)
  | Shutdown.

#[export] Instance NodeRole_countable : Countable NodeRole.
Proof.
  refine (inj_countable'
    (fun r => match r with Follower => None | Candidate => Some true | Leader => Some false end)
    (fun o => match o with None => Follower | Some true => Candidate | Some false => Leader end) _).
  by intros [].
Defined.

#[export] Instance PeerInfo_countable : Countable PeerInfo.
Proof.
  by refine (inj_countable' (fun p => (id p, address p)) (fun '(i, a) => mkPeerInfo i a) _); intros [].
Defined.

#[export] Instance ClusterConfig_eq_dec : EqDecision ClusterConfig.
Proof. solve_decision. Defined.

#[export] Instance ClusterConfig_countable : Countable ClusterConfig.
Proof. by refine (inj_countable' cc_peers mkClusterConfig _); intros []. Defined.

(** ** The operations on their fields *)

Section operations.
Context {H : Heapless} {I : IndexMap}.

(** [let _ = state.next_index.insert(peer, index)], and the same for [match_index]. *)
Definition insert_next (peer : string) (i : N) (s : LeaderState) : LeaderState :=
  mkLeaderState (index_insert PEERS_CAPACITY peer i (ls_next_index s)).2 (ls_match_index s).
Definition insert_match (peer : string) (i : N) (s : LeaderState) : LeaderState :=
  mkLeaderState (ls_next_index s) (index_insert PEERS_CAPACITY peer i (ls_match_index s)).2.

(** [let _ = config.peers.push(peer)] *)
Definition push_peer (peer : PeerInfo) (c : ClusterConfig) : ClusterConfig :=
  mkClusterConfig (vec_push PEERS_CAPACITY (cc_peers c) peer).2.

Context {HL : HeaplessLaws H} {IL : IndexMapLaws I}.

Definition track (s : LeaderState) (p : string * N) : LeaderState := insert_next p.1 p.2 s.

Lemma tracked_distinct ps s : NoDup (ls_next_index s ++ ps).*1 ->
  (length (ls_next_index s) <= PEERS_CAPACITY)%nat ->
  ls_next_index (foldl track s ps) = take PEERS_CAPACITY (ls_next_index s ++ ps).
Proof.
  revert s. induction ps as [|[k i] ps IH]; intros s Hnd Hlen; simpl.
  - by rewrite app_nil_r, take_ge.
  - pose proof Hnd as Hk. rewrite fmap_app in Hk. simpl in Hk.
    apply NoDup_app in Hk as (_ & Hk & Hps). assert (k ∉ (ls_next_index s).*1) as Hnew.
    { intros Hin. apply (Hk _ Hin). apply elem_of_cons. by left. }
    destruct (decide (length (ls_next_index s) < PEERS_CAPACITY)%nat) as [Hroom|Hfull].
    + rewrite IH; unfold track, insert_next; simpl; rewrite index_insert_new by done; simpl.
      * by rewrite <-(assoc_L (++)).
      * rewrite <-(assoc_L (++)). exact Hnd.
      * rewrite length_app. simpl. lia.
    + rewrite IH; unfold track, insert_next; simpl; rewrite index_insert_full by (done || lia); simpl.
      * by rewrite !take_app_le by lia.
      * revert Hnd. rewrite !fmap_app. intros Hnd. apply (sublist_NoDup _ _ Hnd).
        apply sublist_app; [done|]. by apply sublist_cons.
      * done.
Qed.

(** A leader state keeps the index of the first [PEERS_CAPACITY] peers that are inserted, and no
    other: those beyond are lost, and the caller, which drops the result, is not told. *)
Theorem first_peers_tracked ps k : NoDup ps.*1 ->
  index_get k (ls_next_index (foldl track LeaderState_default ps)) =
  (list_to_map (take PEERS_CAPACITY ps) : gmap string N) !! k.
Proof.
  intros Hnd. rewrite tracked_distinct; simpl; [|done|lia]. apply index_get_find.
  apply (sublist_NoDup _ _ Hnd), fmap_sublist, sublist_take.
Qed.
End operations.

(** ** A reference map *)

Fixpoint assoc_get {A} (k : string) (m : list (string * A)) : option A :=
  match m with [] => None | (k', v) :: m => if decide (k = k') then Some v else assoc_get k m end.

Definition ref_index_map : IndexMap := {|
  index_insert A cap k v m :=
    if decide (k ∈ m.*1) then (true, (fun p => if decide (p.1 = k) then (k, v) else p) <$> m)
    else if decide (length m < cap)%nat then (true, m ++ [(k, v)]) else (false, m);
  index_get A := assoc_get;
|}.

#[global] Instance ref_index_map_laws : IndexMapLaws ref_index_map.
Proof.
  split; simpl.
  - intros A k m Hnd. induction m as [|[k' v] m IH]; [done|]. simpl in *. apply NoDup_cons in Hnd as [_ Hnd].
    case_decide; [subst; by rewrite lookup_insert_eq|by rewrite lookup_insert_ne, IH].
  - intros. by rewrite decide_False, decide_True.
  - intros A cap k v m Hk Hcap. rewrite (decide_False _ _ Hk), decide_False by lia. done.
  - intros. by rewrite decide_True.
Qed.

Lemma first_peers_tracked_witness : exists ps : list (string * N), length ps = 17%nat /\
  @index_get ref_index_map N "q" (ls_next_index (foldl (@track ref_index_map) LeaderState_default ps)) = None.
Proof.
  exists ((fun c => (String c "", 1)) <$> String.list_ascii_of_string "abcdefghijklmnopq").
  split; [reflexivity|]. rewrite (@first_peers_tracked ref_index_map _); [reflexivity|].
  apply (bool_decide_unpack _). by vm_compute.
Defined.
