(* ===== verification/Tests.v ===== *)
(** * The unit tests of the repository, run on the model

    The tests of [state_machine.rs], [log.rs], [config.rs], [maps.rs] and of
    [raft-cli/src/commands/mod.rs], translated statement by statement into programs of the
    model, which panic where an assertion of the test fails.  They check the definitions
    against the expectations the authors of the code wrote down.  SharedTests.v has the others. *)

From Stdlib Require Import Init.Byte.
From S2P Require Import Prelude Heapless Protocol Serde HashMap Log StateMachine Config Env.
From S2P Require Import StoreProps Ipc Cli Json Ebpf Loader.
Local Open Scope N_scope.

(** [assert!] and [expect] *)
Definition assert {S} (b : bool) : M S unit := if b then ret tt else panic.

Definition expect {S A} (m : M S A) : M S A := fun s =>
  match m s with (Err _, s') => (Panicked, s') | r => r end.

Fixpoint assert_all {S} (checks : list (S -> bool)) : M S unit :=
  match checks with
  | [] => ret tt
  | c :: checks' => bind (gets c) (fun b => bind (assert b) (fun _ => assert_all checks'))
  end.

(** A test passes when it comes to its end. *)
Definition passes {S} (s : S) (m : M S unit) : bool :=
  match (m s).1 with Ok _ => true | _ => false end.

Definition bytes_of (s : string) : list byte := String.list_byte_of_string s.

Section tests.
Context {E : Env}.

(** ** [state_machine.rs] and [log.rs] *)

Definition make_key (s : string) : string := string_from MAX_KEY_SIZE s.
Definition make_value (bs : list byte) : list byte := vec_from MAX_VALUE_SIZE bs.

Definition put_entry (i : N) (key : string) (value : list byte) : LogEntry :=
  mkEntry i 1 (Put (make_key key) (make_value value)).

(** [sm.apply(&entry)] *)
Definition sm_apply (entry : LogEntry) : M StateMachine ApplyResult :=
  fun sm => let '(r, sm') := apply entry sm in (Ok r, sm').

Definition returns (expected : ApplyResult) (r : ApplyResult) : bool :=
  match expected, r with
  | ApplyOk, ApplyOk | ApplyNoop, ApplyNoop => true
  | _, _ => false
  end.

Definition holds (key value : string) (sm : StateMachine) : bool :=
  bool_decide (sm_get key sm = Some (bytes_of value)).
Definition lacks (key : string) (sm : StateMachine) : bool := bool_decide (sm_get key sm = None).
Definition at_index (i : N) (sm : StateMachine) : bool := sm_last_applied sm =? i.

Definition test_new_state_machine : bool :=
  let sm := StateMachine_new in
  passes sm (assert_all [at_index 0; fun sm => bool_decide (keys sm = [])]).

Definition test_default_state_machine : bool :=
  passes StateMachine_default (assert_all [at_index 0]).

Definition test_apply_put_command : bool := passes StateMachine_new (
  result <- sm_apply (put_entry 1 "test_key" (bytes_of "test_value")) ;;
  assert (returns ApplyOk result) ;;;
  assert_all [at_index 1; holds "test_key" "test_value"])%raft.

Definition test_apply_delete_command : bool := passes StateMachine_new (
  sm_apply (put_entry 1 "to_delete" (bytes_of "value")) ;;;
  assert_all [fun sm => negb (lacks "to_delete" sm)] ;;;
  result <- sm_apply (mkEntry 2 1 (Delete (make_key "to_delete"))) ;;
  assert (returns ApplyOk result) ;;;
  assert_all [at_index 2; lacks "to_delete"])%raft.

Definition test_apply_noop_command : bool := passes StateMachine_new (
  result <- sm_apply (mkEntry 1 1 Noop) ;;
  assert (returns ApplyNoop result) ;;;
  assert_all [at_index 1])%raft.

Definition test_apply_already_applied_entry : bool := passes StateMachine_new (
  sm_apply (put_entry 1 "key1" (bytes_of "value1")) ;;;
  result <- sm_apply (put_entry 0 "key0" (bytes_of "should_not_apply")) ;;
  assert (returns ApplyOk result) ;;;
  assert_all [lacks "key0"; at_index 1])%raft.

Definition test_get_nonexistent_key : bool :=
  passes StateMachine_new (assert_all [lacks "nonexistent"]).

Definition test_keys_returns_all_keys : bool := passes StateMachine_new (
  for_each [(1, "alpha"%string); (2, "beta"%string); (3, "gamma"%string)] (fun p =>
    sm_apply (put_entry p.1 p.2 (bytes_of "value")) ;;; ret tt) ;;;
  assert_all [fun sm => (length (keys sm) =? 3)%nat;
    fun sm => bool_decide ("alpha"%string ∈ keys sm);
    fun sm => bool_decide ("beta"%string ∈ keys sm);
    fun sm => bool_decide ("gamma"%string ∈ keys sm)])%raft.

Definition test_overwrite_value : bool := passes StateMachine_new (
  sm_apply (put_entry 1 "key" (bytes_of "initial")) ;;;
  assert_all [holds "key" "initial"] ;;;
  sm_apply (put_entry 2 "key" (bytes_of "updated")) ;;;
  assert_all [holds "key" "updated"])%raft.

Definition test_delete_nonexistent_key : bool := passes StateMachine_new (
  result <- sm_apply (mkEntry 1 1 (Delete (make_key "nonexistent"))) ;;
  assert (returns ApplyOk result))%raft.

Definition test_snapshot_and_restore {B : Bincode} : bool := passes StateMachine_new (
  sm_apply (put_entry 1 "key1" (bytes_of "value1")) ;;;
  sm_apply (put_entry 2 "key2" (bytes_of "value2")) ;;;
  snap <- gets snapshot ;;
  assert (negb (bool_decide (snap = []))) ;;;
  modify (fun _ => StateMachine_new) ;;;
  expect (restore snap 2) ;;;
  assert_all [at_index 2; holds "key1" "value1"; holds "key2" "value2"])%raft.

Section messages.
Context {Value : Type} {JV : JsonValue Value} {JA : JsonApi Value}.

Definition json_bytes (v : Value) : list byte := bytes_of (value_text v).

(** [messages[i]["timestamp"] == t] *)
Definition timestamp_is (limit : N) (i : nat) (t : N) (sm : StateMachine) : bool :=
  bool_decide ((get_messages limit sm !! i ≫= value_get "timestamp") ≫= as_u64 = Some t).

Definition test_get_messages : bool := passes StateMachine_new (
  sm_apply (put_entry 1 "regular_key" (bytes_of "regular_value")) ;;;
  let msg1 := json_obj [("from"%string, json_str "node-01"); ("message"%string, json_str "Hello");
                        ("timestamp"%string, json_num 1000)] in
  sm_apply (put_entry 2 "_msg:1000" (json_bytes msg1)) ;;;
  let msg2 := json_obj [("from"%string, json_str "node-02"); ("message"%string, json_str "World");
                        ("timestamp"%string, json_num 2000)] in
  sm_apply (put_entry 3 "_msg:2000" (json_bytes msg2)) ;;;
  assert_all [fun sm => (length (get_messages 10 sm) =? 2)%nat;
    timestamp_is 10 0 2000; timestamp_is 10 1 1000])%raft.

Definition test_get_messages_with_limit : bool := passes StateMachine_new (
  for_each [1; 2; 3; 4; 5] (fun i =>
    let msg := json_obj [("message"%string, json_num i); ("timestamp"%string, json_num (i * 1000))] in
    sm_apply (put_entry i (String.append "_msg:" (pretty.pretty (i * 1000))) (json_bytes msg)) ;;; ret tt) ;;;
  assert_all [fun sm => (length (get_messages 2 sm) =? 2)%nat;
    timestamp_is 2 0 5000; timestamp_is 2 1 4000])%raft.
End messages.

(** A test on a log of a fresh directory, or of the one a test has left. *)
Definition with_log_on (d : Disk) (m : M RaftLog unit) : bool :=
  match RaftLog_new "/tmp/test" d with Ok l => passes l m | _ => false end.
Definition with_log : M RaftLog unit -> bool := with_log_on (mkDir ∅ []).

Definition voted (c : option string) (l : RaftLog) : bool := bool_decide (log_voted_for l = c).
Definition in_term (t : N) (l : RaftLog) : bool := log_current_term l =? t.
Definition ends_at (i t : N) (l : RaftLog) : bool := (last_index l =? i) && (last_term l =? t).
Definition present (i : N) (l : RaftLog) : bool := bool_decide (is_Some (get l i)).
Definition absent (i : N) (l : RaftLog) : bool := bool_decide (get l i = None).

Definition test_new_raft_log : bool :=
  with_log (assert_all [in_term 0; ends_at 0 0; voted None]).

Definition test_set_current_term : bool := with_log (
  expect (set_current_term 5) ;;;
  assert_all [in_term 5] ;;;
  expect (set_voted_for (Some "candidate-01"%string)) ;;;
  assert_all [fun l => negb (voted None l)] ;;;
  expect (set_current_term 6) ;;;
  assert_all [in_term 6; voted None])%raft.

Definition test_voted_for : bool := with_log (
  assert_all [voted None] ;;;
  expect (set_voted_for (Some "node-02"%string)) ;;;
  assert_all [voted (Some "node-02"%string)] ;;;
  expect (set_voted_for None) ;;;
  assert_all [voted None])%raft.

Definition test_append_entry : bool := with_log (
  i <- expect (append 1 Noop) ;;
  assert (i =? 1) ;;;
  assert_all [ends_at 1 1; fun l => match get l 1 with
    | Some e => (index e =? 1) && (term e =? 1) | None => false end])%raft.

Definition test_append_multiple_entries : bool := with_log (
  expect (append 1 Noop) ;;;
  expect (append 1 (Put (make_key "key1") (make_value (bytes_of "value1")))) ;;;
  expect (append 2 (Delete (make_key "key1"))) ;;;
  assert_all [ends_at 3 2; fun l => bool_decide (term_at l 1 = Some 1);
    fun l => bool_decide (term_at l 2 = Some 1); fun l => bool_decide (term_at l 3 = Some 2)])%raft.

Definition append_noops (count : nat) : M RaftLog unit :=
  for_each (replicate count tt) (fun _ => (expect (append 1 Noop) ;;; ret tt)%raft).

Definition test_get_entries_range : bool := with_log (
  append_noops 5 ;;;
  assert_all [fun l => bool_decide (index <$> get_entries l 2 4 = [2; 3; 4])])%raft.

Definition test_has_entry : bool := with_log (
  expect (append 1 Noop) ;;;
  expect (append 2 Noop) ;;;
  assert_all [fun l => has_entry l 0 0; fun l => has_entry l 1 1; fun l => negb (has_entry l 1 2);
    fun l => has_entry l 2 2; fun l => negb (has_entry l 3 1)])%raft.

Definition test_truncate_from : bool := with_log (
  append_noops 5 ;;;
  assert_all [fun l => last_index l =? 5] ;;;
  expect (truncate_from 3) ;;;
  assert_all [fun l => last_index l =? 2; present 1; present 2; absent 3; absent 4; absent 5])%raft.

Definition test_append_entries_from_leader : bool := with_log (
  expect (append_entries [mkEntry 1 1 Noop; mkEntry 2 1 (Put (make_key "k") (make_value (bytes_of "v")))]) ;;;
  assert_all [fun l => last_index l =? 2; present 1; present 2])%raft.

(** The log is dropped and opened again. *)
Definition test_persistence_across_restarts : bool :=
  match RaftLog_new "/tmp/test" (mkDir ∅ []) with
  | Ok l =>
      let '(o, l') := (
        expect (set_current_term 5) ;;;
        expect (set_voted_for (Some "node-01"%string)) ;;;
        expect (append 5 (Put (make_key "persistent") (make_value (bytes_of "data")))) ;;;
        ret tt)%raft l in
      match o with
      | Ok _ => with_log_on (mkDir (files (disk l')) []) (assert_all [in_term 5;
          voted (Some "node-01"%string); ends_at 1 5; fun l => match get l 1 with
          | Some (mkEntry _ _ (Put key value)) =>
              bool_decide (key = "persistent"%string /\ value = bytes_of "data")
          | _ => false end])
      | _ => false
      end
  | _ => false
  end.

Definition test_term_at_nonexistent_index : bool :=
  with_log (assert_all [fun l => bool_decide (term_at l 999 = None)]).

Definition test_get_nonexistent_entry : bool := with_log (assert_all [absent 999]).

Definition test_empty_get_entries_range : bool :=
  with_log (assert_all [fun l => bool_decide (get_entries l 1 10 = [])]).
End tests.

(** ** [config.rs] *)

Definition has_timing (t : TimingConfig) (heartbeat min max : N) : bool :=
  (heartbeat_interval_ms t =? heartbeat) && (election_timeout_min_ms t =? min) &&
  (election_timeout_max_ms t =? max).

Definition test_timing_config_defaults : bool :=
  has_timing TimingConfig_default 50 150 300 && (rpc_timeout_ms TimingConfig_default =? 1000).

Definition test_ebpf_config_defaults : bool :=
  enabled EbpfConfig_default && bool_decide (interface EbpfConfig_default = "eth0"%string).

Definition test_default_for_testing : bool :=
  let config := default_for_testing "test-node" 6000 in
  bool_decide (s_node_id (server config) = "test-node"%string /\
    listen_addr (server config) = "127.0.0.1:6000"%string /\
    s_data_dir (server config) = "/tmp/raft-test-node"%string /\
    log_level (server config) = "debug"%string) &&
  negb (enabled (ebpf config)) && (length (cfg_peers config) =? 0)%nat.

(** What the parser leaves of the two texts of the tests, and of one that is no TOML. *)
Definition full_toml : ConfigToml :=
  mkConfigToml
    (Some (mkServerToml (Some "node-01"%string) (Some "0.0.0.0:5555"%string)
      (Some "/var/lib/raft/node-01"%string) (Some "info"%string)))
    (Some (mkTimingToml (Some 100) (Some 200) (Some 400) (Some 2000)))
    (Some [mkPeerConfig "node-02" "192.168.1.2:5555"; mkPeerConfig "node-03" "192.168.1.3:5555"])
    (Some (mkEbpfToml (Some false) (Some "ens192"%string))).

Definition minimal_toml : ConfigToml :=
  mkConfigToml (Some (mkServerToml (Some "minimal-node"%string) (Some "0.0.0.0:5555"%string) None None))
    None None None.

Definition loads (t : option ConfigToml) (check : Config -> bool) : bool :=
  match Config.load (fun _ => t) (Some ""%string) with Ok config => check config | _ => false end.

Definition test_load_config_from_toml : bool := loads (Some full_toml) (fun config =>
  bool_decide (s_node_id (server config) = "node-01"%string /\
    listen_addr (server config) = "0.0.0.0:5555"%string /\
    s_data_dir (server config) = "/var/lib/raft/node-01"%string /\
    log_level (server config) = "info"%string) &&
  has_timing (timing config) 100 200 400 && (rpc_timeout_ms (timing config) =? 2000) &&
  negb (enabled (ebpf config)) && bool_decide (interface (ebpf config) = "ens192"%string) &&
  bool_decide (pc_id <$> cfg_peers config = ["node-02"%string; "node-03"%string]) &&
  bool_decide (pc_address <$> cfg_peers config = ["192.168.1.2:5555"%string; "192.168.1.3:5555"%string])).

Definition test_load_config_with_defaults : bool := loads (Some minimal_toml) (fun config =>
  bool_decide (s_node_id (server config) = "minimal-node"%string /\
    s_data_dir (server config) = "/var/lib/raft"%string /\
    log_level (server config) = "info"%string) &&
  has_timing (timing config) 50 150 300 && enabled (ebpf config) &&
  bool_decide (interface (ebpf config) = "eth0"%string) && (length (cfg_peers config) =? 0)%nat).

Definition is_err {A} (o : outcome A) : bool := match o with Err _ => true | _ => false end.

Definition test_load_nonexistent_file : bool := is_err (Config.load (fun _ => Some minimal_toml) None).
Definition test_load_invalid_toml : bool := is_err (Config.load (fun _ => None) (Some "this is not valid toml {{{"%string)).

(** ** [raft-cli/src/commands/mod.rs] *)

Definition test_chrono_lite_midnight : bool := bool_decide (chrono_lite 0 = "00:00:00"%string).
Definition test_chrono_lite_noon : bool := bool_decide (chrono_lite (12 * 3600) = "12:00:00"%string).
Definition test_chrono_lite_specific_time : bool := bool_decide (chrono_lite 52542 = "14:35:42"%string).
Definition test_chrono_lite_wraps_at_24_hours : bool :=
  bool_decide (chrono_lite (25 * 3600) = "01:00:00"%string).
Definition test_chrono_lite_end_of_day : bool :=
  bool_decide (chrono_lite (23 * 3600 + 59 * 60 + 59) = "23:59:59"%string).

(** ** [maps.rs]: the size of a [repr(C)] struct *)

(** The end of a field of [width] bytes, aligned to its width, after [offset]. *)
Definition align (offset width : N) : N := (offset + (width - 1)) / width * width.

(** Fields as pairs of the width of an element and the number of elements. *)
Definition repr_c_end (fields : list (N * N)) : N :=
  foldl (fun offset f => align offset f.1 + f.1 * f.2) 0 fields.

Definition size_of (fields : list (N * N)) : N :=
  align (repr_c_end fields) (foldr N.max 1 fields.*1).

(** The fields of [PeerMetadata], [RaftPacketEvent] and [EbpfStats]. *)
Definition PeerMetadata_layout : list (N * N) := [(8, 1); (8, 1); (4, 1); (4, 1)].
Definition RaftPacketEvent_layout : list (N * N) :=
  [(4, 1); (4, 1); (2, 1); (2, 1); (8, 1); (4, 1); (4, 1); (1, 1); (1, 1); (1, 6)].
Definition EbpfStats_layout : list (N * N) := [(8, 1); (8, 1); (8, 1)].

Definition test_peer_metadata_size : bool := size_of PeerMetadata_layout =? 24.
Definition test_raft_packet_event_size : bool := size_of RaftPacketEvent_layout =? 40.
Definition test_ebpf_stats_size : bool := size_of EbpfStats_layout =? 24.

Definition test_map_names_constants : bool :=
  bool_decide (map_names_PEER_STATE = "PEER_STATE"%string /\
    map_names_RAFT_EVENTS = "RAFT_EVENTS"%string /\ map_names_STATS = "STATS"%string).

(** ** All the tests *)

Definition unit_tests {E : Env} {Value : Type} {JV : JsonValue Value} {JA : JsonApi Value} {B : Bincode} :
    list bool :=
  [test_new_state_machine; test_default_state_machine; test_apply_put_command; test_apply_delete_command;
   test_apply_noop_command; test_apply_already_applied_entry; test_get_nonexistent_key;
   test_keys_returns_all_keys; test_overwrite_value; test_delete_nonexistent_key; test_snapshot_and_restore;
   test_get_messages; test_get_messages_with_limit;
   test_new_raft_log; test_set_current_term; test_voted_for; test_append_entry; test_append_multiple_entries;
   test_get_entries_range; test_has_entry; test_truncate_from; test_append_entries_from_leader;
   test_persistence_across_restarts; test_term_at_nonexistent_index; test_get_nonexistent_entry;
   test_empty_get_entries_range;
   test_timing_config_defaults; test_ebpf_config_defaults; test_default_for_testing;
   test_load_config_from_toml; test_load_config_with_defaults; test_load_nonexistent_file; test_load_invalid_toml;
   test_chrono_lite_midnight; test_chrono_lite_noon; test_chrono_lite_specific_time;
   test_chrono_lite_wraps_at_24_hours; test_chrono_lite_end_of_day;
   test_peer_metadata_size; test_raft_packet_event_size; test_ebpf_stats_size; test_map_names_constants].

(** The model passes the unit tests of the repository that are translated here. *)
Theorem unit_tests_pass :
  forallb (fun passed => passed) (@unit_tests ref_env json tree_value tree_api ref_bincode) = true.
Proof. vm_compute. reflexivity. Qed.
