(* ===== verification/SharedTests.v ===== *)
(** * The unit tests of the shared types and of the requests, run on the model

    The tests of [lib.rs], [protocol.rs] and [state.rs], those of [maps.rs] on its structs, two
    of [config.rs], and those of [raft-cli/src/commands/mod.rs] on the serialisation of requests
    and answers, translated statement by statement, in the style of Tests.v.  A test that only moves values through a
    constructor and its fields shows no more than that the model has the same ones. *)

From Stdlib Require Import Init.Byte.
From S2P Require Import Prelude Heapless Protocol Serde HashMap Log StateMachine Config Env.
From S2P Require Import Node Network Ipc Cli Json Ebpf SharedState Tests.
Local Open Scope N_scope.

(** The assertions of a test. *)
Definition all_hold (checks : list bool) : bool := forallb (fun passed => passed) checks.

(** [assert_eq!] *)
Notation "a == b" := (bool_decide (a = b)) (at level 70, no associativity) : raft_scope.
Local Open Scope raft_scope.

(** [serde_json::to_string(&a).expect(..)], then [serde_json::from_str(&json).expect(..)]. *)
Definition crosses {A} {J : SerdeJson A} (a : A) (checks : A -> list bool) : bool :=
  match to_string a with
  | Some json => match from_str json with Some parsed => all_hold (checks parsed) | None => false end
  | None => false
  end.

(** ** [protocol.rs] *)

Section protocol.
Context {H : Heapless}.

Definition make_node_id (s : string) : string := string_from ID_CAPACITY s.
Definition heapless_key (s : string) : string := string_from MAX_KEY_SIZE s.
Definition heapless_value (data : list byte) : list byte := vec_from MAX_VALUE_SIZE data.

Definition test_log_entry_creation : bool :=
  let entry := mkEntry 1 5 Noop in all_hold [index entry =? 1; term entry =? 5].

Definition test_command_put : bool :=
  match Put (heapless_key "test_key") (heapless_value (bytes_of "test_value")) with
  | Put key value => all_hold [key == "test_key"%string; value == bytes_of "test_value"]
  | _ => false
  end.

Definition test_command_delete : bool :=
  match Delete (heapless_key "delete_key") with Delete key => key == "delete_key"%string | _ => false end.

Definition is_noop (c : Command) : bool := match c with Noop => true | _ => false end.
Definition test_command_noop : bool := is_noop Noop.

Definition test_append_entries_request : bool :=
  let req := mkAppendEntries 10 (make_node_id "leader-01") 5 9 [] 4 in
  all_hold [ae_term req =? 10; ae_leader_id req == "leader-01"%string; prev_log_index req =? 5;
    prev_log_term req =? 9; ae_entries req == []; leader_commit req =? 4].

Definition test_append_entries_response : bool :=
  let resp := mkAppendEntriesResponse 10 true 6 (make_node_id "follower-01") in
  all_hold [aer_term resp =? 10; success resp; aer_last_log_index resp =? 6;
    aer_node_id resp == "follower-01"%string].

Definition test_request_vote_request : bool :=
  let req := mkRequestVote 15 (make_node_id "candidate-01") 10 14 in
  all_hold [rv_term req =? 15; candidate_id req == "candidate-01"%string; rv_last_log_index req =? 10;
    rv_last_log_term req =? 14].

Definition test_request_vote_response : bool :=
  let resp := mkRequestVoteResponse 15 true (make_node_id "voter-01") in
  all_hold [rvr_term resp =? 15; vote_granted resp; rvr_node_id resp == "voter-01"%string].

Definition test_client_request : bool :=
  let req := mkClientRequest 12345 Noop in all_hold [cr_request_id req =? 12345; is_noop (cr_command req)].

Definition is_some {A} (o : option A) : bool := match o with Some _ => true | None => false end.

Definition test_client_response_success : bool :=
  let resp := mkClientResponse true 12345 (Some (heapless_value (bytes_of "result"))) None None in
  all_hold [cresp_success resp; cresp_request_id resp =? 12345; is_some (cresp_data resp);
    negb (is_some (cresp_error resp))].

Definition test_client_response_failure : bool :=
  let resp := mkClientResponse false 12345 None (Some (string_from 256 "Not leader"))
    (Some (make_node_id "leader-02")) in
  all_hold [negb (cresp_success resp); is_some (cresp_error resp);
    cresp_leader_id resp == Some "leader-02"%string].

Definition test_message_envelope_creation : bool :=
  let msg := RequestVote (mkRequestVote 1 (make_node_id "node-01") 0 0) in
  let envelope := MessageEnvelope_new "node-01" "node-02" msg in
  all_hold [from envelope == "node-01"%string; to envelope == "node-02"%string].

(** The test builds one message of each variant, and asserts nothing. *)
Definition raft_message_variants : list RaftMessage :=
  [AppendEntries (mkAppendEntries 1 (make_node_id "leader") 0 0 [] 0);
   AppendEntriesResp (mkAppendEntriesResponse 1 true 0 (make_node_id "follower"));
   RequestVote (mkRequestVote 1 (make_node_id "candidate") 0 0);
   RequestVoteResp (mkRequestVoteResponse 1 true (make_node_id "voter"));
   ClientReq (mkClientRequest 1 Noop);
   ClientResp (mkClientResponse true 1 None None None)].

Definition test_log_entry_serialization {J : SerdeJson LogEntry} : bool :=
  crosses (mkEntry 42 7 (Put (heapless_key "mykey") (heapless_value (bytes_of "myvalue")))) (fun parsed =>
    [index parsed =? 42; term parsed =? 7;
     match command parsed with
     | Put key value => all_hold [key == "mykey"%string; value == bytes_of "myvalue"]
     | _ => false
     end]).

Definition test_append_entries_with_entries : bool :=
  let entries := (vec_push MAX_ENTRIES (vec_push MAX_ENTRIES [] (mkEntry 1 1 Noop)).2
    (mkEntry 2 1 (Put (heapless_key "k") (heapless_value (bytes_of "v"))))).2 in
  let req := mkAppendEntries 1 (make_node_id "leader") 0 0 entries 0 in
  all_hold [(length (ae_entries req) =? 2)%nat; (index <$> ae_entries req !! 0%nat) == Some 1;
    (index <$> ae_entries req !! 1%nat) == Some 2].

(** ** [state.rs] *)

Definition test_node_role_default : bool := NodeRole_default == Follower.

Definition test_node_role_equality : bool :=
  all_hold [Follower == Follower; Candidate == Candidate; Leader == Leader; negb (Follower == Candidate);
    negb (Candidate == Leader); negb (Leader == Follower)].

Definition test_node_role_serialization {J : SerdeJson NodeRole} : bool :=
  crosses Leader (fun parsed => [parsed == Leader]).

Definition test_persistent_state_default : bool :=
  all_hold [current_term PersistentState_default =? 0; negb (is_some (voted_for PersistentState_default))].

Definition test_persistent_state_with_vote : bool :=
  let state := mkPersistent 5 (Some (string_from ID_CAPACITY "candidate-01")) in
  all_hold [current_term state =? 5; voted_for state == Some "candidate-01"%string].

Definition test_persistent_state_serialization {J : SerdeJson PersistentState} : bool :=
  crosses (mkPersistent 10 (Some (string_from ID_CAPACITY "node-02"))) (fun parsed =>
    [current_term parsed =? 10; voted_for parsed == Some "node-02"%string]).

Definition test_volatile_state_default : bool :=
  all_hold [vs_commit_index VolatileState_default =? 0; vs_last_applied VolatileState_default =? 0].

(** The fields of the default state are assigned one after the other. *)
Definition test_volatile_state_modification : bool :=
  let state := VolatileState_default in
  let state := mkVolatile 5 (vs_last_applied state) in
  let state := mkVolatile (vs_commit_index state) 4 in
  all_hold [vs_commit_index state =? 5; vs_last_applied state =? 4].

Definition test_leader_state_default : bool :=
  all_hold [ls_next_index LeaderState_default == []; ls_match_index LeaderState_default == []].

Section maps.
Context {I : IndexMap}.

Definition test_leader_state_peer_tracking : bool :=
  let peer_id := string_from ID_CAPACITY "follower-01" in
  let state := insert_match peer_id 8 (insert_next peer_id 10 LeaderState_default) in
  all_hold [index_get peer_id (ls_next_index state) == Some 10;
    index_get peer_id (ls_match_index state) == Some 8].

Definition peer_names : list string :=
  ["peer-0"%string; "peer-1"%string; "peer-2"%string; "peer-3"%string; "peer-4"%string].

Definition test_leader_state_multiple_peers : bool :=
  let state := foldl (fun state (p : nat * string) =>
    let peer_id := string_from ID_CAPACITY p.2 in
    insert_match peer_id (5 + N.of_nat p.1) (insert_next peer_id (10 + N.of_nat p.1) state))
    LeaderState_default (imap pair peer_names) in
  all_hold [(length (ls_next_index state) =? 5)%nat; (length (ls_match_index state) =? 5)%nat].
End maps.

Definition test_peer_info_creation : bool :=
  let peer := PeerInfo_new "node-01" "192.168.1.10:5555" in
  all_hold [id peer == "node-01"%string; address peer == "192.168.1.10:5555"%string].

Definition test_peer_info_serialization {J : SerdeJson PeerInfo} : bool :=
  crosses (PeerInfo_new "node-02" "10.0.0.2:5555") (fun parsed =>
    [id parsed == "node-02"%string; address parsed == "10.0.0.2:5555"%string]).

Definition test_cluster_config_default : bool := cc_peers ClusterConfig_default == [].

Definition test_cluster_config_with_peers : bool :=
  let config := push_peer (PeerInfo_new "node-01" "192.168.1.1:5555") ClusterConfig_default in
  let config := push_peer (PeerInfo_new "node-02" "192.168.1.2:5555") config in
  let config := push_peer (PeerInfo_new "node-03" "192.168.1.3:5555") config in
  all_hold [(length (cc_peers config) =? 3)%nat; (id <$> cc_peers config !! 0%nat) == Some "node-01"%string;
    (id <$> cc_peers config !! 1%nat) == Some "node-02"%string;
    (id <$> cc_peers config !! 2%nat) == Some "node-03"%string].

Definition test_cluster_config_serialization {J : SerdeJson ClusterConfig} : bool :=
  crosses (push_peer (PeerInfo_new "node-01" "192.168.1.1:5555") ClusterConfig_default) (fun parsed =>
    [(length (cc_peers parsed) =? 1)%nat; (id <$> cc_peers parsed !! 0%nat) == Some "node-01"%string]).
End protocol.

(** ** [maps.rs] *)

Definition test_peer_metadata_default : bool :=
  let meta := PeerMetadata_default in
  all_hold [last_seen_ns meta =? 0; packet_count meta =? 0; last_seq meta =? 0; pm_padding meta =? 0].

Definition test_peer_metadata_creation : bool :=
  let meta := mkPeerMetadata 1000000000 42 12345 0 in
  all_hold [last_seen_ns meta =? 1000000000; packet_count meta =? 42; last_seq meta =? 12345].

Definition test_peer_metadata_copy : bool :=
  let meta1 := mkPeerMetadata 100 10 1000 0 in let meta2 := meta1 in
  all_hold [last_seen_ns meta1 =? last_seen_ns meta2; packet_count meta1 =? packet_count meta2;
    last_seq meta1 =? last_seq meta2].

Definition test_raft_packet_event_default : bool :=
  let event := RaftPacketEvent_default in
  all_hold [src_ip event =? 0; dst_ip event =? 0; src_port event =? 0; dst_port event =? 0;
    timestamp_ns event =? 0; seq event =? 0; ack event =? 0; flags event =? 0; msg_type event =? 0].

Definition test_raft_packet_event_creation : bool :=
  let event := mkPacketEvent 0xC0A80A01 0xC0A80A02 45678 5555 123456789 1000 999 0x18 1 (replicate 6 0) in
  all_hold [src_ip event =? 0xC0A80A01; dst_ip event =? 0xC0A80A02; src_port event =? 45678;
    dst_port event =? 5555; msg_type event =? 1].

Definition test_raft_packet_event_copy : bool :=
  let event1 := mkPacketEvent 1 2 3 4 5 6 7 8 9 (replicate 6 0) in let event2 := event1 in
  all_hold [src_ip event1 =? src_ip event2; msg_type event1 =? msg_type event2].

Definition test_ebpf_stats_default : bool :=
  let stats := EbpfStats_default in
  all_hold [packets_total stats =? 0; raft_packets stats =? 0; errors stats =? 0].

Definition test_ebpf_stats_creation : bool :=
  let stats := mkEbpfStats 1000 500 10 in
  all_hold [packets_total stats =? 1000; raft_packets stats =? 500; errors stats =? 10].

Definition test_ebpf_stats_copy : bool :=
  let stats1 := mkEbpfStats 100 50 5 in let stats2 := stats1 in
  all_hold [packets_total stats1 =? packets_total stats2; raft_packets stats1 =? raft_packets stats2;
    errors stats1 =? errors stats2].

(** ** [raft-cli/src/commands/mod.rs] *)

Section requests.
Context {JR : SerdeJson IpcRequest}.

Definition test_ipc_request_join_serialization : bool :=
  crosses (Join "node-02" "192.168.1.2:5555") (fun parsed => match parsed with
    | Join node_id address => [node_id == "node-02"%string; address == "192.168.1.2:5555"%string]
    | _ => [false] end).

Definition test_ipc_request_leave_serialization : bool :=
  crosses (Leave "node-03") (fun parsed => match parsed with
    | Leave node_id => [node_id == "node-03"%string] | _ => [false] end).

Definition test_ipc_request_status_serialization : bool :=
  crosses Status (fun parsed => match parsed with Status => [] | _ => [false] end).

Definition test_ipc_request_propose_put_serialization : bool :=
  crosses (ProposeKey "mykey" (Some "myvalue"%string)) (fun parsed => match parsed with
    | ProposeKey key value => [key == "mykey"%string; value == Some "myvalue"%string]
    | _ => [false] end).

Definition test_ipc_request_propose_delete_serialization : bool :=
  crosses (ProposeKey "deletekey" None) (fun parsed => match parsed with
    | ProposeKey key value => [key == "deletekey"%string; negb (is_some value)]
    | _ => [false] end).

Definition test_ipc_request_get_serialization : bool :=
  crosses (Get "lookupkey") (fun parsed => match parsed with
    | Get key => [key == "lookupkey"%string] | _ => [false] end).

Definition test_ipc_request_send_serialization : bool :=
  crosses (Send "Hello, RAFT cluster!") (fun parsed => match parsed with
    | Send message => [message == "Hello, RAFT cluster!"%string] | _ => [false] end).

Definition test_ipc_request_messages_serialization : bool :=
  crosses (Messages (Some 50) (Some 100)) (fun parsed => match parsed with
    | Messages limit since_index => [limit == Some 50; since_index == Some 100]
    | _ => [false] end).

Definition test_ipc_request_messages_no_options_serialization : bool :=
  crosses (Messages None None) (fun parsed => match parsed with
    | Messages limit since_index => [negb (is_some limit); negb (is_some since_index)]
    | _ => [false] end).
End requests.

Section responses.
Context {Value : Type} {JA : JsonApi Value} {JR : SerdeJson (IpcResponse Value)}.

(** [parsed.data.unwrap()[name]] *)
Definition data_field (name : string) (r : IpcResponse Value) : option Value :=
  ipc_data r ≫= value_get name.

Definition test_ipc_response_success_serialization : bool :=
  crosses (mkResponse true "Operation completed" (Some (json_obj [("index"%string, json_num 42)])))
    (fun parsed =>
    [ipc_success parsed; ipc_message parsed == "Operation completed"%string; is_some (ipc_data parsed);
     (data_field "index" parsed ≫= as_u64) == Some 42]).

Definition test_ipc_response_failure_serialization : bool :=
  crosses (mkResponse false "Not leader" (Some (json_obj [("leader_id"%string, json_str "node-02")])))
    (fun parsed =>
    [negb (ipc_success parsed); ipc_message parsed == "Not leader"%string;
     (data_field "leader_id" parsed ≫= as_str) == Some "node-02"%string]).

Definition test_ipc_response_no_data_serialization : bool :=
  crosses (mkResponse true "OK" None) (fun parsed => [ipc_success parsed; negb (is_some (ipc_data parsed))]).
End responses.

(** ** [lib.rs] and [config.rs] *)

Definition test_constants : bool :=
  all_hold [RAFT_PORT =? 5555; (MAX_PEERS =? 16)%nat; (MAX_VALUE_SIZE =? 1024)%nat; (MAX_KEY_SIZE =? 256)%nat].

Definition test_peer_config : bool :=
  let peer := mkPeerConfig "peer-01" "10.0.0.1:5555" in
  all_hold [pc_id peer == "peer-01"%string; pc_address peer == "10.0.0.1:5555"%string].

(** The document a configuration is written to has every field. *)
Definition written_toml (c : Config) : ConfigToml :=
  mkConfigToml
    (Some (mkServerToml (Some (s_node_id (server c))) (Some (listen_addr (server c)))
      (Some (s_data_dir (server c))) (Some (log_level (server c)))))
    (Some (mkTimingToml (Some (heartbeat_interval_ms (timing c))) (Some (election_timeout_min_ms (timing c)))
      (Some (election_timeout_max_ms (timing c))) (Some (rpc_timeout_ms (timing c)))))
    (Some (cfg_peers c))
    (Some (mkEbpfToml (Some (enabled (ebpf c))) (Some (interface (ebpf c))))).

Definition test_config_serialization : bool :=
  loads (Some (written_toml (default_for_testing "ser-test" 7000))) (fun parsed =>
    all_hold [s_node_id (server parsed) == "ser-test"%string;
      listen_addr (server parsed) == "127.0.0.1:7000"%string]).

(** A configuration that was written with every field is the one that is read. *)
Theorem written_config_loads c text : Config.load (fun _ => Some (written_toml c)) (Some text) = Ok c.
Proof. by destruct c as [[] [] ? []]. Qed.

(** ** All of them *)

Definition config_tests : list bool := [test_constants; test_peer_config; test_config_serialization].

Definition protocol_tests {E : Env} {J : SerdeJson LogEntry} : list bool :=
  [test_log_entry_creation; test_command_put; test_command_delete; test_command_noop;
   test_append_entries_request; test_append_entries_response; test_request_vote_request;
   test_request_vote_response; test_client_request; test_client_response_success;
   test_client_response_failure; test_message_envelope_creation; test_log_entry_serialization;
   test_append_entries_with_entries].

Definition state_tests {E : Env} {I : IndexMap} {JR : SerdeJson NodeRole} {JP : SerdeJson PeerInfo}
    {JC : SerdeJson ClusterConfig} : list bool :=
  [test_node_role_default; test_node_role_equality; test_node_role_serialization;
   test_persistent_state_default; test_persistent_state_with_vote; test_persistent_state_serialization;
   test_volatile_state_default; test_volatile_state_modification; test_leader_state_default;
   test_leader_state_peer_tracking; test_leader_state_multiple_peers; test_peer_info_creation;
   test_peer_info_serialization; test_cluster_config_default; test_cluster_config_with_peers;
   test_cluster_config_serialization].

Definition maps_tests : list bool :=
  [test_peer_metadata_default; test_peer_metadata_creation; test_peer_metadata_copy;
   test_raft_packet_event_default; test_raft_packet_event_creation; test_raft_packet_event_copy;
   test_ebpf_stats_default; test_ebpf_stats_creation; test_ebpf_stats_copy].

Definition request_tests {Value : Type} {JA : JsonApi Value} {JR : SerdeJson IpcRequest}
    {JP : SerdeJson (IpcResponse Value)} : list bool :=
  [test_ipc_request_join_serialization; test_ipc_request_leave_serialization;
   test_ipc_request_status_serialization; test_ipc_request_propose_put_serialization;
   test_ipc_request_propose_delete_serialization; test_ipc_request_get_serialization;
   test_ipc_request_send_serialization; test_ipc_request_messages_serialization;
   test_ipc_request_messages_no_options_serialization; test_ipc_response_success_serialization;
   test_ipc_response_failure_serialization; test_ipc_response_no_data_serialization].

(** The model passes the unit tests of the shared types and of the requests. *)
Theorem shared_tests_pass :
  all_hold (@protocol_tests ref_env ref_json ++
    @state_tests ref_env ref_index_map ref_json ref_json ref_json ++
    maps_tests ++ config_tests ++ @request_tests json tree_api ref_json ref_json) = true.
Proof. vm_compute. reflexivity. Qed.
